(* ===== verification/_CoqProject ===== *)
-Q . S2P
Prelude.v
Exec.v
Identity.v
Enums.v
Lifecycle.v
Checked.v
Bytes.v
Crc32.v
Binary.v
Parse.v
OrdMap.v
Domains.v
Obligations.v
Interfaces.v
ReferenceAdapters.v
Priority.v
PersistentState.v
Store.v
StoreTheorems.v
Runtime.v
Recovery.v
RuntimeSpec.v
Scenario.v
RuntimeSafety.v
RuntimeErrors.v
RuntimeRequests.v
RuntimeProgress.v
RuntimeAuthority.v
RuntimeRecovery.v
RuntimeExplain.v
RuntimeRelease.v
RuntimeTerminal.v
Inspect.v
Clients.v
Cuda.v
CudaTheorems.v
Framing.v
FramingTheorems.v
FramingTypes.v
Connection.v
ConnectionTheorems.v
Link.v
Worker.v
WorkerLink.v
Cable.v
Coordinator.v
CoordinatorCalls.v
CoordinatorRuns.v
CoordinatorSafety.v
CoordinatorImages.v
CoordinatorTheorems.v
