(* ===== verification/Prelude.v ===== *)
(** * Preemption Fabric: a verification development

    ** The program

    Preemption Fabric coordinates the safe preemption of long-running executions.  A caller
    starts an execution, declares and reaches safe points and publishes progress; a preemption
    request then takes the execution through quiescence, capture of its state, release of its
    resources and a commit, after which its attempt is fenced; a resume revalidates the
    checkpoint, restores it and obtains fresh authority for a new attempt.  The parts, and the
    files of this library that model them (paths under [include/preemption_fabric] and [src]
    of the sources):

    - values and codecs: [core/identity.hpp] in [Identity], [core/enums.hpp] and
      [core/enum_codec.hpp] in [Enums], [util/error.hpp] in [Exec], [util/checked.hpp] in
      [Checked], [util/crc32.hpp] in [Crc32], [util/binary.hpp] in [Binary] (over [Bytes]);
    - the lifecycle table of [lifecycle/lifecycle.hpp] in [Lifecycle];
    - the records exchanged: [domains/request.hpp], [safepoint.hpp], [quiescence.hpp] and
      [plan.hpp] in [Domains], [preservation.hpp], [progress.hpp], [release.hpp] and
      [resume.hpp] in [Obligations], [priority/inversion.hpp] in [Priority],
      [persistence/state.hpp] in [PersistentState];
    - the sibling runtimes: the abstract classes of [adapters/interfaces.hpp] are the type
      classes of [Interfaces], with [ExecutionFabricLaws] for what the runtime relies on; the
      in-process implementation [adapters/reference.hpp] is [ReferenceAdapters], an instance;
    - [PreemptionRuntime] of [runtime.hpp] and [runtime.cpp]: members and member functions in
      [Runtime], the durable image and the restart in [Recovery];
    - the persistent store [persistence/store.cpp] in [Store];
    - the protocol: [protocol/message.hpp] and [protocol/framing.cpp] in [Framing],
      [protocol/connection.cpp] in [Connection], over the socket calls as a parameter;
    - the processes: [coordinator/worker.cpp] in [Worker] and [coordinator/coordinator.cpp]
      in [Coordinator], both written against the class [Link] of [Link];
    - the programs around the library: [tools/inspect.cpp] in [Inspect], the two programs of
      [examples] and [downstream_consumer/main.cpp] in [Clients], and [cuda/cuda_proof.cu] in
      [Cuda], over the CUDA runtime as a parameter ([CudaApi], [CudaLaws]).

    The coordinator owns a runtime and the reference adapters; the runtime calls the adapters
    and the store; the coordinator and the worker exchange messages as frames over
    connections; every checksum is the one of [Crc32].

    What the coordinator does with a worker is proved against the class [WorkerLink] (file
    [WorkerLink]): a link with a worker at its other end.  A worker that answers without delay
    is one instance; a [TcpConnection] over a network with a worker process behind it, which
    cuts the bytes of both directions into pieces of any size, is another ([Cable]).

    ** How the code is modelled

    A member function that mutates its object and may throw is a computation of the monad
    [Exec] (file [Exec]): a function from the state to a value or a [PreemptionError], and the
    state it leaves in both cases.  The runtime holds a reference to its adapters, so its calls
    act on a [World], the pair of both.  Every mutating call of the source holds the exclusive
    lock from entry to exit, so a call is one atomic step, and concurrent clients are
    interleavings of calls: relation [step] of [RuntimeSpec], which also lets other clients
    change the adapters between calls.  The calls are those of type [Op], every public mutating
    member function of [PreemptionRuntime]; [load] is [restore_bytes] of a file's contents.
    [restore] of a state installs it without any check, so theorems that need one restrict its
    argument ([checked]) or leave the call out ([no_recovery], [bytes_only]).  A file that is
    written may fail to open, report an error or keep only the beginning of the bytes
    ([OutFile] of [Recovery]).  Decoders that return early with an error are written in
    the error monad of [Parse].  An integer of [N] bits is a [Z]; arithmetic that can leave the
    range is wrapped with [wrap].  A [std::map] is a list sorted by key ([OrdMap]), because the
    code iterates over it.  [r <| f := v |>] is the assignment [r.f = v].

    ** What is proved

    - [RuntimeSafety]: each call takes a step that the abstract protocol [spec_step] has for
      that call; in every world reachable with checked states a preempted execution has its
      three pieces of evidence, and [unchecked_restore_lacks_evidence] shows that the check is
      needed; without recovery the phases come in order.
    - [RuntimeAuthority]: a preempted attempt stays fenced until fresh authority is obtained,
      and that authority is newer; proved against the laws of the execution fabric.
    - [RuntimeRequests], [RuntimeProgress], [RuntimeErrors], [RuntimeTerminal]: admission of
      requests on every branch, monotone positions, plans, exactly when a call throws, and
      what cancellation, completion and terminal states do.
    - [RuntimeRelease]: the books of the reference broker move exactly the units granted and,
      with the reference adapters, the calls of a preemption and of a resume complete.
    - [StoreTheorems] and [RuntimeRecovery]: encode and decode are inverse, corruption of up to
      four consecutive bytes is rejected, only valid images are accepted, an image that was
      not written to its end is refused, a restart loses nothing of the durable image, and
      exactly when a restart accepts the bytes of a runtime.
    - [RuntimeExplain]: the reported resume blockers against what a resume does.
    - [FramingTheorems], [FramingTypes] and [ConnectionTheorems]: round trip of frames,
      rejection of corruption, the streaming decoder refines the decoder of whole frames, what
      it delivers is well typed, and messages arrive whole and in order however the network
      cuts the bytes.
    - [CoordinatorTheorems], with [CoordinatorCalls] (the calls of the runtime in a run),
      [CoordinatorRuns] (the commands of a controller), [CoordinatorSafety] and
      [CoordinatorImages] (invariants of every coordinator): coordinator and worker together
      carry a controller's scenario through preemption and resume, over any link with a worker
      and down to the bytes of a TCP connection; a preemption survives the restart of the
      coordinator; the safety of the runtime holds for every coordinator whatever its peers
      send, every image it saves can be recovered and a torn one is refused; stale replays
      are refused.
    - [Inspect], [Clients], [CudaTheorems]: what the inspection of an image prints, the exact
      output of the example programs, and that the CUDA proof, on any device that behaves as
      documented and whatever the order of the threads of a launch, can only fail its
      comparison of two readings of the free memory, of which nothing is assumed.
    - [Lifecycle], [Crc32], [Checked], [Binary]: paths of the table, equivalence of the table
      driven checksum with the bit-serial one, exactness of checked arithmetic, bounds of reads.

    Theorems that show a behaviour the comments of the sources do not promise, such as
    [restart_lifts_fence], [segment_not_recorded] or [boot_id_reused], state what the code
    does.

    ** Bounds

    The loops of the code run over lists and need no fuel, except four.  [write_loop] and
    [read_loop] take as many iterations as bytes, enough because a successful call moves at
    least one.  [receive_loop] is bounded by the bytes that can arrive ([receive_returns]).  The command loop
    of the worker takes a bound on the commands, and [session_answers] shows that more than
    their number is enough.

    The network [Cable] serves the worker with as much fuel as its decoder holds bytes, enough
    because every message takes at least one; a link to it has a bound [reads] on the calls of
    [recv] of one [receive], and [scenario_over_tcp] holds for every bound of at least the bytes
    of the two longest answers.  A bound beyond the longest frame is never met, whatever the
    peer sends ([tcp_receive_exact]).

    ** What is not modelled

    The contents of the operating system's sockets and files are parameters, and so is the
    CUDA runtime.  [std::hash] is a parameter.  What the worker prints, blank lines, tests and
    benchmarks are left out.  The reader and writer locks are modelled as atomicity of calls,
    not as locks.  Floating-point arithmetic is rounded after every operation, without
    contraction into fused operations.

    The next steps are: the controller's connection as a link of its own, so that its commands
    arrive as bytes too; scenarios in which a worker is lost or re-registers between segments;
    and the locks of the runtime as a transition system with interleaved readers. *)

From stdpp Require Import base list strings numbers sorting.
From Stdlib Require Import ZArith Lia.
Open Scope Z_scope.

(** ** Record update

    The C++ code assigns one member of a struct at a time.  A record declares its
    eta expansion once, as an [Eta] instance, and the setter of any field is then
    derived by instance search, so that [r <| f := v |>] reads as [r.f = v]. *)

Class Eta (R : Type) := eta : R → R.
Class SetField {R T : Type} (proj : R → T) := set_field : (T → T) → R → R.
Arguments set_field {R T} proj {_} f r.

Ltac derive_set_field :=
  lazymatch goal with
  | |- @SetField ?R ?T ?proj =>
    let inst := constr:(_ : Eta R) in
    let h := eval hnf in inst in
    lazymatch h with
    | (λ r, @?b r) =>
      let body := constr:(λ (f : T → T) (r : R), ltac:(
         let br := eval cbv beta in (b r) in
         let p := eval pattern (proj r) in br in
         lazymatch p with
         | ?k _ => let res := eval cbv beta in (k (f (proj r))) in exact res
         end)) in
      exact body
    end
  end.
#[export] Hint Extern 1 (SetField _) => derive_set_field : typeclass_instances.

Declare Scope fabric_scope.
Delimit Scope fabric_scope with fabric.
Notation "x <| proj := v |>" := (set_field proj (λ _, v) x)
  (at level 1, left associativity, proj at next level) : fabric_scope.
(** [w ▷ f] is the statement [w.f()] of a C++ builder: the object flows left to right. *)
Notation "w ▷ f" := (f w) (at level 59, left associativity, only parsing) : fabric_scope.
Open Scope fabric_scope.

(** ** Machine integers

    A [std::uintN_t] is a [Z] in the range of its width; arithmetic that can leave
    the range is wrapped explicitly with [wrap]. *)

Definition u8_max : Z := 255.
Definition u16_max : Z := 65535.
Definition u32_max : Z := 4294967295.
Definition u64_max : Z := 18446744073709551615.

Definition in_u8 (v : Z) : Prop := 0 ≤ v ≤ u8_max.
Definition in_u32 (v : Z) : Prop := 0 ≤ v ≤ u32_max.
Definition in_u64 (v : Z) : Prop := 0 ≤ v ≤ u64_max.

(** Reduction to [w] bits, what C++ does to unsigned arithmetic and narrowing casts. *)
Definition wrap (w : Z) (v : Z) : Z := v mod 2 ^ w.

Create HintDb fabric.

Lemma wrap_small w v : 0 ≤ v < 2 ^ w → wrap w v = v.
Proof. apply Z.mod_small. Qed.

Lemma wrap64_small v : in_u64 v → wrap 64 v = v.
Proof. intros [? ?]. apply wrap_small. unfold u64_max in *. lia. Qed.

Lemma wrap32_small v : in_u32 v → wrap 32 v = v.
Proof. intros [? ?]. apply wrap_small. unfold u32_max in *. lia. Qed.

Lemma wrap_range w v : 0 ≤ w → 0 ≤ wrap w v < 2 ^ w.
Proof. intros. apply Z.mod_pos_bound. lia. Qed.

Lemma wrap64_in_u64 v : in_u64 (wrap 64 v).
Proof. pose proof (wrap_range 64 v). unfold in_u64, u64_max. lia. Qed.

Lemma wrap32_in_u32 v : in_u32 (wrap 32 v).
Proof. pose proof (wrap_range 32 v). unfold in_u32, u32_max. lia. Qed.

Lemma in_u64_0 : in_u64 0.
Proof. unfold in_u64, u64_max. lia. Qed.

Lemma in_u64_max a b : in_u64 a → in_u64 b → in_u64 (Z.max a b).
Proof. unfold in_u64. lia. Qed.

#[export] Hint Resolve wrap64_in_u64 wrap32_in_u32 in_u64_0 in_u64_max : fabric.

Ltac unfold_ranges :=
  unfold in_u8, in_u32, in_u64, u8_max, u16_max, u32_max, u64_max in *.

(** Arithmetic on machine ranges. *)
Ltac zlia := unfold_ranges; lia.

(** ** Case analysis on the code's conditions *)

(** Splits every [if], [match] on an option and comparison in the goal, and turns the
    boolean tests met on the way into propositions. *)
Ltac case_code :=
  repeat (first
    [ progress simplify_eq/=
    | case_match
    | case_bool_decide ]).

(** Booleans to propositions in the hypotheses. *)
Ltac bool_props :=
  repeat match goal with
  | H : bool_decide _ = true |- _ => apply bool_decide_eq_true in H
  | H : bool_decide _ = false |- _ => apply bool_decide_eq_false in H
  | H : andb _ _ = true |- _ => apply andb_prop in H as [? ?]
  | H : orb _ _ = false |- _ => apply orb_false_iff in H as [? ?]
  | H : negb _ = true |- _ => apply negb_true_iff in H
  | H : negb _ = false |- _ => apply negb_false_iff in H
  | H : (_ <? _) = true |- _ => apply Z.ltb_lt in H
  | H : (_ <? _) = false |- _ => apply Z.ltb_ge in H
  | H : (_ <=? _) = true |- _ => apply Z.leb_le in H
  | H : (_ <=? _) = false |- _ => apply Z.leb_gt in H
  | H : (_ =? _) = true |- _ => apply Z.eqb_eq in H
  | H : (_ =? _) = false |- _ => apply Z.eqb_neq in H
  end.

(** ** Lists *)

Lemma drop_app_length_eq {A} (l1 l2 : list A) n :
  n = length l1 → drop n (l1 ++ l2) = l2.
Proof. intros ->. apply drop_app_length. Qed.

Lemma take_app_length_eq {A} (l1 l2 : list A) n :
  n = length l1 → take n (l1 ++ l2) = l1.
Proof. intros ->. apply take_app_length. Qed.

(** Two lists of one length that differ at exactly one index split around it. *)
Lemma insert_split {A} (l : list A) i (x : A) :
  (i < length l)%nat →
  ∃ pre y post, l = pre ++ y :: post ∧ length pre = i ∧ l !! i = Some y
                ∧ <[i:=x]> l = pre ++ x :: post.
Proof.
  intros Hi. destruct (lookup_lt_is_Some_2 l i Hi) as [y Hy].
  exists (take i l), y, (drop (S i) l). split_and!.
  - symmetry. by apply take_drop_middle.
  - rewrite length_take. lia.
  - done.
  - rewrite insert_take_drop by done. done.
Qed.
