(* ===== verification/Exec.v ===== *)
(** * Exceptions and state

    The error values of [util/error.hpp] and the monad in which the stateful
    components are written.  A member function that mutates [*this] and may throw is
    a function from the state to a result and the state it leaves.  A C++ exception
    does not undo the assignments made before it, so the state is returned next to
    the error as well. *)

From stdpp Require Import base strings.
From S2P Require Import Prelude.

(** [PreemptionError]: a machine-readable code and the text given to [what()]. *)
Record PreemptionError := mkPreemptionError {
  error_code : string;
  error_message : string
}.

#[export] Instance PreemptionError_eq_dec : EqDecision PreemptionError.
Proof. solve_decision. Defined.

(** [throw_invalid_transition]: the only exception a lifecycle transition throws. *)
Definition throw_invalid_transition (from to : string) : PreemptionError :=
  mkPreemptionError "illegal_transition"
    (String.append "illegal lifecycle transition from "
      (String.append from (String.append " to " to))).

(** A computation over state [S]: the value or the exception, and the final state. *)
Definition Exec (S A : Type) : Type := S → (PreemptionError + A) * S.

#[export] Instance Exec_ret {S} : MRet (Exec S) := λ A x s, (inr x, s).
#[export] Instance Exec_bind {S} : MBind (Exec S) := λ A B f m s,
  match m s with
  | (inr x, s') => f x s'
  | (inl e, s') => (inl e, s')
  end.

Definition throw {S A} (e : PreemptionError) : Exec S A := λ s, (inl e, s).
Definition get {S} : Exec S S := λ s, (inr s, s).
Definition put {S} (s : S) : Exec S unit := λ _, (inr tt, s).
Definition modify {S} (f : S → S) : Exec S unit := λ s, (inr tt, f s).
(** [if (c) m;] *)
Definition when {S} (c : bool) (m : Exec S unit) : Exec S unit :=
  if c then m else mret tt.
(** Runs a computation on a component of the state. *)
Definition zoom {S T A} (proj : S → T) (inject : T → S → S) (m : Exec T A) : Exec S A :=
  λ s, let '(r, t) := m (proj s) in (r, inject t s).

(** The final state of a run, whether it returned or threw. *)
Definition final {S A} (r : (PreemptionError + A) * S) : S := snd r.
Definition returned {S A} (r : (PreemptionError + A) * S) : option A :=
  match fst r with inr x => Some x | inl _ => None end.
Definition threw {S A} (r : (PreemptionError + A) * S) : Prop :=
  ∃ e, fst r = inl e.

Lemma threw_returned {S A} (r : (PreemptionError + A) * S) :
  ¬ threw r ↔ is_Some (returned r).
Proof.
  destruct r as [[e|x] s]; unfold threw, returned; cbn; split.
  - intros H. destruct H. by eexists.
  - by intros [? ?].
  - eauto.
  - by intros _ [? ?].
Qed.

(** ** Weakest preconditions

    [wp m s Q]: the run of [m] from [s] ends in a result and state satisfying [Q],
    whether it returns or throws.  One rule per construct of the monad. *)

Definition wp {S A} (m : Exec S A) (s : S) (Q : PreemptionError + A → S → Prop) : Prop :=
  Q (fst (m s)) (snd (m s)).

Section wp.
Context {S : Type}.
Implicit Types s : S.

Lemma wp_final {A} (m : Exec S A) s (P : S → Prop) : wp m s (λ _, P) ↔ P (final (m s)).
Proof. done. Qed.

Lemma wp_mono {A} (m : Exec S A) s (P Q : PreemptionError + A → S → Prop) :
  wp m s P → (∀ r s', P r s' → Q r s') → wp m s Q.
Proof. unfold wp. auto. Qed.

Lemma wp_ret {A} (x : A) s Q : Q (inr x) s → wp (mret x) s Q.
Proof. done. Qed.

Lemma wp_bind {A B} (m : Exec S A) (f : A → Exec S B) s Q :
  wp m s (λ r s', match r with inr x => wp (f x) s' Q | inl e => Q (inl e) s' end) →
  wp (m ≫= f) s Q.
Proof. unfold wp, mbind, Exec_bind. by destruct (m s) as [[e|x] s']. Qed.

Lemma wp_get s Q : Q (inr s) s → wp get s Q.
Proof. done. Qed.
Lemma wp_modify f s Q : Q (inr tt) (f s) → wp (modify f) s Q.
Proof. done. Qed.
Lemma wp_throw {A} e s Q : Q (inl e) s → wp (throw (A := A) e) s Q.
Proof. done. Qed.

Lemma wp_if {A} (c : bool) (m1 m2 : Exec S A) s Q :
  (c = true → wp m1 s Q) → (c = false → wp m2 s Q) → wp (if c then m1 else m2) s Q.
Proof. destruct c; auto. Qed.

Lemma wp_when (c : bool) m s Q :
  (c = true → wp m s Q) → (c = false → Q (inr tt) s) → wp (when c m) s Q.
Proof. destruct c; unfold wp; cbn; auto. Qed.

Lemma wp_option {A B} (o : option A) (f : A → Exec S B) (m : Exec S B) s Q :
  (∀ x, o = Some x → wp (f x) s Q) → (o = None → wp m s Q) →
  wp (match o with Some x => f x | None => m end) s Q.
Proof. destruct o; eauto. Qed.

Lemma wp_zoom {T A} (proj : S → T) inject (m : Exec T A) s Q :
  wp m (proj s) (λ r t, Q r (inject t s)) → wp (zoom proj inject m) s Q.
Proof. unfold wp, zoom. by destruct (m (proj s)) as [r t]. Qed.

End wp.

(** ** Computations that return

    [returns m s Q]: [m] run in [s] throws nothing, and its result and final state
    satisfy [Q]. *)

Definition returns {S B} (m : Exec S B) (s : S) (Q : B → S → Prop) : Prop :=
  wp m s (λ r s', ∃ x, r = inr x ∧ Q x s').

Lemma returns_bind {S B D} (m : Exec S B) (f : B → Exec S D) s Q :
  returns m s (λ x s', returns (f x) s' Q) → returns (m ≫= f) s Q.
Proof.
  unfold returns. intros Hm. apply wp_bind. eapply wp_mono; [exact Hm|].
  intros r s' (x & -> & Hx). exact Hx.
Qed.
Lemma returns_ret {S B} (x : B) (s : S) (Q : B → S → Prop) : Q x s → returns (mret x) s Q.
Proof. intros HQ. by exists x. Qed.
Lemma returns_get {S} (s : S) (Q : S → S → Prop) : Q s s → returns get s Q.
Proof. intros HQ. by exists s. Qed.
Lemma returns_modify {S} (f : S → S) s (Q : unit → S → Prop) : Q tt (f s) → returns (modify f) s Q.
Proof. intros HQ. by exists tt. Qed.
Lemma returns_assoc {S B D F} (m : Exec S B) (f : B → Exec S D) (g : D → Exec S F) s Q :
  returns ((m ≫= f) ≫= g) s Q → returns (m ≫= (λ x, f x ≫= g)) s Q.
Proof. unfold returns, wp, mbind, Exec_bind. by destruct (m s) as [[e|x] s']. Qed.
Lemma returns_mono {S B} (m : Exec S B) s (P Q : B → S → Prop) :
  returns m s P → (∀ x s', P x s' → Q x s') → returns m s Q.
Proof. unfold returns, wp. intros (x & Hx & HP) HPQ. eauto. Qed.
Lemma returns_run {S B} (m : Exec S B) s (Q : B → S → Prop) :
  returns m s Q → ∃ x s', m s = (inr x, s') ∧ Q x s'.
Proof. unfold returns, wp. destruct (m s) as [r s']. intros (x & Hx & HQ). cbn in Hx. subst. eauto. Qed.
