(* ===== verification/Identity.v ===== *)
(** * Strongly typed identities ([core/identity.hpp])

    Every authority domain has its own identity type.  The C++ templates [Id<Tag>]
    and [Generation<Tag>] are families indexed by the tag, so that a value of one
    domain does not type-check where another is expected. *)

From stdpp Require Import base numbers.
From Stdlib Require Import ZArith Lia.
From S2P Require Import Prelude.

(** The domain tags. *)
Inductive Domain :=
  | PreemptionRequestDomain | PreemptionPlanDomain | PreemptionAttemptDomain
  | WorkloadDomain | ExecutionDomain | AttemptDomain | WorkerDomain
  | CoordinatorDomain | SafePointDomain | QuiescenceDomain | ProgressDomain
  | StateCaptureDomain | CheckpointDomain | PreservationDomain
  | ResourceContractDomain | ResumeDomain | DependencyDomain | PriorityDomain
  | PolicyDomain | AuthorityDomain.

(** [Generation<Tag>]: selects a version of an entity. *)
Record Generation (d : Domain) := mkGeneration { gen_value : Z }.
Arguments mkGeneration {d}.
Arguments gen_value {d}.

(** [Id<Tag>]: selects an entity. *)
Record Id (d : Domain) := mkId { id_value : Z }.
Arguments mkId {d}.
Arguments id_value {d}.

#[export] Instance Generation_eq_dec d : EqDecision (Generation d).
Proof. solve_decision. Defined.
#[export] Instance Id_eq_dec d : EqDecision (Id d).
Proof. solve_decision. Defined.

(** What the two templates share: a 64-bit value wrapped without loss. *)
Class Identity (T : Type) := {
  value : T → Z;
  of_value : Z → T;
  value_of_value v : value (of_value v) = v;
  of_value_value x : of_value (value x) = x
}.

#[export] Program Instance Generation_identity d : Identity (Generation d) :=
  {| value := gen_value; of_value := mkGeneration |}.
Next Obligation. done. Qed.
Next Obligation. by intros d []. Qed.
#[export] Program Instance Id_identity d : Identity (Id d) :=
  {| value := id_value; of_value := mkId |}.
Next Obligation. done. Qed.
Next Obligation. by intros d []. Qed.

(** [kInvalidValue], the value of a default-constructed identity. *)
Definition kInvalidValue : Z := 0.
Definition default_gen {d} : Generation d := mkGeneration kInvalidValue.
Definition default_id {d} : Id d := mkId kInvalidValue.

Definition is_valid {T} `{Identity T} (x : T) : bool := negb (value x =? kInvalidValue).
Definition is_default {T} `{Identity T} (x : T) : bool := value x =? kInvalidValue.

(** [Generation::next]: saturating increment. *)
Definition Generation_next {d} (g : Generation d) : Generation d :=
  if gen_value g =? u64_max then g else mkGeneration (gen_value g + 1).
(** [Id::next]. *)
Definition Id_next {d} (x : Id d) : Id d :=
  mkId (if id_value x =? u64_max then id_value x else id_value x + 1).

(** [operator<=>] compares the values. *)
Definition gen_lt {d} (a b : Generation d) : Prop := gen_value a < gen_value b.
Definition gen_le {d} (a b : Generation d) : Prop := gen_value a ≤ gen_value b.

(** The value fits its [std::uint64_t]. *)
Definition wf {T} `{Identity T} (x : T) : Prop := in_u64 (value x).

Abbreviation PreemptionRequestId := (Id PreemptionRequestDomain).
Abbreviation PreemptionRequestGeneration := (Generation PreemptionRequestDomain).
Abbreviation PreemptionPlanId := (Id PreemptionPlanDomain).
Abbreviation PreemptionPlanGeneration := (Generation PreemptionPlanDomain).
Abbreviation WorkloadId := (Id WorkloadDomain).
Abbreviation WorkloadGeneration := (Generation WorkloadDomain).
Abbreviation ExecutionId := (Id ExecutionDomain).
Abbreviation ExecutionGeneration := (Generation ExecutionDomain).
Abbreviation AttemptId := (Id AttemptDomain).
Abbreviation AttemptGeneration := (Generation AttemptDomain).
Abbreviation WorkerId := (Id WorkerDomain).
Abbreviation WorkerBootId := (Id WorkerDomain).
Abbreviation CoordinatorEpoch := (Generation CoordinatorDomain).
Abbreviation SafePointId := (Id SafePointDomain).
Abbreviation SafePointGeneration := (Generation SafePointDomain).
Abbreviation QuiescenceGeneration := (Generation QuiescenceDomain).
Abbreviation ProgressGeneration := (Generation ProgressDomain).
Abbreviation StateCaptureId := (Id StateCaptureDomain).
Abbreviation StateCaptureGeneration := (Generation StateCaptureDomain).
Abbreviation CheckpointRef := (Id CheckpointDomain).
Abbreviation CheckpointGeneration := (Generation CheckpointDomain).
Abbreviation PreservationGeneration := (Generation PreservationDomain).
Abbreviation ResourceContractId := (Id ResourceContractDomain).
Abbreviation ResourceContractGeneration := (Generation ResourceContractDomain).
Abbreviation ReleaseGeneration := (Generation ResourceContractDomain).
Abbreviation ResumeId := (Id ResumeDomain).
Abbreviation ResumeGeneration := (Generation ResumeDomain).
Abbreviation DependencyId := (Id DependencyDomain).
Abbreviation DependencyGeneration := (Generation DependencyDomain).
Abbreviation PriorityGeneration := (Generation PriorityDomain).
Abbreviation PolicyGeneration := (Generation PolicyDomain).
Abbreviation AuthorityGeneration := (Generation AuthorityDomain).

Lemma is_valid_spec {T} `{Identity T} (x : T) : is_valid x = true ↔ value x ≠ 0.
Proof. unfold is_valid, kInvalidValue. rewrite negb_true_iff. apply Z.eqb_neq. Qed.

Lemma is_valid_false {T} `{Identity T} (x : T) : is_valid x = false ↔ value x = 0.
Proof. unfold is_valid, kInvalidValue. rewrite negb_false_iff. apply Z.eqb_eq. Qed.

Lemma value_inj {T} `{Identity T} (x y : T) : value x = value y → x = y.
Proof. intros E. rewrite <- (of_value_value x), <- (of_value_value y). by rewrite E. Qed.

Lemma Generation_next_wf {d} (g : Generation d) : wf g → wf (Generation_next g).
Proof.
  unfold wf, Generation_next; cbn. destruct (Z.eqb_spec (gen_value g) u64_max); cbn; zlia.
Qed.

(** A generation that has not saturated moves strictly forward. *)
Lemma Generation_next_lt {d} (g : Generation d) :
  gen_value g < u64_max → gen_lt g (Generation_next g).
Proof.
  intros H. unfold gen_lt, Generation_next.
  destruct (Z.eqb_spec (gen_value g) u64_max); cbn; lia.
Qed.

Lemma Generation_next_le {d} (g : Generation d) : gen_le g (Generation_next g).
Proof.
  unfold gen_le, Generation_next. destruct (Z.eqb_spec (gen_value g) u64_max); cbn; lia.
Qed.

(** A successor is never the invalid generation. *)
Lemma Generation_next_valid {d} (g : Generation d) :
  wf g → is_valid (Generation_next g) = true.
Proof.
  intros H. apply is_valid_spec. unfold wf in H. unfold Generation_next. cbn in *.
  destruct (Z.eqb_spec (gen_value g) u64_max); cbn; zlia.
Qed.

Lemma wf_default_gen {d} : wf (@default_gen d).
Proof. apply in_u64_0. Qed.
Lemma wf_default_id {d} : wf (@default_id d).
Proof. apply in_u64_0. Qed.

#[export] Hint Resolve Generation_next_wf wf_default_gen wf_default_id : fabric.
