(* ===== verification/Enums.v ===== *)
(** * Enumerations and their codecs ([core/enums.hpp], [core/enum_codec.hpp])

    A [enum class E : std::uint32_t] is an inductive type in a module of its own, so
    that [LifecycleState.kRequested] reads as [LifecycleState::kRequested].  [CEnum]
    is the interface the persistence and wire codecs use: the underlying number of an
    enumerator and the enumerators in numeric order; [Named] gives the name table. *)

From stdpp Require Import base list strings numbers sets.
From Stdlib Require Import ZArith Lia.
From S2P Require Import Prelude.

(** The enumerators of an enum are numbered from 0 without gaps, so a checked cast
    [static_cast<E>(v)] is the lookup of [v] in the list of enumerators. *)
Class CEnum (E : Type) := {
  to_u32 : E → Z;
  enumerators : list E;
  enumerators_numbered : to_u32 <$> enumerators = seqZ 0 (Z.of_nat (length enumerators));
  enumerators_complete e : e ∈ enumerators
}.

(** [static_cast<E>(v)], defined for the values that name an enumerator. *)
Definition of_u32 {E} `{CEnum E} (v : Z) : option E :=
  if v <? 0 then None else enumerators !! Z.to_nat v.

(** The largest underlying value, the bound the decoders check against. *)
Definition enum_last (E : Type) `{CEnum E} : Z := Z.of_nat (length (enumerators (E := E))) - 1.

Section cenum.
Context {E : Type} `{CEnum E}.

Lemma enumerator_number i (e : E) : enumerators !! i = Some e → to_u32 e = Z.of_nat i.
Proof.
  intros He. assert (Hi : (to_u32 <$> enumerators) !! i = Some (to_u32 e))
    by (by rewrite list_lookup_fmap, He).
  rewrite enumerators_numbered in Hi. apply lookup_seqZ in Hi. lia.
Qed.

Lemma of_u32_to_u32 (e : E) : of_u32 (to_u32 e) = Some e.
Proof.
  destruct (proj1 (list_elem_of_lookup _ _) (enumerators_complete e)) as [i Hi].
  pose proof (enumerator_number _ _ Hi) as Hn. unfold of_u32. rewrite Hn.
  destruct (Z.ltb_spec (Z.of_nat i) 0); [lia|]. by rewrite Nat2Z.id.
Qed.

Lemma to_u32_of_u32 v (e : E) : of_u32 v = Some e → to_u32 e = v.
Proof.
  unfold of_u32. destruct (Z.ltb_spec v 0); [done|].
  intros He. rewrite (enumerator_number _ _ He). lia.
Qed.

Lemma to_u32_inj (e1 e2 : E) : to_u32 e1 = to_u32 e2 → e1 = e2.
Proof. intros Heq. apply (inj Some). by rewrite <- !of_u32_to_u32, Heq. Qed.

Lemma to_u32_bounds (e : E) : 0 ≤ to_u32 e ≤ enum_last E.
Proof.
  destruct (proj1 (list_elem_of_lookup _ _) (enumerators_complete e)) as [i Hi].
  pose proof (enumerator_number _ _ Hi) as Hn. apply lookup_lt_Some in Hi.
  unfold enum_last. lia.
Qed.

Lemma of_u32_is_Some v : 0 ≤ v ≤ enum_last E → is_Some (of_u32 (E := E) v).
Proof.
  unfold enum_last, of_u32. intros Hv. destruct (Z.ltb_spec v 0); [lia|].
  apply lookup_lt_is_Some_2. lia.
Qed.

End cenum.

(** ** Names *)

Class Named (E : Type) := name_table : list (E * string).

(** [detail::name_of]: the first entry with the value, or a placeholder. *)
Fixpoint name_of {E} `{EqDecision E} (v : E) (table : list (E * string)) : string :=
  match table with
  | [] => "<unknown>"
  | (e, n) :: rest => if bool_decide (e = v) then n else name_of v rest
  end.

(** [detail::value_of]: the first entry with the name. *)
Fixpoint value_of {E} (name : string) (table : list (E * string)) : option E :=
  match table with
  | [] => None
  | (e, n) :: rest => if bool_decide (n = name) then Some e else value_of name rest
  end.

Definition to_string {E} `{EqDecision E} `{Named E} (v : E) : string := name_of v name_table.

Lemma name_of_lookup {E} `{EqDecision E} (table : list (E * string)) v n :
  NoDup table.*1 → (v, n) ∈ table → name_of v table = n.
Proof.
  induction table as [|[e m] table IH]; intros Hnd Hin; [by apply not_elem_of_nil in Hin|].
  cbn in *. apply NoDup_cons in Hnd as [Hnotin Hnd].
  apply elem_of_cons in Hin as [Heq|Hin]; simplify_eq.
  - by rewrite bool_decide_eq_true_2.
  - rewrite bool_decide_eq_false_2; [by apply IH|].
    intros ->. apply Hnotin, list_elem_of_fmap. by exists (v, n).
Qed.

Lemma value_of_lookup {E} (table : list (E * string)) v n :
  NoDup table.*2 → (v, n) ∈ table → value_of n table = Some v.
Proof.
  induction table as [|[e m] table IH]; intros Hnd Hin; [by apply not_elem_of_nil in Hin|].
  cbn in *. apply NoDup_cons in Hnd as [Hnotin Hnd].
  apply elem_of_cons in Hin as [Heq|Hin]; simplify_eq.
  - by rewrite bool_decide_eq_true_2.
  - rewrite bool_decide_eq_false_2; [by apply IH|].
    intros ->. apply Hnotin, list_elem_of_fmap. by exists (v, n).
Qed.

(** In a table without repeated values or names, parsing undoes printing. *)
Lemma value_of_name_of {E} `{EqDecision E} (table : list (E * string)) v :
  NoDup table.*1 → NoDup table.*2 → v ∈ table.*1 →
  value_of (name_of v table) table = Some v.
Proof.
  intros H1 H2 Hv. apply list_elem_of_fmap in Hv as [[v' n] [-> Hin]]. cbn.
  rewrite (name_of_lookup table v' n) by done. by apply value_of_lookup.
Qed.

(** ** The enumerations *)

Module PreemptionReason.
Inductive PreemptionReason :=
  | kInvalid | kHigherPriorityWork | kResourceReclamation | kFairness | kSloProtection
  | kAdministrative | kMigration | kCapacityPressure | kThermalOrPowerPressure | kMaintenance
  | kDrain | kPolicyChange | kDependencyChange | kUnknown.
End PreemptionReason.
Abbreviation PreemptionReason := PreemptionReason.PreemptionReason.
#[export] Instance PreemptionReason_eq_dec : EqDecision PreemptionReason.
Proof. solve_decision. Defined.
Definition PreemptionReason_to_u32 (v : PreemptionReason) : Z :=
  match v with
  | PreemptionReason.kInvalid => 0
  | PreemptionReason.kHigherPriorityWork => 1
  | PreemptionReason.kResourceReclamation => 2
  | PreemptionReason.kFairness => 3
  | PreemptionReason.kSloProtection => 4
  | PreemptionReason.kAdministrative => 5
  | PreemptionReason.kMigration => 6
  | PreemptionReason.kCapacityPressure => 7
  | PreemptionReason.kThermalOrPowerPressure => 8
  | PreemptionReason.kMaintenance => 9
  | PreemptionReason.kDrain => 10
  | PreemptionReason.kPolicyChange => 11
  | PreemptionReason.kDependencyChange => 12
  | PreemptionReason.kUnknown => 13
  end.
#[export] Program Instance PreemptionReason_enum : CEnum PreemptionReason :=
  {| to_u32 := PreemptionReason_to_u32;
     enumerators := [
     PreemptionReason.kInvalid; PreemptionReason.kHigherPriorityWork; PreemptionReason.kResourceReclamation;
     PreemptionReason.kFairness; PreemptionReason.kSloProtection; PreemptionReason.kAdministrative;
     PreemptionReason.kMigration; PreemptionReason.kCapacityPressure; PreemptionReason.kThermalOrPowerPressure;
     PreemptionReason.kMaintenance; PreemptionReason.kDrain; PreemptionReason.kPolicyChange;
     PreemptionReason.kDependencyChange; PreemptionReason.kUnknown] |}.
Next Obligation. reflexivity. Qed.
Next Obligation. intros []; set_solver. Qed.
Definition kPreemptionReasonNames : list (PreemptionReason * string) :=
  [(PreemptionReason.kHigherPriorityWork, "HIGHER_PRIORITY_WORK");
   (PreemptionReason.kResourceReclamation, "RESOURCE_RECLAMATION");
   (PreemptionReason.kFairness, "FAIRNESS");
   (PreemptionReason.kSloProtection, "SLO_PROTECTION");
   (PreemptionReason.kAdministrative, "ADMINISTRATIVE");
   (PreemptionReason.kMigration, "MIGRATION");
   (PreemptionReason.kCapacityPressure, "CAPACITY_PRESSURE");
   (PreemptionReason.kThermalOrPowerPressure, "THERMAL_OR_POWER_PRESSURE");
   (PreemptionReason.kMaintenance, "MAINTENANCE");
   (PreemptionReason.kDrain, "DRAIN");
   (PreemptionReason.kPolicyChange, "POLICY_CHANGE");
   (PreemptionReason.kDependencyChange, "DEPENDENCY_CHANGE");
   (PreemptionReason.kUnknown, "UNKNOWN")].
#[export] Instance PreemptionReason_named : Named PreemptionReason := kPreemptionReasonNames.

Module PreemptibilityClass.
Inductive PreemptibilityClass :=
  | kInvalid | kPreemptibleNow | kPreemptibleAtSafePoint | kPreemptibleAfterStateCapture | kPreemptibleAfterCommitBoundary
  | kRecomputableFromDurableProgress | kTemporarilyUnsafe | kNonPreemptible | kUnsupported | kUnknown.
End PreemptibilityClass.
Abbreviation PreemptibilityClass := PreemptibilityClass.PreemptibilityClass.
#[export] Instance PreemptibilityClass_eq_dec : EqDecision PreemptibilityClass.
Proof. solve_decision. Defined.
Definition PreemptibilityClass_to_u32 (v : PreemptibilityClass) : Z :=
  match v with
  | PreemptibilityClass.kInvalid => 0
  | PreemptibilityClass.kPreemptibleNow => 1
  | PreemptibilityClass.kPreemptibleAtSafePoint => 2
  | PreemptibilityClass.kPreemptibleAfterStateCapture => 3
  | PreemptibilityClass.kPreemptibleAfterCommitBoundary => 4
  | PreemptibilityClass.kRecomputableFromDurableProgress => 5
  | PreemptibilityClass.kTemporarilyUnsafe => 6
  | PreemptibilityClass.kNonPreemptible => 7
  | PreemptibilityClass.kUnsupported => 8
  | PreemptibilityClass.kUnknown => 9
  end.
#[export] Program Instance PreemptibilityClass_enum : CEnum PreemptibilityClass :=
  {| to_u32 := PreemptibilityClass_to_u32;
     enumerators := [
     PreemptibilityClass.kInvalid; PreemptibilityClass.kPreemptibleNow; PreemptibilityClass.kPreemptibleAtSafePoint;
     PreemptibilityClass.kPreemptibleAfterStateCapture; PreemptibilityClass.kPreemptibleAfterCommitBoundary; PreemptibilityClass.kRecomputableFromDurableProgress;
     PreemptibilityClass.kTemporarilyUnsafe; PreemptibilityClass.kNonPreemptible; PreemptibilityClass.kUnsupported;
     PreemptibilityClass.kUnknown] |}.
Next Obligation. reflexivity. Qed.
Next Obligation. intros []; set_solver. Qed.
Definition kPreemptibilityClassNames : list (PreemptibilityClass * string) :=
  [(PreemptibilityClass.kPreemptibleNow, "PREEMPTIBLE_NOW");
   (PreemptibilityClass.kPreemptibleAtSafePoint, "PREEMPTIBLE_AT_SAFE_POINT");
   (PreemptibilityClass.kPreemptibleAfterStateCapture, "PREEMPTIBLE_AFTER_STATE_CAPTURE");
   (PreemptibilityClass.kPreemptibleAfterCommitBoundary, "PREEMPTIBLE_AFTER_COMMIT_BOUNDARY");
   (PreemptibilityClass.kRecomputableFromDurableProgress, "RECOMPUTABLE_FROM_DURABLE_PROGRESS");
   (PreemptibilityClass.kTemporarilyUnsafe, "TEMPORARILY_UNSAFE");
   (PreemptibilityClass.kNonPreemptible, "NON_PREEMPTIBLE");
   (PreemptibilityClass.kUnsupported, "UNSUPPORTED");
   (PreemptibilityClass.kUnknown, "UNKNOWN")].
#[export] Instance PreemptibilityClass_named : Named PreemptibilityClass := kPreemptibilityClassNames.

Module PreemptionOutcome.
Inductive PreemptionOutcome :=
  | kInvalid | kSafePreemptionCompleted | kDeferToSafePoint | kStateCaptureRequired | kCannotPreemptSafely
  | kNonPreemptible | kForceTerminationRequired | kPreemptionAborted | kPreemptionFailed.
End PreemptionOutcome.
Abbreviation PreemptionOutcome := PreemptionOutcome.PreemptionOutcome.
#[export] Instance PreemptionOutcome_eq_dec : EqDecision PreemptionOutcome.
Proof. solve_decision. Defined.
Definition PreemptionOutcome_to_u32 (v : PreemptionOutcome) : Z :=
  match v with
  | PreemptionOutcome.kInvalid => 0
  | PreemptionOutcome.kSafePreemptionCompleted => 1
  | PreemptionOutcome.kDeferToSafePoint => 2
  | PreemptionOutcome.kStateCaptureRequired => 3
  | PreemptionOutcome.kCannotPreemptSafely => 4
  | PreemptionOutcome.kNonPreemptible => 5
  | PreemptionOutcome.kForceTerminationRequired => 6
  | PreemptionOutcome.kPreemptionAborted => 7
  | PreemptionOutcome.kPreemptionFailed => 8
  end.
#[export] Program Instance PreemptionOutcome_enum : CEnum PreemptionOutcome :=
  {| to_u32 := PreemptionOutcome_to_u32;
     enumerators := [
     PreemptionOutcome.kInvalid; PreemptionOutcome.kSafePreemptionCompleted; PreemptionOutcome.kDeferToSafePoint;
     PreemptionOutcome.kStateCaptureRequired; PreemptionOutcome.kCannotPreemptSafely; PreemptionOutcome.kNonPreemptible;
     PreemptionOutcome.kForceTerminationRequired; PreemptionOutcome.kPreemptionAborted; PreemptionOutcome.kPreemptionFailed] |}.
Next Obligation. reflexivity. Qed.
Next Obligation. intros []; set_solver. Qed.
Definition kPreemptionOutcomeNames : list (PreemptionOutcome * string) :=
  [(PreemptionOutcome.kSafePreemptionCompleted, "SAFE_PREEMPTION_COMPLETED");
   (PreemptionOutcome.kDeferToSafePoint, "DEFER_TO_SAFE_POINT");
   (PreemptionOutcome.kStateCaptureRequired, "STATE_CAPTURE_REQUIRED");
   (PreemptionOutcome.kCannotPreemptSafely, "CANNOT_PREEMPT_SAFELY");
   (PreemptionOutcome.kNonPreemptible, "NON_PREEMPTIBLE");
   (PreemptionOutcome.kForceTerminationRequired, "FORCE_TERMINATION_REQUIRED");
   (PreemptionOutcome.kPreemptionAborted, "PREEMPTION_ABORTED");
   (PreemptionOutcome.kPreemptionFailed, "PREEMPTION_FAILED")].
#[export] Instance PreemptionOutcome_named : Named PreemptionOutcome := kPreemptionOutcomeNames.

Module LifecycleState.
Inductive LifecycleState :=
  | kInvalid | kRequested | kValidatingAuthority | kAssessing | kDeferred
  | kWaitingForSafePoint | kSafePointReached | kQuiescing | kQuiesced | kCaptureRequired
  | kCapturingState | kStateDurable | kReleasePending | kReleasing | kResourcesReleased
  | kPreempted | kResumePending | kRevalidating | kRestoring | kResumeReady
  | kResuming | kResumed | kCancelled | kAborted | kFailed
  | kSuperseded.
End LifecycleState.
Abbreviation LifecycleState := LifecycleState.LifecycleState.
#[export] Instance LifecycleState_eq_dec : EqDecision LifecycleState.
Proof. solve_decision. Defined.
Definition LifecycleState_to_u32 (v : LifecycleState) : Z :=
  match v with
  | LifecycleState.kInvalid => 0
  | LifecycleState.kRequested => 1
  | LifecycleState.kValidatingAuthority => 2
  | LifecycleState.kAssessing => 3
  | LifecycleState.kDeferred => 4
  | LifecycleState.kWaitingForSafePoint => 5
  | LifecycleState.kSafePointReached => 6
  | LifecycleState.kQuiescing => 7
  | LifecycleState.kQuiesced => 8
  | LifecycleState.kCaptureRequired => 9
  | LifecycleState.kCapturingState => 10
  | LifecycleState.kStateDurable => 11
  | LifecycleState.kReleasePending => 12
  | LifecycleState.kReleasing => 13
  | LifecycleState.kResourcesReleased => 14
  | LifecycleState.kPreempted => 15
  | LifecycleState.kResumePending => 16
  | LifecycleState.kRevalidating => 17
  | LifecycleState.kRestoring => 18
  | LifecycleState.kResumeReady => 19
  | LifecycleState.kResuming => 20
  | LifecycleState.kResumed => 21
  | LifecycleState.kCancelled => 22
  | LifecycleState.kAborted => 23
  | LifecycleState.kFailed => 24
  | LifecycleState.kSuperseded => 25
  end.
#[export] Program Instance LifecycleState_enum : CEnum LifecycleState :=
  {| to_u32 := LifecycleState_to_u32;
     enumerators := [
     LifecycleState.kInvalid; LifecycleState.kRequested; LifecycleState.kValidatingAuthority;
     LifecycleState.kAssessing; LifecycleState.kDeferred; LifecycleState.kWaitingForSafePoint;
     LifecycleState.kSafePointReached; LifecycleState.kQuiescing; LifecycleState.kQuiesced;
     LifecycleState.kCaptureRequired; LifecycleState.kCapturingState; LifecycleState.kStateDurable;
     LifecycleState.kReleasePending; LifecycleState.kReleasing; LifecycleState.kResourcesReleased;
     LifecycleState.kPreempted; LifecycleState.kResumePending; LifecycleState.kRevalidating;
     LifecycleState.kRestoring; LifecycleState.kResumeReady; LifecycleState.kResuming;
     LifecycleState.kResumed; LifecycleState.kCancelled; LifecycleState.kAborted;
     LifecycleState.kFailed; LifecycleState.kSuperseded] |}.
Next Obligation. reflexivity. Qed.
Next Obligation. intros []; set_solver. Qed.
Definition kLifecycleStateNames : list (LifecycleState * string) :=
  [(LifecycleState.kRequested, "REQUESTED");
   (LifecycleState.kValidatingAuthority, "VALIDATING_AUTHORITY");
   (LifecycleState.kAssessing, "ASSESSING");
   (LifecycleState.kDeferred, "DEFERRED");
   (LifecycleState.kWaitingForSafePoint, "WAITING_FOR_SAFE_POINT");
   (LifecycleState.kSafePointReached, "SAFE_POINT_REACHED");
   (LifecycleState.kQuiescing, "QUIESCING");
   (LifecycleState.kQuiesced, "QUIESCED");
   (LifecycleState.kCaptureRequired, "CAPTURE_REQUIRED");
   (LifecycleState.kCapturingState, "CAPTURING_STATE");
   (LifecycleState.kStateDurable, "STATE_DURABLE");
   (LifecycleState.kReleasePending, "RELEASE_PENDING");
   (LifecycleState.kReleasing, "RELEASING");
   (LifecycleState.kResourcesReleased, "RESOURCES_RELEASED");
   (LifecycleState.kPreempted, "PREEMPTED");
   (LifecycleState.kResumePending, "RESUME_PENDING");
   (LifecycleState.kRevalidating, "REVALIDATING");
   (LifecycleState.kRestoring, "RESTORING");
   (LifecycleState.kResumeReady, "RESUME_READY");
   (LifecycleState.kResuming, "RESUMING");
   (LifecycleState.kResumed, "RESUMED");
   (LifecycleState.kCancelled, "CANCELLED");
   (LifecycleState.kAborted, "ABORTED");
   (LifecycleState.kFailed, "FAILED");
   (LifecycleState.kSuperseded, "SUPERSEDED")].
#[export] Instance LifecycleState_named : Named LifecycleState := kLifecycleStateNames.

Module SafePointState.
Inductive SafePointState :=
  | kUnset | kDeclared | kReached | kValidating | kValid
  | kInvalid | kSuperseded | kStale | kUnknown.
End SafePointState.
Abbreviation SafePointState := SafePointState.SafePointState.
#[export] Instance SafePointState_eq_dec : EqDecision SafePointState.
Proof. solve_decision. Defined.
Definition SafePointState_to_u32 (v : SafePointState) : Z :=
  match v with
  | SafePointState.kUnset => 0
  | SafePointState.kDeclared => 1
  | SafePointState.kReached => 2
  | SafePointState.kValidating => 3
  | SafePointState.kValid => 4
  | SafePointState.kInvalid => 5
  | SafePointState.kSuperseded => 6
  | SafePointState.kStale => 7
  | SafePointState.kUnknown => 8
  end.
#[export] Program Instance SafePointState_enum : CEnum SafePointState :=
  {| to_u32 := SafePointState_to_u32;
     enumerators := [
     SafePointState.kUnset; SafePointState.kDeclared; SafePointState.kReached;
     SafePointState.kValidating; SafePointState.kValid; SafePointState.kInvalid;
     SafePointState.kSuperseded; SafePointState.kStale; SafePointState.kUnknown] |}.
Next Obligation. reflexivity. Qed.
Next Obligation. intros []; set_solver. Qed.
Definition kSafePointStateNames : list (SafePointState * string) :=
  [(SafePointState.kDeclared, "DECLARED");
   (SafePointState.kReached, "REACHED");
   (SafePointState.kValidating, "VALIDATING");
   (SafePointState.kValid, "VALID");
   (SafePointState.kInvalid, "INVALID");
   (SafePointState.kSuperseded, "SUPERSEDED");
   (SafePointState.kStale, "STALE");
   (SafePointState.kUnknown, "UNKNOWN")].
#[export] Instance SafePointState_named : Named SafePointState := kSafePointStateNames.

Module StatePreservationOutcome.
Inductive StatePreservationOutcome :=
  | kInvalid | kAlreadyDurable | kCaptureRequired | kCaptureInProgress | kCapturedAndVerified
  | kRecomputable | kNoDurableState | kCaptureFailed | kStaleCapture | kUnknown.
End StatePreservationOutcome.
Abbreviation StatePreservationOutcome := StatePreservationOutcome.StatePreservationOutcome.
#[export] Instance StatePreservationOutcome_eq_dec : EqDecision StatePreservationOutcome.
Proof. solve_decision. Defined.
Definition StatePreservationOutcome_to_u32 (v : StatePreservationOutcome) : Z :=
  match v with
  | StatePreservationOutcome.kInvalid => 0
  | StatePreservationOutcome.kAlreadyDurable => 1
  | StatePreservationOutcome.kCaptureRequired => 2
  | StatePreservationOutcome.kCaptureInProgress => 3
  | StatePreservationOutcome.kCapturedAndVerified => 4
  | StatePreservationOutcome.kRecomputable => 5
  | StatePreservationOutcome.kNoDurableState => 6
  | StatePreservationOutcome.kCaptureFailed => 7
  | StatePreservationOutcome.kStaleCapture => 8
  | StatePreservationOutcome.kUnknown => 9
  end.
#[export] Program Instance StatePreservationOutcome_enum : CEnum StatePreservationOutcome :=
  {| to_u32 := StatePreservationOutcome_to_u32;
     enumerators := [
     StatePreservationOutcome.kInvalid; StatePreservationOutcome.kAlreadyDurable; StatePreservationOutcome.kCaptureRequired;
     StatePreservationOutcome.kCaptureInProgress; StatePreservationOutcome.kCapturedAndVerified; StatePreservationOutcome.kRecomputable;
     StatePreservationOutcome.kNoDurableState; StatePreservationOutcome.kCaptureFailed; StatePreservationOutcome.kStaleCapture;
     StatePreservationOutcome.kUnknown] |}.
Next Obligation. reflexivity. Qed.
Next Obligation. intros []; set_solver. Qed.
Definition kStatePreservationOutcomeNames : list (StatePreservationOutcome * string) :=
  [(StatePreservationOutcome.kAlreadyDurable, "ALREADY_DURABLE");
   (StatePreservationOutcome.kCaptureRequired, "CAPTURE_REQUIRED");
   (StatePreservationOutcome.kCaptureInProgress, "CAPTURE_IN_PROGRESS");
   (StatePreservationOutcome.kCapturedAndVerified, "CAPTURED_AND_VERIFIED");
   (StatePreservationOutcome.kRecomputable, "RECOMPUTABLE");
   (StatePreservationOutcome.kNoDurableState, "NO_DURABLE_STATE");
   (StatePreservationOutcome.kCaptureFailed, "CAPTURE_FAILED");
   (StatePreservationOutcome.kStaleCapture, "STALE_CAPTURE");
   (StatePreservationOutcome.kUnknown, "UNKNOWN")].
#[export] Instance StatePreservationOutcome_named : Named StatePreservationOutcome := kStatePreservationOutcomeNames.

Module ResumeOutcome.
Inductive ResumeOutcome :=
  | kInvalid | kResumeEligible | kResumeBlockedStaleAuthority | kResumeBlockedStateMissing | kResumeBlockedStateStale
  | kResumeBlockedDependency | kResumeBlockedResource | kResumeBlockedCompatibility | kResumeBlockedPolicy | kResumeRevalidationRequired
  | kResumeRestoreRequired | kResumeRecomputeRequired | kResumeNotAllowed | kUnknown.
End ResumeOutcome.
Abbreviation ResumeOutcome := ResumeOutcome.ResumeOutcome.
#[export] Instance ResumeOutcome_eq_dec : EqDecision ResumeOutcome.
Proof. solve_decision. Defined.
Definition ResumeOutcome_to_u32 (v : ResumeOutcome) : Z :=
  match v with
  | ResumeOutcome.kInvalid => 0
  | ResumeOutcome.kResumeEligible => 1
  | ResumeOutcome.kResumeBlockedStaleAuthority => 2
  | ResumeOutcome.kResumeBlockedStateMissing => 3
  | ResumeOutcome.kResumeBlockedStateStale => 4
  | ResumeOutcome.kResumeBlockedDependency => 5
  | ResumeOutcome.kResumeBlockedResource => 6
  | ResumeOutcome.kResumeBlockedCompatibility => 7
  | ResumeOutcome.kResumeBlockedPolicy => 8
  | ResumeOutcome.kResumeRevalidationRequired => 9
  | ResumeOutcome.kResumeRestoreRequired => 10
  | ResumeOutcome.kResumeRecomputeRequired => 11
  | ResumeOutcome.kResumeNotAllowed => 12
  | ResumeOutcome.kUnknown => 13
  end.
#[export] Program Instance ResumeOutcome_enum : CEnum ResumeOutcome :=
  {| to_u32 := ResumeOutcome_to_u32;
     enumerators := [
     ResumeOutcome.kInvalid; ResumeOutcome.kResumeEligible; ResumeOutcome.kResumeBlockedStaleAuthority;
     ResumeOutcome.kResumeBlockedStateMissing; ResumeOutcome.kResumeBlockedStateStale; ResumeOutcome.kResumeBlockedDependency;
     ResumeOutcome.kResumeBlockedResource; ResumeOutcome.kResumeBlockedCompatibility; ResumeOutcome.kResumeBlockedPolicy;
     ResumeOutcome.kResumeRevalidationRequired; ResumeOutcome.kResumeRestoreRequired; ResumeOutcome.kResumeRecomputeRequired;
     ResumeOutcome.kResumeNotAllowed; ResumeOutcome.kUnknown] |}.
Next Obligation. reflexivity. Qed.
Next Obligation. intros []; set_solver. Qed.
Definition kResumeOutcomeNames : list (ResumeOutcome * string) :=
  [(ResumeOutcome.kResumeEligible, "RESUME_ELIGIBLE");
   (ResumeOutcome.kResumeBlockedStaleAuthority, "RESUME_BLOCKED_STALE_AUTHORITY");
   (ResumeOutcome.kResumeBlockedStateMissing, "RESUME_BLOCKED_STATE_MISSING");
   (ResumeOutcome.kResumeBlockedStateStale, "RESUME_BLOCKED_STATE_STALE");
   (ResumeOutcome.kResumeBlockedDependency, "RESUME_BLOCKED_DEPENDENCY");
   (ResumeOutcome.kResumeBlockedResource, "RESUME_BLOCKED_RESOURCE");
   (ResumeOutcome.kResumeBlockedCompatibility, "RESUME_BLOCKED_COMPATIBILITY");
   (ResumeOutcome.kResumeBlockedPolicy, "RESUME_BLOCKED_POLICY");
   (ResumeOutcome.kResumeRevalidationRequired, "RESUME_REVALIDATION_REQUIRED");
   (ResumeOutcome.kResumeRestoreRequired, "RESUME_RESTORE_REQUIRED");
   (ResumeOutcome.kResumeRecomputeRequired, "RESUME_RECOMPUTE_REQUIRED");
   (ResumeOutcome.kResumeNotAllowed, "RESUME_NOT_ALLOWED");
   (ResumeOutcome.kUnknown, "UNKNOWN")].
#[export] Instance ResumeOutcome_named : Named ResumeOutcome := kResumeOutcomeNames.

Module MeasurementKind.
Inductive MeasurementKind :=
  | kInvalid | kMeasured | kDerived | kEstimated | kSynthetic
  | kUnknown.
End MeasurementKind.
Abbreviation MeasurementKind := MeasurementKind.MeasurementKind.
#[export] Instance MeasurementKind_eq_dec : EqDecision MeasurementKind.
Proof. solve_decision. Defined.
Definition MeasurementKind_to_u32 (v : MeasurementKind) : Z :=
  match v with
  | MeasurementKind.kInvalid => 0
  | MeasurementKind.kMeasured => 1
  | MeasurementKind.kDerived => 2
  | MeasurementKind.kEstimated => 3
  | MeasurementKind.kSynthetic => 4
  | MeasurementKind.kUnknown => 5
  end.
#[export] Program Instance MeasurementKind_enum : CEnum MeasurementKind :=
  {| to_u32 := MeasurementKind_to_u32;
     enumerators := [
     MeasurementKind.kInvalid; MeasurementKind.kMeasured; MeasurementKind.kDerived;
     MeasurementKind.kEstimated; MeasurementKind.kSynthetic; MeasurementKind.kUnknown] |}.
Next Obligation. reflexivity. Qed.
Next Obligation. intros []; set_solver. Qed.
Definition kMeasurementKindNames : list (MeasurementKind * string) :=
  [(MeasurementKind.kMeasured, "MEASURED");
   (MeasurementKind.kDerived, "DERIVED");
   (MeasurementKind.kEstimated, "ESTIMATED");
   (MeasurementKind.kSynthetic, "SYNTHETIC");
   (MeasurementKind.kUnknown, "UNKNOWN")].
#[export] Instance MeasurementKind_named : Named MeasurementKind := kMeasurementKindNames.

Module EvidenceKind.
Inductive EvidenceKind :=
  | kInvalid | kReal | kSynthetic | kDerived | kMeasured
  | kEstimated | kUnsupported | kUnknown.
End EvidenceKind.
Abbreviation EvidenceKind := EvidenceKind.EvidenceKind.
#[export] Instance EvidenceKind_eq_dec : EqDecision EvidenceKind.
Proof. solve_decision. Defined.
Definition EvidenceKind_to_u32 (v : EvidenceKind) : Z :=
  match v with
  | EvidenceKind.kInvalid => 0
  | EvidenceKind.kReal => 1
  | EvidenceKind.kSynthetic => 2
  | EvidenceKind.kDerived => 3
  | EvidenceKind.kMeasured => 4
  | EvidenceKind.kEstimated => 5
  | EvidenceKind.kUnsupported => 6
  | EvidenceKind.kUnknown => 7
  end.
#[export] Program Instance EvidenceKind_enum : CEnum EvidenceKind :=
  {| to_u32 := EvidenceKind_to_u32;
     enumerators := [
     EvidenceKind.kInvalid; EvidenceKind.kReal; EvidenceKind.kSynthetic;
     EvidenceKind.kDerived; EvidenceKind.kMeasured; EvidenceKind.kEstimated;
     EvidenceKind.kUnsupported; EvidenceKind.kUnknown] |}.
Next Obligation. reflexivity. Qed.
Next Obligation. intros []; set_solver. Qed.
Definition kEvidenceKindNames : list (EvidenceKind * string) :=
  [(EvidenceKind.kReal, "REAL");
   (EvidenceKind.kSynthetic, "SYNTHETIC");
   (EvidenceKind.kDerived, "DERIVED");
   (EvidenceKind.kMeasured, "MEASURED");
   (EvidenceKind.kEstimated, "ESTIMATED");
   (EvidenceKind.kUnsupported, "UNSUPPORTED");
   (EvidenceKind.kUnknown, "UNKNOWN")].
#[export] Instance EvidenceKind_named : Named EvidenceKind := kEvidenceKindNames.

Module ResourceClass.
Inductive ResourceClass :=
  | kInvalid | kAcceleratorExecutionSlot | kDeviceMemory | kPinnedHostMemory | kHostMemory
  | kTemporaryBuffers | kModelAdapterResidency | kTransferReservation | kNetworkBandwidth | kStorageLease
  | kRuntimeHandle | kOther.
End ResourceClass.
Abbreviation ResourceClass := ResourceClass.ResourceClass.
#[export] Instance ResourceClass_eq_dec : EqDecision ResourceClass.
Proof. solve_decision. Defined.
Definition ResourceClass_to_u32 (v : ResourceClass) : Z :=
  match v with
  | ResourceClass.kInvalid => 0
  | ResourceClass.kAcceleratorExecutionSlot => 1
  | ResourceClass.kDeviceMemory => 2
  | ResourceClass.kPinnedHostMemory => 3
  | ResourceClass.kHostMemory => 4
  | ResourceClass.kTemporaryBuffers => 5
  | ResourceClass.kModelAdapterResidency => 6
  | ResourceClass.kTransferReservation => 7
  | ResourceClass.kNetworkBandwidth => 8
  | ResourceClass.kStorageLease => 9
  | ResourceClass.kRuntimeHandle => 10
  | ResourceClass.kOther => 11
  end.
#[export] Program Instance ResourceClass_enum : CEnum ResourceClass :=
  {| to_u32 := ResourceClass_to_u32;
     enumerators := [
     ResourceClass.kInvalid; ResourceClass.kAcceleratorExecutionSlot; ResourceClass.kDeviceMemory;
     ResourceClass.kPinnedHostMemory; ResourceClass.kHostMemory; ResourceClass.kTemporaryBuffers;
     ResourceClass.kModelAdapterResidency; ResourceClass.kTransferReservation; ResourceClass.kNetworkBandwidth;
     ResourceClass.kStorageLease; ResourceClass.kRuntimeHandle; ResourceClass.kOther] |}.
Next Obligation. reflexivity. Qed.
Next Obligation. intros []; set_solver. Qed.
Definition kResourceClassNames : list (ResourceClass * string) :=
  [(ResourceClass.kAcceleratorExecutionSlot, "ACCELERATOR_EXECUTION_SLOT");
   (ResourceClass.kDeviceMemory, "DEVICE_MEMORY");
   (ResourceClass.kPinnedHostMemory, "PINNED_HOST_MEMORY");
   (ResourceClass.kHostMemory, "HOST_MEMORY");
   (ResourceClass.kTemporaryBuffers, "TEMPORARY_BUFFERS");
   (ResourceClass.kModelAdapterResidency, "MODEL_ADAPTER_RESIDENCY");
   (ResourceClass.kTransferReservation, "TRANSFER_RESERVATION");
   (ResourceClass.kNetworkBandwidth, "NETWORK_BANDWIDTH");
   (ResourceClass.kStorageLease, "STORAGE_LEASE");
   (ResourceClass.kRuntimeHandle, "RUNTIME_HANDLE");
   (ResourceClass.kOther, "OTHER")].
#[export] Instance ResourceClass_named : Named ResourceClass := kResourceClassNames.

Module ProgressKind.
Inductive ProgressKind :=
  | kInvalid | kAttempted | kSpeculative | kAcknowledged | kCommittedLogical
  | kDurable | kRecomputable | kDiscarded | kLost.
End ProgressKind.
Abbreviation ProgressKind := ProgressKind.ProgressKind.
#[export] Instance ProgressKind_eq_dec : EqDecision ProgressKind.
Proof. solve_decision. Defined.
Definition ProgressKind_to_u32 (v : ProgressKind) : Z :=
  match v with
  | ProgressKind.kInvalid => 0
  | ProgressKind.kAttempted => 1
  | ProgressKind.kSpeculative => 2
  | ProgressKind.kAcknowledged => 3
  | ProgressKind.kCommittedLogical => 4
  | ProgressKind.kDurable => 5
  | ProgressKind.kRecomputable => 6
  | ProgressKind.kDiscarded => 7
  | ProgressKind.kLost => 8
  end.
#[export] Program Instance ProgressKind_enum : CEnum ProgressKind :=
  {| to_u32 := ProgressKind_to_u32;
     enumerators := [
     ProgressKind.kInvalid; ProgressKind.kAttempted; ProgressKind.kSpeculative;
     ProgressKind.kAcknowledged; ProgressKind.kCommittedLogical; ProgressKind.kDurable;
     ProgressKind.kRecomputable; ProgressKind.kDiscarded; ProgressKind.kLost] |}.
Next Obligation. reflexivity. Qed.
Next Obligation. intros []; set_solver. Qed.
Definition kProgressKindNames : list (ProgressKind * string) :=
  [(ProgressKind.kAttempted, "ATTEMPTED");
   (ProgressKind.kSpeculative, "SPECULATIVE");
   (ProgressKind.kAcknowledged, "ACKNOWLEDGED");
   (ProgressKind.kCommittedLogical, "COMMITTED_LOGICAL");
   (ProgressKind.kDurable, "DURABLE");
   (ProgressKind.kRecomputable, "RECOMPUTABLE");
   (ProgressKind.kDiscarded, "DISCARDED");
   (ProgressKind.kLost, "LOST")].
#[export] Instance ProgressKind_named : Named ProgressKind := kProgressKindNames.

Module QuiescenceCategory.
Inductive QuiescenceCategory :=
  | kInvalid | kCpuWorkerActivity | kAcceleratorKernels | kAsynchronousCopies | kQueuedDeviceOperations
  | kHostCallbacks | kStorageWrites | kNetworkActivity | kStatePublication | kCompletionPublication
  | kPendingResourceMutation.
End QuiescenceCategory.
Abbreviation QuiescenceCategory := QuiescenceCategory.QuiescenceCategory.
#[export] Instance QuiescenceCategory_eq_dec : EqDecision QuiescenceCategory.
Proof. solve_decision. Defined.
Definition QuiescenceCategory_to_u32 (v : QuiescenceCategory) : Z :=
  match v with
  | QuiescenceCategory.kInvalid => 0
  | QuiescenceCategory.kCpuWorkerActivity => 1
  | QuiescenceCategory.kAcceleratorKernels => 2
  | QuiescenceCategory.kAsynchronousCopies => 3
  | QuiescenceCategory.kQueuedDeviceOperations => 4
  | QuiescenceCategory.kHostCallbacks => 5
  | QuiescenceCategory.kStorageWrites => 6
  | QuiescenceCategory.kNetworkActivity => 7
  | QuiescenceCategory.kStatePublication => 8
  | QuiescenceCategory.kCompletionPublication => 9
  | QuiescenceCategory.kPendingResourceMutation => 10
  end.
#[export] Program Instance QuiescenceCategory_enum : CEnum QuiescenceCategory :=
  {| to_u32 := QuiescenceCategory_to_u32;
     enumerators := [
     QuiescenceCategory.kInvalid; QuiescenceCategory.kCpuWorkerActivity; QuiescenceCategory.kAcceleratorKernels;
     QuiescenceCategory.kAsynchronousCopies; QuiescenceCategory.kQueuedDeviceOperations; QuiescenceCategory.kHostCallbacks;
     QuiescenceCategory.kStorageWrites; QuiescenceCategory.kNetworkActivity; QuiescenceCategory.kStatePublication;
     QuiescenceCategory.kCompletionPublication; QuiescenceCategory.kPendingResourceMutation] |}.
Next Obligation. reflexivity. Qed.
Next Obligation. intros []; set_solver. Qed.
Definition kQuiescenceCategoryNames : list (QuiescenceCategory * string) :=
  [(QuiescenceCategory.kCpuWorkerActivity, "CPU_WORKER_ACTIVITY");
   (QuiescenceCategory.kAcceleratorKernels, "ACCELERATOR_KERNELS");
   (QuiescenceCategory.kAsynchronousCopies, "ASYNCHRONOUS_COPIES");
   (QuiescenceCategory.kQueuedDeviceOperations, "QUEUED_DEVICE_OPERATIONS");
   (QuiescenceCategory.kHostCallbacks, "HOST_CALLBACKS");
   (QuiescenceCategory.kStorageWrites, "STORAGE_WRITES");
   (QuiescenceCategory.kNetworkActivity, "NETWORK_ACTIVITY");
   (QuiescenceCategory.kStatePublication, "STATE_PUBLICATION");
   (QuiescenceCategory.kCompletionPublication, "COMPLETION_PUBLICATION");
   (QuiescenceCategory.kPendingResourceMutation, "PENDING_RESOURCE_MUTATION")].
#[export] Instance QuiescenceCategory_named : Named QuiescenceCategory := kQuiescenceCategoryNames.
(** [preemption_reason_from_string] and [lifecycle_state_from_string]. *)
Definition preemption_reason_from_string (s : string) : option PreemptionReason :=
  value_of s kPreemptionReasonNames.
Definition lifecycle_state_from_string (s : string) : option LifecycleState :=
  value_of s kLifecycleStateNames.
