(* ===== verification/Lifecycle.v ===== *)
(** * The guarded lifecycle ([lifecycle/lifecycle.hpp])

    [LifecycleStateMachine] with its transition table, the throwing and the
    conditional transition, and the order properties its table enforces: which
    states every legal path between two states must cross, and that no legal path
    is longer than the enumeration. *)

From stdpp Require Import base list strings numbers sets.
From Stdlib Require Import ZArith Lia.
From S2P Require Import Prelude Exec Enums.

(** The machine: its single member [state_]. *)
Record LifecycleStateMachine := mkMachine { state_ : LifecycleState }.
#[export] Instance LifecycleStateMachine_eta : Eta LifecycleStateMachine :=
  λ m, mkMachine (state_ m).
#[export] Instance LifecycleStateMachine_eq_dec : EqDecision LifecycleStateMachine.
Proof. solve_decision. Defined.

Module Machine.
Import LifecycleState.

(** The default constructor. *)
Definition init : LifecycleStateMachine := mkMachine kInvalid.

(** The states reachable in one transition; an unlisted edge is illegal. *)
Definition frontier (s : LifecycleState) : list LifecycleState :=
  match s with
  | kInvalid => []
  | kRequested => [kValidatingAuthority; kCancelled; kSuperseded]
  | kValidatingAuthority => [kAssessing; kCancelled; kSuperseded; kFailed]
  | kAssessing => [kDeferred; kWaitingForSafePoint; kQuiescing; kCaptureRequired; kCancelled; kSuperseded; kFailed]
  | kDeferred => [kWaitingForSafePoint; kCancelled; kSuperseded]
  | kWaitingForSafePoint => [kSafePointReached; kCancelled; kSuperseded; kFailed]
  | kSafePointReached => [kQuiescing; kCancelled; kSuperseded]
  | kQuiescing => [kQuiesced; kCancelled; kFailed; kSuperseded]
  | kQuiesced => [kCaptureRequired; kReleasePending; kFailed; kSuperseded]
  | kCaptureRequired => [kCapturingState; kFailed; kSuperseded]
  | kCapturingState => [kStateDurable; kFailed; kSuperseded; kCancelled]
  | kStateDurable => [kReleasePending; kFailed; kSuperseded]
  | kReleasePending => [kReleasing; kFailed; kSuperseded]
  | kReleasing => [kResourcesReleased; kFailed; kSuperseded]
  | kResourcesReleased => [kPreempted; kSuperseded]
  | kPreempted => [kResumePending; kSuperseded]
  | kResumePending => [kRevalidating; kCancelled; kSuperseded]
  | kRevalidating => [kRestoring; kResumeReady; kCancelled; kSuperseded; kFailed]
  | kRestoring => [kResumeReady; kFailed; kCancelled; kSuperseded]
  | kResumeReady => [kResuming; kCancelled; kSuperseded]
  | kResuming => [kResumed; kFailed; kCancelled; kSuperseded]
  | kResumed | kCancelled | kAborted | kFailed | kSuperseded => []
  end.

(** [contains]: linear search in the frontier. *)
Fixpoint contains (f : list LifecycleState) (s : LifecycleState) : bool :=
  match f with
  | [] => false
  | x :: rest => if bool_decide (x = s) then true else contains rest s
  end.

Definition is_allowed (from to : LifecycleState) : bool := contains (frontier from) to.

(** [transition]: throws on an illegal edge, before the assignment. *)
Definition transition (to : LifecycleState) : Exec LifecycleStateMachine unit :=
  m ← get;
  if negb (is_allowed (state_ m) to)
  then throw (throw_invalid_transition (to_string (state_ m)) (to_string to))
  else modify (λ m, m <| state_ := to |>).

(** [try_transition]: the conditional form. *)
Definition try_transition (to : LifecycleState) : Exec LifecycleStateMachine bool :=
  m ← get;
  if negb (is_allowed (state_ m) to) then mret false
  else modify (λ m, m <| state_ := to |>);; mret true.

Definition is_terminal_state (s : LifecycleState) : bool :=
  match s with
  | kCancelled | kAborted | kFailed | kSuperseded | kResumed => true
  | _ => false
  end.
Definition is_terminal (m : LifecycleStateMachine) : bool := is_terminal_state (state_ m).

(** Has the lifecycle committed a durable preempted boundary? *)
Definition is_preempted_durable_state (s : LifecycleState) : bool :=
  match s with
  | kPreempted | kResumePending | kRevalidating | kRestoring
  | kResumeReady | kResuming | kResumed => true
  | _ => false
  end.
Definition is_preempted_durable (m : LifecycleStateMachine) : bool :=
  is_preempted_durable_state (state_ m).

Definition is_durable_commit (s : LifecycleState) : bool :=
  match s with
  | kStateDurable | kResourcesReleased | kPreempted | kResumed => true
  | _ => false
  end.

(** [reset]: an unguarded assignment. *)
Definition reset (s : LifecycleState) (m : LifecycleStateMachine) : LifecycleStateMachine :=
  m <| state_ := s |>.

(** ** Paths of legal transitions *)

(** [path s p t]: legal transitions lead from [s] through the states [p], ending in [t]. *)
Inductive path : LifecycleState → list LifecycleState → LifecycleState → Prop :=
  | path_nil s : path s [] s
  | path_cons s s' p t : is_allowed s s' = true → path s' p t → path s (s' :: p) t.

Lemma contains_elem f s : contains f s = true ↔ s ∈ f.
Proof.
  induction f as [|x f IH]; cbn.
  - split; [done|]. by intros ?%not_elem_of_nil.
  - rewrite elem_of_cons. case_bool_decide as Hx; [by split; [left|]|].
    rewrite IH. split; [by right|]. by intros [->|?].
Qed.

Lemma is_allowed_frontier s t : is_allowed s t = true ↔ t ∈ frontier s.
Proof. apply contains_elem. Qed.

(** The states an exploration from [todo] reaches without entering [gate]. *)
Fixpoint explore (fuel : nat) (gate : LifecycleState → bool) (todo seen : list LifecycleState)
    : list LifecycleState :=
  match fuel with
  | O => seen
  | S fuel =>
    match todo with
    | [] => seen
    | s :: rest =>
      if bool_decide (s ∈ seen) then explore fuel gate rest seen
      else explore fuel gate (filter (λ t, gate t = false) (frontier s) ++ rest) (s :: seen)
    end
  end.

(** A set that no edge leaves except into [gate]. *)
Definition closed_under (gate : LifecycleState → bool) (S : list LifecycleState) : bool :=
  forallb (λ s, forallb (λ t, gate t || bool_decide (t ∈ S)) (frontier s)) S.

(** Does every legal path from [src] to [dst] enter [gate]?  The exploration is only
    a guess: what is checked is that its result is closed and misses [dst]. *)
Definition must_pass (gate : LifecycleState → bool) (src dst : LifecycleState) : bool :=
  let S := explore 200 gate [src] [] in
  bool_decide (src ∈ S) && negb (bool_decide (dst ∈ S)) && closed_under gate S.

Lemma closed_under_path gate S s p t :
  closed_under gate S = true → s ∈ S → path s p t →
  Forall (λ x, gate x = false) p → t ∈ S.
Proof.
  intros Hc Hs Hp. revert Hs. induction Hp as [s|s s' p t Hedge _ IH]; intros Hs Hg; [done|].
  apply Forall_cons in Hg as [Hg Hrest]. apply IH; [|done].
  unfold closed_under in Hc. rewrite forallb_forall in Hc.
  specialize (Hc s (proj1 (list_elem_of_In _ _) Hs)). rewrite forallb_forall in Hc.
  specialize (Hc s' (proj1 (list_elem_of_In _ _) (proj1 (is_allowed_frontier _ _) Hedge))).
  rewrite Hg in Hc. cbn in Hc. by apply bool_decide_eq_true in Hc.
Qed.

Lemma must_pass_sound gate src dst p :
  must_pass gate src dst = true → path src p dst → Exists (λ x, gate x = true) p.
Proof.
  unfold must_pass. intros H Hp. bool_props.
  destruct (Forall_Exists_dec (λ x, gate x = false) (λ x, gate x = true)
    (λ x, match gate x with true => right eq_refl | false => left eq_refl end) p)
    as [Hn|]; [|done].
  exfalso. match goal with Hd : dst ∉ _ |- _ => apply Hd end.
  by eapply closed_under_path.
Qed.

(** Legal edges increase the number of the state, so paths are short. *)
Lemma is_allowed_increases s t : is_allowed s t = true → to_u32 s < to_u32 t.
Proof.
  rewrite is_allowed_frontier. intros Ht.
  assert (Hall : forallb (λ t, to_u32 s <? to_u32 t) (frontier s) = true) by (by destruct s).
  rewrite forallb_forall in Hall.
  specialize (Hall t (proj1 (list_elem_of_In _ _) Ht)). by bool_props.
Qed.

Lemma path_length_measure s p t :
  path s p t → to_u32 s + Z.of_nat (length p) ≤ to_u32 t.
Proof.
  induction 1 as [s|s s' p t Hedge _ IH]; cbn [length]; [lia|].
  apply is_allowed_increases in Hedge. lia.
Qed.

Lemma transition_run to m :
  transition to m =
    if is_allowed (state_ m) to then (inr tt, mkMachine to)
    else (inl (throw_invalid_transition (to_string (state_ m)) (to_string to)), m).
Proof.
  unfold transition, mbind, Exec_bind, get, throw, modify.
  by destruct (is_allowed (state_ m) to).
Qed.

Lemma try_transition_run to m :
  try_transition to m =
    if is_allowed (state_ m) to then (inr true, mkMachine to) else (inr false, m).
Proof.
  unfold try_transition, mbind, Exec_bind, get, modify, mret, Exec_ret.
  by destruct (is_allowed (state_ m) to).
Qed.

(** ** Properties *)

(** [transition] moves the machine exactly along the edges of the table; on any
    other edge it throws [illegal_transition] and leaves the machine unchanged, and
    [try_transition] agrees with it without throwing. *)
Theorem transition_guarded m to :
  (is_allowed (state_ m) to = true ∧
     transition to m = (inr tt, mkMachine to) ∧
     try_transition to m = (inr true, mkMachine to))
  ∨ (is_allowed (state_ m) to = false ∧
     (∃ e, transition to m = (inl e, m) ∧ error_code e = "illegal_transition") ∧
     try_transition to m = (inr false, m)).
Proof.
  rewrite transition_run, try_transition_run.
  destruct (is_allowed (state_ m) to); [by left|right].
  split; [done|]. split; [|done]. by eexists.
Qed.

(** RESUMED is reached from PREEMPTED only through RESUME_PENDING, REVALIDATING,
    RESUME_READY and RESUMING: no legal path skips the resume authority phases. *)
Theorem resumed_only_through_resume_phases p gate :
  gate ∈ [kResumePending; kRevalidating; kResumeReady; kResuming] →
  path kPreempted p kResumed → gate ∈ p.
Proof.
  intros Hgate Hp.
  assert (Hm : must_pass (λ x, bool_decide (x = gate)) kPreempted kResumed = true).
  { rewrite !elem_of_cons, elem_of_nil in Hgate.
    destruct_or! Hgate; subst; try done; vm_compute; reflexivity. }
  apply (must_pass_sound _ _ _ p) in Hm; [|done].
  apply Exists_exists in Hm as [x [Hx E]]. apply bool_decide_eq_true in E. by subst.
Qed.

(** A concrete resume path of the table. *)
Definition resume_path : list LifecycleState :=
  [kResumePending; kRevalidating; kRestoring; kResumeReady; kResuming; kResumed].

Lemma resumed_only_through_resume_phases_witness :
  path kPreempted resume_path kResumed ∧ kRevalidating ∈ resume_path.
Proof.
  assert (Hp : path kPreempted resume_path kResumed)
    by (repeat (apply path_cons; [reflexivity|]); apply path_nil).
  split; [exact Hp|].
  apply (resumed_only_through_resume_phases resume_path kRevalidating); [|exact Hp].
  apply list_elem_of_further, list_elem_of_here.
Defined.

(** From REQUESTED every legal path to PREEMPTED crosses ASSESSING,
    RELEASE_PENDING, RELEASING and RESOURCES_RELEASED, and crosses QUIESCED or
    STATE_DURABLE: resources are never released without a recorded boundary. *)
Theorem preempted_only_after_release p :
  path kRequested p kPreempted →
  kAssessing ∈ p ∧ kReleasePending ∈ p ∧ kReleasing ∈ p ∧ kResourcesReleased ∈ p
  ∧ (kQuiesced ∈ p ∨ kStateDurable ∈ p).
Proof.
  intros Hp.
  assert (Hgate : ∀ g, must_pass (λ x, bool_decide (x = g)) kRequested kPreempted = true → g ∈ p).
  { intros g Hm. apply (must_pass_sound _ _ _ p) in Hm; [|done].
    apply Exists_exists in Hm as [x [Hx E]]. apply bool_decide_eq_true in E. by subst. }
  split_and!; [by apply Hgate; vm_compute..|].
  assert (Hm : must_pass (λ x, bool_decide (x = kQuiesced) || bool_decide (x = kStateDurable))
                 kRequested kPreempted = true) by (by vm_compute).
  apply (must_pass_sound _ _ _ p) in Hm; [|done].
  apply Exists_exists in Hm as [x [Hx E]].
  apply orb_prop in E as [E|E]; apply bool_decide_eq_true in E; subst; auto.
Qed.

Definition preempt_path : list LifecycleState :=
  [kValidatingAuthority; kAssessing; kQuiescing; kQuiesced; kCaptureRequired;
   kCapturingState; kStateDurable; kReleasePending; kReleasing; kResourcesReleased; kPreempted].

Lemma preempted_only_after_release_witness :
  path kRequested preempt_path kPreempted ∧ kReleasing ∈ preempt_path.
Proof.
  assert (Hp : path kRequested preempt_path kPreempted)
    by (repeat (apply path_cons; [reflexivity|]); apply path_nil).
  split; [exact Hp|]. apply (preempted_only_after_release preempt_path Hp).
Defined.

(** The table alone does not force quiescence: it has a legal path from REQUESTED
    to RESOURCES_RELEASED that enters neither QUIESCING nor QUIESCED, through the edge
    from ASSESSING to CAPTURE_REQUIRED. *)
Theorem table_allows_release_without_quiescence :
  ∃ p, path kRequested p kResourcesReleased ∧ (kQuiescing ∉ p) ∧ (kQuiesced ∉ p).
Proof.
  exists [kValidatingAuthority; kAssessing; kCaptureRequired; kCapturingState;
     kStateDurable; kReleasePending; kReleasing; kResourcesReleased].
  split; [|by split; apply (bool_decide_unpack _); vm_compute].
  repeat (apply path_cons; [reflexivity|]). apply path_nil.
Qed.

(** A lifecycle takes at most 25 transitions: every legal edge increases the number
    of the state, so no path of the table cycles. *)
Theorem lifecycle_path_bounded s p t : path s p t → (length p ≤ 25)%nat.
Proof.
  intros Hp. apply path_length_measure in Hp.
  pose proof (to_u32_bounds s). pose proof (to_u32_bounds t) as Ht.
  change (enum_last LifecycleState) with 25 in Ht. lia.
Qed.

Lemma lifecycle_path_bounded_witness : (length preempt_path ≤ 25)%nat.
Proof.
  apply (lifecycle_path_bounded kRequested preempt_path kPreempted).
  repeat (apply path_cons; [reflexivity|]). apply path_nil.
Defined.

(** Exactly the terminal states and the state before any request have no legal
    way out; every other state can still be superseded. *)
Theorem terminal_states_are_final s :
  (frontier s = [] ↔ is_terminal_state s = true ∨ s = kInvalid)
  ∧ (frontier s ≠ [] → is_allowed s kSuperseded = true).
Proof. destruct s; cbn; (split; [split; [auto|intros [?|?]]|]); done. Qed.

End Machine.
