(* ===== verification/Checked.v ===== *)
(** * Checked arithmetic ([util/checked.hpp])

    [checked_add] and [checked_mul] are templates over the integer type; an integer
    type is its range, together with the value the literal [-1] takes in a comparison
    with it ([-1] is converted to the largest value of an unsigned type at least as
    wide as [int]).  The theorems state that both helpers compute the exact result
    when it is representable and reject the operation otherwise. *)

From stdpp Require Import base numbers.
From Stdlib Require Import ZArith Lia.
From S2P Require Import Prelude.

Record IntType := mkIntType {
  limits_min : Z;
  limits_max : Z;
  minus_one : Z
}.

Definition uint64_type : IntType := mkIntType 0 u64_max u64_max.
Definition uint32_type : IntType := mkIntType 0 u32_max u32_max.
Definition uint8_type : IntType := mkIntType 0 u8_max (-1).
Definition int32_type : IntType := mkIntType (-2147483648) 2147483647 (-1).
Definition int64_type : IntType := mkIntType (-9223372036854775808) 9223372036854775807 (-1).

(** The representable values. *)
Definition in_type (T : IntType) (v : Z) : Prop := limits_min T ≤ v ≤ limits_max T.
#[export] Instance in_type_dec T v : Decision (in_type T v).
Proof. unfold in_type. apply _. Defined.

(** The integer types of C++: unsigned from 0, or two's complement. *)
Definition int_type (T : IntType) : Prop :=
  0 < limits_max T ∧
  ((limits_min T = 0 ∧ (minus_one T = limits_max T ∨ minus_one T = -1))
   ∨ (limits_min T = - limits_max T - 1 ∧ minus_one T = -1)).

Definition checked_add (T : IntType) (a b : Z) : option Z :=
  if (0 <? b) && (limits_max T - b <? a) then None
  else if (b <? 0) && (a <? limits_min T - b) then None
  else Some (a + b).

(** Division is C++ division, which truncates towards zero. *)
Definition checked_mul (T : IntType) (a b : Z) : option Z :=
  if (a =? 0) || (b =? 0) then Some 0
  else if (a =? minus_one T) && (b =? limits_min T) then None
  else if (b =? minus_one T) && (a =? limits_min T) then None
  else if 0 <? a then
    if 0 <? b
    then if Z.quot (limits_max T) b <? a then None else Some (a * b)
    else if b <? Z.quot (limits_min T) a then None else Some (a * b)
  else
    if 0 <? b
    then if a <? Z.quot (limits_min T) b then None else Some (a * b)
    else if negb (a =? 0) && (b <? Z.quot (limits_max T) a) then None else Some (a * b).

Definition fits_u32 (v : Z) : bool := v <=? u32_max.
Definition fits_u16 (v : Z) : bool := v <=? u16_max.
Definition fits_u8 (v : Z) : bool := v <=? u8_max.

Lemma quot_lt_pos m b a : 0 ≤ m → 0 < b → Z.quot m b < a ↔ m < a * b.
Proof.
  intros Hm Hb. rewrite Z.quot_div_nonneg by lia. split; intros H.
  - assert (m < b * Z.succ (m / b)) by (apply Z.mul_succ_div_gt; lia). nia.
  - apply Z.div_lt_upper_bound; lia.
Qed.

Lemma quot_gt_neg m b a : m ≤ 0 → 0 < b → a < Z.quot m b ↔ a * b < m.
Proof.
  intros Hm Hb. replace m with (- - m) by lia. rewrite Z.quot_opp_l by lia.
  pose proof (quot_lt_pos (- m) b (- a)). nia.
Qed.

Lemma quot_neg_divisor m a b : 0 ≤ m → a < 0 → b < Z.quot m a ↔ m < a * b.
Proof.
  intros Hm Ha. replace a with (- - a) by lia. rewrite Z.quot_opp_r by lia.
  pose proof (quot_lt_pos m (- a) (- b)). nia.
Qed.

Lemma reject_or_accept (T : IntType) (c : bool) v :
  (c = true ↔ ¬ in_type T v) →
  (if c then None else Some v) = if decide (in_type T v) then Some v else None.
Proof. intros [H1 H2]. destruct c; case_decide; try done; [by destruct H1|by discriminate H2]. Qed.

(** [checked_add] of two values of an integer type is their exact sum when the type
    can represent it, and is rejected otherwise: no overflow is silent. *)
Theorem checked_add_exact T a b :
  int_type T → in_type T a → in_type T b →
  checked_add T a b = if decide (in_type T (a + b)) then Some (a + b) else None.
Proof.
  unfold int_type, in_type. intros HT Ha Hb. unfold checked_add.
  case_decide as Hs; unfold in_type in Hs; case_match; case_code; bool_props; try done; lia.
Qed.

Lemma checked_add_exact_witness :
  checked_add uint32_type 4294967290 10 = None ∧ checked_add int32_type (-5) 3 = Some (-2).
Proof.
  split.
  - rewrite checked_add_exact; [reflexivity|..];
      unfold int_type, in_type; cbn; unfold u32_max; lia.
  - rewrite checked_add_exact; [reflexivity|..]; unfold int_type, in_type; cbn; lia.
Defined.

(** [checked_mul] of two values of an integer type is their exact product when the
    type can represent it, and is rejected otherwise, for unsigned and for
    two's-complement types, negative factors included. *)
Theorem checked_mul_exact T a b :
  int_type T → in_type T a → in_type T b →
  checked_mul T a b = if decide (in_type T (a * b)) then Some (a * b) else None.
Proof.
  unfold int_type, in_type. intros [Hmax HT] Ha Hb. unfold checked_mul.
  destruct (Z.eqb_spec a 0) as [->|Ha0]; [cbn; case_decide; [done|unfold in_type in *; lia]|].
  destruct (Z.eqb_spec b 0) as [->|Hb0].
  { rewrite Z.mul_0_r; cbn; case_decide; [done|unfold in_type in *; lia]. }
  cbn [orb].
  destruct ((a =? minus_one T) && (b =? limits_min T)) eqn:E1.
  { bool_props. case_decide; [|done]. unfold in_type in *. nia. }
  destruct ((b =? minus_one T) && (a =? limits_min T)) eqn:E2.
  { bool_props. case_decide; [|done]. unfold in_type in *. nia. }
  destruct (Z.ltb_spec 0 a), (Z.ltb_spec 0 b).
  - apply reject_or_accept. rewrite Z.ltb_lt, quot_lt_pos by lia. unfold in_type. nia.
  - apply reject_or_accept. rewrite Z.ltb_lt, quot_gt_neg by lia. unfold in_type. nia.
  - apply reject_or_accept. rewrite Z.ltb_lt, quot_gt_neg by lia. unfold in_type. nia.
  - destruct (Z.eqb_spec a 0); [lia|]. cbn [negb andb].
    apply reject_or_accept. rewrite Z.ltb_lt, quot_neg_divisor by lia. unfold in_type. nia.
Qed.

Lemma checked_mul_exact_witness :
  checked_mul int32_type (-65536) (-65536) = None ∧ checked_mul int32_type (-7) 6 = Some (-42)
  ∧ checked_mul int64_type (-1) (-9223372036854775808) = None.
Proof.
  split; [|split]; (rewrite checked_mul_exact; [reflexivity|..]; unfold int_type, in_type; cbn; lia).
Defined.

Lemma fits_u32_spec v : fits_u32 v = true ↔ v ≤ u32_max.
Proof. apply Z.leb_le. Qed.
