(* ===== verification/Bytes.v ===== *)
(** * Bytes

    [std::byte] is the standard library's 256-value type [byte]; a byte is read as an
    unsigned 8-bit integer and a [static_cast<std::uint8_t>] keeps the low 8 bits. *)

From stdpp Require Import base list numbers.
From Stdlib Require Import ZArith Lia.
From Stdlib Require Export Strings.Byte.
From S2P Require Import Prelude.

#[export] Instance byte_eq_dec : EqDecision byte.
Proof. intros x y. apply Byte.byte_eq_dec. Defined.

Definition byte_to_Z (b : byte) : Z := Z.of_N (Byte.to_N b).
Definition byte_of_Z (v : Z) : byte :=
  match Byte.of_N (Z.to_N (Z.land v 255)) with
  | Some b => b
  | None => x00
  end.

Lemma byte_to_Z_range b : 0 ≤ byte_to_Z b < 256.
Proof. unfold byte_to_Z. pose proof (Byte.to_N_bounded b). lia. Qed.

Lemma land_255 v : Z.land v 255 = v mod 256.
Proof. apply (Z.land_ones v 8). lia. Qed.

Lemma byte_to_Z_of_Z v : byte_to_Z (byte_of_Z v) = v mod 256.
Proof.
  unfold byte_to_Z, byte_of_Z. rewrite land_255.
  pose proof (Z.mod_pos_bound v 256 eq_refl) as Hr.
  destruct (Byte.of_N (Z.to_N (v mod 256))) as [b|] eqn:E.
  - apply Byte.to_of_N in E. rewrite E. lia.
  - apply Byte.of_N_None_iff in E. lia.
Qed.

Lemma byte_to_Z_inj a b : byte_to_Z a = byte_to_Z b → a = b.
Proof.
  unfold byte_to_Z. intros H. apply N2Z.inj in H.
  pose proof (Byte.of_to_N a) as Ha. rewrite H, Byte.of_to_N in Ha. by simplify_eq.
Qed.

Lemma byte_of_Z_to_Z b : byte_of_Z (byte_to_Z b) = b.
Proof.
  apply byte_to_Z_inj. rewrite byte_to_Z_of_Z. apply Z.mod_small, byte_to_Z_range.
Qed.

Lemma byte_to_Z_small v : 0 ≤ v < 256 → byte_to_Z (byte_of_Z v) = v.
Proof. intros. rewrite byte_to_Z_of_Z. by apply Z.mod_small. Qed.

(** The little-endian value of a byte sequence, and its inverse at a given length. *)
Fixpoint le_value (bs : list byte) : Z :=
  match bs with
  | [] => 0
  | b :: rest => byte_to_Z b + 256 * le_value rest
  end.

Fixpoint le_bytes (n : nat) (v : Z) : list byte :=
  match n with
  | O => []
  | S n => byte_of_Z v :: le_bytes n (v / 256)
  end.

Lemma length_le_bytes n v : length (le_bytes n v) = n.
Proof. revert v. induction n as [|n IH]; intros v; cbn; [done|]. by rewrite IH. Qed.

Lemma le_value_range bs : 0 ≤ le_value bs < 256 ^ Z.of_nat (length bs).
Proof.
  induction bs as [|b bs IH]; [cbn; lia|]. cbn [le_value length].
  rewrite Nat2Z.inj_succ, Z.pow_succ_r by lia. pose proof (byte_to_Z_range b). lia.
Qed.

Lemma le_value_le_bytes n v :
  0 ≤ v < 256 ^ Z.of_nat n → le_value (le_bytes n v) = v.
Proof.
  revert v. induction n as [|n IH]; intros v Hv; [cbn in *; lia|].
  cbn [le_value le_bytes]. rewrite Nat2Z.inj_succ, Z.pow_succ_r in Hv by lia.
  rewrite IH.
  - rewrite byte_to_Z_of_Z. pose proof (Z.div_mod v 256). lia.
  - split; [apply Z.div_pos; lia|]. apply Z.div_lt_upper_bound; lia.
Qed.

Lemma le_value_inj bs1 bs2 :
  length bs1 = length bs2 → le_value bs1 = le_value bs2 → bs1 = bs2.
Proof.
  revert bs2. induction bs1 as [|b1 bs1 IH]; intros [|b2 bs2] Hl Hv; try done.
  cbn in Hl, Hv. pose proof (byte_to_Z_range b1). pose proof (byte_to_Z_range b2).
  assert (byte_to_Z b1 = byte_to_Z b2 ∧ le_value bs1 = le_value bs2) as [Hb Hr] by lia.
  f_equal; [by apply byte_to_Z_inj|]. apply IH; [lia|done].
Qed.

Lemma le_bytes_le_value n bs : length bs = n → le_bytes n (le_value bs) = bs.
Proof.
  intros <-. apply le_value_inj; [apply length_le_bytes|].
  apply le_value_le_bytes, le_value_range.
Qed.
