(* ===== verification/Crc32.v ===== *)
(** * CRC-32 ([util/crc32.hpp])

    The table-driven checksum of the source, the bit-serial definition it optimises,
    their equivalence, and the detection guarantee the frame and persistence formats
    rest on: any corruption confined to four consecutive bytes changes the checksum. *)

From stdpp Require Import base list numbers.
From Stdlib Require Import ZArith Lia.
From S2P Require Import Prelude Bytes.

Definition kCrc32Polynomial : Z := 0xEDB88320.

(** One iteration of the inner loop: [c = (c & 1u) ? (poly ^ (c >> 1)) : (c >> 1)]. *)
Definition crc32_bit (c : Z) : Z :=
  if negb (Z.land c 1 =? 0) then Z.lxor kCrc32Polynomial (Z.shiftr c 1) else Z.shiftr c 1.

(** The [k < 8] loop. *)
Definition crc32_bits (n : nat) (c : Z) : Z := Nat.iter n crc32_bit c.

(** The table computed once at first use. *)
Definition crc32_table : list Z := crc32_bits 8 <$> seqZ 0 256.

(** The body of the loop over the data. *)
Definition crc32_byte (crc : Z) (b : byte) : Z :=
  Z.lxor (nth (Z.to_nat (Z.land (Z.lxor crc (byte_to_Z b)) 255)) crc32_table 0)
         (Z.shiftr crc 8).

Definition crc32 (data : list byte) : Z :=
  Z.lxor (foldl crc32_byte 0xFFFFFFFF data) 0xFFFFFFFF.

(** The reference: the bytes are shifted in bit by bit, without a table. *)
Definition crc32_reference (data : list byte) : Z :=
  Z.lxor (foldl (λ crc b, crc32_bits 8 (Z.lxor crc (byte_to_Z b))) 0xFFFFFFFF data) 0xFFFFFFFF.

(** ** Bit-level lemmas *)

Lemma lxor_range n a b :
  0 ≤ n → 0 ≤ a < 2 ^ n → 0 ≤ b < 2 ^ n → 0 ≤ Z.lxor a b < 2 ^ n.
Proof.
  intros Hn Ha Hb. assert (H0 : 0 ≤ Z.lxor a b) by (apply Z.lxor_nonneg; lia).
  split; [done|].
  destruct (Z.eq_dec (Z.lxor a b) 0) as [->|Hne]; [lia|].
  destruct (Z.eq_dec a 0) as [->|]; [rewrite Z.lxor_0_l; lia|].
  destruct (Z.eq_dec b 0) as [->|]; [rewrite Z.lxor_0_r; lia|].
  apply Z.log2_lt_pow2; [lia|].
  eapply Z.le_lt_trans; [apply Z.log2_lxor; lia|].
  apply Z.max_lub_lt; apply Z.log2_lt_pow2; lia.
Qed.

Lemma crc32_bit_alt c :
  crc32_bit c = Z.lxor (if Z.testbit c 0 then kCrc32Polynomial else 0) (Z.shiftr c 1).
Proof.
  unfold crc32_bit. change (Z.land c 1) with (Z.land c (Z.ones 1)).
  rewrite Z.land_ones by lia. change (2 ^ 1) with 2. rewrite <- Z.bit0_mod.
  destruct (Z.testbit c 0); cbn; [done|]. by rewrite Z.lxor_0_l.
Qed.

Lemma crc32_bit_linear a b : crc32_bit (Z.lxor a b) = Z.lxor (crc32_bit a) (crc32_bit b).
Proof.
  rewrite !crc32_bit_alt, Z.lxor_spec, Z.shiftr_lxor.
  apply Z.bits_inj'. intros i Hi. rewrite !Z.lxor_spec.
  destruct (Z.testbit a 0), (Z.testbit b 0); cbn [xorb]; rewrite ?Z.bits_0;
    destruct (Z.testbit kCrc32Polynomial i), (Z.testbit (Z.shiftr a 1) i),
      (Z.testbit (Z.shiftr b 1) i); done.
Qed.

Lemma crc32_bits_S n c : crc32_bits (S n) c = crc32_bit (crc32_bits n c).
Proof. done. Qed.

Lemma crc32_bits_linear n a b :
  crc32_bits n (Z.lxor a b) = Z.lxor (crc32_bits n a) (crc32_bits n b).
Proof.
  induction n as [|n IH]; [done|]. by rewrite !crc32_bits_S, IH, crc32_bit_linear.
Qed.

Lemma crc32_bits_add n m c : crc32_bits (n + m) c = crc32_bits n (crc32_bits m c).
Proof. induction n as [|n IH]; [done|]. cbn [Nat.add]. by rewrite !crc32_bits_S, IH. Qed.

Lemma crc32_bit_double v : crc32_bit (2 * v) = v.
Proof.
  rewrite crc32_bit_alt, Z.testbit_even_0, Z.lxor_0_l, Z.shiftr_div_pow2 by lia.
  change (2 ^ 1) with 2. rewrite Z.mul_comm. apply Z.div_mul. lia.
Qed.

(** Bits above the window only move down. *)
Lemma crc32_bits_shifted n v : crc32_bits n (v * 2 ^ Z.of_nat n) = v.
Proof.
  revert v. induction n as [|n IH]; intros v; [cbn; lia|].
  replace (S n) with (1 + n)%nat by lia. rewrite crc32_bits_add.
  replace (v * 2 ^ Z.of_nat (1 + n)) with ((2 * v) * 2 ^ Z.of_nat n).
  - rewrite IH. apply crc32_bit_double.
  - rewrite Nat2Z.inj_add, Z.pow_add_r by lia. change (2 ^ Z.of_nat 1) with 2. lia.
Qed.

Lemma crc32_bit_range c : 0 ≤ c < 2 ^ 32 → 0 ≤ crc32_bit c < 2 ^ 32.
Proof.
  intros Hc. rewrite crc32_bit_alt. apply lxor_range; [lia| |].
  - destruct (Z.testbit c 0); unfold kCrc32Polynomial; lia.
  - rewrite Z.shiftr_div_pow2 by lia. change (2 ^ 1) with 2.
    pose proof (Z.div_mod c 2 ltac:(lia)). pose proof (Z.mod_pos_bound c 2 eq_refl). lia.
Qed.

Lemma crc32_bits_range n c : 0 ≤ c < 2 ^ 32 → 0 ≤ crc32_bits n c < 2 ^ 32.
Proof. intros Hc. induction n; [done|]. rewrite crc32_bits_S. by apply crc32_bit_range. Qed.

(** The bit step loses nothing: the polynomial has its top bit set. *)
Lemma crc32_bit_zero c : 0 ≤ c < 2 ^ 32 → crc32_bit c = 0 → c = 0.
Proof.
  intros Hc. rewrite crc32_bit_alt, Z.shiftr_div_pow2 by lia. change (2 ^ 1) with 2.
  pose proof (Z.bit0_mod c) as Hm. pose proof (Z.div_mod c 2 ltac:(lia)).
  destruct (Z.testbit c 0); cbn in Hm; intros H0.
  - apply Z.lxor_eq in H0. unfold kCrc32Polynomial in H0. lia.
  - rewrite Z.lxor_0_l in H0. lia.
Qed.

Lemma crc32_bits_zero n c : 0 ≤ c < 2 ^ 32 → crc32_bits n c = 0 → c = 0.
Proof.
  intros Hc. induction n as [|n IH]; [done|]. rewrite crc32_bits_S.
  intros H. apply IH. apply crc32_bit_zero in H; [done|]. by apply crc32_bits_range.
Qed.

Lemma crc32_bits_inj n a b :
  0 ≤ a < 2 ^ 32 → 0 ≤ b < 2 ^ 32 → crc32_bits n a = crc32_bits n b → a = b.
Proof.
  intros Ha Hb H. apply Z.lxor_eq. apply (crc32_bits_zero n).
  - by apply lxor_range.
  - by rewrite crc32_bits_linear, H, Z.lxor_nilpotent.
Qed.

(** ** The table computes eight bit steps *)

Lemma crc32_table_lookup i :
  0 ≤ i < 256 → nth (Z.to_nat i) crc32_table 0 = crc32_bits 8 i.
Proof.
  intros Hi. assert (Hl : crc32_table !! Z.to_nat i = Some (crc32_bits 8 i)).
  { unfold crc32_table. rewrite list_lookup_fmap, lookup_seqZ_lt by lia.
    cbn [fmap option_fmap option_map]. by rewrite Z2Nat.id by lia. }
  by apply nth_lookup_Some.
Qed.

Lemma low_high_split x k : 0 ≤ x → 0 ≤ k → x = Z.lxor (x mod 2 ^ k) ((x / 2 ^ k) * 2 ^ k).
Proof.
  intros Hx Hk. rewrite <- Z.shiftl_mul_pow2, <- Z.shiftr_div_pow2, <- Z.land_ones by lia.
  apply Z.bits_inj'. intros i Hi. rewrite Z.lxor_spec, Z.land_spec, Z.shiftl_spec by lia.
  destruct (Z.lt_ge_cases i k).
  - rewrite Z.ones_spec_low, (Z.testbit_neg_r _ (i - k)) by lia.
    by rewrite andb_true_r, xorb_false_r.
  - rewrite Z.ones_spec_high, Z.shiftr_spec by lia. rewrite andb_false_r, xorb_false_l. f_equal. lia.
Qed.

Lemma crc32_bits8_split x :
  0 ≤ x → crc32_bits 8 x = Z.lxor (crc32_bits 8 (Z.land x 255)) (Z.shiftr x 8).
Proof.
  intros Hx. rewrite land_255, Z.shiftr_div_pow2 by lia.
  rewrite (low_high_split x 8) at 1 by lia. rewrite crc32_bits_linear. f_equal.
  apply (crc32_bits_shifted 8).
Qed.

Lemma shiftr_lxor_byte crc b : 0 ≤ crc → Z.shiftr (Z.lxor crc (byte_to_Z b)) 8 = Z.shiftr crc 8.
Proof.
  intros Hc. rewrite Z.shiftr_lxor. pose proof (byte_to_Z_range b).
  rewrite (Z.shiftr_div_pow2 (byte_to_Z b)) by lia.
  change (2 ^ 8) with 256. rewrite (Z.div_small (byte_to_Z b)) by lia. apply Z.lxor_0_r.
Qed.

Lemma byte_in_32 b : 0 ≤ byte_to_Z b < 2 ^ 32.
Proof. pose proof (byte_to_Z_range b). lia. Qed.

Lemma crc32_byte_bits crc b :
  0 ≤ crc < 2 ^ 32 → crc32_byte crc b = crc32_bits 8 (Z.lxor crc (byte_to_Z b)).
Proof.
  intros Hc. pose proof (byte_in_32 b) as Hb.
  pose proof (lxor_range 32 crc (byte_to_Z b) ltac:(lia) Hc Hb) as Hx.
  unfold crc32_byte. rewrite crc32_table_lookup.
  - rewrite (crc32_bits8_split (Z.lxor crc (byte_to_Z b))) by lia. by rewrite shiftr_lxor_byte by lia.
  - rewrite land_255. by apply Z.mod_pos_bound.
Qed.

Lemma crc32_fold_bits data crc :
  0 ≤ crc < 2 ^ 32 →
  foldl crc32_byte crc data
    = foldl (λ crc b, crc32_bits 8 (Z.lxor crc (byte_to_Z b))) crc data
  ∧ 0 ≤ foldl crc32_byte crc data < 2 ^ 32.
Proof.
  revert crc. induction data as [|b data IH]; intros crc Hc; cbn; [done|].
  rewrite crc32_byte_bits by done. apply IH.
  apply crc32_bits_range, lxor_range; [lia|done|apply byte_in_32].
Qed.

Lemma crc32_fold_range data crc :
  0 ≤ crc < 2 ^ 32 → 0 ≤ foldl crc32_byte crc data < 2 ^ 32.
Proof. apply crc32_fold_bits. Qed.

Lemma crc32_in_u32 data : in_u32 (crc32 data).
Proof.
  assert (H : 0 ≤ crc32 data < 2 ^ 32); [|zlia].
  apply lxor_range; [lia|apply crc32_fold_range; lia|lia].
Qed.

(** ** Sensitivity to corruption *)

Lemma le_value_cons_lxor b bs :
  le_value (b :: bs) = Z.lxor (byte_to_Z b) (le_value bs * 2 ^ 8).
Proof.
  cbn [le_value]. pose proof (byte_to_Z_range b) as Hb. pose proof (le_value_range bs) as Hv.
  rewrite (low_high_split (byte_to_Z b + 256 * le_value bs) 8) by lia.
  change (2 ^ 8) with 256.
  rewrite Z.add_comm, (Z.mul_comm 256), Z.add_comm, Z.mod_add, Z.mod_small by lia.
  rewrite Z.div_add, (Z.div_small (byte_to_Z b)) by lia. done.
Qed.

(** Absorbing a window of bytes is absorbing its little-endian value at once. *)
Lemma crc32_window m crc :
  0 ≤ crc < 2 ^ 32 →
  foldl crc32_byte crc m = crc32_bits (8 * length m) (Z.lxor crc (le_value m)).
Proof.
  revert crc. induction m as [|b m IH]; intros crc Hc.
  { cbn. by rewrite Z.lxor_0_r. }
  cbn [foldl length]. rewrite crc32_byte_bits by done. rewrite IH.
  - replace (8 * S (length m))%nat with (8 * length m + 8)%nat by lia.
    rewrite crc32_bits_add. f_equal.
    rewrite le_value_cons_lxor, <- Z.lxor_assoc, (crc32_bits_linear 8 (Z.lxor crc (byte_to_Z b))).
    f_equal. symmetry. apply (crc32_bits_shifted 8).
  - apply crc32_bits_range, lxor_range; [lia|done|apply byte_in_32].
Qed.

Lemma crc32_window_inj m1 m2 crc :
  0 ≤ crc < 2 ^ 32 → length m1 = length m2 → (length m1 ≤ 4)%nat →
  foldl crc32_byte crc m1 = foldl crc32_byte crc m2 → m1 = m2.
Proof.
  intros Hc Hl H4 H. rewrite !crc32_window, <- Hl in H by done.
  assert (Hr : ∀ m : list byte, (length m ≤ 4)%nat → 0 ≤ le_value m < 2 ^ 32).
  { intros m Hm. pose proof (le_value_range m).
    assert (256 ^ Z.of_nat (length m) ≤ 256 ^ 4) by (apply Z.pow_le_mono_r; lia). lia. }
  apply crc32_bits_inj in H; [|apply lxor_range; [lia|done|apply Hr; lia]..].
  apply le_value_inj; [done|].
  assert (Z.lxor crc (Z.lxor crc (le_value m1)) = Z.lxor crc (Z.lxor crc (le_value m2)))
    as Hx by (by rewrite H).
  by rewrite <- !Z.lxor_assoc, Z.lxor_nilpotent, !Z.lxor_0_l in Hx.
Qed.

Lemma crc32_fold_inj data c1 c2 :
  0 ≤ c1 < 2 ^ 32 → 0 ≤ c2 < 2 ^ 32 →
  foldl crc32_byte c1 data = foldl crc32_byte c2 data → c1 = c2.
Proof.
  intros H1 H2 H. rewrite !crc32_window in H by done.
  revert c1 c2 H1 H2 H. induction data as [|b data IH] using rev_ind; intros c1 c2 H1 H2 H.
  { cbn in H. by rewrite !Z.lxor_0_r in H. }
  apply IH; [done..|]. rewrite <- !crc32_window in * by done.
  rewrite !foldl_snoc in H. rewrite !crc32_byte_bits in H by (by apply crc32_fold_range).
  apply crc32_bits_inj in H;
    [|apply lxor_range; [lia|by apply crc32_fold_range|apply byte_in_32]..].
  assert (Hx : ∀ c, c = Z.lxor (Z.lxor c (byte_to_Z b)) (byte_to_Z b)).
  { intros c. by rewrite Z.lxor_assoc, Z.lxor_nilpotent, Z.lxor_0_r. }
  rewrite (Hx (foldl crc32_byte c1 data)), H. symmetry. apply Hx.
Qed.

Lemma crc32_burst pre m1 m2 post :
  length m1 = length m2 → (length m1 ≤ 4)%nat →
  crc32 (pre ++ m1 ++ post) = crc32 (pre ++ m2 ++ post) → m1 = m2.
Proof.
  intros Hl H4 H. unfold crc32 in H.
  assert (Hx : ∀ a b, Z.lxor a 0xFFFFFFFF = Z.lxor b 0xFFFFFFFF → a = b).
  { intros a b E. apply (f_equal (λ z, Z.lxor z 0xFFFFFFFF)) in E.
    by rewrite !Z.lxor_assoc, Z.lxor_nilpotent, !Z.lxor_0_r in E. }
  apply Hx in H. rewrite !foldl_app in H.
  assert (Hp : 0 ≤ foldl crc32_byte 0xFFFFFFFF pre < 2 ^ 32) by (apply crc32_fold_range; lia).
  apply crc32_fold_inj in H; [|by apply crc32_fold_range..].
  by apply crc32_window_inj in H.
Qed.

(** A sequence that ends with the checksum of what precedes it. *)
Definition sealed (bytes : list byte) : Prop :=
  le_value (drop (length bytes - 4) bytes) = crc32 (take (length bytes - 4) bytes).

(** Two sealed sequences that differ only in a window of at most four bytes, before the
    checksum or inside it, are equal. *)
Lemma sealed_burst pre m1 m2 post :
  sealed (pre ++ m1 ++ post) → sealed (pre ++ m2 ++ post) →
  length m1 = length m2 → (length m1 ≤ 4)%nat →
  (4 ≤ length post)%nat ∨ (length (m1 ++ post) ≤ 4)%nat → m1 = m2.
Proof.
  intros Hc1 Hc2 Hl H4 Hwin. unfold sealed in *. revert Hc1 Hc2.
  rewrite !length_app, <- Hl. intros Hc1 Hc2. destruct Hwin as [Hpost|Hpost].
  - set (k := (length post - 4)%nat).
    assert (Hk : (length pre + (length m1 + length post) - 4)%nat = (length pre + (length m1 + k))%nat)
      by (unfold k; lia).
    assert (Ht : ∀ m, length m = length m1 →
      take (length pre + (length m1 + k)) (pre ++ m ++ post) = pre ++ m ++ take k post
      ∧ drop (length pre + (length m1 + k)) (pre ++ m ++ post) = drop k post).
    { intros m Hm. rewrite <- Hm. by rewrite !take_app_add, !drop_app_add. }
    rewrite Hk in Hc1, Hc2. destruct (Ht m1 eq_refl) as [T1 D1], (Ht m2 (eq_sym Hl)) as [T2 D2].
    rewrite T1, D1 in Hc1. rewrite T2, D2 in Hc2.
    apply (crc32_burst pre m1 m2 (take k post)); [done|done|]. congruence.
  - rewrite length_app in Hpost.
    set (n := (length pre + (length m1 + length post) - 4)%nat) in *.
    assert (Hle : (n ≤ length pre)%nat) by (unfold n; lia).
    assert (Ht : ∀ m, take n (pre ++ m ++ post) = take n pre
                      ∧ drop n (pre ++ m ++ post) = drop n pre ++ m ++ post).
    { intros m. rewrite take_app_le, drop_app_le by done. done. }
    destruct (Ht m1) as [T1 D1], (Ht m2) as [T2 D2].
    rewrite T1, D1 in Hc1. rewrite T2, D2 in Hc2. rewrite <- Hc2 in Hc1.
    apply le_value_inj in Hc1; [|rewrite !length_app; lia].
    apply app_inv_head in Hc1. by apply app_inj_2 in Hc1 as [? _].
Qed.

(** ** Properties *)

(** The standard check value of CRC-32. *)
Example crc32_check_value :
  crc32 (byte_of_Z <$> [0x31; 0x32; 0x33; 0x34; 0x35; 0x36; 0x37; 0x38; 0x39]) = 0xCBF43926.
Proof. vm_compute. reflexivity. Qed.

(** C39: the table-driven checksum computes the bit-serial CRC-32 of its input, and the
    result fits 32 bits. *)
Theorem crc32_table_correct data :
  crc32 data = crc32_reference data ∧ in_u32 (crc32 data).
Proof.
  split; [|apply crc32_in_u32]. unfold crc32, crc32_reference. f_equal.
  apply crc32_fold_bits. lia.
Qed.

(** Two messages of the same length that differ only inside a window of at most four
    consecutive bytes have different checksums: such corruption is always detected. *)
Theorem crc32_detects_burst pre m1 m2 post :
  length m1 = length m2 → (length m1 ≤ 4)%nat → m1 ≠ m2 →
  crc32 (pre ++ m1 ++ post) ≠ crc32 (pre ++ m2 ++ post).
Proof. intros Hl H4 Hne H. by apply Hne, (crc32_burst pre m1 m2 post). Qed.

Lemma crc32_detects_burst_witness :
  crc32 ([x50] ++ [x46; x53] ++ [x42]) ≠ crc32 ([x50] ++ [x00; xff] ++ [x42]).
Proof. apply crc32_detects_burst; [reflexivity|cbn; lia|discriminate]. Defined.
