(* ===== verification/Binary.v ===== *)
(** * Byte serialization ([util/binary.hpp])

    [ByteWriter] appends little-endian fields to a buffer, [ByteReader] consumes them
    from a span with a bounds check before every access.  A member function of the
    writer takes the writer last, so that a sequence of calls reads
    [body ▷ u32 a ▷ u64 b].  A reader function that returns [false] in the source
    is [None] here, and leaves the reader where it was. *)

From S2P Require Import Prelude Bytes Checked.
From stdpp Require Import base list strings numbers.
From Stdlib Require Import ZArith Lia.
Open Scope Z_scope.

(** The characters of a [std::string] as bytes. *)
Definition string_bytes (s : string) : list byte := String.list_byte_of_string s.
Definition bytes_string (bs : list byte) : string := String.string_of_list_byte bs.

Lemma bytes_string_bytes s : bytes_string (string_bytes s) = s.
Proof. apply String.string_of_list_byte_of_string. Qed.
Lemma string_bytes_string bs : string_bytes (bytes_string bs) = bs.
Proof. apply String.list_byte_of_string_of_list_byte. Qed.

(** ** Writer *)

Module ByteWriter.
(** The buffer [buf_]. *)
Definition ByteWriter : Type := list byte.

Definition empty : ByteWriter := [].
Definition push_one (v : Z) (w : ByteWriter) : ByteWriter := w ++ [byte_of_Z v].
Definition u8 (v : Z) (w : ByteWriter) : ByteWriter := push_one v w.
Definition u16 (v : Z) (w : ByteWriter) : ByteWriter :=
  w ▷ u8 (Z.land v 0xFF)
    ▷ u8 (Z.land (Z.shiftr v 8) 0xFF).
Definition u32 (v : Z) (w : ByteWriter) : ByteWriter :=
  w ▷ u8 (Z.land v 0xFF)
    ▷ u8 (Z.land (Z.shiftr v 8) 0xFF)
    ▷ u8 (Z.land (Z.shiftr v 16) 0xFF)
    ▷ u8 (Z.land (Z.shiftr v 24) 0xFF).
(** [for (int i = 0; i < 8; ++i) u8((v >> (i * 8)) & 0xFF)]. *)
Definition u64 (v : Z) (w : ByteWriter) : ByteWriter :=
  foldl (λ w i, u8 (Z.land (Z.shiftr v (i * 8)) 0xFF) w) w (seqZ 0 8).
(** Signed values are cast to the unsigned type of their width. *)
Definition i32 (v : Z) (w : ByteWriter) : ByteWriter := u32 (wrap 32 v) w.
Definition i64 (v : Z) (w : ByteWriter) : ByteWriter := u64 (wrap 64 v) w.
Definition bytes (data : list byte) (w : ByteWriter) : ByteWriter := w ++ data.
(** [None] is the [std::length_error] of a string too long for its length field. *)
Definition string_ (s : string) (w : ByteWriter) : option ByteWriter :=
  let n := Z.of_nat (String.length s) in
  if negb (fits_u32 n) then None
  else Some (w ▷ u32 n ▷ bytes (string_bytes s)).
Definition size (w : ByteWriter) : Z := Z.of_nat (length w).

Lemma byte_of_Z_land v : byte_of_Z (Z.land v 0xFF) = byte_of_Z v.
Proof.
  unfold byte_of_Z. rewrite <- Z.land_assoc. by change (Z.land 255 255) with 255.
Qed.

Lemma shiftr_byte v k k' : k' = 8 + k → 0 ≤ k → Z.shiftr v k' = Z.shiftr v k / 256.
Proof.
  intros -> Hk. rewrite Z.add_comm, <- Z.shiftr_shiftr, (Z.shiftr_div_pow2 _ 8) by lia. done.
Qed.

Lemma u32_app v w : u32 v w = w ++ le_bytes 4 v.
Proof.
  unfold u32, u8, push_one. rewrite !byte_of_Z_land, <- !app_assoc. f_equal. cbn.
  rewrite (shiftr_byte v 16 24), (shiftr_byte v 8 16), (shiftr_byte v 0 8), Z.shiftr_0_r by lia. done.
Qed.

Lemma u16_app v w : u16 v w = w ++ le_bytes 2 v.
Proof.
  unfold u16, u8, push_one. rewrite !byte_of_Z_land, <- !app_assoc. f_equal. cbn.
  rewrite (shiftr_byte v 0 8), Z.shiftr_0_r by lia. done.
Qed.

Lemma u64_app v w : u64 v w = w ++ le_bytes 8 v.
Proof.
  unfold u64, u8, push_one. change (seqZ 0 8) with [0;1;2;3;4;5;6;7].
  cbn [foldl]. rewrite !byte_of_Z_land, <- !app_assoc. f_equal. cbn [app le_bytes].
  change (0 * 8) with 0; change (1 * 8) with 8; change (2 * 8) with 16; change (3 * 8) with 24;
    change (4 * 8) with 32; change (5 * 8) with 40; change (6 * 8) with 48; change (7 * 8) with 56.
  rewrite (shiftr_byte v 48 56), (shiftr_byte v 40 48), (shiftr_byte v 32 40), (shiftr_byte v 24 32),
    (shiftr_byte v 16 24), (shiftr_byte v 8 16), (shiftr_byte v 0 8), Z.shiftr_0_r by lia. done.
Qed.

Lemma u8_app v w : u8 v w = w ++ le_bytes 1 v.
Proof. done. Qed.

Lemma bytes_app data w : bytes data w = w ++ data.
Proof. done. Qed.

Lemma string_app s w :
  Z.of_nat (String.length s) ≤ u32_max →
  string_ s w = Some (w ++ le_bytes 4 (Z.of_nat (String.length s)) ++ string_bytes s).
Proof.
  intros H. unfold string_. rewrite (proj2 (fits_u32_spec _) H). cbn [negb].
  by rewrite u32_app, bytes_app, app_assoc.
Qed.

End ByteWriter.

(** Normalises a buffer to the concatenation of its fields. *)
Create Rewrite HintDb writer.
#[export] Hint Rewrite ByteWriter.u8_app ByteWriter.u16_app ByteWriter.u32_app
  ByteWriter.u64_app ByteWriter.bytes_app : writer.
(** Rocq's [autorewrite] closure of the writer calls, with the appends associated to the right. *)
Ltac norm_writer := autorewrite with writer; rewrite <- ?app_assoc.

(** ** Reader *)

Record ByteReader := mkReader { data_ : list byte; pos_ : nat }.
#[export] Instance ByteReader_eta : Eta ByteReader := λ r, mkReader (data_ r) (pos_ r).

Module Reader.
(** [explicit ByteReader(std::span<const std::byte> data)]. *)
Definition of_span (data : list byte) : ByteReader := mkReader data 0.
Definition empty (r : ByteReader) : bool := (length (data_ r) <=? pos_ r)%nat.
Definition remaining (r : ByteReader) : nat := (length (data_ r) - pos_ r)%nat.
Definition at_end (r : ByteReader) : bool := (pos_ r =? length (data_ r))%nat.
Definition remaining_span (r : ByteReader) : list byte := drop (pos_ r) (data_ r).

(** The accumulation loop [v |= data_[pos_ + i] << (i * 8)] for [i < n]. *)
Definition combine (n : nat) (r : ByteReader) : Z :=
  foldl (λ v i, Z.lor v (Z.shiftl (byte_to_Z (nth (pos_ r + i) (data_ r) x00)) (Z.of_nat i * 8)))
    0 (seq 0 n).

Definition read_le (n : nat) (r : ByteReader) : option (Z * ByteReader) :=
  if (remaining r <? n)%nat then None
  else Some (combine n r, r <| pos_ := (pos_ r + n)%nat |>).

Definition u8 (r : ByteReader) : option (Z * ByteReader) :=
  if (remaining r <? 1)%nat then None
  else Some (byte_to_Z (nth (pos_ r) (data_ r) x00), r <| pos_ := (pos_ r + 1)%nat |>).
Definition u16 (r : ByteReader) : option (Z * ByteReader) :=
  if (remaining r <? 2)%nat then None
  else
    let lo := byte_to_Z (nth (pos_ r) (data_ r) x00) in
    let hi := byte_to_Z (nth (pos_ r + 1) (data_ r) x00) in
    Some (Z.lor (Z.shiftl hi 8) lo, r <| pos_ := (pos_ r + 2)%nat |>).
Definition u32 (r : ByteReader) : option (Z * ByteReader) := read_le 4 r.
Definition u64 (r : ByteReader) : option (Z * ByteReader) := read_le 8 r.
(** [static_cast] of an unsigned value to the signed type of its width. *)
Definition to_signed (w v : Z) : Z := if v <? 2 ^ (w - 1) then v else v - 2 ^ w.
Definition i32 (r : ByteReader) : option (Z * ByteReader) :=
  match u32 r with Some (v, r') => Some (to_signed 32 v, r') | None => None end.
Definition i64 (r : ByteReader) : option (Z * ByteReader) :=
  match u64 r with Some (v, r') => Some (to_signed 64 v, r') | None => None end.
Definition bytes (n : nat) (r : ByteReader) : option (list byte * ByteReader) :=
  if (remaining r <? n)%nat then None
  else Some (take n (drop (pos_ r) (data_ r)), r <| pos_ := (pos_ r + n)%nat |>).
(** The value read, or none, and the reader it leaves: a length that does not fit the
    rest of the span is rejected after the length field was consumed. *)
Definition string_ (r : ByteReader) : option string * ByteReader :=
  match u32 r with
  | None => (None, r)
  | Some (n, r1) =>
    if negb (fits_u32 n) then (None, r1)
    else if Z.of_nat (remaining r1) <? n then (None, r1)
    else
      let len := Z.to_nat n in
      (Some (bytes_string (take len (drop (pos_ r1) (data_ r1)))),
       r1 <| pos_ := (pos_ r1 + len)%nat |>)
  end.
(** The value [u32] reads from a fresh reader over a span. *)
Definition read_u32_at (span : list byte) : option Z := fst <$> u32 (of_span span).
End Reader.

(** [bytes.subspan(off, n)]. *)
Definition subspan (off n : nat) (bytes : list byte) : list byte := take n (drop off bytes).

(** ** Reader lemmas *)

Module ReaderLemmas.
Import Reader.

Lemma lor_shiftl_disjoint a b k :
  0 ≤ k → 0 ≤ a < 2 ^ k → 0 ≤ b → Z.lor a (Z.shiftl b k) = a + b * 2 ^ k.
Proof.
  intros Hk Ha Hb. pose proof (Z.add_lor_land a (Z.shiftl b k)) as H.
  assert (Z.land a (Z.shiftl b k) = 0) as H0.
  { apply Z.bits_inj'. intros i Hi. rewrite Z.land_spec, Z.bits_0, Z.shiftl_spec by lia.
    destruct (Z.lt_ge_cases i k).
    - rewrite (Z.testbit_neg_r _ (i - k)) by lia. apply andb_false_r.
    - destruct (Z.eq_dec a 0) as [->|]; [by rewrite Z.bits_0|].
      rewrite (Z.bits_above_log2 a i); [done|lia|].
      eapply Z.lt_le_trans; [|done]. apply Z.log2_lt_pow2; lia. }
  rewrite H0, Z.shiftl_mul_pow2 in H by lia. rewrite Z.shiftl_mul_pow2 by lia. lia.
Qed.

Lemma le_value_snoc bs b :
  le_value (bs ++ [b]) = le_value bs + byte_to_Z b * 2 ^ (Z.of_nat (length bs) * 8).
Proof.
  induction bs as [|c bs IH]; [cbn; lia|].
  cbn [app le_value length]. rewrite IH, Nat2Z.inj_succ, Z.mul_succ_l, Z.pow_add_r by lia.
  change (2 ^ 8) with 256. lia.
Qed.

Lemma pow_256 n : 256 ^ Z.of_nat n = 2 ^ (Z.of_nat n * 8).
Proof. rewrite Z.mul_comm, Z.pow_mul_r by lia. done. Qed.

(** The shift-and-or loop is the little-endian value of the bytes at the position. *)
Lemma combine_le_value n r :
  (pos_ r + n ≤ length (data_ r))%nat →
  combine n r = le_value (take n (drop (pos_ r) (data_ r))).
Proof.
  induction n as [|n IH]; intros Hn; [done|].
  unfold combine. rewrite seq_S, foldl_snoc. fold (combine n r). rewrite IH by lia.
  destruct (lookup_lt_is_Some_2 (data_ r) (pos_ r + n)) as [b Hb]; [lia|].
  rewrite (nth_lookup_Some _ _ _ _ Hb).
  assert (Hl : length (take n (drop (pos_ r) (data_ r))) = n)
    by (rewrite length_take, length_drop; lia).
  rewrite lor_shiftl_disjoint.
  - rewrite (take_S_r _ _ b), le_value_snoc by (by rewrite lookup_drop). by rewrite Hl.
  - lia.
  - pose proof (le_value_range (take n (drop (pos_ r) (data_ r)))) as Hr.
    by rewrite Hl, pow_256 in Hr.
  - pose proof (byte_to_Z_range b). lia.
Qed.

(** Reading is bounds-checked: a value is returned exactly when enough bytes remain. *)
Lemma read_le_spec n r :
  (pos_ r ≤ length (data_ r))%nat →
  read_le n r =
    if (length (remaining_span r) <? n)%nat then None
    else Some (le_value (take n (remaining_span r)), mkReader (data_ r) (pos_ r + n)).
Proof.
  intros Hp. unfold read_le, remaining, remaining_span. rewrite length_drop.
  destruct (Nat.ltb_spec (length (data_ r) - pos_ r) n); [done|].
  by rewrite combine_le_value by lia.
Qed.

(** Reading at a field written by [ByteWriter] returns the field. *)
Lemma read_le_app n r v rest :
  (pos_ r ≤ length (data_ r))%nat →
  remaining_span r = le_bytes n v ++ rest → 0 ≤ v < 256 ^ Z.of_nat n →
  read_le n r = Some (v, mkReader (data_ r) (pos_ r + n))
  ∧ remaining_span (mkReader (data_ r) (pos_ r + n)) = rest
  ∧ (pos_ r + n ≤ length (data_ r))%nat.
Proof.
  intros Hp Hr Hv. rewrite read_le_spec, Hr by done.
  assert (Hlen : length (remaining_span r) = (n + length rest)%nat)
    by (by rewrite Hr, length_app, length_le_bytes).
  rewrite length_app, length_le_bytes.
  destruct (Nat.ltb_spec (n + length rest) n); [lia|].
  rewrite take_app_length_eq, le_value_le_bytes by (done || by rewrite length_le_bytes).
  split_and!; [done| |].
  - unfold remaining_span in *. cbn. rewrite <- drop_drop, Hr.
    apply drop_app_length_eq. by rewrite length_le_bytes.
  - unfold remaining_span in Hlen. rewrite length_drop in Hlen. lia.
Qed.

(** What a successful read tells. *)
Lemma read_le_inv n r v r' :
  (pos_ r ≤ length (data_ r))%nat → read_le n r = Some (v, r') →
  r' = mkReader (data_ r) (pos_ r + n) ∧ (pos_ r + n ≤ length (data_ r))%nat
  ∧ 0 ≤ v < 256 ^ Z.of_nat n.
Proof.
  intros Hp. rewrite read_le_spec by done. unfold remaining_span. rewrite length_drop.
  destruct (Nat.ltb_spec (length (data_ r) - pos_ r) n); [done|]. intros E.
  injection E as <- <-. split_and!; [done|lia|..];
    pose proof (le_value_range (take n (drop (pos_ r) (data_ r)))) as Hr;
    rewrite length_take, length_drop, Nat.min_l in Hr by lia; lia.
Qed.

Lemma u8_read_le r : u8 r = read_le 1 r.
Proof.
  unfold u8, read_le, combine. cbn [seq foldl].
  by rewrite Nat.add_0_r, Z.lor_0_l, Z.shiftl_0_r.
Qed.

Lemma u16_read_le r : u16 r = read_le 2 r.
Proof.
  unfold u16, read_le, combine. cbn [seq foldl].
  by rewrite Nat.add_0_r, Z.lor_0_l, Z.shiftl_0_r, Z.lor_comm.
Qed.

Lemma read_u32_at_spec span :
  read_u32_at span = if (length span <? 4)%nat then None else Some (le_value (take 4 span)).
Proof.
  unfold read_u32_at, u32. rewrite read_le_spec by (cbn; lia).
  unfold remaining_span. cbn [data_ pos_ of_span]. rewrite drop_0.
  by destruct (length span <? 4)%nat.
Qed.

Lemma read_u32_at_le_bytes v : in_u32 v → read_u32_at (le_bytes 4 v) = Some v.
Proof.
  intros Hv. rewrite read_u32_at_spec, length_le_bytes. cbn [Nat.ltb Nat.leb].
  rewrite take_ge by (by rewrite length_le_bytes).
  rewrite le_value_le_bytes; [done|]. change (256 ^ Z.of_nat 4) with 4294967296. zlia.
Qed.

End ReaderLemmas.

(** ** Properties: sequences of fields *)

Module Fields.
Import ReaderLemmas.

(** A field call on the writer, with its argument. *)
Inductive field :=
  | F8 (v : Z) | F16 (v : Z) | F32 (v : Z) | F64 (v : Z) | FStr (s : string).
(** The matching call on the reader. *)
Inductive shape := S8 | S16 | S32 | S64 | SStr.

Definition shape_of (f : field) : shape :=
  match f with F8 _ => S8 | F16 _ => S16 | F32 _ => S32 | F64 _ => S64 | FStr _ => SStr end.

(** The argument has the C++ type of the parameter. *)
Definition field_wf (f : field) : Prop :=
  match f with
  | F8 v => 0 ≤ v < 256 ^ 1
  | F16 v => 0 ≤ v < 256 ^ 2
  | F32 v => 0 ≤ v < 256 ^ 4
  | F64 v => 0 ≤ v < 256 ^ 8
  | FStr s => Z.of_nat (String.length s) ≤ u32_max
  end.

Definition write_field (f : field) (w : ByteWriter.ByteWriter) : option ByteWriter.ByteWriter :=
  match f with
  | F8 v => Some (ByteWriter.u8 v w)
  | F16 v => Some (ByteWriter.u16 v w)
  | F32 v => Some (ByteWriter.u32 v w)
  | F64 v => Some (ByteWriter.u64 v w)
  | FStr s => ByteWriter.string_ s w
  end.
Fixpoint write_fields (fs : list field) (w : ByteWriter.ByteWriter) : option ByteWriter.ByteWriter :=
  match fs with
  | [] => Some w
  | f :: rest => w' ← write_field f w; write_fields rest w'
  end.

Definition read_field (sh : shape) (r : ByteReader) : option (field * ByteReader) :=
  match sh with
  | S8 => '(v, r') ← Reader.u8 r; Some (F8 v, r')
  | S16 => '(v, r') ← Reader.u16 r; Some (F16 v, r')
  | S32 => '(v, r') ← Reader.u32 r; Some (F32 v, r')
  | S64 => '(v, r') ← Reader.u64 r; Some (F64 v, r')
  | SStr => match Reader.string_ r with (Some s, r') => Some (FStr s, r') | (None, _) => None end
  end.
Fixpoint read_fields (shs : list shape) (r : ByteReader) : option (list field * ByteReader) :=
  match shs with
  | [] => Some ([], r)
  | sh :: rest =>
    '(f, r') ← read_field sh r; '(fs, r'') ← read_fields rest r'; Some (f :: fs, r'')
  end.

(** The bytes one call appends. *)
Definition field_bytes (f : field) : list byte :=
  match f with
  | F8 v => le_bytes 1 v
  | F16 v => le_bytes 2 v
  | F32 v => le_bytes 4 v
  | F64 v => le_bytes 8 v
  | FStr s => le_bytes 4 (Z.of_nat (String.length s)) ++ string_bytes s
  end.

Lemma length_string_bytes s : length (string_bytes s) = String.length s.
Proof.
  unfold string_bytes, String.list_byte_of_string. rewrite length_map.
  induction s as [|c s IH]; cbn; [done|]. by rewrite IH.
Qed.

Lemma write_field_bytes f w : field_wf f → write_field f w = Some (w ++ field_bytes f).
Proof.
  destruct f; cbn; intros Hf; norm_writer; try done. by apply ByteWriter.string_app.
Qed.

Lemma write_fields_bytes fs w :
  Forall field_wf fs → write_fields fs w = Some (w ++ (fs ≫= field_bytes)).
Proof.
  revert w. induction fs as [|f fs IH]; intros w Hf; cbn.
  - by rewrite app_nil_r.
  - apply list.Forall_cons in Hf as [Hf Hfs]. rewrite write_field_bytes by done. cbn.
    rewrite IH by done. by rewrite <- app_assoc.
Qed.

(** A reader whose remaining bytes start with a field consumes exactly that field. *)
Lemma read_field_app f r rest :
  field_wf f → (pos_ r ≤ length (data_ r))%nat →
  Reader.remaining_span r = field_bytes f ++ rest →
  ∃ r', read_field (shape_of f) r = Some (f, r') ∧ data_ r' = data_ r
    ∧ Reader.remaining_span r' = rest ∧ (pos_ r' ≤ length (data_ r'))%nat.
Proof.
  intros Hf Hp Hr. destruct f as [v|v|v|v|s]; cbn [shape_of read_field field_bytes field_wf] in *.
  1-4: rewrite ?u8_read_le, ?u16_read_le; unfold Reader.u32, Reader.u64;
       edestruct read_le_app as (E & Hrest & Hp'); [exact Hp|exact Hr|exact Hf|];
       rewrite E; eexists; split_and!; try done.
  rewrite <- app_assoc in Hr.
  edestruct (read_le_app 4) as (E & Hrest & Hp'); [exact Hp|exact Hr|zlia|].
  unfold Reader.string_, Reader.u32. rewrite E.
  rewrite (proj2 (fits_u32_spec _) Hf). cbn [negb].
  assert (Hrem : Reader.remaining (mkReader (data_ r) (pos_ r + 4))
                 = (String.length s + length rest)%nat).
  { unfold Reader.remaining. rewrite <- length_drop. unfold Reader.remaining_span in Hrest.
    by rewrite Hrest, length_app, length_string_bytes. }
  rewrite Hrem. destruct (Z.ltb_spec (Z.of_nat (String.length s + length rest))
    (Z.of_nat (String.length s))); [lia|].
  rewrite Nat2Z.id. unfold Reader.remaining_span in Hrest. cbn [data_ pos_] in *. rewrite Hrest.
  rewrite take_app_length_eq, bytes_string_bytes by (by rewrite length_string_bytes).
  eexists. split_and!; [done|done| |].
  - unfold Reader.remaining_span. cbn. rewrite <- drop_drop, Hrest.
    apply drop_app_length_eq. by rewrite length_string_bytes.
  - apply (f_equal length) in Hrest. rewrite length_drop, length_app, length_string_bytes in Hrest.
    cbn. lia.
Qed.

Lemma read_field_inv sh r f r' :
  (pos_ r ≤ length (data_ r))%nat → read_field sh r = Some (f, r') →
  data_ r' = data_ r ∧ (pos_ r ≤ pos_ r' ≤ length (data_ r))%nat ∧ field_wf f ∧ shape_of f = sh.
Proof.
  intros Hp. destruct sh; cbn [read_field];
    rewrite ?u8_read_le, ?u16_read_le; unfold Reader.u32, Reader.u64.
  1-4: match goal with |- context [Reader.read_le ?n ?r0] =>
         destruct (Reader.read_le n r0) as [[v r1]|] eqn:E; [|done] end;
       cbn; intros H; injection H as <- <-; apply read_le_inv in E as (-> & Hle & Hv); [|done];
       cbn in *; split_and!; try done; lia.
  unfold Reader.string_, Reader.u32. destruct (Reader.read_le 4 r) as [[n r1]|] eqn:E; [|done].
  apply read_le_inv in E as (-> & Hle & Hn); [|done].
  destruct (fits_u32 n) eqn:Hf; [|done]. cbn [negb]. apply fits_u32_spec in Hf.
  destruct (Z.ltb_spec (Z.of_nat (Reader.remaining (mkReader (data_ r) (pos_ r + 4)))) n); [done|].
  intros Heq. injection Heq as <- <-. unfold Reader.remaining in *. cbn in *.
  split_and!; [done|lia|lia| |done].
  rewrite <- length_string_bytes, string_bytes_string, length_take. lia.
Qed.

(** Every sequence of writer calls is undone by the same sequence of reader calls: the
    values come back in order and the reader ends at the end of the buffer. *)
Theorem fields_roundtrip fs :
  Forall field_wf fs →
  ∃ buf r, write_fields fs ByteWriter.empty = Some buf
    ∧ read_fields (shape_of <$> fs) (Reader.of_span buf) = Some (fs, r)
    ∧ Reader.at_end r = true.
Proof.
  intros Hf. rewrite write_fields_bytes by done. cbn [ByteWriter.empty app].
  assert (Hgen : ∀ r, (pos_ r ≤ length (data_ r))%nat →
    Reader.remaining_span r = (fs ≫= field_bytes) →
    ∃ r', read_fields (shape_of <$> fs) r = Some (fs, r') ∧ Reader.at_end r' = true).
  { induction Hf as [|f fs Hf Hfs IH]; intros r Hp Hr; cbn.
    - exists r. split; [done|]. unfold Reader.at_end. apply Nat.eqb_eq.
      apply (f_equal length) in Hr. unfold Reader.remaining_span in Hr.
      rewrite length_drop in Hr. cbn in Hr. lia.
    - destruct (read_field_app f r _ Hf Hp Hr) as (r1 & E & Hd & Hrest & Hp1).
      rewrite E. cbn. destruct (IH r1 Hp1 Hrest) as (r2 & E2 & Hend).
      exists r2. by rewrite E2. }
  destruct (Hgen (Reader.of_span (fs ≫= field_bytes))) as (r & E & Hend);
    [cbn; lia|done|]. eauto.
Qed.

Lemma fields_roundtrip_witness :
  ∃ buf r, write_fields [F32 1; FStr "ok"; F64 u64_max] ByteWriter.empty = Some buf
    ∧ read_fields [S32; SStr; S64] (Reader.of_span buf) = Some ([F32 1; FStr "ok"; F64 u64_max], r)
    ∧ Reader.at_end r = true.
Proof.
  apply (fields_roundtrip [F32 1; FStr "ok"; F64 u64_max]).
  repeat constructor; cbn; zlia.
Defined.

(** The reader never leaves its span: a call either fails and returns no value, or
    advances within the data it was given. *)
Theorem read_fields_in_bounds shs r fs r' :
  (pos_ r ≤ length (data_ r))%nat → read_fields shs r = Some (fs, r') →
  data_ r' = data_ r ∧ (pos_ r ≤ pos_ r' ≤ length (data_ r))%nat
  ∧ Forall field_wf fs ∧ shape_of <$> fs = shs.
Proof.
  revert r fs r'. induction shs as [|sh shs IH]; intros r fs r' Hp E; cbn in E.
  - injection E as <- <-. repeat split; try done; lia.
  - destruct (read_field sh r) as [[f r1]|] eqn:E1; [|done]. cbn in E.
    destruct (read_fields shs r1) as [[fs1 r2]|] eqn:E2; [|done]. injection E as <- <-.
    destruct (read_field_inv sh r f r1 Hp E1) as (Hd & Hle & Hwf & Hsh).
    rewrite <- Hd in Hle. destruct (IH r1 fs1 r2 ltac:(lia) E2) as (Hd2 & Hle2 & Hwf2 & Hsh2).
    rewrite Hd in *. split_and!; [done|lia|lia|by constructor|cbn; by rewrite Hsh, Hsh2].
Qed.

Lemma read_fields_in_bounds_witness :
  ∃ fs r', read_fields [S16; S8] (Reader.of_span [x01; x02; x03]) = Some (fs, r')
    ∧ (pos_ r' ≤ 3)%nat ∧ Forall field_wf fs.
Proof.
  eexists _, _. split; [reflexivity|].
  destruct (read_fields_in_bounds [S16; S8] (Reader.of_span [x01; x02; x03]) _ _
    ltac:(cbn; lia) eq_refl) as (_ & [_ H] & Hw & _).
  split; [exact H|exact Hw].
Defined.

End Fields.
