(* ===== verification/Parse.v ===== *)
(** * Decoders

    The decoders of the persistence format and of the wire protocol read fields one
    after the other and may return early with an error.  [Parse I E A] is such a
    decoder over an input state [I].  The two judgements below compose along [≫=]:
    [parses p bs x] says that [p] consumes exactly the bytes [bs] and returns [x];
    [yields p P] says that whatever [p] returns satisfies [P]. *)

From S2P Require Import Prelude Bytes Binary Identity Enums.
From stdpp Require Import base list numbers.
From Stdlib Require Import ZArith Lia.
Open Scope Z_scope.

Definition Parse (I E A : Type) : Type := I → E + (A * I).

#[export] Instance Parse_ret {I E} : MRet (Parse I E) := λ A x s, inr (x, s).
#[export] Instance Parse_bind {I E} : MBind (Parse I E) := λ A B f p s,
  match p s with
  | inr (x, s') => f x s'
  | inl e => inl e
  end.
(** [return fail(e)]. *)
Definition pfail {I E A} (e : E) : Parse I E A := λ _, inl e.

(** An input: the bytes still unread, whether it is within its bounds, and whether no
    read has failed so far. *)
Class Input (I : Type) := {
  unread : I → list byte;
  in_bounds : I → Prop;
  healthy : I → bool
}.

Section judgements.
Context {I E : Type} `{Input I}.

Definition parses {A} (p : Parse I E A) (bs : list byte) (x : A) : Prop :=
  ∀ s rest, in_bounds s → healthy s = true → unread s = bs ++ rest →
  ∃ s', p s = inr (x, s') ∧ in_bounds s' ∧ healthy s' = true ∧ unread s' = rest.

Definition yields {A} (p : Parse I E A) (P : A → Prop) : Prop :=
  ∀ s x s', in_bounds s → p s = inr (x, s') → P x ∧ in_bounds s'.

Lemma parses_ret {A} (x : A) : parses (mret x) [] x.
Proof. intros s rest Hb Hh Hu. exists s. by split_and!. Qed.

Lemma parses_bind {A B} (p : Parse I E A) (f : A → Parse I E B) bs1 bs2 x y :
  parses p bs1 x → parses (f x) bs2 y → parses (p ≫= f) (bs1 ++ bs2) y.
Proof.
  intros Hp Hf s rest Hb Hh Hu. rewrite <- app_assoc in Hu.
  destruct (Hp s _ Hb Hh Hu) as (s1 & E1 & Hb1 & Hh1 & Hu1).
  destruct (Hf s1 _ Hb1 Hh1 Hu1) as (s2 & E2 & Hrest).
  exists s2. split; [|done]. unfold mbind, Parse_bind. by rewrite E1.
Qed.

(** The last call of a decoder, without a remainder to append. *)
Lemma parses_bind_last {A B} (p : Parse I E A) (f : A → Parse I E B) bs x y :
  parses p bs x → parses (f x) [] y → parses (p ≫= f) bs y.
Proof. intros Hp Hf. rewrite <- (app_nil_r bs). by apply (parses_bind p f bs [] x y). Qed.

Lemma yields_ret {A} (x : A) (P : A → Prop) : P x → yields (mret x) P.
Proof. intros HP s y s' Hb Heq. injection Heq as <- <-. done. Qed.

Lemma yields_bind {A B} (p : Parse I E A) (f : A → Parse I E B) (P : A → Prop) (Q : B → Prop) :
  yields p P → (∀ x, P x → yields (f x) Q) → yields (p ≫= f) Q.
Proof.
  intros Hp Hf s y s' Hb. unfold mbind, Parse_bind.
  destruct (p s) as [e|[x s1]] eqn:E1; [done|].
  destruct (Hp s x s1 Hb E1) as [HP Hb1]. intros E2. by apply (Hf x HP s1 y s').
Qed.

Lemma yields_fail {A} (e : E) (P : A → Prop) : yields (pfail e) P.
Proof. by intros s x s' _ ?. Qed.

Lemma yields_weaken {A} (p : Parse I E A) (P Q : A → Prop) :
  (∀ x, P x → Q x) → yields p P → yields p Q.
Proof. intros HPQ Hp s x s' Hb E1. destruct (Hp s x s' Hb E1). auto. Qed.

End judgements.

(** ** Booleans on the wire *)

(** [b ? 1 : 0] and [v != 0]. *)
Definition bool_to_u8 (b : bool) : Z := if b then 1 else 0.
Definition u8_to_bool (v : Z) : bool := negb (v =? 0).

Lemma u8_to_bool_to_u8 b : u8_to_bool (bool_to_u8 b) = b.
Proof. by destruct b. Qed.

Lemma bool_to_u8_range b : 0 ≤ bool_to_u8 b < 256 ^ Z.of_nat 1.
Proof. destruct b; cbn; lia. Qed.

(** ** Ranges of the field types *)

Lemma in_u64_256 v : in_u64 v ↔ 0 ≤ v < 256 ^ Z.of_nat 8.
Proof. change (256 ^ Z.of_nat 8) with 18446744073709551616. zlia. Qed.

Lemma in_u32_256 v : in_u32 v ↔ 0 ≤ v < 256 ^ Z.of_nat 4.
Proof. change (256 ^ Z.of_nat 4) with 4294967296. zlia. Qed.

Lemma to_u32_in_u32 {E} `{CEnum E} (e : E) : enum_last E ≤ u32_max → in_u32 (to_u32 e).
Proof. intros. pose proof (to_u32_bounds e). zlia. Qed.

(** Walks a decoder of field reads along [parses_bind]. *)
Ltac parse_step := first [apply parses_ret | eapply parses_bind; [solve [eauto with parse] | ]].
Create HintDb parse.
