(* ===== verification/OrdMap.v ===== *)
(** * Ordered maps

    [std::map] keeps its elements sorted by key and the code iterates over it and takes
    its first element, so it is modelled as an association list sorted by key rather
    than as an unordered finite map.  Keys are compared through an injection into [Z]. *)

From stdpp Require Import base list numbers sorting.
From Stdlib Require Import ZArith Lia.
From S2P Require Import Prelude Identity Enums.

Class OrdKey (K : Type) := {
  ord : K → Z;
  ord_inj : ∀ k1 k2, ord k1 = ord k2 → k1 = k2
}.

#[export] Program Instance Id_OrdKey d : OrdKey (Id d) := {| ord := id_value |}.
Next Obligation. intros d [v1] [v2]; cbn. by intros ->. Qed.
#[export] Instance CEnum_OrdKey E `{CEnum E} : OrdKey E :=
  {| ord := to_u32; ord_inj := to_u32_inj |}.

Definition OrdMap (K V : Type) : Type := list (K * V).

Module omap.
Section defs.
Context {K V : Type} `{OrdKey K}.

(** [m.find(k)]. *)
Fixpoint find (k : K) (m : OrdMap K V) : option V :=
  match m with
  | [] => None
  | (k', v) :: rest => if ord k =? ord k' then Some v else find k rest
  end.

(** [m[k] = v]: overwrites, or inserts at the place the order gives. *)
Fixpoint set (k : K) (v : V) (m : OrdMap K V) : OrdMap K V :=
  match m with
  | [] => [(k, v)]
  | (k', v') :: rest =>
    if ord k =? ord k' then (k, v) :: rest
    else if ord k <? ord k' then (k, v) :: (k', v') :: rest
    else (k', v') :: set k v rest
  end.

(** The order of the elements: strictly increasing keys. *)
Definition lt_key (p q : K * V) : Prop := ord p.1 < ord q.1.
Definition sorted (m : OrdMap K V) : Prop := StronglySorted lt_key m.

(** Assigning the entries of a sequence in turn, as [restore] does. *)
Definition of_list (l : list (K * V)) : OrdMap K V := foldl (λ m p, set p.1 p.2 m) [] l.

End defs.

Section lemmas.
Context {K V : Type} `{OrdKey K}.
Implicit Types (m : OrdMap K V).

Lemma sorted_nil : sorted ([] : OrdMap K V).
Proof. constructor. Qed.

Lemma find_set_eq k v m : find k (set k v m) = Some v.
Proof.
  induction m as [|[k' v'] m IH]; cbn; [by rewrite Z.eqb_refl|].
  destruct (Z.eqb_spec (ord k) (ord k')); cbn; [by rewrite Z.eqb_refl|].
  destruct (Z.ltb_spec (ord k) (ord k')); cbn; [by rewrite Z.eqb_refl|].
  by destruct (Z.eqb_spec (ord k) (ord k')).
Qed.

Lemma find_set_ne k k' v m : k ≠ k' → find k' (set k v m) = find k' m.
Proof.
  intros Hne. assert (Hord : ord k' ≠ ord k) by (intros E; by apply ord_inj in E).
  induction m as [|[k1 v1] m IH]; cbn.
  - by destruct (Z.eqb_spec (ord k') (ord k)).
  - destruct (Z.eqb_spec (ord k) (ord k1)) as [E|E]; cbn.
    + destruct (Z.eqb_spec (ord k') (ord k)); [done|].
      by destruct (Z.eqb_spec (ord k') (ord k1)); [congruence|].
    + destruct (Z.ltb_spec (ord k) (ord k1)); cbn.
      * by destruct (Z.eqb_spec (ord k') (ord k)).
      * by rewrite IH.
Qed.

Lemma elem_of_set p k v m : p ∈ set k v m → p = (k, v) ∨ p ∈ m.
Proof.
  induction m as [|[k' v'] m IH]; cbn.
  - intros ->%list_elem_of_singleton. by left.
  - destruct (ord k =? ord k'); [|destruct (ord k <? ord k')];
      rewrite !elem_of_cons; tauto.
Qed.

Lemma sorted_cons_inv p m :
  sorted (p :: m) → sorted m ∧ ∀ q, q ∈ m → ord p.1 < ord q.1.
Proof.
  intros Hs. inversion_clear Hs as [|? ? Hm Hall]. split; [done|].
  intros q Hq. rewrite Forall_forall in Hall. by apply Hall.
Qed.

Lemma sorted_cons p m :
  sorted m → (∀ q, q ∈ m → ord p.1 < ord q.1) → sorted (p :: m).
Proof. intros Hm Hall. constructor; [done|]. by apply Forall_forall. Qed.

Lemma set_sorted k v m : sorted m → sorted (set k v m).
Proof.
  induction m as [|[k' v'] m IH]; intros Hs; cbn.
  { apply sorted_cons; [done|]. by intros q ?%not_elem_of_nil. }
  apply sorted_cons_inv in Hs as [Hm Hall]. cbn in Hall.
  destruct (Z.eqb_spec (ord k) (ord k')) as [E|E].
  { apply sorted_cons; [done|]. intros q Hq. cbn. rewrite E. by apply Hall. }
  destruct (Z.ltb_spec (ord k) (ord k')).
  - apply sorted_cons; [by apply sorted_cons|].
    intros q [->|Hq]%elem_of_cons; cbn; [done|]. specialize (Hall q Hq). lia.
  - apply sorted_cons; [by apply IH|].
    intros q Hq. apply elem_of_set in Hq as [->|Hq]; cbn; [lia|by apply Hall].
Qed.

Lemma find_elem k v m : find k m = Some v → (k, v) ∈ m.
Proof.
  induction m as [|[k' v'] m IH]; cbn; [done|].
  destruct (Z.eqb_spec (ord k) (ord k')) as [E|E]; intros Hf.
  - apply ord_inj in E as ->. simplify_eq. by left.
  - right. by apply IH.
Qed.

Lemma elem_find k v m : sorted m → (k, v) ∈ m → find k m = Some v.
Proof.
  induction m as [|[k' v'] m IH]; intros Hs Hin; [by apply not_elem_of_nil in Hin|].
  apply sorted_cons_inv in Hs as [Hm Hall]. cbn.
  apply elem_of_cons in Hin as [Heq|Hin].
  - simplify_eq. by rewrite Z.eqb_refl.
  - specialize (Hall _ Hin). cbn in Hall.
    destruct (Z.eqb_spec (ord k) (ord k')); [lia|by apply IH].
Qed.

(** Appending an entry above all others is an insertion at the end. *)
Lemma set_snoc k v m : (∀ q, q ∈ m → ord q.1 < ord k) → set k v m = m ++ [(k, v)].
Proof.
  induction m as [|[k' v'] m IH]; intros Hall; [done|]. cbn.
  pose proof (Hall (k', v') ltac:(by left)) as Hk. cbn in Hk.
  destruct (Z.eqb_spec (ord k) (ord k')); [lia|].
  destruct (Z.ltb_spec (ord k) (ord k')); [lia|].
  rewrite IH; [done|]. intros q Hq. apply Hall. by right.
Qed.

(** Rebuilding a map from its own entries gives it back. *)
Lemma of_list_sorted m : sorted m → of_list m = m.
Proof.
  unfold of_list. intros Hs. rewrite <- (app_nil_l m) at 2.
  assert (Hgen : ∀ acc, sorted (acc ++ m) →
    foldl (λ m p, set p.1 p.2 m) acc m = acc ++ m); [|by apply Hgen].
  clear Hs. induction m as [|[k v] m IH]; intros acc Hs; cbn; [by rewrite app_nil_r|].
  rewrite set_snoc.
  - rewrite IH; rewrite <- app_assoc; done.
  - intros q Hq. apply StronglySorted_app_1_elem_of with (x2 := (k, v)) (x1 := q) in Hs;
      [done|done|by left].
Qed.

Lemma of_list_is_sorted (l : list (K * V)) : sorted (of_list l).
Proof.
  unfold of_list. assert (Hgen : ∀ acc, sorted acc →
    sorted (foldl (λ m p, set p.1 p.2 m) acc l)); [|apply Hgen, sorted_nil].
  induction l as [|p l IH]; intros acc Hacc; cbn; [done|]. by apply IH, set_sorted.
Qed.

Lemma elem_of_of_list p (l : list (K * V)) : p ∈ of_list l → p ∈ l.
Proof.
  unfold of_list. assert (Hgen : ∀ acc, p ∈ foldl (λ m p, set p.1 p.2 m) acc l → p ∈ acc ∨ p ∈ l).
  { induction l as [|q l IH]; intros acc Hp; cbn in *; [by left|].
    apply IH in Hp as [Hp|Hp]; [|right; by right].
    apply elem_of_set in Hp as [->|Hp]; [|by left]. right. destruct q. by left. }
  intros Hp. apply Hgen in Hp as [Hp|Hp]; [by apply not_elem_of_nil in Hp|done].
Qed.

(** Keys of a sorted map are distinct. *)
Lemma sorted_keys_NoDup m : sorted m → NoDup m.*1.
Proof.
  induction m as [|p m IH]; intros Hs; cbn; [constructor|].
  apply sorted_cons_inv in Hs as [Hm Hall]. constructor; [|by apply IH].
  intros Hin. apply list_elem_of_fmap in Hin as [q [Heq Hq]].
  specialize (Hall q Hq). rewrite Heq in Hall. lia.
Qed.

(** Overwriting a present key keeps the key sequence. *)
Lemma set_same_keys k v m : sorted m → is_Some (find k m) → (set k v m).*1 = m.*1.
Proof.
  induction m as [|[k' v'] m IH]; intros Hs; cbn; [by intros [? ?]|].
  apply sorted_cons_inv in Hs as [Hm Hall]. cbn in Hall.
  destruct (Z.eqb_spec (ord k) (ord k')) as [E|E]; intros Hk; cbn.
  - by apply ord_inj in E as ->.
  - destruct (Z.ltb_spec (ord k) (ord k')).
    + destruct Hk as [w Hw]. apply find_elem, Hall in Hw. cbn in Hw. lia.
    + cbn. by rewrite IH.
Qed.

End lemmas.

(** Only the keys matter for the order. *)
Lemma sorted_fmap {K V V' : Type} `{OrdKey K} (f : K * V → V') (m : OrdMap K V) :
  sorted m → sorted ((λ p, (p.1, f p)) <$> m).
Proof.
  induction m as [|p m IH]; intros Hs; [constructor|].
  apply sorted_cons_inv in Hs as [Hm Hall]. cbn. apply sorted_cons; [by apply IH|].
  intros q (q' & -> & Hq)%list_elem_of_fmap. cbn. by apply Hall.
Qed.
End omap.
