(* ===== verification/Domains.v ===== *)
(** * Domain records (headers under [domains])

    The structures the runtime exchanges with its callers: requests, safe points,
    quiescence reports and plans.  A field keeps the name of the C++ member behind a prefix of
    its structure; the [default_*] values are the default member initializers. *)

From stdpp Require Import base list strings numbers.
From Stdlib Require Import ZArith.
From S2P Require Import Prelude Identity Enums.

(** ** [domains/request.hpp] *)

Record PreemptionRequest := mkPreemptionRequest {
  req_id : PreemptionRequestId;
  req_generation : PreemptionRequestGeneration;
  req_workload_id : WorkloadId;
  req_workload_generation : WorkloadGeneration;
  req_execution_id : ExecutionId;
  req_execution_generation : ExecutionGeneration;
  req_attempt_id : AttemptId;
  req_attempt_generation : AttemptGeneration;
  req_coordinator_epoch : CoordinatorEpoch;
  req_worker_id : WorkerId;
  req_worker_boot_id : WorkerBootId;
  req_reason : PreemptionReason;
  req_policy_generation : PolicyGeneration;
  req_authority_generation : AuthorityGeneration;
  req_required_completion : LifecycleState;
  req_has_deadline : bool;
  req_deadline_ns : Z;
  req_duplicate_of : PreemptionRequestId
}.
#[export] Instance PreemptionRequest_eta : Eta PreemptionRequest := λ r,
  mkPreemptionRequest (req_id r) (req_generation r) (req_workload_id r)
    (req_workload_generation r) (req_execution_id r) (req_execution_generation r)
    (req_attempt_id r) (req_attempt_generation r) (req_coordinator_epoch r)
    (req_worker_id r) (req_worker_boot_id r) (req_reason r) (req_policy_generation r)
    (req_authority_generation r) (req_required_completion r) (req_has_deadline r)
    (req_deadline_ns r) (req_duplicate_of r).

Definition default_PreemptionRequest : PreemptionRequest :=
  mkPreemptionRequest default_id default_gen default_id default_gen default_id default_gen
    default_id default_gen default_gen default_id default_id PreemptionReason.kUnknown
    default_gen default_gen LifecycleState.kPreempted false 0 default_id.

(** ** [domains/safepoint.hpp] *)

Record SafePoint := mkSafePoint {
  sp_id : SafePointId;
  sp_generation : SafePointGeneration;
  sp_execution_id : ExecutionId;
  sp_attempt_id : AttemptId;
  sp_worker_id : WorkerId;
  sp_worker_boot_id : WorkerBootId;
  sp_progress_position : Z;
  sp_state_capture_required : bool;
  sp_checkpoint_required : bool;
  sp_resume_requirement : bool;
  sp_resource_release_eligibility : list ResourceClass;
  sp_invariant : string;
  sp_provenance : EvidenceKind;
  sp_order : Z;
  sp_state : SafePointState
}.
#[export] Instance SafePoint_eta : Eta SafePoint := λ s,
  mkSafePoint (sp_id s) (sp_generation s) (sp_execution_id s) (sp_attempt_id s)
    (sp_worker_id s) (sp_worker_boot_id s) (sp_progress_position s)
    (sp_state_capture_required s) (sp_checkpoint_required s) (sp_resume_requirement s)
    (sp_resource_release_eligibility s) (sp_invariant s) (sp_provenance s) (sp_order s)
    (sp_state s).

Definition default_SafePoint : SafePoint :=
  mkSafePoint default_id default_gen default_id default_id default_id default_id 0
    false false false [] EmptyString EvidenceKind.kUnknown 0 SafePointState.kUnknown.

(** ** [domains/quiescence.hpp] *)

Record QuiescenceObservation := mkQuiescenceObservation {
  qo_category : QuiescenceCategory;
  qo_quiesced : bool;
  qo_generation : QuiescenceGeneration;
  qo_worker_boot_id : WorkerBootId;
  qo_provenance : EvidenceKind;
  qo_order : Z
}.

Record QuiescenceReport := mkQuiescenceReport {
  qr_generation : QuiescenceGeneration;
  qr_worker_id : WorkerId;
  qr_worker_boot_id : WorkerBootId;
  qr_fully_quiesced : bool;
  qr_observations : list QuiescenceObservation;
  qr_provenance : EvidenceKind
}.
#[export] Instance QuiescenceReport_eta : Eta QuiescenceReport := λ q,
  mkQuiescenceReport (qr_generation q) (qr_worker_id q) (qr_worker_boot_id q)
    (qr_fully_quiesced q) (qr_observations q) (qr_provenance q).

(** ** [domains/plan.hpp] *)

Module PreservationMode.
Inductive PreservationMode :=
  | kInvalid | kCapture | kRecompute | kAlreadyDurable
  | kUnknown.
End PreservationMode.
Abbreviation PreservationMode := PreservationMode.PreservationMode.
#[export] Instance PreservationMode_eq_dec : EqDecision PreservationMode.
Proof. solve_decision. Defined.

Record PreemptionPlan := mkPreemptionPlan {
  plan_id : PreemptionPlanId;
  plan_generation : PreemptionPlanGeneration;
  plan_execution_id : ExecutionId;
  plan_attempt_id : AttemptId;
  plan_workload_id : WorkloadId;
  plan_workload_generation : WorkloadGeneration;
  plan_preemptibility : PreemptibilityClass;
  plan_last_durable_progress : Z;
  plan_current_position : Z;
  plan_max_rollback : Z;
  plan_preservation_mode : PreservationMode;
  plan_resources_to_release : list ResourceClass;
  plan_release_before_preempted : bool;
  plan_estimated_lost_work : Z;
  plan_estimated_recompute_work : Z;
  plan_state_to_preserve_bytes : Z;
  plan_next_safe_point : SafePointId;
  plan_cost_to_next_safe_point : Z;
  plan_checkpoint_backend_available : bool;
  plan_suggested_reason : PreemptionReason;
  plan_provenance : EvidenceKind
}.
#[export] Instance PreemptionPlan_eta : Eta PreemptionPlan := λ p,
  mkPreemptionPlan (plan_id p) (plan_generation p) (plan_execution_id p) (plan_attempt_id p)
    (plan_workload_id p) (plan_workload_generation p) (plan_preemptibility p)
    (plan_last_durable_progress p) (plan_current_position p) (plan_max_rollback p)
    (plan_preservation_mode p) (plan_resources_to_release p) (plan_release_before_preempted p)
    (plan_estimated_lost_work p) (plan_estimated_recompute_work p)
    (plan_state_to_preserve_bytes p) (plan_next_safe_point p) (plan_cost_to_next_safe_point p)
    (plan_checkpoint_backend_available p) (plan_suggested_reason p) (plan_provenance p).

Definition default_PreemptionPlan : PreemptionPlan :=
  mkPreemptionPlan default_id default_gen default_id default_id default_id default_gen
    PreemptibilityClass.kUnknown 0 0 0 PreservationMode.kUnknown [] true 0 0 0 default_id 0
    true PreemptionReason.kUnknown EvidenceKind.kUnknown.
