(* ===== verification/Obligations.v ===== *)
(** * Obligation records

    The records of [domains/preservation.hpp], [domains/progress.hpp], [domains/release.hpp] and
    [domains/resume.hpp].  The library declares them for its callers and neither fills nor
    reads them; the [default_*] values are the default member initializers. *)

From stdpp Require Import base list numbers.
From Stdlib Require Import ZArith.
From S2P Require Import Prelude Identity Enums.
Open Scope Z_scope.

(** ** [domains/preservation.hpp] *)

Record PreservationRequirement := mkPreservationRequirement {
  pres_preservation_generation : PreservationGeneration;
  pres_capture_id : StateCaptureId;
  pres_capture_generation : StateCaptureGeneration;
  pres_checkpoint_ref : CheckpointRef;
  pres_checkpoint_generation : CheckpointGeneration;
  pres_required : bool;
  pres_completed : bool;
  pres_outcome : StatePreservationOutcome;
  pres_execution_generation : ExecutionGeneration;
  pres_attempt_generation : AttemptGeneration;
  pres_worker_boot_id : WorkerBootId
}.
Definition default_PreservationRequirement : PreservationRequirement :=
  mkPreservationRequirement default_gen default_id default_gen default_id default_gen false false
    StatePreservationOutcome.kUnknown default_gen default_gen default_id.
Definition equals_required_checkpoint (r : PreservationRequirement) (expected : CheckpointGeneration) : bool :=
  bool_decide (pres_checkpoint_generation r = expected).

(** ** [domains/progress.hpp] *)

Record ProgressRecord := mkProgressRecord {
  prog_generation : ProgressGeneration;
  prog_position : Z;
  prog_kind : ProgressKind;
  prog_worker_id : WorkerId;
  prog_worker_boot_id : WorkerBootId;
  prog_execution_id : ExecutionId;
  prog_attempt_id : AttemptId;
  prog_provenance : EvidenceKind;
  prog_order : Z
}.
Definition default_ProgressRecord : ProgressRecord :=
  mkProgressRecord default_gen 0 ProgressKind.kAttempted default_id default_id default_id default_id
    EvidenceKind.kUnknown 0.

(** ** [domains/release.hpp] *)

Record ReleaseObligation := mkReleaseObligation {
  rel_resource : ResourceClass;
  rel_units : Z;
  rel_must_release : bool;
  rel_may_stay_warm : bool;
  rel_transfer_ownership : bool;
  rel_external_confirm : bool;
  rel_contract_id : ResourceContractId;
  rel_contract_generation : ResourceContractGeneration;
  rel_released : bool;
  rel_release_generation : ReleaseGeneration
}.
Definition default_ReleaseObligation : ReleaseObligation :=
  mkReleaseObligation ResourceClass.kOther 0 true false false false default_id default_gen false default_gen.

Record ReleaseReceipt := mkReleaseReceipt {
  rcpt_resource : ResourceClass;
  rcpt_units : Z;
  rcpt_contract_id : ResourceContractId;
  rcpt_contract_generation : ResourceContractGeneration;
  rcpt_release_generation : ReleaseGeneration;
  rcpt_worker_boot_id : WorkerBootId;
  rcpt_acknowledged : bool
}.
Definition default_ReleaseReceipt : ReleaseReceipt :=
  mkReleaseReceipt ResourceClass.kOther 0 default_id default_gen default_gen default_id false.

(** ** [domains/resume.hpp] *)

Module RequirementStatus.
Inductive RequirementStatus := kInvalid | kCurrent | kStale | kMissing | kUnknown.
End RequirementStatus.
Abbreviation RequirementStatus := RequirementStatus.RequirementStatus.
#[export] Instance RequirementStatus_eq_dec : EqDecision RequirementStatus.
Proof. solve_decision. Defined.

Record ResumeObligation := mkResumeObligation {
  ro_resume_generation : ResumeGeneration;
  ro_execution_id : ExecutionId;
  ro_attempt_id : AttemptId;
  ro_workload_id : WorkloadId;
  ro_workload_generation : WorkloadGeneration;
  ro_preempted_execution_generation : ExecutionGeneration;
  ro_checkpoint_ref : CheckpointRef;
  ro_checkpoint_generation : CheckpointGeneration;
  ro_dependency_status : RequirementStatus;
  ro_resource_status : RequirementStatus;
  ro_capability_status : RequirementStatus;
  ro_requires_restore : bool;
  ro_requires_recompute : bool;
  ro_revalidation_required : bool
}.
Definition default_ResumeObligation : ResumeObligation :=
  mkResumeObligation default_gen default_id default_id default_id default_gen default_gen default_id default_gen
    RequirementStatus.kUnknown RequirementStatus.kUnknown RequirementStatus.kUnknown false false true.
