(* ===== verification/Interfaces.v ===== *)
(** * Interfaces to the adjacent runtimes ([adapters/interfaces.hpp])

    The records exchanged with the sibling runtimes and one type class per abstract
    C++ class.  The runtime is written against these classes; what its theorems need
    of an execution fabric is stated as laws ([ExecutionFabricLaws]), which the reference
    adapters discharge.  A [const] member function is a function of the adapter state, any
    other returns the state it leaves as well. *)

From stdpp Require Import base list strings numbers sets.
From Stdlib Require Import ZArith.
From S2P Require Import Prelude Identity Enums.

(** ** Data *)

Record AttemptAuthorityView := mkAttemptAuthorityView {
  aav_authoritative : bool;
  aav_execution_id : ExecutionId;
  aav_execution_generation : ExecutionGeneration;
  aav_attempt_id : AttemptId;
  aav_attempt_generation : AttemptGeneration;
  aav_coordinator_epoch : CoordinatorEpoch;
  aav_worker_boot_id : WorkerBootId;
  aav_provenance : EvidenceKind
}.

Module WorkloadLifecycleState.
Inductive WorkloadLifecycleState :=
  | kActive | kSuspended | kPreempted | kCancelled
  | kCompleted | kUnknown.
End WorkloadLifecycleState.
Abbreviation WorkloadLifecycleState := WorkloadLifecycleState.WorkloadLifecycleState.
#[export] Instance WorkloadLifecycleState_eq_dec : EqDecision WorkloadLifecycleState.
Proof. solve_decision. Defined.

Record StateCaptureRequest := mkStateCaptureRequest {
  scr_required : bool;
  scr_expected_generation : CheckpointGeneration;
  scr_capture_generation : StateCaptureGeneration;
  scr_execution_generation : ExecutionGeneration;
  scr_attempt_generation : AttemptGeneration
}.

Record CaptureResult := mkCaptureResult {
  cr_completed : bool;
  cr_success : bool;
  cr_capture_id : StateCaptureId;
  cr_capture_generation : StateCaptureGeneration;
  cr_checkpoint_ref : CheckpointRef;
  cr_checkpoint_generation : CheckpointGeneration;
  cr_provenance : EvidenceKind
}.

Record ResourceLease := mkResourceLease {
  lease_resource : ResourceClass;
  lease_units : Z
}.

Record ResourceContract := mkResourceContract {
  contract_id : ResourceContractId;
  contract_generation : ResourceContractGeneration;
  contract_leases : list ResourceLease
}.

Record ReleaseResult := mkReleaseResult {
  release_success : bool;
  release_release_generation : ResourceContractGeneration;
  release_worker_boot_id : WorkerBootId
}.

Record ReacquireResult := mkReacquireResult {
  reacquire_success : bool;
  reacquire_contract_generation : ResourceContractGeneration;
  reacquire_worker_boot_id : WorkerBootId
}.

Module DependencyStatus.
Inductive DependencyStatus :=
  | kCurrent | kStale | kMissing | kUnknown.
End DependencyStatus.
Abbreviation DependencyStatus := DependencyStatus.DependencyStatus.
#[export] Instance DependencyStatus_eq_dec : EqDecision DependencyStatus.
Proof. solve_decision. Defined.
Definition DependencyStatus_to_u32 (v : DependencyStatus) : Z :=
  match v with
  | DependencyStatus.kCurrent => 0
  | DependencyStatus.kStale => 1
  | DependencyStatus.kMissing => 2
  | DependencyStatus.kUnknown => 3
  end.
#[export] Program Instance DependencyStatus_enum : CEnum DependencyStatus :=
  {| to_u32 := DependencyStatus_to_u32;
     enumerators := [
     DependencyStatus.kCurrent; DependencyStatus.kStale; DependencyStatus.kMissing;
     DependencyStatus.kUnknown] |}.
Next Obligation. reflexivity. Qed.
Next Obligation. intros []; set_solver. Qed.

Record DependencyView := mkDependencyView {
  dep_status : DependencyStatus;
  dep_generation : DependencyGeneration;
  dep_revalidation_required : bool;
  dep_recompute_required : bool
}.
Definition default_DependencyView : DependencyView :=
  mkDependencyView DependencyStatus.kUnknown default_gen false false.

Module FailureCategory.
Inductive FailureCategory :=
  | kForcedTermination | kAmbiguous | kFailed | kUnknown.
End FailureCategory.
Abbreviation FailureCategory := FailureCategory.FailureCategory.
#[export] Instance FailureCategory_eq_dec : EqDecision FailureCategory.
Proof. solve_decision. Defined.

Record DeviceCapability := mkDeviceCapability {
  dc_device_id : string;
  dc_capability_generation : Z;
  dc_memory_bytes : Z;
  dc_compute_compatibility : Z;
  dc_supports_state_restore : bool;
  dc_supports_recompute : bool
}.

Module MigrationCompatibilityOutcome.
Inductive MigrationCompatibilityOutcome :=
  | kInvalid | kCompatible | kIncompatibleCapability | kStaleCapabilityGeneration
  | kBlockedDependency | kBlockedResource | kStateNotDurable | kUnknown.
End MigrationCompatibilityOutcome.
Abbreviation MigrationCompatibilityOutcome := MigrationCompatibilityOutcome.MigrationCompatibilityOutcome.
#[export] Instance MigrationCompatibilityOutcome_eq_dec : EqDecision MigrationCompatibilityOutcome.
Proof. solve_decision. Defined.

Record MigrationCompatibility := mkMigrationCompatibility {
  mc_outcome : MigrationCompatibilityOutcome;
  mc_detail : string;
  mc_reasons : list string
}.

(** ** The abstract classes *)

Class IExecutionFabric (A : Type) := {
  current_attempt_authority : A → ExecutionId → AttemptId → AttemptAuthorityView;
  fence_attempt : ExecutionId → AttemptId → ExecutionGeneration → A → bool * A;
  grant_fresh_attempt_authority :
    ExecutionId → AttemptId → ExecutionGeneration → WorkerBootId → A → AttemptAuthorityView * A;
  (** Not in the abstract class; the runtime calls it on the reference adapters. *)
  set_authoritative :
    ExecutionId → AttemptId → ExecutionGeneration → AttemptGeneration → CoordinatorEpoch →
    WorkerBootId → A → A
}.

Class IWorkloadFabric (A : Type) := {
  workload_state : A → WorkloadId → WorkloadLifecycleState;
  notify_preempted :
    WorkloadId → WorkloadGeneration → ExecutionId → ExecutionGeneration → A → A;
  notify_resumed :
    WorkloadId → WorkloadGeneration → ExecutionId → ExecutionGeneration → ResumeGeneration → A → A
}.

Class ICheckpointFabric (A : Type) := {
  request_capture : StateCaptureRequest → A → CaptureResult * A;
  query_capture : StateCaptureId → A → CaptureResult * A;
  validate_checkpoint : A → CheckpointRef → CheckpointGeneration → bool;
  restore_checkpoint : CheckpointRef → CheckpointGeneration → A → bool * A
}.

Class IResourceBroker (A : Type) := {
  current_contract : A → ExecutionId → ResourceContract;
  broker_request_release :
    ExecutionId → ResourceClass → Z → ResourceContractGeneration → A → ReleaseResult * A;
  reacquire :
    ExecutionId → ResourceClass → Z → ResourceContractGeneration → A → ReacquireResult * A;
  (** Not in the abstract class; the runtime calls it on the reference adapters. *)
  reserved : A → ResourceClass → Z
}.

(** Both queries are declared without [const] but only read. *)
Class IDependencyFabric (A : Type) := {
  dependency_status : A → DependencyId → DependencyView;
  resume_dependencies : A → ExecutionId → DependencyView
}.

Class IFailureFabric (A : Type) := {
  report_failure : FailureCategory → string → A → A
}.

Class ICompatibilityEvaluator (A : Type) := {
  current_capability : A → DeviceCapability;
  capability_is_compatible : A → DeviceCapability → bool;
  capability_generation_current : A → DeviceCapability → bool
}.

Class IQuiescenceProvider (A : Type) := {
  is_quiesced : A → QuiescenceCategory → bool;
  categories : A → list QuiescenceCategory
}.

(** Everything the runtime asks of its adapters. *)
Class Adapters (A : Type) := {
  #[export] adapters_execution :: IExecutionFabric A;
  #[export] adapters_checkpoint :: ICheckpointFabric A;
  #[export] adapters_broker :: IResourceBroker A;
  #[export] adapters_dependency :: IDependencyFabric A;
  #[export] adapters_compatibility :: ICompatibilityEvaluator A;
  #[export] adapters_quiescence :: IQuiescenceProvider A
}.

(** ** What the runtime relies on *)

(** The execution fabric: fencing revokes, a grant is what is current afterwards, names the
    boot it was asked for and is the next attempt generation; the calls to the other
    fabrics do not touch authority. *)
Class ExecutionFabricLaws (A : Type) `{Adapters A} : Prop := {
  fence_revokes a e at_ g :
    aav_authoritative (current_attempt_authority (fence_attempt e at_ g a).2 e at_) = false;
  set_authoritative_current a e at_ g ag epoch boot :
    let v := current_attempt_authority (set_authoritative e at_ g ag epoch boot a) e at_ in
    aav_authoritative v = true ∧ aav_worker_boot_id v = boot ∧ aav_attempt_generation v = ag;
  grant_is_current a e at_ g boot :
    let '(v, a') := grant_fresh_attempt_authority e at_ g boot a in
    current_attempt_authority a' e at_ = v;
  grant_is_fresh a e at_ g boot :
    let v := (grant_fresh_attempt_authority e at_ g boot a).1 in
    aav_authoritative v = true →
    aav_worker_boot_id v = boot
    ∧ aav_attempt_generation v
      = Generation_next (aav_attempt_generation (current_attempt_authority a e at_));
  capture_keeps_authority a req e at_ :
    current_attempt_authority (request_capture req a).2 e at_ = current_attempt_authority a e at_;
  release_keeps_authority a e rc units g e' at_ :
    current_attempt_authority (broker_request_release e rc units g a).2 e' at_
    = current_attempt_authority a e' at_;
  restore_keeps_authority a ref g e at_ :
    current_attempt_authority (restore_checkpoint ref g a).2 e at_ = current_attempt_authority a e at_
}.
