(* ===== verification/ReferenceAdapters.v ===== *)
(** * The reference adapters ([adapters/reference.hpp])

    The in-process stand-ins for the sibling runtimes: execution authority, workload
    states, checkpoint generations, resource accounting, dependencies, destination
    capability, failures and quiescence observations, in one record as in the class. *)

From stdpp Require Import base list strings numbers.
From Stdlib Require Import ZArith Lia.
From S2P Require Import Prelude Identity Enums OrdMap Interfaces.

Record ReferenceAdapters := mkReferenceAdapters {
  (* execution authority *)
  attempt_authoritative_ : bool;
  attempt_execution_ : ExecutionId;
  attempt_attempt_ : AttemptId;
  attempt_gen_ : ExecutionGeneration;
  attempt_attempt_gen_ : AttemptGeneration;
  attempt_epoch_ : CoordinatorEpoch;
  attempt_boot_ : WorkerBootId;
  attempt_provenance_ : EvidenceKind;
  (* workload *)
  workload_state_ : OrdMap WorkloadId WorkloadLifecycleState;
  (* checkpoint *)
  capture_default_ : bool;
  capture_count_ : Z;
  checkpoint_valid_ : bool;
  current_checkpoint_gen_ : CheckpointGeneration;
  CaptureGeneration_ : StateCaptureGeneration;
  last_capture_ : option CaptureResult;
  (* resource broker accounting *)
  contract_id_ : ResourceContractId;
  contract_gen_ : ResourceContractGeneration;
  contract_execution_ : ExecutionId;
  reserved_ : OrdMap ResourceClass Z;
  released_ : OrdMap ResourceClass Z;
  random_id_ : Z;
  (* dependency *)
  dep_status_ : OrdMap DependencyId DependencyView;
  resume_dep_ : DependencyView;
  (* compatibility *)
  current_capability_ : DeviceCapability;
  required_capability_ : DeviceCapability;
  force_incompatible_ : bool;
  force_stale_capability_ : bool;
  (* failure *)
  failures_ : list (FailureCategory * string);
  (* quiescence *)
  quiesced_map_ : OrdMap QuiescenceCategory bool
}.
#[export] Instance ReferenceAdapters_eta : Eta ReferenceAdapters := λ a,
  mkReferenceAdapters (attempt_authoritative_ a) (attempt_execution_ a) (attempt_attempt_ a)
    (attempt_gen_ a) (attempt_attempt_gen_ a) (attempt_epoch_ a) (attempt_boot_ a)
    (attempt_provenance_ a) (workload_state_ a) (capture_default_ a) (capture_count_ a)
    (checkpoint_valid_ a) (current_checkpoint_gen_ a) (CaptureGeneration_ a) (last_capture_ a)
    (contract_id_ a) (contract_gen_ a) (contract_execution_ a) (reserved_ a) (released_ a)
    (random_id_ a) (dep_status_ a) (resume_dep_ a) (current_capability_ a)
    (required_capability_ a) (force_incompatible_ a) (force_stale_capability_ a)
    (failures_ a) (quiesced_map_ a).

Module Ref.
Implicit Types (a : ReferenceAdapters).

Definition default_DeviceCapability : DeviceCapability :=
  mkDeviceCapability EmptyString 0 0 0 false false.

(** The default member initializers. *)
Definition init : ReferenceAdapters :=
  mkReferenceAdapters false default_id default_id default_gen default_gen default_gen default_id
    EvidenceKind.kUnknown [] true 0 true (mkGeneration 1) default_gen None
    default_id default_gen default_id [] [] 1 [] default_DependencyView
    default_DeviceCapability default_DeviceCapability false false [] [].

(** ** Execution Fabric *)

Definition set_authoritative (execution : ExecutionId) (attempt : AttemptId)
    (gen : ExecutionGeneration) (attempt_gen : AttemptGeneration) (epoch : CoordinatorEpoch)
    (worker : WorkerBootId) a : ReferenceAdapters :=
  a <| attempt_authoritative_ := true |>
    <| attempt_execution_ := execution |>
    <| attempt_attempt_ := attempt |>
    <| attempt_gen_ := gen |>
    <| attempt_boot_ := worker |>
    <| attempt_epoch_ := epoch |>
    <| attempt_attempt_gen_ := attempt_gen |>
    <| attempt_provenance_ := EvidenceKind.kReal |>.

Definition revoke_authority a : ReferenceAdapters := a <| attempt_authoritative_ := false |>.

Definition current_attempt_authority a (execution : ExecutionId) (attempt : AttemptId)
    : AttemptAuthorityView :=
  mkAttemptAuthorityView
    (attempt_authoritative_ a && bool_decide (execution = attempt_execution_ a)
       && bool_decide (attempt = attempt_attempt_ a))
    execution (attempt_gen_ a) attempt (attempt_attempt_gen_ a) (attempt_epoch_ a)
    (attempt_boot_ a) (attempt_provenance_ a).

Definition fence_attempt (_ : ExecutionId) (_ : AttemptId) (_ : ExecutionGeneration) a
    : bool * ReferenceAdapters :=
  (true, a <| attempt_authoritative_ := false |>).

Definition grant_fresh_attempt_authority (execution : ExecutionId) (attempt : AttemptId)
    (gen : ExecutionGeneration) (worker : WorkerBootId) a
    : AttemptAuthorityView * ReferenceAdapters :=
  let a' := a <| attempt_attempt_gen_ := Generation_next (attempt_attempt_gen_ a) |>
              <| attempt_authoritative_ := true |>
              <| attempt_execution_ := execution |>
              <| attempt_attempt_ := attempt |>
              <| attempt_gen_ := gen |>
              <| attempt_boot_ := worker |>
              <| attempt_provenance_ := EvidenceKind.kReal |> in
  (mkAttemptAuthorityView true execution gen attempt (attempt_attempt_gen_ a')
     (attempt_epoch_ a') worker EvidenceKind.kReal, a').

(** ** Workload Fabric *)

Definition set_workload_state (w : WorkloadId) (s : WorkloadLifecycleState) a : ReferenceAdapters :=
  a <| workload_state_ := omap.set w s (workload_state_ a) |>.
Definition workload_state a (w : WorkloadId) : WorkloadLifecycleState :=
  default WorkloadLifecycleState.kUnknown (omap.find w (workload_state_ a)).
Definition notify_preempted (w : WorkloadId) (_ : WorkloadGeneration) (_ : ExecutionId)
    (_ : ExecutionGeneration) a : ReferenceAdapters :=
  a <| workload_state_ := omap.set w WorkloadLifecycleState.kPreempted (workload_state_ a) |>.
Definition notify_resumed (w : WorkloadId) (_ : WorkloadGeneration) (_ : ExecutionId)
    (_ : ExecutionGeneration) (_ : ResumeGeneration) a : ReferenceAdapters :=
  a <| workload_state_ := omap.set w WorkloadLifecycleState.kActive (workload_state_ a) |>.

(** ** Checkpoint Fabric *)

Definition set_capture_succeeds (v : bool) a : ReferenceAdapters := a <| capture_default_ := v |>.
Definition set_capture_count (v : Z) a : ReferenceAdapters := a <| capture_count_ := v |>.

Definition request_capture (req : StateCaptureRequest) a : CaptureResult * ReferenceAdapters :=
  let count := wrap 64 (capture_count_ a + 1) in
  let r := mkCaptureResult true (capture_default_ a) (mkId count) (scr_capture_generation req)
             (mkId count) (scr_expected_generation req) EvidenceKind.kReal in
  (r, a <| capture_count_ := count |>
        <| CaptureGeneration_ := scr_capture_generation req |>
        <| last_capture_ := Some r |>).

Definition query_capture (_ : StateCaptureId) a : CaptureResult * ReferenceAdapters :=
  (mkCaptureResult true (capture_default_ a) default_id default_gen default_id default_gen
     EvidenceKind.kReal, a).

Definition validate_checkpoint a (ref : CheckpointRef) (expected : CheckpointGeneration) : bool :=
  checkpoint_valid_ a && is_valid ref && bool_decide (expected = current_checkpoint_gen_ a).
Definition set_current_checkpoint_generation (g : CheckpointGeneration) a : ReferenceAdapters :=
  a <| current_checkpoint_gen_ := g |>.
Definition set_checkpoint_valid (v : bool) a : ReferenceAdapters := a <| checkpoint_valid_ := v |>.
Definition restore_checkpoint (ref : CheckpointRef) (expected : CheckpointGeneration) a
    : bool * ReferenceAdapters :=
  (checkpoint_valid_ a && is_valid ref && bool_decide (expected = current_checkpoint_gen_ a), a).

(** ** Resource Broker *)

(** [lookup]: 0 for an absent class; [m[c]] on the right of an assignment as well. *)
Definition lookup (m : OrdMap ResourceClass Z) (c : ResourceClass) : Z :=
  default 0 (omap.find c m).
(** [m[c] += n] and [m[c] -= n] on [std::uint64_t]. *)
Definition add_units (c : ResourceClass) (n : Z) (m : OrdMap ResourceClass Z)
    : OrdMap ResourceClass Z := omap.set c (wrap 64 (lookup m c + n)) m.
Definition sub_units (c : ResourceClass) (n : Z) (m : OrdMap ResourceClass Z)
    : OrdMap ResourceClass Z := omap.set c (wrap 64 (lookup m c - n)) m.

Definition set_contract (e : ExecutionId) (g : ResourceContractGeneration)
    (leases : list ResourceLease) a : ReferenceAdapters :=
  a <| contract_id_ := mkId (random_id_ a) |>
    <| random_id_ := wrap 64 (random_id_ a + 1) |>
    <| contract_gen_ := g |>
    <| contract_execution_ := e |>
    <| reserved_ := foldl (λ m l, add_units (lease_resource l) (lease_units l) m) [] leases |>
    <| released_ := [] |>.

(** [Generation_advance]: plain 64-bit addition, unlike [Generation::next]. *)
Definition Generation_advance (g : ResourceContractGeneration) (by_ : Z)
    : ResourceContractGeneration := mkGeneration (wrap 64 (gen_value g + by_)).
Definition advance_contract (by_ : Z) a : ReferenceAdapters :=
  a <| contract_gen_ := Generation_advance (contract_gen_ a) by_ |>.

Definition current_contract a (_ : ExecutionId) : ResourceContract :=
  mkResourceContract (contract_id_ a) (contract_gen_ a)
    ((λ p, mkResourceLease p.1 p.2) <$> reserved_ a).

Definition request_release (e : ExecutionId) (rc : ResourceClass) (units : Z)
    (expected : ResourceContractGeneration) a : ReleaseResult * ReferenceAdapters :=
  let r ok := mkReleaseResult ok (contract_gen_ a) (attempt_boot_ a) in
  if negb (bool_decide (e = contract_execution_ a)) || negb (bool_decide (expected = contract_gen_ a))
  then (r false, a)
  else
    match omap.find rc (reserved_ a) with
    | None => (r false, a)
    | Some n =>
      if n <? units then (r false, a)
      else (r true, a <| reserved_ := omap.set rc (wrap 64 (n - units)) (reserved_ a) |>
                      <| released_ := add_units rc units (released_ a) |>)
    end.

(** [released_[rc]] creates the entry it reads. *)
Definition reacquire (e : ExecutionId) (rc : ResourceClass) (units : Z)
    (contract : ResourceContractGeneration) a : ReacquireResult * ReferenceAdapters :=
  let gen := if is_valid contract then contract else Generation_advance (contract_gen_ a) 1 in
  let r ok := mkReacquireResult ok gen (attempt_boot_ a) in
  let a1 := a <| contract_gen_ := gen |> in
  if negb (bool_decide (e = contract_execution_ a)) then (r false, a1)
  else
    let n := lookup (released_ a1) rc in
    let a2 := a1 <| released_ := omap.set rc n (released_ a1) |> in
    if n <? units then (r false, a2)
    else (r true, a2 <| released_ := sub_units rc units (released_ a2) |>
                     <| reserved_ := add_units rc units (reserved_ a2) |>).

Definition reserved a (c : ResourceClass) : Z := lookup (reserved_ a) c.
Definition released a (c : ResourceClass) : Z := lookup (released_ a) c.

(** ** Dependency Fabric *)

Definition set_dependency_status (d : DependencyId) (v : DependencyView) a : ReferenceAdapters :=
  a <| dep_status_ := omap.set d v (dep_status_ a) |>.
Definition set_resume_dependency (v : DependencyView) a : ReferenceAdapters :=
  a <| resume_dep_ := v |>.
Definition dependency_status a (d : DependencyId) : DependencyView :=
  default default_DependencyView (omap.find d (dep_status_ a)).
Definition resume_dependencies a (_ : ExecutionId) : DependencyView := resume_dep_ a.

(** ** Compatibility evaluator *)

Definition set_capability_context (current required : DeviceCapability) a : ReferenceAdapters :=
  a <| current_capability_ := current |> <| required_capability_ := required |>.
Definition set_force_incompatible (v : bool) a : ReferenceAdapters := a <| force_incompatible_ := v |>.
Definition set_force_stale_capability (v : bool) a : ReferenceAdapters :=
  a <| force_stale_capability_ := v |>.
Definition capability_is_compatible a (dst : DeviceCapability) : bool :=
  if force_incompatible_ a then false
  else (dc_memory_bytes (required_capability_ a) <=? dc_memory_bytes dst)
         && dc_supports_state_restore dst
         && (dc_compute_compatibility (required_capability_ a) <=? dc_compute_compatibility dst).
Definition capability_generation_current a (dst : DeviceCapability) : bool :=
  if force_stale_capability_ a then false
  else dc_capability_generation dst =? dc_capability_generation (current_capability_ a).

(** ** Failure Fabric *)

Definition report (category : FailureCategory) (detail : string) a : ReferenceAdapters :=
  a <| failures_ := failures_ a ++ [(category, detail)] |>.

(** ** Quiescence *)

Definition set_quiesced (c : QuiescenceCategory) (v : bool) a : ReferenceAdapters :=
  a <| quiesced_map_ := omap.set c v (quiesced_map_ a) |>.
Definition is_quiesced a (c : QuiescenceCategory) : bool :=
  default false (omap.find c (quiesced_map_ a)).
Definition categories (_ : ReferenceAdapters) : list QuiescenceCategory :=
  [QuiescenceCategory.kCpuWorkerActivity; QuiescenceCategory.kAcceleratorKernels;
   QuiescenceCategory.kAsynchronousCopies; QuiescenceCategory.kQueuedDeviceOperations;
   QuiescenceCategory.kHostCallbacks; QuiescenceCategory.kStorageWrites;
   QuiescenceCategory.kNetworkActivity; QuiescenceCategory.kStatePublication;
   QuiescenceCategory.kCompletionPublication; QuiescenceCategory.kPendingResourceMutation].

End Ref.

(** The class implements every interface. *)
#[export] Instance Ref_IExecutionFabric : IExecutionFabric ReferenceAdapters := {|
  current_attempt_authority := Ref.current_attempt_authority;
  fence_attempt := Ref.fence_attempt;
  grant_fresh_attempt_authority := Ref.grant_fresh_attempt_authority;
  set_authoritative := Ref.set_authoritative |}.
#[export] Instance Ref_IWorkloadFabric : IWorkloadFabric ReferenceAdapters := {|
  workload_state := Ref.workload_state;
  notify_preempted := Ref.notify_preempted;
  notify_resumed := Ref.notify_resumed |}.
#[export] Instance Ref_ICheckpointFabric : ICheckpointFabric ReferenceAdapters := {|
  request_capture := Ref.request_capture;
  query_capture := Ref.query_capture;
  validate_checkpoint := Ref.validate_checkpoint;
  restore_checkpoint := Ref.restore_checkpoint |}.
#[export] Instance Ref_IResourceBroker : IResourceBroker ReferenceAdapters := {|
  current_contract := Ref.current_contract;
  broker_request_release := Ref.request_release;
  reacquire := Ref.reacquire;
  reserved := Ref.reserved |}.
#[export] Instance Ref_IDependencyFabric : IDependencyFabric ReferenceAdapters := {|
  dependency_status := Ref.dependency_status;
  resume_dependencies := Ref.resume_dependencies |}.
#[export] Instance Ref_IFailureFabric : IFailureFabric ReferenceAdapters := {|
  report_failure := Ref.report |}.
#[export] Instance Ref_ICompatibilityEvaluator : ICompatibilityEvaluator ReferenceAdapters := {|
  current_capability := current_capability_;
  capability_is_compatible := Ref.capability_is_compatible;
  capability_generation_current := Ref.capability_generation_current |}.
#[export] Instance Ref_IQuiescenceProvider : IQuiescenceProvider ReferenceAdapters := {|
  is_quiesced := Ref.is_quiesced;
  categories := Ref.categories |}.
#[export] Instance Ref_Adapters : Adapters ReferenceAdapters := Build_Adapters _ _ _ _ _ _ _.

(** ** The laws of the execution fabric hold *)

Lemma Ref_release_keeps_authority a e rc units g e' at_ :
  Ref.current_attempt_authority (Ref.request_release e rc units g a).2 e' at_
  = Ref.current_attempt_authority a e' at_.
Proof.
  unfold Ref.request_release. destruct (_ || _); [done|].
  destruct (omap.find rc _) as [n|]; [|done]. by destruct (n <? units).
Qed.

Lemma Ref_set_authoritative_current a e at_ g ag epoch boot :
  let v := Ref.current_attempt_authority (Ref.set_authoritative e at_ g ag epoch boot a) e at_ in
  aav_authoritative v = true ∧ aav_worker_boot_id v = boot ∧ aav_attempt_generation v = ag.
Proof. cbn. by rewrite !bool_decide_eq_true_2 by done. Qed.

Lemma Ref_grant_is_current a e at_ g boot :
  let '(v, a') := Ref.grant_fresh_attempt_authority e at_ g boot a in
  Ref.current_attempt_authority a' e at_ = v.
Proof.
  unfold Ref.grant_fresh_attempt_authority, Ref.current_attempt_authority. cbn.
  by rewrite !bool_decide_eq_true_2 by done.
Qed.

#[export] Instance Ref_ExecutionFabricLaws : ExecutionFabricLaws ReferenceAdapters.
Proof.
  split.
  - done.
  - exact Ref_set_authoritative_current.
  - exact Ref_grant_is_current.
  - done.
  - done.
  - exact Ref_release_keeps_authority.
  - done.
Qed.
