(* ===== verification/Priority.v ===== *)
(** * Priority-inversion evidence ([priority/inversion.hpp])

    The caller's facts, the evidence record, and the recommendation predicate.  The
    assessment itself is a query of the runtime. *)

From stdpp Require Import base strings numbers.
From Stdlib Require Import ZArith.
From S2P Require Import Prelude Identity Enums.

Module PriorityInversionResolution.
Inductive PriorityInversionResolution :=
  | kInvalid | kSafePreemptionResolves | kSafePreemptionDoesNotResolve | kUnknown.
End PriorityInversionResolution.
Abbreviation PriorityInversionResolution := PriorityInversionResolution.PriorityInversionResolution.
#[export] Instance PriorityInversionResolution_eq_dec : EqDecision PriorityInversionResolution.
Proof. solve_decision. Defined.

Record PriorityInversionInput := mkPriorityInversionInput {
  pii_holder_workload : WorkloadId;
  pii_holder_execution : ExecutionId;
  pii_holder_attempt : AttemptId;
  pii_holder_worker_boot : WorkerBootId;
  pii_blocked_workload : WorkloadId;
  pii_blocked_execution : ExecutionId;
  pii_resource : ResourceClass;
  pii_priority_generation : PriorityGeneration;
  pii_policy_generation : PolicyGeneration;
  pii_holder_authoritative : bool;
  pii_holder_preemptibility : PreemptibilityClass;
  pii_next_safe_point_cost : Z;
  pii_preservation_cost : Z;
  pii_release_cost : Z;
  pii_resume_recompute_cost : Z;
  pii_blocking_duration_ns : Z;
  pii_blocking_duration_measured : bool;
  pii_reason : string;
  pii_provenance : EvidenceKind
}.

Record PriorityInversionEvidence := mkPriorityInversionEvidence {
  pie_ok : bool;
  pie_stale : bool;
  pie_resource : ResourceClass;
  pie_holder_workload : WorkloadId;
  pie_blocked_workload : WorkloadId;
  pie_holder_preemptible : bool;
  pie_next_safe_point_cost : Z;
  pie_preservation_cost : Z;
  pie_release_cost : Z;
  pie_resume_recompute_cost : Z;
  pie_blocking_duration_ns : Z;
  pie_blocking_duration_measured : bool;
  pie_resolution : PriorityInversionResolution;
  pie_reason : string;
  pie_provenance : EvidenceKind
}.
#[export] Instance PriorityInversionEvidence_eta : Eta PriorityInversionEvidence := λ e,
  mkPriorityInversionEvidence (pie_ok e) (pie_stale e) (pie_resource e) (pie_holder_workload e)
    (pie_blocked_workload e) (pie_holder_preemptible e) (pie_next_safe_point_cost e)
    (pie_preservation_cost e) (pie_release_cost e) (pie_resume_recompute_cost e)
    (pie_blocking_duration_ns e) (pie_blocking_duration_measured e) (pie_resolution e)
    (pie_reason e) (pie_provenance e).

Definition default_PriorityInversionEvidence : PriorityInversionEvidence :=
  mkPriorityInversionEvidence false false ResourceClass.kInvalid default_id default_id false
    0 0 0 0 0 false PriorityInversionResolution.kUnknown EmptyString EvidenceKind.kUnknown.

(** [positive_recommendation]. *)
Definition positive_recommendation (e : PriorityInversionEvidence) : bool :=
  pie_ok e && negb (pie_stale e)
    && bool_decide (pie_resolution e = PriorityInversionResolution.kSafePreemptionResolves)
    && negb (bool_decide (pie_provenance e = EvidenceKind.kUnknown)).
