(* ===== verification/PersistentState.v ===== *)
(** * The durable image ([persistence/state.hpp])

    The state that survives a restart, as plain records. *)

From stdpp Require Import base list numbers.
From Stdlib Require Import ZArith.
From S2P Require Import Prelude Identity Enums.

(** [version.hpp]. *)
Definition PF_PERSISTENCE_VERSION : Z := 1.

Record PersistentSafePoint := mkPersistentSafePoint {
  psp_id : SafePointId;
  psp_generation : SafePointGeneration;
  psp_execution_id : ExecutionId;
  psp_attempt_id : AttemptId;
  psp_worker_id : WorkerId;
  psp_worker_boot_id : WorkerBootId;
  psp_progress_position : Z;
  psp_state_capture_required : bool;
  psp_checkpoint_required : bool;
  psp_state : SafePointState;
  psp_order : Z
}.
#[export] Instance PersistentSafePoint_eq_dec : EqDecision PersistentSafePoint.
Proof. solve_decision. Defined.

Record PersistentReleaseReceipt := mkPersistentReleaseReceipt {
  prr_resource : ResourceClass;
  prr_units : Z;
  prr_contract_id : ResourceContractId;
  prr_contract_generation : ResourceContractGeneration;
  prr_release_generation : ReleaseGeneration;
  prr_worker_boot_id : WorkerBootId
}.
#[export] Instance PersistentReleaseReceipt_eq_dec : EqDecision PersistentReleaseReceipt.
Proof. solve_decision. Defined.

Record PersistentSuperseded := mkPersistentSuperseded {
  psu_request_id : PreemptionRequestId;
  psu_generation : PreemptionRequestGeneration;
  psu_final_state : LifecycleState
}.
#[export] Instance PersistentSuperseded_eq_dec : EqDecision PersistentSuperseded.
Proof. solve_decision. Defined.

Record PersistentState := mkPersistentState {
  ps_format_version : Z;
  ps_coordinator_epoch : CoordinatorEpoch;
  ps_policy_generation : PolicyGeneration;
  ps_workload_id : WorkloadId;
  ps_workload_generation : WorkloadGeneration;
  ps_execution_id : ExecutionId;
  ps_execution_generation : ExecutionGeneration;
  ps_attempt_id : AttemptId;
  ps_attempt_generation : AttemptGeneration;
  ps_worker_id : WorkerId;
  ps_worker_boot_id : WorkerBootId;
  ps_fenced_worker_boot : WorkerBootId;
  ps_lifecycle : LifecycleState;
  ps_request_id : PreemptionRequestId;
  ps_request_generation : PreemptionRequestGeneration;
  ps_quiesced : bool;
  ps_quiescence_generation : QuiescenceGeneration;
  ps_state_durable : bool;
  ps_state_capture_generation : StateCaptureGeneration;
  ps_checkpoint_ref : CheckpointRef;
  ps_checkpoint_generation : CheckpointGeneration;
  ps_resources_released : bool;
  ps_release_generation : ReleaseGeneration;
  ps_preempted : bool;
  ps_resume_generation : ResumeGeneration;
  ps_durable_progress : Z;
  ps_progress_generation : ProgressGeneration;
  ps_safe_points : list PersistentSafePoint;
  ps_release_receipts : list PersistentReleaseReceipt;
  ps_history : list PersistentSuperseded
}.
#[export] Instance PersistentState_eta : Eta PersistentState := λ s,
  mkPersistentState (ps_format_version s) (ps_coordinator_epoch s) (ps_policy_generation s)
    (ps_workload_id s) (ps_workload_generation s) (ps_execution_id s)
    (ps_execution_generation s) (ps_attempt_id s) (ps_attempt_generation s) (ps_worker_id s)
    (ps_worker_boot_id s) (ps_fenced_worker_boot s) (ps_lifecycle s) (ps_request_id s)
    (ps_request_generation s) (ps_quiesced s) (ps_quiescence_generation s)
    (ps_state_durable s) (ps_state_capture_generation s) (ps_checkpoint_ref s)
    (ps_checkpoint_generation s) (ps_resources_released s) (ps_release_generation s)
    (ps_preempted s) (ps_resume_generation s) (ps_durable_progress s)
    (ps_progress_generation s) (ps_safe_points s) (ps_release_receipts s) (ps_history s).
