(* ===== verification/Store.v ===== *)
(** * The persistent store ([persistence/store.hpp], [persistence/store.cpp])

    The versioned, checksummed image of the durable state: [encode], the semantic check
    [validate_state], and [decode] with its early returns.  A [DecodeResult] is the
    error or the decoded state; the partly filled state of a failed result, which no
    caller reads, is not represented. *)

From S2P Require Import Prelude Bytes Checked Crc32 Binary Parse Identity Enums PersistentState.
From stdpp Require Import base list strings numbers gmap.
From Stdlib Require Import ZArith Lia.
Open Scope Z_scope.

Module PersistenceError.
Inductive PersistenceError :=
  | kOk | kBadMagic | kBadVersion | kTruncated
  | kChecksum | kInvalidEnum | kMalformedLength | kTrailingGarbage
  | kDuplicateId | kGenerationRegression | kMultipleAuthoritative | kIllegalLifecycle
  | kReleaseBeforeQuiescence | kResumeBeforePreempted | kBrokenCheckpoint | kInvalidResourceObligation
  | kMalformedProgress | kIntegerOverflow.
End PersistenceError.
Abbreviation PersistenceError := PersistenceError.PersistenceError.
#[export] Instance PersistenceError_eq_dec : EqDecision PersistenceError.
Proof. solve_decision. Defined.

Definition persistence_error_to_string (e : PersistenceError) : string :=
  match e with
  | PersistenceError.kOk => "OK"
  | PersistenceError.kBadMagic => "BAD_MAGIC"
  | PersistenceError.kBadVersion => "BAD_VERSION"
  | PersistenceError.kTruncated => "TRUNCATED"
  | PersistenceError.kChecksum => "CHECKSUM"
  | PersistenceError.kInvalidEnum => "INVALID_ENUM"
  | PersistenceError.kMalformedLength => "MALFORMED_LENGTH"
  | PersistenceError.kTrailingGarbage => "TRAILING_GARBAGE"
  | PersistenceError.kDuplicateId => "DUPLICATE_ID"
  | PersistenceError.kGenerationRegression => "GENERATION_REGRESSION"
  | PersistenceError.kMultipleAuthoritative => "MULTIPLE_AUTHORITATIVE"
  | PersistenceError.kIllegalLifecycle => "ILLEGAL_LIFECYCLE"
  | PersistenceError.kReleaseBeforeQuiescence => "RELEASE_BEFORE_QUIESCENCE"
  | PersistenceError.kResumeBeforePreempted => "RESUME_BEFORE_PREEMPTED"
  | PersistenceError.kBrokenCheckpoint => "BROKEN_CHECKPOINT"
  | PersistenceError.kInvalidResourceObligation => "INVALID_RESOURCE_OBLIGATION"
  | PersistenceError.kMalformedProgress => "MALFORMED_PROGRESS"
  | PersistenceError.kIntegerOverflow => "INTEGER_OVERFLOW"
  end.

Definition DecodeResult : Type := PersistenceError + PersistentState.

Module Store.
Import PersistenceError.

(** ** Constants *)

Definition kMagic0 : Z := 0x50.
Definition kMagic1 : Z := 0x46.
Definition kMagic2 : Z := 0x53.
Definition kMagic3 : Z := 0x42.
(** magic + version + payload_len *)
Definition kHeaderSize : nat := 12.
(** crc32 *)
Definition kTrailerSize : nat := 4.

(** ** Semantic validation *)

Definition is_known_lifecycle (s : LifecycleState) : bool :=
  bool_decide (s = LifecycleState.kInvalid) || negb (bool_decide (to_string s = "<unknown>")).
Definition is_known_resource (r : ResourceClass) : bool :=
  negb (bool_decide (to_string r = "<unknown>")).
Definition is_known_safepoint_state (s : SafePointState) : bool :=
  negb (bool_decide (to_string s = "<unknown>")) && negb (bool_decide (s = SafePointState.kUnset)).

Definition is_on_main_path (s : LifecycleState) : bool :=
  match s with
  | LifecycleState.kRequested | LifecycleState.kValidatingAuthority | LifecycleState.kAssessing
  | LifecycleState.kDeferred | LifecycleState.kWaitingForSafePoint | LifecycleState.kSafePointReached
  | LifecycleState.kQuiescing | LifecycleState.kQuiesced | LifecycleState.kCaptureRequired
  | LifecycleState.kCapturingState | LifecycleState.kStateDurable | LifecycleState.kReleasePending
  | LifecycleState.kReleasing | LifecycleState.kResourcesReleased | LifecycleState.kPreempted
  | LifecycleState.kResumePending | LifecycleState.kRevalidating | LifecycleState.kRestoring
  | LifecycleState.kResumeReady | LifecycleState.kResuming | LifecycleState.kResumed => true
  | _ => false
  end.
Definition is_release_reached (s : LifecycleState) : bool :=
  match s with
  | LifecycleState.kReleasePending | LifecycleState.kReleasing | LifecycleState.kResourcesReleased
  | LifecycleState.kPreempted | LifecycleState.kResumePending | LifecycleState.kRevalidating
  | LifecycleState.kRestoring | LifecycleState.kResumeReady | LifecycleState.kResuming
  | LifecycleState.kResumed => true
  | _ => false
  end.
Definition is_resume_reached (s : LifecycleState) : bool :=
  match s with
  | LifecycleState.kResumePending | LifecycleState.kRevalidating | LifecycleState.kRestoring
  | LifecycleState.kResumeReady | LifecycleState.kResuming | LifecycleState.kResumed => true
  | _ => false
  end.

(** The loop over the safe points, with the set of identifiers seen. *)
Fixpoint validate_safe_points (seen_ids : gset Z) (sps : list PersistentSafePoint) : PersistenceError :=
  match sps with
  | [] => kOk
  | sp :: rest =>
    if negb (is_valid (psp_id sp)) then kDuplicateId
    else if bool_decide (value (psp_id sp) ∈ seen_ids) then kDuplicateId
    else if negb (is_known_safepoint_state (psp_state sp)) then kInvalidEnum
    else validate_safe_points ({[value (psp_id sp)]} ∪ seen_ids) rest
  end.

Fixpoint validate_receipts (rs : list PersistentReleaseReceipt) : PersistenceError :=
  match rs with
  | [] => kOk
  | rcpt :: rest =>
    if negb (is_known_resource (prr_resource rcpt)) then kInvalidEnum
    else if negb (is_valid (prr_contract_generation rcpt)) || negb (is_valid (prr_release_generation rcpt))
    then kInvalidResourceObligation
    else if prr_units rcpt =? 0 then kInvalidResourceObligation
    else validate_receipts rest
  end.

Fixpoint validate_history (hs : list PersistentSuperseded) : PersistenceError :=
  match hs with
  | [] => kOk
  | h :: rest =>
    if negb (is_known_lifecycle (psu_final_state h)) then kInvalidEnum else validate_history rest
  end.

(** [if (e != kOk) return e;] before the next check. *)
Definition and_then (e next : PersistenceError) : PersistenceError :=
  match e with kOk => next | _ => e end.

(** The obligations on the forward path of the lifecycle. *)
Definition validate_lifecycle (s : PersistentState) : PersistenceError :=
  if is_on_main_path (ps_lifecycle s) then
    if is_release_reached (ps_lifecycle s) && negb (ps_quiesced s) then kReleaseBeforeQuiescence
    else if is_release_reached (ps_lifecycle s) && negb (ps_state_durable s) then kReleaseBeforeQuiescence
    else if is_release_reached (ps_lifecycle s) && negb (ps_resources_released s) then kReleaseBeforeQuiescence
    else if is_resume_reached (ps_lifecycle s) && negb (ps_preempted s) then kResumeBeforePreempted
    else kOk
  else kOk.

Definition validate_state (s : PersistentState) : PersistenceError :=
  if negb (ps_format_version s =? PF_PERSISTENCE_VERSION) then kBadVersion
  else if negb (is_known_lifecycle (ps_lifecycle s)) then kInvalidEnum
  else and_then (validate_lifecycle s)
    (if ps_preempted s && negb (ps_state_durable s) then kReleaseBeforeQuiescence
     else if ps_state_durable s
             && negb (is_valid (ps_checkpoint_ref s) && is_valid (ps_checkpoint_generation s))
     then kBrokenCheckpoint
     else and_then (validate_safe_points ∅ (ps_safe_points s))
       (and_then (validate_receipts (ps_release_receipts s))
         (validate_history (ps_history s)))).

(** ** Encoding *)

Section encode.
Import ByteWriter.

Definition encode_safe_point (sp : PersistentSafePoint) (body : ByteWriter) : ByteWriter :=
  body ▷ u64 (value (psp_id sp))
    ▷ u64 (value (psp_generation sp))
    ▷ u64 (value (psp_execution_id sp))
    ▷ u64 (value (psp_attempt_id sp))
    ▷ u64 (value (psp_worker_id sp))
    ▷ u64 (value (psp_worker_boot_id sp))
    ▷ u64 (psp_progress_position sp)
    ▷ u8 (bool_to_u8 (psp_state_capture_required sp))
    ▷ u8 (bool_to_u8 (psp_checkpoint_required sp))
    ▷ u32 (to_u32 (psp_state sp))
    ▷ u64 (psp_order sp).
Definition encode_receipt (rcpt : PersistentReleaseReceipt) (body : ByteWriter) : ByteWriter :=
  body ▷ u32 (to_u32 (prr_resource rcpt))
    ▷ u64 (prr_units rcpt)
    ▷ u64 (value (prr_contract_id rcpt))
    ▷ u64 (value (prr_contract_generation rcpt))
    ▷ u64 (value (prr_release_generation rcpt))
    ▷ u64 (value (prr_worker_boot_id rcpt)).
Definition encode_superseded (h : PersistentSuperseded) (body : ByteWriter) : ByteWriter :=
  body ▷ u64 (value (psu_request_id h))
    ▷ u64 (value (psu_generation h))
    ▷ u32 (to_u32 (psu_final_state h)).
(** The fields before the first list. *)
Definition encode_fields (s : PersistentState) (body : ByteWriter) : ByteWriter :=
  body ▷ u32 PF_PERSISTENCE_VERSION
    ▷ u64 (value (ps_coordinator_epoch s))
    ▷ u64 (value (ps_policy_generation s))
    ▷ u64 (value (ps_workload_id s))
    ▷ u64 (value (ps_workload_generation s))
    ▷ u64 (value (ps_execution_id s))
    ▷ u64 (value (ps_execution_generation s))
    ▷ u64 (value (ps_attempt_id s))
    ▷ u64 (value (ps_attempt_generation s))
    ▷ u64 (value (ps_worker_id s))
    ▷ u64 (value (ps_worker_boot_id s))
    ▷ u64 (value (ps_fenced_worker_boot s))
    ▷ u32 (to_u32 (ps_lifecycle s))
    ▷ u64 (value (ps_request_id s))
    ▷ u64 (value (ps_request_generation s))
    ▷ u8 (bool_to_u8 (ps_quiesced s))
    ▷ u64 (value (ps_quiescence_generation s))
    ▷ u8 (bool_to_u8 (ps_state_durable s))
    ▷ u64 (value (ps_state_capture_generation s))
    ▷ u64 (value (ps_checkpoint_ref s))
    ▷ u64 (value (ps_checkpoint_generation s))
    ▷ u8 (bool_to_u8 (ps_resources_released s))
    ▷ u64 (value (ps_release_generation s))
    ▷ u8 (bool_to_u8 (ps_preempted s))
    ▷ u64 (value (ps_resume_generation s))
    ▷ u64 (ps_durable_progress s)
    ▷ u64 (value (ps_progress_generation s)).

(** A list: its size, then its elements; [None] when the size does not fit. *)
Definition encode_list {T} (enc : T → ByteWriter → ByteWriter) (l : list T) (body : ByteWriter)
    : option ByteWriter :=
  if negb (fits_u32 (Z.of_nat (length l))) then None
  else Some (foldl (λ w x, enc x w) (u32 (Z.of_nat (length l)) body) l).

Definition encode_payload (s : PersistentState) : option ByteWriter :=
  body ← encode_list encode_safe_point (ps_safe_points s) (encode_fields s empty);
  body ← encode_list encode_receipt (ps_release_receipts s) body;
  encode_list encode_superseded (ps_history s) body.

(** An image that cannot be written is the empty vector. *)
Definition encode (s : PersistentState) : list byte :=
  match encode_payload s with
  | None => []
  | Some payload =>
    let out := [byte_of_Z kMagic0; byte_of_Z kMagic1; byte_of_Z kMagic2; byte_of_Z kMagic3] in
    let out := out ++ u32 PF_PERSISTENCE_VERSION empty in
    let out := out ++ u32 (wrap 32 (size payload)) empty in
    let out := out ++ payload in
    let crc := crc32 out in
    out ++ u32 crc empty
  end.

End encode.

(** ** Decoding *)

(** The reader [r] and the flag [ok] that the reading lambdas share. *)
Record Cursor := mkCursor { cur_r : ByteReader; cur_ok : bool }.
Abbreviation Read := (Parse Cursor PersistenceError).

#[export] Instance Cursor_input : Input Cursor := {|
  unread c := Reader.remaining_span (cur_r c);
  in_bounds c := (pos_ (cur_r c) ≤ length (data_ (cur_r c)))%nat;
  healthy := cur_ok |}.

(** A failed read returns 0, clears [ok] and lets the decoder continue. *)
Definition read_with (rd : ByteReader → option (Z * ByteReader)) : Read Z := λ c,
  match rd (cur_r c) with
  | Some (v, r') => inr (v, mkCursor r' (cur_ok c))
  | None => inr (0, mkCursor (cur_r c) false)
  end.
Definition read_u64 : Read Z := read_with Reader.u64.
Definition read_u8 : Read Z := read_with Reader.u8.
Definition read_u32 : Read Z := read_with Reader.u32.

Definition read_id {d} : Read (Id d) := v ← read_u64; mret (mkId v).
Definition read_gen {d} : Read (Generation d) := v ← read_u64; mret (mkGeneration v).
Definition read_bool : Read bool := v ← read_u8; mret (u8_to_bool v).

(** [if (e > static_cast<std::uint32_t>(last)) return fail(kInvalidEnum);] and the cast. *)
Definition read_enum {T} `{CEnum T} (last : T) : Read T :=
  e ← read_u32;
  if to_u32 last <? e then pfail kInvalidEnum
  else mret (default last (of_u32 e)).

(** [if (!ok) return fail(kTruncated);] *)
Definition require_ok : Read unit := λ c,
  if negb (cur_ok c) then inl kTruncated else inr (tt, c).

(** [for (i = 0; ok && i < count; ++i) l.push_back(elem())]: after [ok] is cleared or the
    decoder has returned, the remaining iterations do nothing. *)
Definition read_step {T} (elem : Read T) (st : PersistenceError + (list T * Cursor))
    : PersistenceError + (list T * Cursor) :=
  match st with
  | inl e => inl e
  | inr (l, c) =>
    if cur_ok c then
      match elem c with
      | inl e => inl e
      | inr (x, c') => inr (l ++ [x], c')
      end
    else inr (l, c)
  end.
Definition read_records {T} (count : Z) (elem : Read T) : Read (list T) := λ c,
  N.iter (Z.to_N count) (read_step elem) (inr ([], c)).

Definition read_safe_point : Read PersistentSafePoint :=
  id ← read_id;
  generation ← read_gen;
  execution_id ← read_id;
  attempt_id ← read_id;
  worker_id ← read_id;
  worker_boot_id ← read_id;
  progress_position ← read_u64;
  state_capture_required ← read_bool;
  checkpoint_required ← read_bool;
  state ← read_enum SafePointState.kUnknown;
  order ← read_u64;
  mret (mkPersistentSafePoint id generation execution_id attempt_id worker_id worker_boot_id
      progress_position state_capture_required checkpoint_required state order).
Definition read_receipt : Read PersistentReleaseReceipt :=
  resource ← read_enum ResourceClass.kOther;
  units ← read_u64;
  contract_id ← read_id;
  contract_generation ← read_gen;
  release_generation ← read_gen;
  worker_boot_id ← read_id;
  mret (mkPersistentReleaseReceipt resource units contract_id contract_generation
      release_generation worker_boot_id).
Definition read_superseded : Read PersistentSuperseded :=
  request_id ← read_id;
  generation ← read_gen;
  final_state ← read_enum LifecycleState.kSuperseded;
  mret (mkPersistentSuperseded request_id generation final_state).

(** The payload, up to the check for trailing data. *)
Definition read_state : Read PersistentState :=
  format_version ← read_u32;
  coordinator_epoch ← read_gen;
  policy_generation ← read_gen;
  workload_id ← read_id;
  workload_generation ← read_gen;
  execution_id ← read_id;
  execution_generation ← read_gen;
  attempt_id ← read_id;
  attempt_generation ← read_gen;
  worker_id ← read_id;
  worker_boot_id ← read_id;
  fenced_worker_boot ← read_id;
  lifecycle ← read_enum LifecycleState.kSuperseded;
  request_id ← read_id;
  request_generation ← read_gen;
  quiesced ← read_bool;
  quiescence_generation ← read_gen;
  state_durable ← read_bool;
  state_capture_generation ← read_gen;
  checkpoint_ref ← read_id;
  checkpoint_generation ← read_gen;
  resources_released ← read_bool;
  release_generation ← read_gen;
  preempted ← read_bool;
  resume_generation ← read_gen;
  durable_progress ← read_u64;
  progress_generation ← read_gen;
  sp_count ← read_u32;
  safe_points ← read_records sp_count read_safe_point;
  require_ok;;
  rr_count ← read_u32;
  release_receipts ← read_records rr_count read_receipt;
  require_ok;;
  hist_count ← read_u32;
  history ← read_records hist_count read_superseded;
  require_ok;;
  mret (mkPersistentState format_version coordinator_epoch policy_generation workload_id
      workload_generation execution_id execution_generation attempt_id attempt_generation
      worker_id worker_boot_id fenced_worker_boot lifecycle request_id request_generation
      quiesced quiescence_generation state_durable state_capture_generation checkpoint_ref
      checkpoint_generation resources_released release_generation preempted resume_generation
      durable_progress progress_generation safe_points release_receipts history).

Definition magic_matches (bytes : list byte) : bool :=
  (byte_to_Z (nth 0 bytes x00) =? kMagic0) && (byte_to_Z (nth 1 bytes x00) =? kMagic1)
    && (byte_to_Z (nth 2 bytes x00) =? kMagic2) && (byte_to_Z (nth 3 bytes x00) =? kMagic3).

Definition decode (bytes : list byte) : DecodeResult :=
  if (length bytes <? kHeaderSize + kTrailerSize)%nat then inl kTruncated
  else if negb (magic_matches bytes) then inl kBadMagic
  else
    match Reader.read_u32_at (subspan 4 4 bytes), Reader.read_u32_at (subspan 8 4 bytes) with
    | Some version, Some payload_len =>
      if negb (version =? PF_PERSISTENCE_VERSION) then inl kBadVersion
      else
        let expected_total := Z.of_nat kHeaderSize + payload_len + Z.of_nat kTrailerSize in
        if negb (expected_total =? Z.of_nat (length bytes)) then inl kTruncated
        else
          let payload := subspan kHeaderSize (Z.to_nat payload_len) bytes in
          let trailer := (length bytes - kTrailerSize)%nat in
          match Reader.read_u32_at (subspan trailer kTrailerSize bytes) with
          | None => inl kTruncated
          | Some stored_crc =>
            let computed := crc32 (take trailer bytes) in
            if negb (computed =? stored_crc) then inl kChecksum
            else
              match read_state (mkCursor (Reader.of_span payload) true) with
              | inl e => inl e
              | inr (s, c) =>
                if negb (Reader.at_end (cur_r c)) then inl kTrailingGarbage
                else
                  match validate_state s with
                  | kOk => inr s
                  | verr => inl verr
                  end
              end
          end
    | _, _ => inl kTruncated
    end.

End Store.
