(* ===== verification/StoreTheorems.v ===== *)
(** * Correctness of the persistent store

    The field reads of [Store] in the judgements of [Parse], the round trip of an image,
    and what acceptance by [decode] guarantees: a validated state with all values in
    range, and an image that no short burst of errors could have turned into another. *)

From S2P Require Import Prelude Bytes Checked Crc32 Binary Parse Identity Enums PersistentState.
From S2P Require Import Store.
From stdpp Require Import base list strings numbers gmap.
From Stdlib Require Import ZArith Lia.
Open Scope Z_scope.

(** ** Well-formed images: every value has the range of its C++ type *)

Definition safe_point_wf (sp : PersistentSafePoint) : Prop :=
  wf (psp_id sp) ∧ wf (psp_generation sp) ∧ wf (psp_execution_id sp) ∧ wf (psp_attempt_id sp)
  ∧ wf (psp_worker_id sp) ∧ wf (psp_worker_boot_id sp) ∧ in_u64 (psp_progress_position sp)
  ∧ in_u64 (psp_order sp).
Definition receipt_wf (r : PersistentReleaseReceipt) : Prop :=
  in_u64 (prr_units r) ∧ wf (prr_contract_id r) ∧ wf (prr_contract_generation r)
  ∧ wf (prr_release_generation r) ∧ wf (prr_worker_boot_id r).
Definition superseded_wf (h : PersistentSuperseded) : Prop :=
  wf (psu_request_id h) ∧ wf (psu_generation h).
Definition state_wf (s : PersistentState) : Prop :=
  in_u32 (ps_format_version s)
  ∧ wf (ps_coordinator_epoch s) ∧ wf (ps_policy_generation s) ∧ wf (ps_workload_id s)
  ∧ wf (ps_workload_generation s) ∧ wf (ps_execution_id s) ∧ wf (ps_execution_generation s)
  ∧ wf (ps_attempt_id s) ∧ wf (ps_attempt_generation s) ∧ wf (ps_worker_id s)
  ∧ wf (ps_worker_boot_id s) ∧ wf (ps_fenced_worker_boot s) ∧ wf (ps_request_id s)
  ∧ wf (ps_request_generation s) ∧ wf (ps_quiescence_generation s)
  ∧ wf (ps_state_capture_generation s) ∧ wf (ps_checkpoint_ref s)
  ∧ wf (ps_checkpoint_generation s) ∧ wf (ps_release_generation s)
  ∧ wf (ps_resume_generation s) ∧ in_u64 (ps_durable_progress s)
  ∧ wf (ps_progress_generation s)
  ∧ Forall safe_point_wf (ps_safe_points s) ∧ Forall receipt_wf (ps_release_receipts s)
  ∧ Forall superseded_wf (ps_history s).

(** The payload and its list sizes fit their 32-bit length fields. *)
Definition encodable (s : PersistentState) : bool :=
  match Store.encode_payload s with
  | Some payload => ByteWriter.size payload <=? u32_max
  | None => false
  end.

Module StoreLemmas.
Import Store PersistenceError.

(** ** Single reads *)

Lemma parses_read_le n rd v :
  (∀ r, rd r = Reader.read_le n r) → 0 ≤ v < 256 ^ Z.of_nat n →
  parses (read_with rd) (le_bytes n v) v.
Proof.
  intros Hrd Hv c rest Hb Hh Hu. cbn in *.
  edestruct (ReaderLemmas.read_le_app n) as (E & Hrest & Hp); [exact Hb|exact Hu|exact Hv|].
  eexists. unfold read_with. rewrite Hrd, E. split_and!; [done|exact Hp|done|exact Hrest].
Qed.

Lemma parses_u64 v : in_u64 v → parses read_u64 (le_bytes 8 v) v.
Proof. intros ?%in_u64_256. by apply parses_read_le. Qed.
Lemma parses_u32 v : in_u32 v → parses read_u32 (le_bytes 4 v) v.
Proof. intros ?%in_u32_256. by apply parses_read_le. Qed.
Lemma parses_u8 v : 0 ≤ v < 256 ^ Z.of_nat 1 → parses read_u8 (le_bytes 1 v) v.
Proof. apply parses_read_le, ReaderLemmas.u8_read_le. Qed.

Lemma parses_id {d} (x : Id d) : wf x → parses read_id (le_bytes 8 (value x)) x.
Proof. intros Hx. destruct x. eapply parses_bind_last; [by apply parses_u64|apply parses_ret]. Qed.
Lemma parses_gen {d} (x : Generation d) : wf x → parses read_gen (le_bytes 8 (value x)) x.
Proof. intros Hx. destruct x. eapply parses_bind_last; [by apply parses_u64|apply parses_ret]. Qed.
Lemma parses_bool b : parses read_bool (le_bytes 1 (bool_to_u8 b)) b.
Proof.
  eapply parses_bind_last; [apply parses_u8, bool_to_u8_range|].
  rewrite u8_to_bool_to_u8. apply parses_ret.
Qed.
Lemma parses_enum {T} `{CEnum T} (last e : T) :
  to_u32 last = enum_last T → enum_last T ≤ u32_max → parses (read_enum last) (le_bytes 4 (to_u32 e)) e.
Proof.
  intros Hlast Hmax. eapply parses_bind_last; [by apply parses_u32, to_u32_in_u32|].
  pose proof (to_u32_bounds e). destruct (Z.ltb_spec (to_u32 last) (to_u32 e)); [lia|].
  rewrite of_u32_to_u32. apply parses_ret.
Qed.
Lemma parses_require_ok : parses require_ok [] tt.
Proof.
  intros c rest Hb Hh Hu. exists c. unfold require_ok. cbn in Hh. rewrite Hh. by split_and!.
Qed.

#[local] Hint Resolve parses_u64 parses_u32 parses_id parses_gen parses_bool parses_require_ok : parse.
#[local] Hint Extern 2 (parses (read_enum _) _ _) => apply parses_enum; [reflexivity|discriminate] : parse.

Lemma parses_records {T} (elem : Read T) (bytes_of : T → list byte) l :
  Forall (λ x, parses elem (bytes_of x) x) l →
  parses (read_records (Z.of_nat (length l)) elem) (l ≫= bytes_of) l.
Proof.
  intros Hl c rest Hb Hh Hu. unfold read_records.
  rewrite N2Nat.inj_iter, Z_N_nat, Nat2Z.id. change l with ([] ++ l) at 2.
  generalize (@nil T) as acc. revert c Hb Hh Hu.
  induction Hl as [|x l Hx Hl IH]; intros c Hb Hh Hu acc.
  - exists c. rewrite app_nil_r. by split_and!.
  - cbn [length]. rewrite Nat.iter_succ_r. cbn [read_step]. cbn in Hh. rewrite Hh.
    cbn in Hu. rewrite <- app_assoc in Hu.
    destruct (Hx c _ Hb Hh Hu) as (c' & E & Hb' & Hh' & Hu'). rewrite E.
    destruct (IH c' Hb' Hh' Hu' (acc ++ [x])) as (c2 & E2 & Hrest).
    exists c2. by rewrite <- app_assoc in E2.
Qed.

(** ** The writer as a concatenation of fields *)

Definition safe_point_bytes (sp : PersistentSafePoint) : list byte := encode_safe_point sp [].
Definition receipt_bytes (r : PersistentReleaseReceipt) : list byte := encode_receipt r [].
Definition superseded_bytes (h : PersistentSuperseded) : list byte := encode_superseded h [].

Lemma encode_safe_point_app sp w : encode_safe_point sp w = w ++ safe_point_bytes sp.
Proof. unfold safe_point_bytes, encode_safe_point. norm_writer. done. Qed.
Lemma encode_receipt_app r w : encode_receipt r w = w ++ receipt_bytes r.
Proof. unfold receipt_bytes, encode_receipt. norm_writer. done. Qed.
Lemma encode_superseded_app h w : encode_superseded h w = w ++ superseded_bytes h.
Proof. unfold superseded_bytes, encode_superseded. norm_writer. done. Qed.

Definition list_bytes {T} (bytes_of : T → list byte) (l : list T) : list byte :=
  le_bytes 4 (Z.of_nat (length l)) ++ (l ≫= bytes_of).

Lemma encode_list_app {T} (enc : T → ByteWriter.ByteWriter → ByteWriter.ByteWriter) bytes_of l w w' :
  (∀ x w, enc x w = w ++ bytes_of x) → encode_list enc l w = Some w' →
  w' = w ++ list_bytes bytes_of l ∧ in_u32 (Z.of_nat (length l)).
Proof.
  intros Henc. unfold encode_list, list_bytes. destruct (fits_u32 _) eqn:Hf; [|done]. cbn [negb].
  apply fits_u32_spec in Hf. intros Heq. injection Heq as <-. split; [|zlia].
  rewrite ByteWriter.u32_app. set (w0 := w ++ _). rewrite app_assoc. fold w0. clearbody w0.
  clear Hf. revert w0. induction l as [|x l IH]; intros w0; cbn; [by rewrite app_nil_r|].
  by rewrite IH, Henc, <- app_assoc.
Qed.

Lemma encode_payload_app s payload :
  encode_payload s = Some payload →
  payload = encode_fields s [] ++ list_bytes safe_point_bytes (ps_safe_points s)
              ++ list_bytes receipt_bytes (ps_release_receipts s)
              ++ list_bytes superseded_bytes (ps_history s)
  ∧ in_u32 (Z.of_nat (length (ps_safe_points s)))
  ∧ in_u32 (Z.of_nat (length (ps_release_receipts s))) ∧ in_u32 (Z.of_nat (length (ps_history s))).
Proof.
  unfold encode_payload.
  destruct (encode_list encode_safe_point _ _) as [w1|] eqn:E1; [|done]. cbn.
  destruct (encode_list encode_receipt _ _) as [w2|] eqn:E2; [|done]. cbn. intros E3.
  apply (encode_list_app _ _ _ _ _ encode_safe_point_app) in E1 as [-> ?].
  apply (encode_list_app _ _ _ _ _ encode_receipt_app) in E2 as [-> ?].
  apply (encode_list_app _ _ _ _ _ encode_superseded_app) in E3 as [-> ?].
  by rewrite <- !app_assoc.
Qed.

(** ** Records *)

(** Walks a decoder and the fields it reads in step. *)
Ltac parse_fields :=
  repeat (eapply parses_bind; [solve [eauto with parse]|]);
  eapply parses_bind_last; [solve [eauto with parse]|]; apply parses_ret.

Lemma parses_safe_point sp : safe_point_wf sp → parses read_safe_point (safe_point_bytes sp) sp.
Proof.
  intros (? & ? & ? & ? & ? & ? & ? & ?). destruct sp. cbn in *.
  unfold safe_point_bytes, encode_safe_point, read_safe_point. norm_writer. cbn [app]. parse_fields.
Qed.

Lemma parses_receipt r : receipt_wf r → parses read_receipt (receipt_bytes r) r.
Proof.
  intros (? & ? & ? & ? & ?). destruct r. cbn in *.
  unfold receipt_bytes, encode_receipt, read_receipt. norm_writer. cbn [app]. parse_fields.
Qed.

Lemma parses_superseded h : superseded_wf h → parses read_superseded (superseded_bytes h) h.
Proof.
  intros (? & ?). destruct h. cbn in *.
  unfold superseded_bytes, encode_superseded, read_superseded. norm_writer. cbn [app]. parse_fields.
Qed.

(** A count and its records, then the check of [ok]. *)
Lemma parses_list {T B} (elem : Read T) bytes_of (twf : T → Prop) l (f : list T → Read B) rest y :
  (∀ x, twf x → parses elem (bytes_of x) x) → Forall twf l → in_u32 (Z.of_nat (length l)) →
  parses (f l) rest y →
  parses (n ← read_u32; l ← read_records n elem; require_ok;; f l) (list_bytes bytes_of l ++ rest) y.
Proof.
  intros Hel Hl Hn Hf. unfold list_bytes. rewrite <- app_assoc.
  eapply parses_bind; [by apply parses_u32|].
  eapply parses_bind; [apply parses_records|].
  - apply (Forall_impl _ _ _ Hl). intros x Hx. by apply Hel.
  - apply (parses_bind _ _ [] rest tt y); [apply parses_require_ok|done].
Qed.

(** The whole payload; the version field always holds the current version. *)
Lemma parses_state s payload :
  state_wf s → encode_payload s = Some payload →
  parses read_state payload (s <| ps_format_version := PF_PERSISTENCE_VERSION |>).
Proof.
  intros Hwf Hp. apply encode_payload_app in Hp as (-> & Hn1 & Hn2 & Hn3).
  destruct Hwf as (? & ? & ? & ? & ? & ? & ? & ? & ? & ? & ? & ? & ? & ? & ? & ? & ? & ? & ? & ? & ?
    & ? & Hsp & Hrr & Hhi).
  unfold encode_fields, read_state. norm_writer. cbn [app].
  eapply parses_bind; [apply parses_u32; unfold PF_PERSISTENCE_VERSION; zlia|].
  do 26 (eapply parses_bind; [solve [eauto with parse]|]).
  apply (parses_list _ _ _ _ _ _ _ parses_safe_point Hsp Hn1).
  apply (parses_list _ _ _ _ _ _ _ parses_receipt Hrr Hn2).
  rewrite <- (app_nil_r (list_bytes superseded_bytes _)).
  apply (parses_list _ _ _ _ _ _ _ parses_superseded Hhi Hn3).
  apply parses_ret.
Qed.

(** ** The image around the payload *)

Definition header (len : Z) : list byte :=
  [byte_of_Z kMagic0; byte_of_Z kMagic1; byte_of_Z kMagic2; byte_of_Z kMagic3]
    ++ le_bytes 4 PF_PERSISTENCE_VERSION ++ le_bytes 4 len.
Definition image (payload : list byte) : list byte :=
  let covered := header (Z.of_nat (length payload)) ++ payload in
  covered ++ le_bytes 4 (crc32 covered).

Lemma encode_image s payload :
  encode_payload s = Some payload → ByteWriter.size payload ≤ u32_max →
  encode s = image payload.
Proof.
  intros Hp Hsz. unfold encode, image, header. rewrite Hp. unfold ByteWriter.size in *.
  rewrite wrap32_small by zlia. rewrite !ByteWriter.u32_app. cbn [ByteWriter.empty app]. done.
Qed.

(** What [decode] does after the checks of header, length and checksum. *)
Definition decode_payload (payload : list byte) : DecodeResult :=
  match read_state (mkCursor (Reader.of_span payload) true) with
  | inl e => inl e
  | inr (s, c) =>
    if negb (Reader.at_end (cur_r c)) then inl kTrailingGarbage
    else match validate_state s with kOk => inr s | verr => inl verr end
  end.

Lemma length_header n : length (header n) = kHeaderSize.
Proof. done. Qed.

Lemma decode_image payload :
  Z.of_nat (length payload) ≤ u32_max → decode (image payload) = decode_payload payload.
Proof.
  intros Hlen. unfold decode, image.
  set (covered := header (Z.of_nat (length payload)) ++ payload).
  assert (Hcov : length covered = (12 + length payload)%nat)
    by (unfold covered; by rewrite length_app, length_header).
  assert (Htot : length (covered ++ le_bytes 4 (crc32 covered)) = (16 + length payload)%nat)
    by (rewrite length_app, length_le_bytes, Hcov; lia).
  rewrite Htot. destruct (Nat.ltb_spec (16 + length payload) (kHeaderSize + kTrailerSize));
    [unfold kHeaderSize, kTrailerSize in *; lia|].
  assert (Hm : magic_matches (covered ++ le_bytes 4 (crc32 covered)) = true) by reflexivity.
  rewrite Hm. cbn [negb].
  assert (Hv : subspan 4 4 (covered ++ le_bytes 4 (crc32 covered)) = le_bytes 4 PF_PERSISTENCE_VERSION)
    by reflexivity.
  assert (Hl : subspan 8 4 (covered ++ le_bytes 4 (crc32 covered))
               = le_bytes 4 (Z.of_nat (length payload))) by reflexivity.
  rewrite Hv, Hl, !ReaderLemmas.read_u32_at_le_bytes by (unfold PF_PERSISTENCE_VERSION; zlia).
  rewrite Z.eqb_refl. cbn [negb].
  destruct (Z.eqb_spec (Z.of_nat kHeaderSize + Z.of_nat (length payload) + Z.of_nat kTrailerSize)
    (Z.of_nat (16 + length payload))); [|unfold kHeaderSize, kTrailerSize in *; lia].
  cbn [negb]. replace (16 + length payload - kTrailerSize)%nat with (length covered)
    by (unfold kTrailerSize; lia).
  assert (Ht : subspan (length covered) kTrailerSize (covered ++ le_bytes 4 (crc32 covered))
               = le_bytes 4 (crc32 covered)).
  { unfold subspan. rewrite drop_app_length. apply take_ge. by rewrite length_le_bytes. }
  rewrite Ht, ReaderLemmas.read_u32_at_le_bytes by apply crc32_in_u32.
  rewrite take_app_length, Z.eqb_refl. cbn [negb].
  assert (Hp : subspan kHeaderSize (Z.to_nat (Z.of_nat (length payload)))
                 (covered ++ le_bytes 4 (crc32 covered)) = payload).
  { unfold subspan, covered. rewrite Nat2Z.id, <- app_assoc.
    rewrite drop_app_length_eq by (by rewrite length_header). apply take_app_length. }
  rewrite Hp. reflexivity.
Qed.

Lemma decode_encode_gen s :
  state_wf s → encodable s = true →
  let s' := s <| ps_format_version := PF_PERSISTENCE_VERSION |> in
  decode (encode s) = match validate_state s' with kOk => inr s' | verr => inl verr end.
Proof.
  intros Hwf Henc s'. unfold encodable in Henc.
  destruct (encode_payload s) as [payload|] eqn:Hp; [|done]. apply Z.leb_le in Henc.
  rewrite (encode_image s payload), decode_image by done. unfold decode_payload.
  destruct (parses_state s payload Hwf Hp (mkCursor (Reader.of_span payload) true) [])
    as (c & -> & Hb & _ & Hu); [cbn; lia|done|by rewrite app_nil_r|].
  assert (Hend : Reader.at_end (cur_r c) = true).
  { cbn in Hb, Hu. apply (f_equal length) in Hu. unfold Reader.remaining_span in Hu.
    rewrite length_drop in Hu. cbn in Hu. apply Nat.eqb_eq. lia. }
  rewrite Hend. done.
Qed.

(** Bytes of another length than the header says are truncated. *)
Lemma decode_wrong_length n rest :
  0 ≤ n ≤ u32_max → n + Z.of_nat kTrailerSize ≠ Z.of_nat (length rest) →
  decode (header n ++ rest) = inl kTruncated.
Proof.
  intros Hn Hne. unfold decode. rewrite length_app, length_header.
  destruct (Nat.ltb_spec (kHeaderSize + length rest) (kHeaderSize + kTrailerSize)); [done|].
  assert (Hm : magic_matches (header n ++ rest) = true) by reflexivity.
  rewrite Hm. cbn [negb].
  assert (Hv : subspan 4 4 (header n ++ rest) = le_bytes 4 PF_PERSISTENCE_VERSION) by reflexivity.
  assert (Hl : subspan 8 4 (header n ++ rest) = le_bytes 4 n) by reflexivity.
  rewrite Hv, Hl, !ReaderLemmas.read_u32_at_le_bytes by (unfold PF_PERSISTENCE_VERSION; zlia).
  rewrite Z.eqb_refl. cbn [negb].
  destruct (Z.eqb_spec (Z.of_nat kHeaderSize + n + Z.of_nat kTrailerSize)
    (Z.of_nat (kHeaderSize + length rest))); [lia|done].
Qed.

(** A payload that does not fit its length field. *)
Lemma decode_encode_long s payload :
  encode_payload s = Some payload → u32_max < ByteWriter.size payload → decode (encode s) = inl kTruncated.
Proof.
  intros Hp Hsz. unfold ByteWriter.size in Hsz. set (n := wrap 32 (Z.of_nat (length payload))).
  assert (Hn : 0 ≤ n ≤ u32_max)
    by (unfold n, wrap; pose proof (Z.mod_pos_bound (Z.of_nat (length payload)) (2 ^ 32)); zlia).
  assert (Henc : encode s = header n ++ payload ++ le_bytes 4 (crc32 (header n ++ payload))).
  { unfold encode, header. rewrite Hp. unfold ByteWriter.size. fold n.
    rewrite !ByteWriter.u32_app. by rewrite <- !app_assoc. }
  rewrite Henc. apply decode_wrong_length; [done|]. rewrite length_app, length_le_bytes. unfold kTrailerSize. lia.
Qed.

(** An image that was not written to its end. *)
Lemma decode_torn s k :
  encodable s = true → (k < length (encode s))%nat → decode (take k (encode s)) = inl kTruncated.
Proof.
  intros Henc Hk. unfold encodable in Henc. destruct (encode_payload s) as [payload|] eqn:Hp; [|done].
  apply Z.leb_le in Henc. rewrite (encode_image s payload) in * by done. unfold image in *.
  rewrite <- app_assoc in *. set (rest := payload ++ _) in *.
  assert (Hrest : length rest = (length payload + 4)%nat) by (unfold rest; by rewrite length_app, length_le_bytes).
  clearbody rest. rewrite length_app, length_header in Hk.
  destruct (decide (k < kHeaderSize)%nat) as [Hs|Hs].
  - unfold decode. rewrite length_take. unfold kHeaderSize, kTrailerSize in *.
    destruct (Nat.ltb_spec (k `min` length (header (Z.of_nat (length payload)) ++ rest)) (12 + 4)); [done|lia].
  - rewrite take_app, length_header, take_ge by (rewrite length_header; lia).
    unfold ByteWriter.size in Henc. apply decode_wrong_length; [lia|].
    rewrite length_take. unfold kTrailerSize. lia.
Qed.

Lemma decode_encode_total s :
  state_wf s →
  let s' := s <| ps_format_version := PF_PERSISTENCE_VERSION |> in
  decode (encode s)
  = if encodable s then match validate_state s' with kOk => inr s' | verr => inl verr end
    else inl kTruncated.
Proof.
  intros Hwf s'. destruct (encodable s) eqn:Henc; [by apply decode_encode_gen|].
  unfold encodable in Henc. destruct (encode_payload s) as [payload|] eqn:Hp.
  - apply Z.leb_gt in Henc. by eapply decode_encode_long.
  - unfold encode. by rewrite Hp.
Qed.

(** ** What a successful decode returns *)

Lemma yields_read_with n rd (Hrd : ∀ r, rd r = Reader.read_le n r) :
  yields (read_with rd) (λ v, 0 ≤ v < 256 ^ Z.of_nat n).
Proof.
  intros c v c' Hb. unfold read_with. rewrite Hrd. cbn in Hb.
  destruct (Reader.read_le n (cur_r c)) as [[v' r']|] eqn:E; intros Heq; injection Heq as <- <-.
  - apply ReaderLemmas.read_le_inv in E as (-> & Hle & Hv); [|done]. done.
  - split; [|done]. split; [lia|]. apply Z.pow_pos_nonneg; lia.
Qed.

Lemma yields_u64 : yields read_u64 in_u64.
Proof. eapply yields_weaken; [|by apply (yields_read_with 8)]. intros v. apply in_u64_256. Qed.
Lemma yields_u32 : yields read_u32 in_u32.
Proof. eapply yields_weaken; [|by apply (yields_read_with 4)]. intros v. apply in_u32_256. Qed.
Lemma yields_id {d} : yields (read_id (d := d)) wf.
Proof. eapply yields_bind; [apply yields_u64|]. intros v Hv. by apply yields_ret. Qed.
Lemma yields_gen {d} : yields (read_gen (d := d)) wf.
Proof. eapply yields_bind; [apply yields_u64|]. intros v Hv. by apply yields_ret. Qed.
Lemma yields_bool : yields read_bool (λ _, True).
Proof.
  eapply yields_bind; [by apply (yields_read_with 1), ReaderLemmas.u8_read_le|].
  intros v Hv. by apply yields_ret.
Qed.
Lemma yields_enum {T} `{CEnum T} (last : T) : yields (read_enum last) (λ _, True).
Proof.
  eapply yields_bind; [apply yields_u32|]. intros v Hv. cbn beta.
  destruct (_ <? _); [apply yields_fail|by apply yields_ret].
Qed.
Lemma yields_require_ok : yields require_ok (λ _, True).
Proof.
  intros c [] c' Hb. unfold require_ok. destruct (cur_ok c); [|done]. cbn. intros Heq. by injection Heq as <-.
Qed.

Lemma yields_records {T} (elem : Read T) (P : T → Prop) n :
  yields elem P → yields (read_records n elem) (Forall P).
Proof.
  intros Hel c l c' Hb. unfold read_records. rewrite N2Nat.inj_iter.
  generalize (N.to_nat (Z.to_N n)) as k. intros k.
  assert (Hacc : Forall P (@nil T)) by constructor. revert c Hb Hacc. generalize (@nil T) as acc.
  induction k as [|k IH]; intros acc c Hb Hacc.
  - intros Heq. by injection Heq as <- <-.
  - rewrite Nat.iter_succ_r. cbn [read_step].
    assert (Hinl : ∀ e, Nat.iter k (read_step elem) (inl e) = inl e)
      by (intros e; clear; induction k as [|k IH]; [done|by rewrite Nat.iter_succ, IH]).
    destruct (cur_ok c); [|by apply IH].
    destruct (elem c) as [e|[x c1]] eqn:E; [by rewrite Hinl|].
    destruct (Hel c x c1 Hb E) as [Hx Hb1]. apply IH; [done|].
    apply Forall_app. by split; [|constructor].
Qed.

#[local] Hint Resolve yields_u64 yields_u32 yields_id yields_gen yields_bool yields_enum
  yields_require_ok yields_records : parse.

(** Walks a decoder, collecting what each read guarantees. *)
Ltac yield_fields :=
  repeat (eapply yields_bind; [solve [eauto with parse]|]; intros ? ?; cbn beta in *);
  apply yields_ret.

Lemma yields_safe_point : yields read_safe_point safe_point_wf.
Proof. unfold read_safe_point. yield_fields. unfold safe_point_wf. cbn. by split_and!. Qed.
Lemma yields_receipt : yields read_receipt receipt_wf.
Proof. unfold read_receipt. yield_fields. unfold receipt_wf. cbn. by split_and!. Qed.
Lemma yields_superseded : yields read_superseded superseded_wf.
Proof. unfold read_superseded. yield_fields. by split. Qed.
#[local] Hint Resolve yields_safe_point yields_receipt yields_superseded : parse.
Lemma yields_state : yields read_state state_wf.
Proof. unfold read_state. yield_fields. unfold state_wf. cbn. by split_and!. Qed.

(** ** Inversion of [decode] *)

(** Everything [decode] has checked when it accepts. *)
Lemma decode_ok_inv bytes s :
  decode bytes = inr s →
  (16 ≤ length bytes)%nat
  ∧ sealed bytes
  ∧ validate_state s = kOk ∧ state_wf s.
Proof.
  unfold decode. destruct (Nat.ltb_spec (length bytes) (kHeaderSize + kTrailerSize)) as [|Hlen]; [done|].
  unfold kHeaderSize, kTrailerSize in Hlen.
  destruct (magic_matches bytes); [|done]. cbn [negb].
  destruct (Reader.read_u32_at (subspan 4 4 bytes)) as [version|]; [|done].
  destruct (Reader.read_u32_at (subspan 8 4 bytes)) as [plen|]; [|done].
  destruct (version =? PF_PERSISTENCE_VERSION); [|done]. cbn [negb].
  destruct (_ =? Z.of_nat (length bytes)); [|done]. cbn [negb].
  rewrite ReaderLemmas.read_u32_at_spec. unfold subspan at 1 2, kTrailerSize.
  rewrite length_take, length_drop.
  destruct (Nat.ltb_spec (4 `min` (length bytes - (length bytes - 4))) 4); [done|].
  rewrite take_take, (take_ge (drop (length bytes - 4) bytes)) by (rewrite length_drop; lia).
  destruct (Z.eqb_spec (crc32 (take (length bytes - 4) bytes))
    (le_value (drop (length bytes - 4) bytes))) as [Hcrc|]; [|done]. cbn [negb].
  destruct (read_state _) as [e|[s' c]] eqn:E; [done|].
  apply yields_state in E as [Hwf _]; [|cbn; lia].
  destruct (Reader.at_end (cur_r c)); [|done]. cbn [negb].
  destruct (validate_state s') eqn:Hval; try done. intros Heq. injection Heq as <-. done.
Qed.

(** ** Declarative reading of [validate_state] *)

Lemma known_lifecycle s : is_known_lifecycle s = true.
Proof. by destruct s. Qed.
Lemma known_resource r : is_known_resource r = true ↔ r ≠ ResourceClass.kInvalid.
Proof. destruct r; split; done. Qed.
Lemma known_safepoint_state s : is_known_safepoint_state s = true ↔ s ≠ SafePointState.kUnset.
Proof. destruct s; split; done. Qed.
Lemma release_on_main_path s : is_release_reached s = true → is_on_main_path s = true.
Proof. by destruct s. Qed.
Lemma resume_on_main_path s : is_resume_reached s = true → is_on_main_path s = true.
Proof. by destruct s. Qed.

Lemma and_then_ok e1 e2 : and_then e1 e2 = kOk ↔ e1 = kOk ∧ e2 = kOk.
Proof. destruct e1; cbn; intuition congruence. Qed.

Definition safe_point_valid (sp : PersistentSafePoint) : Prop :=
  is_valid (psp_id sp) = true ∧ psp_state sp ≠ SafePointState.kUnset.
Definition receipt_valid (r : PersistentReleaseReceipt) : Prop :=
  prr_resource r ≠ ResourceClass.kInvalid ∧ is_valid (prr_contract_generation r) = true
  ∧ is_valid (prr_release_generation r) = true ∧ prr_units r ≠ 0.

Lemma validate_safe_points_ok seen sps :
  validate_safe_points seen sps = kOk ↔
  Forall safe_point_valid sps ∧ NoDup (psp_id <$> sps) ∧ ∀ sp, sp ∈ sps → value (psp_id sp) ∉ seen.
Proof.
  revert seen. induction sps as [|sp sps IH]; intros seen; cbn [validate_safe_points].
  { split; [|done]. intros _. split_and!; [constructor|constructor|].
    by intros sp ?%not_elem_of_nil. }
  rewrite list.Forall_cons, fmap_cons, NoDup_cons. unfold safe_point_valid at 1.
  rewrite <- known_safepoint_state.
  destruct (is_valid (psp_id sp)); cbn [negb]; [|intuition congruence].
  case_bool_decide as Hseen; [split; [done|]; intros (_ & _ & H); by apply (H sp) in Hseen; [|left]|].
  destruct (is_known_safepoint_state (psp_state sp)); cbn [negb]; [|intuition congruence].
  rewrite IH. split.
  - intros (Hall & Hnd & Hnot). split_and!; try done.
    + intros (q & Heq & Hq)%list_elem_of_fmap. apply (Hnot q Hq). rewrite <- Heq.
      apply elem_of_union_l. by apply elem_of_singleton.
    + intros q [->|Hq]%elem_of_cons; [done|]. specialize (Hnot q Hq).
      intros Hin. by apply Hnot, elem_of_union_r.
  - intros (([_ _] & Hall) & (Hni & Hnd) & Hnot). split_and!; try done.
    intros q Hq. assert (value (psp_id q) ∉ seen) by (apply Hnot; by right).
    assert (value (psp_id q) ≠ value (psp_id sp));
      [|rewrite elem_of_union, elem_of_singleton; tauto].
    intros Heq%value_inj. apply Hni, list_elem_of_fmap. by exists q.
Qed.

Lemma validate_receipts_ok rs : validate_receipts rs = kOk ↔ Forall receipt_valid rs.
Proof.
  induction rs as [|r rs IH]; cbn [validate_receipts]; [done|].
  rewrite list.Forall_cons, <- IH. unfold receipt_valid at 1. rewrite <- known_resource.
  destruct (is_known_resource (prr_resource r)), (is_valid (prr_contract_generation r)),
    (is_valid (prr_release_generation r)), (Z.eqb_spec (prr_units r) 0); cbn; intuition congruence.
Qed.

Lemma validate_history_ok hs : validate_history hs = kOk.
Proof. induction hs as [|h hs IH]; cbn; [done|]. by rewrite known_lifecycle. Qed.

Lemma validate_lifecycle_ok s :
  validate_lifecycle s = kOk ↔
  (is_release_reached (ps_lifecycle s) = true →
     ps_quiesced s = true ∧ ps_state_durable s = true ∧ ps_resources_released s = true)
  ∧ (is_resume_reached (ps_lifecycle s) = true → ps_preempted s = true).
Proof.
  unfold validate_lifecycle.
  pose proof (release_on_main_path (ps_lifecycle s)). pose proof (resume_on_main_path (ps_lifecycle s)).
  destruct (is_on_main_path (ps_lifecycle s)), (is_release_reached (ps_lifecycle s)),
    (is_resume_reached (ps_lifecycle s)), (ps_quiesced s), (ps_state_durable s),
    (ps_resources_released s), (ps_preempted s); cbn; intuition congruence.
Qed.

End StoreLemmas.

(** What the semantic check accepts. *)
Definition image_valid (s : PersistentState) : Prop :=
  ps_format_version s = PF_PERSISTENCE_VERSION
  ∧ (Store.is_release_reached (ps_lifecycle s) = true →
       ps_quiesced s = true ∧ ps_state_durable s = true ∧ ps_resources_released s = true)
  ∧ (Store.is_resume_reached (ps_lifecycle s) = true → ps_preempted s = true)
  ∧ (ps_preempted s = true → ps_state_durable s = true)
  ∧ (ps_state_durable s = true →
       is_valid (ps_checkpoint_ref s) = true ∧ is_valid (ps_checkpoint_generation s) = true)
  ∧ Forall StoreLemmas.safe_point_valid (ps_safe_points s)
  ∧ NoDup (psp_id <$> ps_safe_points s)
  ∧ Forall StoreLemmas.receipt_valid (ps_release_receipts s).

Lemma validate_state_ok s :
  Store.validate_state s = PersistenceError.kOk ↔ image_valid s.
Proof.
  unfold Store.validate_state, image_valid.
  rewrite StoreLemmas.known_lifecycle. cbn [negb].
  rewrite <- StoreLemmas.validate_receipts_ok.
  assert (Hsp : Store.validate_safe_points ∅ (ps_safe_points s) = PersistenceError.kOk ↔
    Forall StoreLemmas.safe_point_valid (ps_safe_points s) ∧ NoDup (psp_id <$> ps_safe_points s)).
  { rewrite StoreLemmas.validate_safe_points_ok. split; [tauto|].
    intros [? ?]. split_and!; [done|done|]. intros sp _. apply not_elem_of_empty. }
  destruct (Z.eqb_spec (ps_format_version s) PF_PERSISTENCE_VERSION); cbn [negb];
    [|intuition congruence].
  rewrite StoreLemmas.and_then_ok, StoreLemmas.validate_lifecycle_ok.
  destruct (ps_preempted s), (ps_state_durable s), (is_valid (ps_checkpoint_ref s)),
    (is_valid (ps_checkpoint_generation s)); cbn [andb negb];
    rewrite ?StoreLemmas.and_then_ok, ?StoreLemmas.validate_history_ok, ?Hsp; intuition congruence.
Qed.

Module StoreProperties.
Import Store PersistenceError.

(** The semantic check accepts exactly the images whose release and resume phases
    carry their evidence, whose durable state names a checkpoint, whose safe points have
    distinct valid identifiers and a state, and whose receipts are real obligations. *)
Theorem validate_state_spec s : validate_state s = kOk ↔ image_valid s.
Proof. apply validate_state_ok. Qed.

(** C5: for a state whose values are in the range of their types, decoding its encoding gives
    the state with the current format version (the encoder writes that version whatever the
    state says) when this passes the semantic check, and otherwise exactly the error of the
    check; a state whose lists or payload do not fit their 32-bit lengths is [TRUNCATED]. *)
Theorem decode_encode s :
  state_wf s →
  let s' := s <| ps_format_version := PF_PERSISTENCE_VERSION |> in
  decode (encode s)
  = if encodable s then match validate_state s' with kOk => inr s' | verr => inl verr end
    else inl kTruncated.
Proof. apply StoreLemmas.decode_encode_total. Qed.

Definition example_state : PersistentState :=
  mkPersistentState 1 (mkGeneration 3) (mkGeneration 1) (mkId 7) (mkGeneration 1) (mkId 9)
    (mkGeneration 2) (mkId 4) (mkGeneration 5) (mkId 11) (mkId 12) (mkId 12)
    LifecycleState.kPreempted (mkId 100) (mkGeneration 1) true (mkGeneration 1) true
    (mkGeneration 1) (mkId 77) (mkGeneration 1) true (mkGeneration 0) true (mkGeneration 0) 640
    (mkGeneration 8)
    [mkPersistentSafePoint (mkId 1) (mkGeneration 1) (mkId 9) (mkId 4) (mkId 11) (mkId 12) 640 true
       false SafePointState.kValid 1]
    [mkPersistentReleaseReceipt ResourceClass.kDeviceMemory 4 (mkId 2) (mkGeneration 1) (mkGeneration 1)
       (mkId 12)]
    [mkPersistentSuperseded (mkId 99) (mkGeneration 1) LifecycleState.kCancelled].

Lemma example_state_wf : state_wf example_state.
Proof.
  unfold state_wf, wf. cbn. split_and!; try (unfold PF_PERSISTENCE_VERSION; zlia);
    repeat constructor; unfold wf; cbn; zlia.
Qed.

Lemma decode_encode_witness : decode (encode example_state) = inr example_state.
Proof.
  rewrite (decode_encode example_state); [vm_compute; reflexivity|exact example_state_wf].
Defined.

(** C6: whatever bytes are presented, a state that [decode] returns satisfies the semantic
    check and has every value within the range of its type. *)
Theorem decode_sound bytes s : decode bytes = inr s → image_valid s ∧ state_wf s.
Proof.
  intros (_ & _ & Hv & Hwf)%StoreLemmas.decode_ok_inv. split; [|done]. by apply validate_state_ok.
Qed.

Lemma decode_sound_witness : image_valid example_state ∧ state_wf example_state.
Proof. apply (decode_sound (encode example_state)). vm_compute. reflexivity. Defined.

(** C7: overwriting up to four consecutive bytes of an accepted image, in the checksummed
    part or in the checksum, gives bytes that [decode] rejects. *)
Theorem decode_rejects_corruption pre m1 m2 post s :
  decode (pre ++ m1 ++ post) = inr s →
  length m1 = length m2 → (length m1 ≤ 4)%nat → m1 ≠ m2 →
  (4 ≤ length post)%nat ∨ (length (m1 ++ post) ≤ 4)%nat →
  ∃ e, decode (pre ++ m2 ++ post) = inl e.
Proof.
  intros H1 Hl H4 Hne Hwin. destruct (decode (pre ++ m2 ++ post)) as [e|s2] eqn:H2; [by exists e|].
  apply StoreLemmas.decode_ok_inv in H1 as (_ & Hc1 & _), H2 as (_ & Hc2 & _).
  destruct Hne. by apply (sealed_burst pre m1 m2 post).
Qed.

Lemma decode_rejects_corruption_witness :
  ∃ pre b post, encode example_state = pre ++ [b] ++ post
    ∧ ∃ e, decode (pre ++ [xff] ++ post) = inl e.
Proof.
  exists (take 41 (encode example_state)), x00, (drop 42 (encode example_state)).
  split; [vm_compute; reflexivity|].
  apply (decode_rejects_corruption _ [x00] _ _ example_state).
  - vm_compute. reflexivity.
  - reflexivity.
  - cbn. lia.
  - discriminate.
  - left. apply Nat.leb_le. vm_compute. reflexivity.
Defined.

End StoreProperties.
