(* ===== verification/Runtime.v ===== *)
(** * The runtime ([runtime.hpp], [runtime.cpp])

    [PreemptionRuntime]: its members, and one definition per member function.  The
    runtime holds a reference to its adapters, so the state a call acts on is a
    [World], the pair of both.  Every mutating call of the source holds the exclusive
    lock from entry to exit, so a call is one atomic step and concurrent callers are
    sequences of such steps. *)

From stdpp Require Import base list strings numbers pretty.
From Stdlib Require Import ZArith Lia.
From S2P Require Import Prelude Exec Identity Enums Lifecycle OrdMap Domains Interfaces PersistentState.
From S2P Require Import Priority.

(** ** Result types ([runtime.hpp]) *)

Module RequestAdmissionCode.
Inductive RequestAdmissionCode :=
  | kInvalid | kAccepted | kIdempotentDuplicate | kConflictingDuplicate
  | kRejectedStale | kRejectedInvalid.
End RequestAdmissionCode.
Abbreviation RequestAdmissionCode := RequestAdmissionCode.RequestAdmissionCode.
#[export] Instance RequestAdmissionCode_eq_dec : EqDecision RequestAdmissionCode.
Proof. solve_decision. Defined.

Record RequestAdmission := mkRequestAdmission {
  adm_code : RequestAdmissionCode;
  adm_request_id : PreemptionRequestId;
  adm_generation : PreemptionRequestGeneration
}.

Record ExplainEntry := mkExplainEntry {
  ex_message : string;
  ex_detail : string;
  ex_provenance : EvidenceKind
}.

Record PreemptionAssessment := mkPreemptionAssessment {
  as_preemptibility : PreemptibilityClass;
  as_plan : PreemptionPlan;
  as_why : list ExplainEntry
}.

Record PreemptionResult := mkPreemptionResult {
  pr_outcome : PreemptionOutcome;
  pr_lifecycle : LifecycleState;
  pr_evidence : list ExplainEntry
}.

Record ResumeEligibility := mkResumeEligibility {
  re_outcome : ResumeOutcome;
  re_resume_generation : ResumeGeneration;
  re_why : list ExplainEntry
}.

(** ** The members of [PreemptionRuntime] *)

Record PreemptionRuntime := mkPreemptionRuntime {
  epoch_ : CoordinatorEpoch;
  policy_generation_ : PolicyGeneration;
  workload_id_ : WorkloadId;
  workload_generation_ : WorkloadGeneration;
  execution_id_ : ExecutionId;
  execution_generation_ : ExecutionGeneration;
  attempt_id_ : AttemptId;
  attempt_generation_ : AttemptGeneration;
  worker_id_ : WorkerId;
  worker_boot_ : WorkerBootId;
  fenced_worker_boot_ : WorkerBootId;
  machine_ : LifecycleStateMachine;
  active_request_ : option PreemptionRequest;
  authoritative_request_generation_ : PreemptionRequestGeneration;
  safe_points_ : OrdMap SafePointId SafePoint;
  current_safe_point_ : option SafePoint;
  current_position_ : Z;
  durable_position_ : Z;
  progress_generation_ : ProgressGeneration;
  durable_progress_generation_ : ProgressGeneration;
  progress_order_ : Z;
  quiesced_ : bool;
  quiescence_generation_ : QuiescenceGeneration;
  state_durable_ : bool;
  state_capture_generation_ : StateCaptureGeneration;
  checkpoint_ref_ : CheckpointRef;
  checkpoint_generation_ : CheckpointGeneration;
  resources_released_ : bool;
  release_generation_ : ReleaseGeneration;
  resume_generation_ : ResumeGeneration;
  resumed_ : bool;
  history_ : list PersistentSuperseded;
  priority_generation_ : PriorityGeneration
}.
#[export] Instance PreemptionRuntime_eta : Eta PreemptionRuntime := λ r,
  mkPreemptionRuntime (epoch_ r) (policy_generation_ r) (workload_id_ r)
    (workload_generation_ r) (execution_id_ r) (execution_generation_ r) (attempt_id_ r)
    (attempt_generation_ r) (worker_id_ r) (worker_boot_ r) (fenced_worker_boot_ r)
    (machine_ r) (active_request_ r) (authoritative_request_generation_ r) (safe_points_ r)
    (current_safe_point_ r) (current_position_ r) (durable_position_ r)
    (progress_generation_ r) (durable_progress_generation_ r) (progress_order_ r)
    (quiesced_ r) (quiescence_generation_ r) (state_durable_ r)
    (state_capture_generation_ r) (checkpoint_ref_ r) (checkpoint_generation_ r)
    (resources_released_ r) (release_generation_ r) (resume_generation_ r) (resumed_ r)
    (history_ r) (priority_generation_ r).

Definition lifecycle_state (r : PreemptionRuntime) : LifecycleState := state_ (machine_ r).

(** The constructor. *)
Definition new_runtime (epoch : CoordinatorEpoch) (policy : PolicyGeneration) : PreemptionRuntime :=
  mkPreemptionRuntime epoch policy default_id default_gen default_id default_gen default_id
    default_gen default_id default_id default_id Machine.init None default_gen [] None 0 0
    default_gen default_gen 0 false default_gen false default_gen default_id default_gen
    false default_gen default_gen false [] default_gen.

(** A runtime and the adapters it references. *)
Record World (A : Type) := mkWorld { rt : PreemptionRuntime; ad : A }.
Arguments mkWorld {A}.
Arguments rt {A}.
Arguments ad {A}.
#[export] Instance World_eta A : Eta (World A) := λ w, mkWorld (rt w) (ad w).

(** ** Classification helpers of [runtime.cpp] *)

Definition known_preemptibility (c : PreemptibilityClass) : bool :=
  negb (bool_decide (c = PreemptibilityClass.kInvalid))
    && negb (bool_decide (c = PreemptibilityClass.kUnknown)).
Definition is_concretely_preemptible (c : PreemptibilityClass) : bool :=
  bool_decide (c = PreemptibilityClass.kPreemptibleNow)
    || bool_decide (c = PreemptibilityClass.kPreemptibleAtSafePoint)
    || bool_decide (c = PreemptibilityClass.kPreemptibleAfterStateCapture)
    || bool_decide (c = PreemptibilityClass.kPreemptibleAfterCommitBoundary)
    || bool_decide (c = PreemptibilityClass.kRecomputableFromDurableProgress).
Definition is_unknown_preemptibility (c : PreemptibilityClass) : bool :=
  bool_decide (c = PreemptibilityClass.kUnknown)
    || bool_decide (c = PreemptibilityClass.kInvalid).

Section runtime.
Context {A : Type} `{Adapters A}.
Abbreviation W := (World A).
Abbreviation Call := (Exec (World A)).
Import LifecycleState.

(** Statements on the members. *)
Definition upd (f : PreemptionRuntime → PreemptionRuntime) : Call unit :=
  modify (λ w, w <| rt := f (rt w) |>).
Definition upd_ad (f : A → A) : Call unit := modify (λ w, w <| ad := f (ad w) |>).
Definition call_ad {B} (f : A → B * A) : Call B :=
  zoom ad (λ a w, w <| ad := a |>) (λ a, (inr (f a).1, (f a).2)).
(** [machine_.transition(to)]. *)
Definition transition (to : LifecycleState) : Call unit :=
  zoom (λ w, machine_ (rt w)) (λ m w, w <| rt := (rt w) <| machine_ := m |> |>)
    (Machine.transition to).
(** [machine_.reset(s)]. *)
Definition machine_reset (s : LifecycleState) : Call unit :=
  upd (λ r, r <| machine_ := Machine.reset s (machine_ r) |>).
(** [machine_.state()]. *)
Definition machine_state : Call LifecycleState := w ← get; mret (lifecycle_state (rt w)).

Definition explain (message detail : string) (kind : EvidenceKind) : ExplainEntry :=
  mkExplainEntry message detail kind.
(** A result with the current lifecycle. *)
Definition result (outcome : PreemptionOutcome) (evidence : list ExplainEntry) : Call PreemptionResult :=
  s ← machine_state; mret (mkPreemptionResult outcome s evidence).

(** ** Execution and authority *)

Definition start_execution (w : WorkloadId) (wg : WorkloadGeneration) (e : ExecutionId)
    (eg : ExecutionGeneration) (a : AttemptId) (ag : AttemptGeneration) (worker : WorkerId)
    (boot : WorkerBootId) : Call unit :=
  upd (λ r, r <| workload_id_ := w |> <| workload_generation_ := wg |>
              <| execution_id_ := e |> <| execution_generation_ := eg |>
              <| attempt_id_ := a |> <| attempt_generation_ := ag |>
              <| worker_id_ := worker |> <| worker_boot_ := boot |>);;
  machine_reset kInvalid;;
  upd (λ r, r <| active_request_ := None |> <| execution_generation_ := eg |>);;
  st ← get;
  upd_ad (set_authoritative e a eg ag (epoch_ (rt st)) boot).

(** ** Safe points and progress *)

Definition declare_safe_point (sp : SafePoint) : Call SafePointId :=
  let copy := sp <| sp_state := SafePointState.kDeclared |> in
  upd (λ r, r <| safe_points_ := omap.set (sp_id copy) copy (safe_points_ r) |>);;
  mret (sp_id copy).

Definition reach_safe_point (id : SafePointId) (position : Z) (capture_required : bool) : Call unit :=
  w ← get;
  match omap.find id (safe_points_ (rt w)) with
  | None => throw (mkPreemptionError "unknown_safe_point" "unknown safe point")
  | Some sp =>
    let sp' := sp <| sp_state := SafePointState.kValid |>
                  <| sp_progress_position := position |>
                  <| sp_state_capture_required := capture_required |> in
    upd (λ r, r <| safe_points_ := omap.set id sp' (safe_points_ r) |>
                <| current_safe_point_ := Some sp' |>
                <| current_position_ := Z.max (current_position_ r) position |>);;
    s ← machine_state;
    when (bool_decide (s = kWaitingForSafePoint)) (transition kSafePointReached)
  end.

Definition publish_progress (position : Z) (kind : ProgressKind) : Call bool :=
  w ← get;
  let r := rt w in
  let auth := current_attempt_authority (ad w) (execution_id_ r) (attempt_id_ r) in
  if negb (aav_authoritative auth) || negb (bool_decide (aav_worker_boot_id auth = worker_boot_ r))
  then mret false
  else if position <? durable_position_ r then mret false
  else
    upd (λ r, r <| current_position_ := Z.max (current_position_ r) position |>
                <| progress_generation_ := Generation_next (progress_generation_ r) |>);;
    when (bool_decide (kind = ProgressKind.kDurable) && (durable_position_ r <=? position))
      (upd (λ r, r <| durable_position_ := position |>
                   <| durable_progress_generation_ := progress_generation_ r |>));;
    mret true.

(** ** Requests *)

(** [validate_attempt]: throws for an attempt outside the scope. *)
Definition validate_attempt (exec : ExecutionId) (attempt : AttemptId) : Call unit :=
  w ← get;
  if negb (bool_decide (exec = execution_id_ (rt w)))
     || negb (bool_decide (attempt = attempt_id_ (rt w)))
  then throw (mkPreemptionError "wrong_scope" "attempt does not belong to this execution scope")
  else mret tt.

Definition validate_authority (r : PreemptionRuntime) (req : PreemptionRequest) : bool :=
  if negb (bool_decide (req_coordinator_epoch req = epoch_ r)) then false
  else if negb (bool_decide (req_execution_id req = execution_id_ r))
          || negb (bool_decide (req_attempt_id req = attempt_id_ r)) then false
  else if negb (bool_decide (req_execution_generation req = execution_generation_ r)) then false
  else if negb (bool_decide (req_attempt_generation req = attempt_generation_ r)) then false
  else if is_valid (req_worker_boot_id req)
          && negb (bool_decide (req_worker_boot_id req = worker_boot_ r)) then false
  else true.

Definition request_matches_current (r : PreemptionRuntime) (req : PreemptionRequest) : bool :=
  match active_request_ r with
  | None => false
  | Some active => bool_decide (req_id active = req_id req)
                     && bool_decide (req_generation active = req_generation req)
  end.

Definition request_preemption (req : PreemptionRequest) : Call RequestAdmission :=
  w ← get;
  let reject code := mkRequestAdmission code default_id default_gen in
  let accept code := mkRequestAdmission code (req_id req) (req_generation req) in
  if negb (is_valid (req_id req)) || negb (is_valid (req_generation req))
  then mret (reject RequestAdmissionCode.kRejectedInvalid)
  else if negb (validate_authority (rt w) req)
  then mret (reject RequestAdmissionCode.kRejectedStale)
  else
    match active_request_ (rt w) with
    | Some _ =>
      if request_matches_current (rt w) req
      then mret (accept RequestAdmissionCode.kIdempotentDuplicate)
      else mret (reject RequestAdmissionCode.kConflictingDuplicate)
    | None =>
      upd (λ r, r <| active_request_ := Some req |>
                  <| authoritative_request_generation_ := req_generation req |>);;
      machine_reset kRequested;;
      transition kValidatingAuthority;;
      transition kAssessing;;
      mret (accept RequestAdmissionCode.kAccepted)
    end.

(** ** Assessment *)

(** [current_safe_point_ && current_safe_point_->state == kValid]. *)
Definition at_valid_safe_point (r : PreemptionRuntime) : bool :=
  match current_safe_point_ r with
  | Some sp => bool_decide (sp_state sp = SafePointState.kValid)
  | None => false
  end.
(** [current_safe_point_ && current_safe_point_->state_capture_required]. *)
Definition capture_is_required (r : PreemptionRuntime) : bool :=
  match current_safe_point_ r with
  | Some sp => sp_state_capture_required sp
  | None => false
  end.

(** The plan before the classification. *)
Definition initial_plan (r : PreemptionRuntime) : PreemptionPlan :=
  default_PreemptionPlan
    <| plan_execution_id := execution_id_ r |>
    <| plan_attempt_id := attempt_id_ r |>
    <| plan_workload_id := workload_id_ r |>
    <| plan_workload_generation := workload_generation_ r |>
    <| plan_last_durable_progress := durable_position_ r |>
    <| plan_current_position := current_position_ r |>
    <| plan_max_rollback :=
         if durable_position_ r <? current_position_ r
         then current_position_ r - durable_position_ r else 0 |>.

(** The chain of conditions of [assess]: the class, the plan and the reasons. *)
Definition classify (r : PreemptionRuntime) (plan : PreemptionPlan)
    : PreemptibilityClass * PreemptionPlan * list ExplainEntry :=
  match (if at_valid_safe_point r then current_safe_point_ r else None), safe_points_ r with
  | Some sp, _ =>
    let '(c, plan) :=
      if sp_state_capture_required sp
      then (PreemptibilityClass.kPreemptibleAfterStateCapture,
            plan <| plan_preservation_mode := PreservationMode.kCapture |>
                 <| plan_state_to_preserve_bytes := 1024 |>)
      else (PreemptibilityClass.kPreemptibleNow,
            plan <| plan_preservation_mode := PreservationMode.kAlreadyDurable |>) in
    (c, plan <| plan_next_safe_point := sp_id sp |> <| plan_cost_to_next_safe_point := 0 |>, [])
  | None, (first, _) :: _ =>
    (PreemptibilityClass.kPreemptibleAtSafePoint,
     plan <| plan_preservation_mode := PreservationMode.kCapture |>
          <| plan_next_safe_point := first |> <| plan_cost_to_next_safe_point := 1 |>,
     [explain "DEFER_TO_SAFE_POINT" "work is between safe point boundaries" EvidenceKind.kDerived])
  | None, [] =>
    if bool_decide (lifecycle_state r = kQuiesced)
       || bool_decide (lifecycle_state r = kStateDurable)
       || bool_decide (lifecycle_state r = kReleasePending)
    then (PreemptibilityClass.kPreemptibleNow,
          plan <| plan_preservation_mode := PreservationMode.kCapture |>, [])
    else (PreemptibilityClass.kUnknown,
          plan <| plan_preservation_mode := PreservationMode.kUnknown |>,
          [explain "UNKNOWN" "no valid safe point or durable boundary evidence"
             EvidenceKind.kDerived])
  end.

Definition assess (w : W) : PreemptionAssessment :=
  let r := rt w in
  let '(preemptibility, plan, why) := classify r (initial_plan r) in
  let contract := current_contract (ad w) (execution_id_ r) in
  let plan := plan <| plan_resources_to_release := lease_resource <$> contract_leases contract |> in
  let plan :=
    match plan_resources_to_release plan with
    | [] => plan
    | _ :: _ => plan <| plan_release_before_preempted := true |>
    end in
  mkPreemptionAssessment preemptibility plan why.

(** ** The preemption phases *)

Definition begin_quiesce : Call PreemptionResult :=
  s ← machine_state;
  w ← get;
  if bool_decide (s = kSafePointReached) then
    transition kQuiescing;;
    result PreemptionOutcome.kSafePreemptionCompleted []
  else if bool_decide (s = kAssessing) || bool_decide (s = kDeferred) then
    if at_valid_safe_point (rt w) then
      transition kQuiescing;;
      result PreemptionOutcome.kSafePreemptionCompleted []
    else
      transition kWaitingForSafePoint;;
      result PreemptionOutcome.kDeferToSafePoint
        [explain "defer_to_safe_point" "work is between safe point boundaries" EvidenceKind.kDerived]
  else if bool_decide (s = kWaitingForSafePoint) then
    result PreemptionOutcome.kDeferToSafePoint
      [explain "defer_to_safe_point" "waiting for the next valid safe point" EvidenceKind.kDerived]
  else if bool_decide (s = kQuiescing) then
    result PreemptionOutcome.kSafePreemptionCompleted []
  else
    result PreemptionOutcome.kCannotPreemptSafely
      [explain "cannot_preempt" "no safe boundary reached" EvidenceKind.kDerived].

Definition is_quiesced_all (a : A) : bool := forallb (is_quiesced a) (categories a).

Definition report_quiesced (report : QuiescenceReport) : Call PreemptionResult :=
  s ← machine_state;
  w ← get;
  if negb (bool_decide (qr_worker_boot_id report = worker_boot_ (rt w))) then
    result PreemptionOutcome.kPreemptionFailed
      [explain "stale_quiescence" "quiescence evidence from stale worker boot" EvidenceKind.kDerived]
  else if negb (bool_decide (s = kQuiescing)) then
    result PreemptionOutcome.kCannotPreemptSafely
      [explain "not_quiescing" "quiescence reported outside QUIESCING" EvidenceKind.kDerived]
  else if negb (qr_fully_quiesced report) || negb (is_quiesced_all (ad w)) then
    result PreemptionOutcome.kCannotPreemptSafely
      [explain "not_quiesced" "required activity is not quiesced" EvidenceKind.kDerived]
  else
    transition kQuiesced;;
    upd (λ r, r <| quiesced_ := true |> <| quiescence_generation_ := qr_generation report |>);;
    result PreemptionOutcome.kSafePreemptionCompleted [].

(** The capture request the runtime sends: the generation after the current one. *)
Definition capture_request (r : PreemptionRuntime) : StateCaptureRequest :=
  let expected := Generation_next (checkpoint_generation_ r) in
  mkStateCaptureRequest true expected (mkGeneration (value expected))
    (execution_generation_ r) (attempt_generation_ r).

Definition request_state_capture : Call PreemptionResult :=
  s ← machine_state;
  w ← get;
  if negb (bool_decide (s = kQuiesced)) then
    result PreemptionOutcome.kCannotPreemptSafely
      [explain "not_quiesced" "state capture requires quiescence" EvidenceKind.kDerived]
  else if negb (capture_is_required (rt w)) then
    transition kReleasePending;;
    upd (λ r, r <| state_durable_ := true |>);;
    result PreemptionOutcome.kStateCaptureRequired []
  else
    transition kCaptureRequired;;
    transition kCapturingState;;
    _ ← call_ad (request_capture (capture_request (rt w)));
    result PreemptionOutcome.kStateCaptureRequired [].

Definition report_state_captured (res : CaptureResult) : Call PreemptionResult :=
  s ← machine_state;
  w ← get;
  if negb (bool_decide (s = kCapturingState)) then
    result PreemptionOutcome.kCannotPreemptSafely
      [explain "not_capturing" "state capture reported outside CAPTURING_STATE" EvidenceKind.kDerived]
  else if negb (cr_success res) || negb (cr_completed res) then
    transition kFailed;;
    result PreemptionOutcome.kPreemptionFailed
      [explain "capture_failed" "state capture did not complete" EvidenceKind.kReal]
  else if negb (validate_checkpoint (ad w) (cr_checkpoint_ref res) (cr_checkpoint_generation res)) then
    transition kFailed;;
    result PreemptionOutcome.kPreemptionFailed
      [explain "stale_checkpoint" "capture generation is not authoritative" EvidenceKind.kReal]
  else
    transition kStateDurable;;
    upd (λ r, r <| state_durable_ := true |>
                <| state_capture_generation_ := cr_capture_generation res |>
                <| checkpoint_ref_ := cr_checkpoint_ref res |>
                <| checkpoint_generation_ := cr_checkpoint_generation res |>);;
    result PreemptionOutcome.kSafePreemptionCompleted [].

(** The loop over the leases: the result of each call is ignored. *)
Definition release_leases (e : ExecutionId) (g : ResourceContractGeneration)
    (leases : list ResourceLease) (a : A) : A :=
  foldl (λ a l, (broker_request_release e (lease_resource l) (lease_units l) g a).2) a leases.

Definition request_release : Call PreemptionResult :=
  s ← machine_state;
  w ← get;
  if negb (bool_decide (s = kStateDurable)) && negb (bool_decide (s = kReleasePending)) then
    result PreemptionOutcome.kCannotPreemptSafely
      [explain "release_requires_durable_state" "release requires durable state" EvidenceKind.kDerived]
  else if negb (state_durable_ (rt w)) then
    result PreemptionOutcome.kPreemptionFailed
      [explain "not_durable" "cannot release before durable state" EvidenceKind.kDerived]
  else
    when (bool_decide (s = kStateDurable)) (transition kReleasePending);;
    transition kReleasing;;
    let e := execution_id_ (rt w) in
    let contract := current_contract (ad w) e in
    upd_ad (release_leases e (contract_generation contract) (contract_leases contract));;
    result PreemptionOutcome.kSafePreemptionCompleted [].

Definition report_released : Call PreemptionResult :=
  s ← machine_state;
  w ← get;
  if negb (bool_decide (s = kReleasing)) then
    result PreemptionOutcome.kCannotPreemptSafely
      [explain "not_releasing" "release report outside RELEASING" EvidenceKind.kDerived]
  else if existsb (λ l, negb (reserved (ad w) (lease_resource l) =? 0))
            (contract_leases (current_contract (ad w) (execution_id_ (rt w)))) then
    result PreemptionOutcome.kPreemptionFailed
      [explain "resources_not_released" "release obligations not fully satisfied" EvidenceKind.kDerived]
  else
    transition kResourcesReleased;;
    upd (λ r, r <| resources_released_ := true |>);;
    result PreemptionOutcome.kSafePreemptionCompleted [].

Definition commit_preempted : Call PreemptionResult :=
  s ← machine_state;
  w ← get;
  let r := rt w in
  if negb (bool_decide (s = kResourcesReleased)) then
    result PreemptionOutcome.kCannotPreemptSafely
      [explain "not_released" "PREEMPTED requires resources released" EvidenceKind.kDerived]
  else if negb (quiesced_ r) || negb (state_durable_ r) || negb (resources_released_ r) then
    result PreemptionOutcome.kPreemptionFailed
      [explain "missing_boundary" "quiescence/durability/release not all satisfied"
         EvidenceKind.kDerived]
  else
    transition kPreempted;;
    upd (λ r, r <| fenced_worker_boot_ := worker_boot_ r |>);;
    _ ← call_ad (fence_attempt (execution_id_ r) (attempt_id_ r) (execution_generation_ r));
    result PreemptionOutcome.kSafePreemptionCompleted
      [explain "preempted"
         "execution stopped at a valid boundary with durable state and released resources"
         EvidenceKind.kReal].

(** ** Resume *)

Definition request_resume : Call ResumeEligibility :=
  s ← machine_state;
  w ← get;
  if negb (bool_decide (s = kPreempted)) then
    mret (mkResumeEligibility ResumeOutcome.kResumeNotAllowed (resume_generation_ (rt w))
      [explain "not_preempted" "resume requires a durable PREEMPTED state" EvidenceKind.kDerived])
  else
    transition kResumePending;;
    upd (λ r, r <| resume_generation_ := Generation_next (resume_generation_ r) |>);;
    w ← get;
    mret (mkResumeEligibility ResumeOutcome.kResumeRevalidationRequired (resume_generation_ (rt w))
      [explain "revalidation_required"
         "resume eligibility must be recomputed under current authority" EvidenceKind.kDerived]).

Definition dependency_blocked (d : DependencyView) : bool :=
  bool_decide (dep_status d = DependencyStatus.kStale)
    || bool_decide (dep_status d = DependencyStatus.kMissing).

(** After the transition to [FAILED] the result keeps the lifecycle read on entry. *)
Definition revalidate : Call PreemptionResult :=
  s ← machine_state;
  w ← get;
  let r := rt w in
  if negb (bool_decide (s = kResumePending)) && negb (bool_decide (s = kRevalidating)) then
    result PreemptionOutcome.kCannotPreemptSafely
      [explain "not_revalidating" "revalidation requires RESUME_PENDING" EvidenceKind.kDerived]
  else
    when (bool_decide (s = kResumePending)) (transition kRevalidating);;
    if is_valid (checkpoint_ref_ r)
       && negb (validate_checkpoint (ad w) (checkpoint_ref_ r) (checkpoint_generation_ r)) then
      transition kFailed;;
      mret (mkPreemptionResult PreemptionOutcome.kPreemptionFailed s
        [explain "stale_checkpoint" "checkpoint generation is no longer current" EvidenceKind.kReal])
    else if dependency_blocked (resume_dependencies (ad w) (execution_id_ r)) then
      result PreemptionOutcome.kCannotPreemptSafely
        [explain "resume_blocked_dependency" "resume dependency is stale or missing"
           EvidenceKind.kDerived]
    else
      transition kRestoring;;
      result PreemptionOutcome.kSafePreemptionCompleted [].

(** [restore()]; on failure the result keeps the lifecycle read on entry. *)
Definition restore : Call PreemptionResult :=
  s ← machine_state;
  w ← get;
  let r := rt w in
  if negb (bool_decide (s = kRestoring)) then
    result PreemptionOutcome.kCannotPreemptSafely
      [explain "not_restoring" "restore requires RESTORING" EvidenceKind.kDerived]
  else
    restored ← (if is_valid (checkpoint_ref_ r)
                then call_ad (restore_checkpoint (checkpoint_ref_ r) (checkpoint_generation_ r))
                else mret true);
    if negb restored then
      transition kFailed;;
      mret (mkPreemptionResult PreemptionOutcome.kPreemptionFailed s
        [explain "restore_failed" "restore did not complete" EvidenceKind.kReal])
    else
      transition kResumeReady;;
      result PreemptionOutcome.kSafePreemptionCompleted [].

Definition confirm_resumed : Call PreemptionResult :=
  s ← machine_state;
  w ← get;
  let r := rt w in
  if negb (bool_decide (s = kResumeReady)) && negb (bool_decide (s = kResuming)) then
    result PreemptionOutcome.kCannotPreemptSafely
      [explain "not_resume_ready" "resume confirmation requires RESUME_READY" EvidenceKind.kDerived]
  else
    fresh ← call_ad (grant_fresh_attempt_authority (execution_id_ r) (attempt_id_ r)
                       (execution_generation_ r) (worker_boot_ r));
    if negb (aav_authoritative fresh) then
      result PreemptionOutcome.kPreemptionFailed
        [explain "no_fresh_authority" "could not obtain fresh attempt authority" EvidenceKind.kDerived]
    else
      when (bool_decide (s = kResumeReady)) (transition kResuming);;
      transition kResumed;;
      upd (λ r, r <| resumed_ := true |>);;
      result PreemptionOutcome.kSafePreemptionCompleted [].

(** ** Cancellation and completion *)

Definition cancel : Call unit :=
  s ← machine_state;
  if bool_decide (s = kResumed) then mret tt
  else if Machine.is_terminal_state s && negb (bool_decide (s = kCancelled)) then mret tt
  else
    when (negb (Machine.is_terminal_state s))
      (machine_reset kCancelled;;
       w ← get;
       match active_request_ (rt w) with
       | None => mret tt
       | Some active =>
         upd (λ r, r <| history_ := history_ r ++
           [mkPersistentSuperseded (req_id active) (req_generation active) kCancelled] |>)
       end).

Definition complete : Call unit :=
  s ← machine_state;
  if bool_decide (s = kResumed) || bool_decide (s = kCancelled)
     || bool_decide (s = kResumePending) || bool_decide (s = kRevalidating)
     || bool_decide (s = kRestoring) || bool_decide (s = kResumeReady)
     || bool_decide (s = kResuming)
  then mret tt
  else when (negb (Machine.is_terminal_state s)) (machine_reset kAborted).

(** ** Explanations *)

(** [record_explain]: appends an entry. *)
Definition record_explain (out : list ExplainEntry) (message detail : string) (kind : EvidenceKind)
    : list ExplainEntry := out ++ [mkExplainEntry message detail kind].

Definition explain_why_not_preemptible (w : W) : list ExplainEntry := as_why (assess w).

(** [if (c) out.push_back(e);] *)
Definition push_if (c : bool) (e : ExplainEntry) (out : list ExplainEntry) : list ExplainEntry :=
  if c then out ++ [e] else out.

Definition explain_resume_blockers (w : W) : list ExplainEntry :=
  let r := rt w in
  if negb (bool_decide (lifecycle_state r = kPreempted))
     && negb (Machine.is_preempted_durable (machine_ r)) then
    [explain "resume_not_allowed" "execution is not in a durable PREEMPTED state" EvidenceKind.kDerived]
  else
    let out := [] in
    let out := push_if (negb (state_durable_ r))
      (explain "resume_blocked_state" "no durable state boundary" EvidenceKind.kDerived) out in
    let out := push_if (negb (resources_released_ r))
      (explain "resume_blocked_resource" "resources not released" EvidenceKind.kDerived) out in
    let out := push_if (negb (is_valid (checkpoint_ref_ r)))
      (explain "resume_blocked_state_missing" "no checkpoint reference" EvidenceKind.kDerived) out in
    let out := push_if (is_valid (checkpoint_ref_ r)
        && negb (validate_checkpoint (ad w) (checkpoint_ref_ r) (checkpoint_generation_ r)))
      (explain "resume_blocked_state_stale" "checkpoint generation is stale" EvidenceKind.kReal) out in
    let dep := resume_dependencies (ad w) (execution_id_ r) in
    let out :=
      if bool_decide (dep_status dep = DependencyStatus.kStale)
      then out ++ [explain "resume_blocked_dependency" "dependency is stale" EvidenceKind.kDerived]
      else if bool_decide (dep_status dep = DependencyStatus.kMissing)
      then out ++ [explain "resume_blocked_dependency" "dependency is missing" EvidenceKind.kDerived]
      else out in
    match out with
    | [] => [explain "resume_eligible" "resume is eligible" EvidenceKind.kDerived]
    | _ :: _ => out
    end.

Definition bool_string (b : bool) : string := if b then "true" else "false".

Definition explain_state (w : W) : list ExplainEntry :=
  let r := rt w in
  [explain "lifecycle" (to_string (lifecycle_state r)) EvidenceKind.kDerived;
   explain "durable_progress" (pretty (durable_position_ r)) EvidenceKind.kDerived;
   explain "current_position" (pretty (current_position_ r)) EvidenceKind.kDerived;
   explain "quiesced" (bool_string (quiesced_ r)) EvidenceKind.kDerived;
   explain "state_durable" (bool_string (state_durable_ r)) EvidenceKind.kDerived;
   explain "resources_released" (bool_string (resources_released_ r)) EvidenceKind.kDerived].

(** ** Priority inversion and migration *)

Definition priority_inversion_assessment (w : W) (input : PriorityInversionInput)
    : PriorityInversionEvidence :=
  let r := rt w in
  let ev := default_PriorityInversionEvidence
    <| pie_resource := pii_resource input |>
    <| pie_holder_workload := pii_holder_workload input |>
    <| pie_blocked_workload := pii_blocked_workload input |>
    <| pie_reason := pii_reason input |>
    <| pie_provenance := pii_provenance input |> in
  if bool_decide (pii_resource input = ResourceClass.kInvalid)
     || negb (is_valid (pii_holder_workload input)) || negb (is_valid (pii_blocked_workload input))
  then ev
  else if negb (bool_decide (pii_policy_generation input = policy_generation_ r))
  then ev <| pie_stale := false |>
  else if negb (is_valid (pii_priority_generation input))
          || negb (bool_decide (pii_priority_generation input = priority_generation_ r))
  then ev <| pie_stale := true |>
  else
    let ev := ev
      <| pie_ok := true |>
      <| pie_next_safe_point_cost := pii_next_safe_point_cost input |>
      <| pie_preservation_cost := pii_preservation_cost input |>
      <| pie_release_cost := pii_release_cost input |>
      <| pie_resume_recompute_cost := pii_resume_recompute_cost input |>
      <| pie_blocking_duration_ns := pii_blocking_duration_ns input |>
      <| pie_blocking_duration_measured := pii_blocking_duration_measured input |>
      <| pie_holder_preemptible := is_concretely_preemptible (pii_holder_preemptibility input) |> in
    if negb (pii_holder_authoritative input)
    then ev <| pie_resolution := PriorityInversionResolution.kSafePreemptionDoesNotResolve |>
    else if is_unknown_preemptibility (pii_holder_preemptibility input)
    then ev <| pie_resolution := PriorityInversionResolution.kUnknown |>
    else if pie_holder_preemptible ev
    then ev <| pie_resolution := PriorityInversionResolution.kSafePreemptionResolves |>
    else ev <| pie_resolution := PriorityInversionResolution.kSafePreemptionDoesNotResolve |>.

Definition evaluate_migration_destination (w : W) (dst : DeviceCapability) : MigrationCompatibility :=
  let r := rt w in
  if negb (Machine.is_preempted_durable (machine_ r)) || negb (state_durable_ r) then
    mkMigrationCompatibility MigrationCompatibilityOutcome.kStateNotDurable
      "execution is not in a durable PREEMPTED state" ["state not durable"]
  else if negb (is_valid (checkpoint_ref_ r)) || negb (is_valid (checkpoint_generation_ r)) then
    mkMigrationCompatibility MigrationCompatibilityOutcome.kIncompatibleCapability
      "preserved state is not bound to a valid checkpoint generation" ["no checkpoint generation"]
  else if negb (capability_generation_current (ad w) dst) then
    mkMigrationCompatibility MigrationCompatibilityOutcome.kStaleCapabilityGeneration
      "destination capability generation is stale" ["stale capability generation"]
  else if negb (capability_is_compatible (ad w) dst) then
    mkMigrationCompatibility MigrationCompatibilityOutcome.kIncompatibleCapability
      "destination capability is incompatible with the preserved state" ["incompatible destination"]
  else if dependency_blocked (resume_dependencies (ad w) (execution_id_ r)) then
    mkMigrationCompatibility MigrationCompatibilityOutcome.kBlockedDependency
      "resume dependency is stale or missing" ["stale dependency"]
  else if negb (is_valid (contract_generation (current_contract (ad w) (execution_id_ r)))) then
    mkMigrationCompatibility MigrationCompatibilityOutcome.kBlockedResource
      "resource contract generation is not current" ["stale resource contract"]
  else
    mkMigrationCompatibility MigrationCompatibilityOutcome.kCompatible
      "destination is compatible with the preserved state and current generations" ["compatible"].

(** ** Incarnations and queries *)

Definition set_worker_incarnation (worker : WorkerId) (boot : WorkerBootId) : Call unit :=
  upd (λ r, r <| worker_id_ := worker |> <| worker_boot_ := boot |>
              <| fenced_worker_boot_ := default_id |>).
Definition set_priority_generation (g : PriorityGeneration) : Call unit :=
  upd (λ r, r <| priority_generation_ := g |>).

Definition current_preemptibility (w : W) : PreemptibilityClass := as_preemptibility (assess w).
Definition durable_progress (w : W) : Z := durable_position_ (rt w).
Definition current_position (w : W) : Z := current_position_ (rt w).
Definition is_attempt_authoritative (w : W) : bool :=
  aav_authoritative (current_attempt_authority (ad w) (execution_id_ (rt w)) (attempt_id_ (rt w))).

(** The getters of members. *)
Definition authoritative_request_generation (w : W) : PreemptionRequestGeneration :=
  authoritative_request_generation_ (rt w).
Definition is_preempted_durable (w : W) : bool := Machine.is_preempted_durable (machine_ (rt w)).
Definition current_safe_point (w : W) : option SafePoint := current_safe_point_ (rt w).
Definition safe_point_count (w : W) : Z := Z.of_nat (length (safe_points_ (rt w))).
Definition current_priority_generation (w : W) : PriorityGeneration := priority_generation_ (rt w).
Definition current_epoch (w : W) : CoordinatorEpoch := epoch_ (rt w).
Definition worker_boot (w : W) : WorkerBootId := worker_boot_ (rt w).
Definition execution_generation (w : W) : ExecutionGeneration := execution_generation_ (rt w).
Definition attempt_generation (w : W) : AttemptGeneration := attempt_generation_ (rt w).

(** ** The durable image *)

Definition snapshot_safe_point (sp : SafePoint) : PersistentSafePoint :=
  mkPersistentSafePoint (sp_id sp) (sp_generation sp) (sp_execution_id sp) (sp_attempt_id sp)
    (sp_worker_id sp) (sp_worker_boot_id sp) (sp_progress_position sp)
    (sp_state_capture_required sp) (sp_checkpoint_required sp) (sp_state sp) (sp_order sp).

Definition snapshot (r : PreemptionRuntime) : PersistentState := {|
  ps_format_version := PF_PERSISTENCE_VERSION;
  ps_coordinator_epoch := epoch_ r;
  ps_policy_generation := policy_generation_ r;
  ps_workload_id := workload_id_ r;
  ps_workload_generation := workload_generation_ r;
  ps_execution_id := execution_id_ r;
  ps_execution_generation := execution_generation_ r;
  ps_attempt_id := attempt_id_ r;
  ps_attempt_generation := attempt_generation_ r;
  ps_worker_id := worker_id_ r;
  ps_worker_boot_id := worker_boot_ r;
  ps_fenced_worker_boot := fenced_worker_boot_ r;
  ps_lifecycle := lifecycle_state r;
  ps_request_id := match active_request_ r with Some q => req_id q | None => default_id end;
  ps_request_generation :=
    match active_request_ r with Some q => req_generation q | None => default_gen end;
  ps_quiesced := quiesced_ r;
  ps_quiescence_generation := quiescence_generation_ r;
  ps_state_durable := state_durable_ r;
  ps_state_capture_generation := state_capture_generation_ r;
  ps_checkpoint_ref := checkpoint_ref_ r;
  ps_checkpoint_generation := checkpoint_generation_ r;
  ps_resources_released := resources_released_ r;
  ps_release_generation := release_generation_ r;
  ps_preempted := Machine.is_preempted_durable (machine_ r);
  ps_resume_generation := resume_generation_ r;
  ps_durable_progress := durable_position_ r;
  ps_progress_generation := durable_progress_generation_ r;
  ps_safe_points := (λ p, snapshot_safe_point p.2) <$> safe_points_ r;
  ps_release_receipts := [];
  ps_history := history_ r |}.

(** The members that are not in the image keep their default. *)
Definition restore_safe_point (psp : PersistentSafePoint) : SafePoint :=
  default_SafePoint
    <| sp_id := psp_id psp |>
    <| sp_generation := psp_generation psp |>
    <| sp_execution_id := psp_execution_id psp |>
    <| sp_attempt_id := psp_attempt_id psp |>
    <| sp_worker_id := psp_worker_id psp |>
    <| sp_worker_boot_id := psp_worker_boot_id psp |>
    <| sp_progress_position := psp_progress_position psp |>
    <| sp_state_capture_required := psp_state_capture_required psp |>
    <| sp_checkpoint_required := psp_checkpoint_required psp |>
    <| sp_state := psp_state psp |>
    <| sp_order := psp_order psp |>.

Definition restored_request (st : PersistentState) (epoch : CoordinatorEpoch) : PreemptionRequest :=
  default_PreemptionRequest
    <| req_id := ps_request_id st |>
    <| req_generation := ps_request_generation st |>
    <| req_workload_id := ps_workload_id st |>
    <| req_workload_generation := ps_workload_generation st |>
    <| req_execution_id := ps_execution_id st |>
    <| req_execution_generation := ps_execution_generation st |>
    <| req_attempt_id := ps_attempt_id st |>
    <| req_attempt_generation := ps_attempt_generation st |>
    <| req_coordinator_epoch := epoch |>.

(** The member assignments of [restore(const PersistentState&)].  The current safe
    point, the progress generation and, without a valid request, the active request
    are left as they are. *)
Definition restore_members (st : PersistentState) (r : PreemptionRuntime) : PreemptionRuntime :=
  let r := r
    <| workload_id_ := ps_workload_id st |>
    <| workload_generation_ := ps_workload_generation st |>
    <| execution_id_ := ps_execution_id st |>
    <| execution_generation_ := ps_execution_generation st |>
    <| attempt_id_ := ps_attempt_id st |>
    <| attempt_generation_ := ps_attempt_generation st |>
    <| worker_id_ := ps_worker_id st |>
    <| worker_boot_ := ps_worker_boot_id st |>
    <| fenced_worker_boot_ := ps_fenced_worker_boot st |>
    <| machine_ := Machine.reset (ps_lifecycle st) (machine_ r) |>
    <| quiesced_ := ps_quiesced st |>
    <| quiescence_generation_ := ps_quiescence_generation st |>
    <| state_durable_ := ps_state_durable st |>
    <| state_capture_generation_ := ps_state_capture_generation st |>
    <| checkpoint_ref_ := ps_checkpoint_ref st |>
    <| checkpoint_generation_ := ps_checkpoint_generation st |>
    <| resources_released_ := ps_resources_released st |>
    <| release_generation_ := ps_release_generation st |>
    <| resume_generation_ := ps_resume_generation st |>
    <| durable_position_ := ps_durable_progress st |>
    <| durable_progress_generation_ := ps_progress_generation st |>
    <| current_position_ := ps_durable_progress st |> in
  let r :=
    if is_valid (ps_request_id st)
    then r <| active_request_ := Some (restored_request st (epoch_ r)) |>
           <| authoritative_request_generation_ := ps_request_generation st |>
    else r in
  r <| safe_points_ :=
         omap.of_list ((λ psp, (psp_id psp, restore_safe_point psp)) <$> ps_safe_points st) |>
    <| history_ := ps_history st |>.

Definition restore_state (st : PersistentState) : Call unit :=
  upd (restore_members st);;
  w ← get;
  let r := rt w in
  upd_ad (set_authoritative (execution_id_ r) (attempt_id_ r) (execution_generation_ r)
            (attempt_generation_ r) (epoch_ r) (worker_boot_ r)).

End runtime.
