(* ===== verification/Recovery.v ===== *)
(** * Recovery ([PreemptionRuntime::persist_bytes], [restore_bytes], [save], [load])

    The runtime and the persistent store together: an image is the encoding of a
    snapshot, and a restart decodes it and overwrites the members of a fresh runtime. *)

From S2P Require Import Prelude Exec Identity Enums Lifecycle OrdMap Domains Interfaces Bytes PersistentState.
From S2P Require Import Store Runtime.
From stdpp Require Import base list numbers.
From Stdlib Require Import ZArith Lia.
Open Scope Z_scope.

Definition persist_bytes (r : PreemptionRuntime) : list byte := Store.encode (snapshot r).

(** What happens to a file opened for writing: it cannot be opened, or the stream reports
    [good] after the write and the first [room] bytes reach the file, all of them without a
    limit.  A buffered stream may report success before the bytes are written out. *)
Inductive OutFile := NotOpened | Opened (good : bool) (room : option nat).

(** The part of the bytes that reaches the file, and whether that is all of them. *)
Definition written (room : option nat) (bytes : list byte) : list byte :=
  match room with Some n => take n bytes | None => bytes end.
Definition whole (file : OutFile) (bytes : list byte) : bool :=
  match file with
  | NotOpened => false
  | Opened _ room => match room with Some n => length bytes <=? n | None => true end
  end%nat.

(** [save]: its result, and the new contents of the file ([None]: it is left alone). *)
Definition save (file : OutFile) (r : PreemptionRuntime) : bool * option (list byte) :=
  let bytes := persist_bytes r in
  match file with
  | NotOpened => (false, None)
  | Opened good room => (good, Some (written room bytes))
  end.

Lemma save_whole file r : whole file (persist_bytes r) = true → (save file r).2 = Some (persist_bytes r).
Proof.
  destruct file as [|good [n|]]; try done. cbn. intros Hn%Nat.leb_le. by rewrite take_ge.
Qed.

Section recovery.
Context {A : Type} `{Adapters A}.

Definition restore_bytes (bytes : list byte) : Exec (World A) bool :=
  match Store.decode bytes with
  | inl _ => mret false
  | inr st => restore_state st;; mret true
  end.

(** [load]: the contents of the file, if it can be opened. *)
Definition load (contents : option (list byte)) : Exec (World A) bool :=
  match contents with
  | None => mret false
  | Some bytes => restore_bytes bytes
  end.

End recovery.
