(* ===== verification/RuntimeSpec.v ===== *)
(** * Runs of the runtime and their abstract specification

    [Op] lists the public mutating member functions of [PreemptionRuntime] with their
    arguments ([load] is [restore_bytes] of the contents of a file); a run interleaves them in any order with changes that other clients make
    to the adapters.  The abstract protocol [spec_step] keeps only the lifecycle and the
    three pieces of evidence a preemption needs, and gives each call its own steps.  Every
    call of the runtime takes a step of that call, whatever the adapters answer. *)

From S2P Require Import Prelude Exec Identity Enums Lifecycle OrdMap Domains Interfaces Bytes PersistentState.
From S2P Require Import Store StoreTheorems Priority Runtime Recovery.
From stdpp Require Import base list numbers relations.
From Stdlib Require Import ZArith Lia.
Open Scope Z_scope.

Inductive Op :=
  | OStart (w : WorkloadId) (wg : WorkloadGeneration) (e : ExecutionId) (eg : ExecutionGeneration)
      (a : AttemptId) (ag : AttemptGeneration) (worker : WorkerId) (boot : WorkerBootId)
  | ODeclareSafePoint (sp : SafePoint)
  | OReachSafePoint (id : SafePointId) (position : Z) (capture_required : bool)
  | OPublishProgress (position : Z) (kind : ProgressKind)
  | ORequestPreemption (req : PreemptionRequest)
  | OBeginQuiesce
  | OReportQuiesced (report : QuiescenceReport)
  | ORequestStateCapture
  | OReportStateCaptured (res : CaptureResult)
  | ORequestRelease
  | OReportReleased
  | OCommitPreempted
  | ORequestResume
  | ORevalidate
  | ORestore
  | OConfirmResumed
  | OCancel
  | OComplete
  | OSetWorkerIncarnation (worker : WorkerId) (boot : WorkerBootId)
  | OSetPriorityGeneration (g : PriorityGeneration)
  | ORestoreBytes (bytes : list byte)
  | ORestoreState (st : PersistentState).

(** Does the call replace the members by a durable state? *)
Definition is_recovery (op : Op) : bool :=
  match op with ORestoreBytes _ | ORestoreState _ => true | _ => false end.

(** [restore(const PersistentState&)] installs whatever it is given.  [checked]: the states
    given to it pass the semantic check of the store, as those of [restore_bytes] do. *)
Definition checked (op : Op) : Prop :=
  match op with ORestoreState st => Store.validate_state st = PersistenceError.kOk | _ => True end.

(** [installs op st]: the call replaces the members by those of [st]. *)
Definition installs (op : Op) (st : PersistentState) : Prop :=
  match op with
  | ORestoreBytes bytes => Store.decode bytes = inr st
  | ORestoreState st' => st' = st
  | _ => False
  end.

Lemma installs_valid op st : installs op st → checked op → image_valid st.
Proof.
  destruct op; try done; cbn.
  - intros (_ & _ & Hv & _)%StoreLemmas.decode_ok_inv _. by apply validate_state_ok.
  - intros ->. apply validate_state_ok.
Qed.

(** States are installed only from the bytes of an image. *)
Definition bytes_only (op : Op) : Prop :=
  match op with ORestoreState _ => False | _ => True end.

Lemma bytes_only_checked op : bytes_only op → checked op.
Proof. by destruct op. Qed.

Section steps.
Context {A : Type} `{Adapters A}.

Definition void {B} (m : Exec (World A) B) : Exec (World A) unit := _ ← m; mret tt.

Definition run_op (op : Op) : Exec (World A) unit :=
  match op with
  | OStart w wg e eg a ag worker boot => start_execution w wg e eg a ag worker boot
  | ODeclareSafePoint sp => void (declare_safe_point sp)
  | OReachSafePoint id position capture_required => reach_safe_point id position capture_required
  | OPublishProgress position kind => void (publish_progress position kind)
  | ORequestPreemption req => void (request_preemption req)
  | OBeginQuiesce => void begin_quiesce
  | OReportQuiesced report => void (report_quiesced report)
  | ORequestStateCapture => void request_state_capture
  | OReportStateCaptured res => void (report_state_captured res)
  | ORequestRelease => void request_release
  | OReportReleased => void report_released
  | OCommitPreempted => void commit_preempted
  | ORequestResume => void request_resume
  | ORevalidate => void revalidate
  | ORestore => void restore
  | OConfirmResumed => void confirm_resumed
  | OCancel => Runtime.cancel
  | OComplete => complete
  | OSetWorkerIncarnation worker boot => set_worker_incarnation worker boot
  | OSetPriorityGeneration g => set_priority_generation g
  | ORestoreBytes bytes => void (restore_bytes bytes)
  | ORestoreState st => restore_state st
  end.

(** One step: a call (which may throw), or a change another client makes to the
    adapters.  [allowed] and [env] restrict the calls and the changes considered. *)
Inductive step (allowed : Op → Prop) (env : A → A → Prop) : World A → World A → Prop :=
  | step_op op w : allowed op → step allowed env w (final (run_op op w))
  | step_env w a' : env (ad w) a' → step allowed env w (w <| ad := a' |>).

Definition initial (w : World A) : Prop :=
  ∃ epoch policy, rt w = new_runtime epoch policy.
Definition reachable (allowed : Op → Prop) (env : A → A → Prop) (w : World A) : Prop :=
  ∃ w0, initial w0 ∧ rtc (step allowed env) w0 w.

Lemma reachable_ind (allowed : Op → Prop) (env : A → A → Prop) (P : World A → Prop) :
  (∀ w, initial w → P w) →
  (∀ op w, allowed op → P w → P (final (run_op op w))) →
  (∀ w a', env (ad w) a' → P w → P (w <| ad := a' |>)) →
  ∀ w, reachable allowed env w → P w.
Proof.
  intros Hinit Hop Henv w (w0 & H0 & Hrtc). apply Hinit in H0.
  induction Hrtc as [w|w1 w2 w3 Hstep _ IH]; [done|]. apply IH.
  destruct Hstep; eauto.
Qed.

Lemma reachable_mono (allowed allowed' : Op → Prop) env w :
  (∀ op, allowed op → allowed' op) → reachable allowed env w → reachable allowed' env w.
Proof.
  intros Hall (w0 & H0 & Hrtc). exists w0. split; [done|].
  eapply rtc_subrel; [|exact Hrtc]. intros w1 w2 [op w' Hop|w' a' Ha]; [by apply step_op, Hall|by apply step_env].
Qed.

(** Calls in sequence. *)
Fixpoint exec_ops (ops : list Op) (w : World A) : World A :=
  match ops with
  | [] => w
  | op :: rest => exec_ops rest (final (run_op op w))
  end.

Lemma exec_ops_app ops1 ops2 w : exec_ops (ops1 ++ ops2) w = exec_ops ops2 (exec_ops ops1 w).
Proof. revert w. induction ops1 as [|op ops1 IH]; intros w; cbn; [done|apply IH]. Qed.

Lemma exec_ops_rtc allowed env ops w :
  Forall allowed ops → rtc (step allowed env) w (exec_ops ops w).
Proof.
  revert w. induction ops as [|op ops IH]; intros w Hall; cbn; [done|].
  apply list.Forall_cons in Hall as [Hop Hall].
  eapply rtc_l; [by apply step_op|]. by apply IH.
Qed.

Lemma exec_ops_reachable allowed env ops w :
  initial w → Forall allowed ops → reachable allowed env (exec_ops ops w).
Proof. intros Hw Hall. exists w. split; [done|]. by apply exec_ops_rtc. Qed.

End steps.

(** ** The abstract protocol *)

Record Evidence := mkEvidence {
  ev_state : LifecycleState;
  ev_quiesced : bool;
  ev_durable : bool;
  ev_released : bool
}.

Definition evidence (r : PreemptionRuntime) : Evidence :=
  mkEvidence (lifecycle_state r) (quiesced_ r) (state_durable_ r) (resources_released_ r).

Section spec.
Import LifecycleState.

(** The completion of the execution is ignored in these states. *)
Definition ignores_completion (s : LifecycleState) : bool :=
  match s with
  | kResumePending | kRevalidating | kRestoring | kResumeReady | kResuming => true
  | s => Machine.is_terminal_state s
  end.

(** The evidence a durable state records. *)
Definition image_evidence (st : PersistentState) : Evidence :=
  mkEvidence (ps_lifecycle st) (ps_quiesced st) (ps_state_durable st) (ps_resources_released st).

(** The calls that may leave the evidence as it is: every refused or pending one.  A start and
    the installation of a state always act; a cancellation acts unless the lifecycle is over,
    a completion unless it is ignored, a recovery unless the bytes do not decode. *)
Definition may_stutter (op : Op) (e : Evidence) : Prop :=
  match op with
  | OStart _ _ _ _ _ _ _ _ | ORestoreState _ => False
  | OCancel => Machine.is_terminal_state (ev_state e) = true
  | OComplete => ignores_completion (ev_state e) = true
  | ORestoreBytes bytes => ∃ err, Store.decode bytes = inl err
  | _ => True
  end.

(** The steps of each call. *)
Inductive spec_step : Op → Evidence → Evidence → Prop :=
  | spec_stutter op e : may_stutter op e → spec_step op e e
  | spec_start w wg x xg a ag worker boot s q d r :
      spec_step (OStart w wg x xg a ag worker boot) (mkEvidence s q d r) (mkEvidence kInvalid q d r)
  | spec_request req s q d r :
      spec_step (ORequestPreemption req) (mkEvidence s q d r) (mkEvidence kAssessing q d r)
  | spec_wait s q d r : s = kAssessing ∨ s = kDeferred →
      spec_step OBeginQuiesce (mkEvidence s q d r) (mkEvidence kWaitingForSafePoint q d r)
  | spec_reach id position capture q d r :
      spec_step (OReachSafePoint id position capture)
        (mkEvidence kWaitingForSafePoint q d r) (mkEvidence kSafePointReached q d r)
  | spec_begin_quiesce s q d r : s = kAssessing ∨ s = kSafePointReached →
      spec_step OBeginQuiesce (mkEvidence s q d r) (mkEvidence kQuiescing q d r)
  | spec_quiesced report q d r :
      spec_step (OReportQuiesced report) (mkEvidence kQuiescing q d r) (mkEvidence kQuiesced true d r)
  | spec_already_durable q d r :
      spec_step ORequestStateCapture (mkEvidence kQuiesced q d r) (mkEvidence kReleasePending q true r)
  | spec_capture q d r :
      spec_step ORequestStateCapture (mkEvidence kQuiesced q d r) (mkEvidence kCapturingState q d r)
  | spec_captured res q d r :
      spec_step (OReportStateCaptured res) (mkEvidence kCapturingState q d r) (mkEvidence kStateDurable q true r)
  | spec_capture_failed res q d r :
      spec_step (OReportStateCaptured res) (mkEvidence kCapturingState q d r) (mkEvidence kFailed q d r)
  | spec_release s q r : s = kStateDurable ∨ s = kReleasePending →
      spec_step ORequestRelease (mkEvidence s q true r) (mkEvidence kReleasing q true r)
  | spec_released q d r :
      spec_step OReportReleased (mkEvidence kReleasing q d r) (mkEvidence kResourcesReleased q d true)
  | spec_commit :
      spec_step OCommitPreempted (mkEvidence kResourcesReleased true true true) (mkEvidence kPreempted true true true)
  | spec_resume q d r :
      spec_step ORequestResume (mkEvidence kPreempted q d r) (mkEvidence kResumePending q d r)
  | spec_blocked q d r :
      spec_step ORevalidate (mkEvidence kResumePending q d r) (mkEvidence kRevalidating q d r)
  | spec_revalidated s q d r : s = kResumePending ∨ s = kRevalidating →
      spec_step ORevalidate (mkEvidence s q d r) (mkEvidence kRestoring q d r)
  | spec_revalidate_failed s q d r : s = kResumePending ∨ s = kRevalidating →
      spec_step ORevalidate (mkEvidence s q d r) (mkEvidence kFailed q d r)
  | spec_restored q d r :
      spec_step ORestore (mkEvidence kRestoring q d r) (mkEvidence kResumeReady q d r)
  | spec_restore_failed q d r :
      spec_step ORestore (mkEvidence kRestoring q d r) (mkEvidence kFailed q d r)
  | spec_resumed s q d r : s = kResumeReady ∨ s = kResuming →
      spec_step OConfirmResumed (mkEvidence s q d r) (mkEvidence kResumed q d r)
  | spec_cancel s q d r : Machine.is_terminal_state s = false →
      spec_step OCancel (mkEvidence s q d r) (mkEvidence kCancelled q d r)
  | spec_complete s q d r : ignores_completion s = false →
      spec_step OComplete (mkEvidence s q d r) (mkEvidence kAborted q d r)
  | spec_recover bytes st e : Store.decode bytes = inr st →
      spec_step (ORestoreBytes bytes) e (image_evidence st)
  | spec_install st e : spec_step (ORestoreState st) e (image_evidence st).
End spec.

(** ** Rules for the statements of the runtime *)

Section rules.
Context {A : Type} `{Adapters A}.
Implicit Types w : World A.

(** [w] with the lifecycle set to [s]. *)
Definition go (s : LifecycleState) (w : World A) : World A :=
  w <| rt := (rt w) <| machine_ := mkMachine s |> |>.

Lemma wp_transition to w Q :
  (Machine.is_allowed (lifecycle_state (rt w)) to = true → Q (inr tt) (go to w)) →
  (Machine.is_allowed (lifecycle_state (rt w)) to = false →
   Q (inl (throw_invalid_transition (to_string (lifecycle_state (rt w))) (to_string to))) w) →
  wp (transition to) w Q.
Proof.
  intros H1 H2. apply wp_zoom. unfold Machine.transition. apply wp_bind, wp_get.
  apply wp_if; intros E.
  - apply wp_throw. apply negb_true_iff in E. specialize (H2 E). by destruct w as [[] ?].
  - apply wp_modify. apply negb_false_iff in E. specialize (H1 E). done.
Qed.

Lemma wp_upd f w Q : Q (inr tt) (w <| rt := f (rt w) |>) → wp (upd f) w Q.
Proof. done. Qed.
Lemma wp_upd_ad f w Q : Q (inr tt) (w <| ad := f (ad w) |>) → wp (upd_ad f) w Q.
Proof. done. Qed.
Lemma wp_call_ad {B} (f : A → B * A) w Q :
  Q (inr (f (ad w)).1) (w <| ad := (f (ad w)).2 |>) → wp (call_ad f) w Q.
Proof. done. Qed.
Lemma wp_machine_state w Q : Q (inr (lifecycle_state (rt w))) w → wp machine_state w Q.
Proof. done. Qed.
Lemma wp_machine_reset s w Q : Q (inr tt) (go s w) → wp (machine_reset s) w Q.
Proof. done. Qed.
Lemma wp_result o ev w Q :
  Q (inr (mkPreemptionResult o (lifecycle_state (rt w)) ev)) w → wp (result o ev) w Q.
Proof. done. Qed.

End rules.

(** Projections of updated members. *)
Ltac fields := cbn [rt ad set_field lifecycle_state state_ machine_ fst snd
  epoch_ policy_generation_ workload_id_ workload_generation_ execution_id_
  execution_generation_ attempt_id_ attempt_generation_ worker_id_ worker_boot_
  fenced_worker_boot_ active_request_ authoritative_request_generation_ safe_points_
  current_safe_point_ current_position_ durable_position_ progress_generation_
  durable_progress_generation_ progress_order_ quiesced_ quiescence_generation_
  state_durable_ state_capture_generation_ checkpoint_ref_ checkpoint_generation_
  resources_released_ release_generation_ resume_generation_ resumed_ history_
  priority_generation_] in *.

(** One rule per statement. *)
Ltac wp_step :=
  cbv beta iota zeta;
  lazymatch goal with
  | |- wp (mbind _ _) _ _ => apply wp_bind
  | |- wp (mret _) _ _ => apply wp_ret
  | |- wp get _ _ => apply wp_get
  | |- wp machine_state _ _ => apply wp_machine_state
  | |- wp (machine_reset _) _ _ => apply wp_machine_reset
  | |- wp (result _ _) _ _ => apply wp_result
  | |- wp (transition _) _ _ => apply wp_transition; intros ?
  | |- wp (upd _) _ _ => apply wp_upd
  | |- wp (upd_ad _) _ _ => apply wp_upd_ad
  | |- wp (call_ad _) _ _ => apply wp_call_ad
  | |- wp (throw _) _ _ => apply wp_throw
  | |- wp (when _ _) _ _ => apply wp_when; intros ?
  | |- wp (match ?o with _ => _ end) _ _ => first [apply wp_if; intros ?| destruct o eqn:?]
  | |- wp (void _) _ _ => unfold void
  end.
(** Splits the disjunctive conditions of the path taken. *)
Ltac split_path :=
  repeat match goal with
  | H : orb _ _ = true |- _ => apply orb_prop in H as [H|H]
  | H : andb _ _ = false |- _ => apply andb_false_iff in H as [H|H]
  end.
(** Simplifies the conditions of the path taken, and discards the path when one of its
    transitions contradicts the lifecycle known on it. *)
Ltac prune :=
  bool_props; split_path; bool_props; unfold go, lifecycle_state in *; fields;
  repeat match goal with
  | E : state_ (machine_ ?r) = _, H : context [state_ (machine_ ?r)] |- _ =>
      lazymatch H with E => fail | _ => rewrite E in H end
  | E : state_ (machine_ ?r) = _ |- context [state_ (machine_ ?r)] => rewrite E
  end;
  try congruence;
  try (match goal with
       | H : Machine.is_allowed _ _ = _ |- _ => solve [vm_compute in H; discriminate H]
       end).
Ltac wp_run := repeat wp_step; cbv beta iota zeta.

(** The bodies of the calls. *)
Create HintDb calls.
#[export] Hint Unfold void start_execution declare_safe_point reach_safe_point publish_progress
  request_preemption begin_quiesce report_quiesced request_state_capture report_state_captured
  request_release report_released commit_preempted request_resume revalidate restore
  confirm_resumed Runtime.cancel complete set_worker_incarnation set_priority_generation
  restore_bytes restore_state : calls.
(** Runs every call of [Op] along all its paths. *)
Ltac run_every_op op := destruct op; cbn [run_op]; autounfold with calls; wp_run; prune.

Lemma rt_restore_state {A} `{Adapters A} st (w : World A) :
  rt (final (restore_state st w)) = restore_members st (rt w).
Proof. done. Qed.

(** A recovery leaves the world or installs its state. *)
Lemma wp_recovery {A} `{Adapters A} op (w : World A) (Q : World A → Prop) :
  is_recovery op = true → Q w → (∀ st, installs op st → Q (final (restore_state st w))) →
  wp (run_op op) w (λ _ w', Q w').
Proof.
  intros Hr Hw Hst. destruct op; try done; cbn [run_op].
  - unfold void, restore_bytes. destruct (Store.decode bytes) as [e|st] eqn:E; [done|by apply (Hst st)].
  - by apply (Hst st).
Qed.

Section refinement.
Context {A : Type} `{Adapters A}.
Implicit Types w : World A.

Abbreviation refines op w :=
  (wp (run_op op) w (λ _ w', spec_step op (evidence (rt w)) (evidence (rt w')))).

(** A path that leaves the members or takes one abstract step of its call. *)
Ltac refine_path :=
  prune; unfold evidence, lifecycle_state; fields;
  repeat match goal with E : _ = _ |- _ => rewrite E end;
  first [ apply spec_stutter; exact I | constructor; tauto ].
Ltac refine_call := cbn [run_op]; autounfold with calls; wp_run; refine_path.

Lemma restore_members_evidence st r : evidence (restore_members st r) = image_evidence st.
Proof. unfold restore_members, evidence, lifecycle_state. by destruct (is_valid (ps_request_id st)). Qed.

Lemma refine_cancel w : refines OCancel w.
Proof.
  cbn [run_op]. unfold Runtime.cancel. wp_run; prune; unfold evidence, lifecycle_state, go; fields;
    first [by apply spec_cancel|apply spec_stutter; cbn [may_stutter ev_state]].
  all: by destruct (state_ (machine_ (rt w))).
Qed.
Lemma refine_complete w : refines OComplete w.
Proof.
  cbn [run_op]. unfold complete. wp_run; unfold evidence, lifecycle_state, go in *; fields; bool_props;
    first [by apply spec_complete; destruct (state_ (machine_ (rt w)))
          |apply spec_stutter; cbn; by destruct (state_ (machine_ (rt w)))].
Qed.
Lemma refine_restore_state st w : refines (ORestoreState st) w.
Proof. cbn [run_op]. unfold restore_state. wp_run. fields. rewrite restore_members_evidence. apply spec_install. Qed.
Lemma refine_restore_bytes bytes w : refines (ORestoreBytes bytes) w.
Proof.
  cbn [run_op]. unfold restore_bytes. destruct (Store.decode bytes) as [e|st] eqn:E.
  - wp_run. apply spec_stutter. by exists e.
  - unfold restore_state. wp_run. fields. rewrite restore_members_evidence. by apply spec_recover.
Qed.

Lemma refine_op op w : refines op w.
Proof.
  destruct op;
    auto using refine_cancel, refine_complete, refine_restore_bytes, refine_restore_state; refine_call.
Qed.

End refinement.
