(* ===== verification/Scenario.v ===== *)
(** * A concrete run

    The reference adapters set up for one execution with two leases, and the calls that
    take it to [PREEMPTED] and back to [RESUMED].  The witnesses of the theorems on runs
    evaluate prefixes of this run. *)

From S2P Require Import Prelude Exec Identity Enums Lifecycle OrdMap Domains Interfaces ReferenceAdapters.
From S2P Require Import Bytes PersistentState Runtime RuntimeSpec.
From stdpp Require Import base list strings numbers.
From Stdlib Require Import ZArith.
Open Scope Z_scope.

Module Scenario.

Definition execution : ExecutionId := mkId 9.
Definition attempt : AttemptId := mkId 4.
Definition boot : WorkerBootId := mkId 12.
Definition contract : ResourceContractGeneration := mkGeneration 1.

(** All activity quiesced, a contract with two leases, dependencies current. *)
Definition adapters : ReferenceAdapters :=
  let a := Ref.set_contract execution contract
    [mkResourceLease ResourceClass.kDeviceMemory 4; mkResourceLease ResourceClass.kHostMemory 2]
    Ref.init in
  let a := foldl (λ a c, Ref.set_quiesced c true a) a (Ref.categories a) in
  Ref.set_resume_dependency (mkDependencyView DependencyStatus.kCurrent (mkGeneration 1) false false) a.

Definition world0 : World ReferenceAdapters :=
  mkWorld (new_runtime (mkGeneration 3) (mkGeneration 1)) adapters.

Definition safe_point : SafePoint :=
  default_SafePoint <| sp_id := mkId 1 |> <| sp_generation := mkGeneration 1 |>
    <| sp_execution_id := execution |> <| sp_attempt_id := attempt |>.
Definition request : PreemptionRequest :=
  default_PreemptionRequest <| req_id := mkId 100 |> <| req_generation := mkGeneration 1 |>
    <| req_execution_id := execution |> <| req_execution_generation := mkGeneration 2 |>
    <| req_attempt_id := attempt |> <| req_attempt_generation := mkGeneration 5 |>
    <| req_coordinator_epoch := mkGeneration 3 |>.
Definition quiescence : QuiescenceReport :=
  mkQuiescenceReport (mkGeneration 1) (mkId 11) boot true [] EvidenceKind.kReal.
Definition capture : CaptureResult :=
  mkCaptureResult true true (mkId 1) (mkGeneration 1) (mkId 77) (mkGeneration 1) EvidenceKind.kReal.

Definition start_ops : list Op :=
  [OStart (mkId 7) (mkGeneration 1) execution (mkGeneration 2) attempt (mkGeneration 5) (mkId 11) boot;
   ODeclareSafePoint safe_point;
   OPublishProgress 640 ProgressKind.kDurable].
Definition request_ops : list Op := start_ops ++ [ORequestPreemption request].
Definition quiesce_ops : list Op :=
  [OReachSafePoint (mkId 1) 640 true; OBeginQuiesce; OReportQuiesced quiescence].
Definition capture_ops : list Op := [ORequestStateCapture; OReportStateCaptured capture].
Definition release_ops : list Op := [ORequestRelease; OReportReleased].
(** From the admission of the request to [PREEMPTED]. *)
Definition preempt_ops : list Op := quiesce_ops ++ capture_ops ++ release_ops ++ [OCommitPreempted].
Definition resume_ops : list Op := [ORequestResume; ORevalidate; ORestore; OConfirmResumed].

Definition started : World ReferenceAdapters := exec_ops start_ops world0.
Definition requested : World ReferenceAdapters := exec_ops request_ops world0.
Definition preempted : World ReferenceAdapters := exec_ops (request_ops ++ preempt_ops) world0.
Definition resumed : World ReferenceAdapters :=
  exec_ops (request_ops ++ preempt_ops ++ resume_ops) world0.

Example requested_state : lifecycle_state (rt requested) = LifecycleState.kAssessing.
Proof. vm_compute. reflexivity. Qed.
Example preempted_state : lifecycle_state (rt preempted) = LifecycleState.kPreempted.
Proof. vm_compute. reflexivity. Qed.
Example resumed_state : lifecycle_state (rt resumed) = LifecycleState.kResumed.
Proof. vm_compute. reflexivity. Qed.

Lemma world0_initial : initial world0.
Proof. by eexists _, _. Qed.

End Scenario.
