(* ===== verification/RuntimeSafety.v ===== *)
(** * Safety of the runtime

    Invariants of every run, proved on the abstract protocol and carried to the runtime
    by refinement: a committed preemption has all its evidence, and the runtime reaches
    [PREEMPTED] only through quiescence, durability and release, in this order. *)

From S2P Require Import Prelude Exec Identity Enums Lifecycle OrdMap Domains Interfaces Bytes PersistentState.
From S2P Require Import Store StoreTheorems Runtime Recovery RuntimeSpec ReferenceAdapters Scenario.
From stdpp Require Import base list numbers relations.
From Stdlib Require Import ZArith Lia.
Open Scope Z_scope.

(** ** Invariants of the abstract protocol *)

Section evidence.
Import LifecycleState.

(** A committed preemption carries all its evidence. *)
Definition committed (e : Evidence) : Prop :=
  Machine.is_preempted_durable_state (ev_state e) = true →
  ev_quiesced e = true ∧ ev_durable e = true ∧ ev_released e = true.

(** The phases entered after quiescence, after durability, and after release. *)
Definition after_release (s : LifecycleState) : bool :=
  match s with kResourcesReleased => true | s => Machine.is_preempted_durable_state s end.
Definition after_durability (s : LifecycleState) : bool :=
  match s with kStateDurable | kReleasePending | kReleasing => true | s => after_release s end.
Definition after_quiescence (s : LifecycleState) : bool :=
  match s with kQuiesced | kCaptureRequired | kCapturingState => true | s => after_durability s end.

(** Every phase carries the evidence of the phases before it. *)
Definition coherent (e : Evidence) : Prop :=
  (after_quiescence (ev_state e) = true → ev_quiesced e = true)
  ∧ (after_durability (ev_state e) = true → ev_durable e = true)
  ∧ (after_release (ev_state e) = true → ev_released e = true).

Lemma preempted_is_release_reached s :
  Machine.is_preempted_durable_state s = true → Store.is_release_reached s = true.
Proof. by destruct s. Qed.

(** Splits the conditions of an abstract step. *)
Ltac step_cases :=
  cbn in *;
  repeat match goal with H : _ ∨ _ |- _ => destruct H as [->|H] | H : ?s = _ |- _ => subst s end;
  cbn in *.

Lemma image_committed st : image_valid st → committed (image_evidence st).
Proof. intros (_ & Hv & _) Hp%preempted_is_release_reached. by apply Hv. Qed.

Lemma spec_step_committed op e e' : checked op → spec_step op e e' → committed e → committed e'.
Proof.
  intros Hop Hs He. destruct (is_recovery op) eqn:Hr.
  - destruct Hs; try done; apply image_committed.
    + by apply (installs_valid (ORestoreBytes bytes)).
    + by apply (installs_valid (ORestoreState st)).
  - unfold committed in *. destruct Hs; step_cases; try done; by intros _; apply He.
Qed.

Lemma spec_step_coherent op e e' : is_recovery op = false → spec_step op e e' → coherent e → coherent e'.
Proof.
  unfold coherent. intros Hop Hs (Hq & Hd & Hr).
  destruct Hs; step_cases; try done; by split_and!; intros ?; auto.
Qed.

(** No call enters [DEFERRED]. *)
Lemma spec_step_not_deferred op e e' :
  is_recovery op = false → spec_step op e e' → ev_state e ≠ kDeferred → ev_state e' ≠ kDeferred.
Proof. intros Hop Hs He. by destruct Hs. Qed.

(** ** Order of the phases *)

(** A set of states that is left only through [gate]. *)
Definition enters_only_through (S gate : LifecycleState → bool) : Prop :=
  ∀ op e e', is_recovery op = false → spec_step op e e' →
  S (ev_state e) = true → S (ev_state e') = true ∨ gate (ev_state e') = true.

Definition before_quiescence (s : LifecycleState) : bool := negb (after_quiescence s).
Definition before_durability (s : LifecycleState) : bool := negb (after_durability s).
Definition before_release (s : LifecycleState) : bool := negb (after_release s).

Ltac close_step :=
  intros op e e' Hop Hs; destruct Hs; unfold before_quiescence, before_durability, before_release;
  step_cases; first [done | auto].

Lemma quiescence_gate : enters_only_through before_quiescence (λ s, bool_decide (s = kQuiesced)).
Proof. close_step. Qed.
Lemma durability_gate :
  enters_only_through before_durability
    (λ s, bool_decide (s = kStateDurable) || bool_decide (s = kReleasePending)).
Proof. close_step. Qed.
Lemma release_gate : enters_only_through before_release (λ s, bool_decide (s = kResourcesReleased)).
Proof. close_step. Qed.

End evidence.

(** ** Runs *)

Section runs.
Context {A : Type} `{Adapters A}.
Implicit Types w : World A.
Import LifecycleState.

Abbreviation state_of w := (lifecycle_state (rt w)).

(** Calls other than the installation of a durable image. *)
Definition no_recovery (op : Op) : Prop := is_recovery op = false.
Lemma no_recovery_checked op : no_recovery op → checked op.
Proof. by destruct op. Qed.
(** Other clients may do anything to the adapters. *)
Definition any_env (_ _ : A) : Prop := True.

(** [run w ws w']: steps lead from [w] through the worlds [ws], ending in [w']. *)
Inductive run (allowed : Op → Prop) (env : A → A → Prop) : World A → list (World A) → World A → Prop :=
  | run_nil w : run allowed env w [] w
  | run_cons w w1 ws w' :
      step allowed env w w1 → run allowed env w1 ws w' → run allowed env w (w1 :: ws) w'.

(** The worlds a sequence of calls passes. *)
Fixpoint exec_trace (ops : list Op) (w : World A) : list (World A) :=
  match ops with
  | [] => []
  | op :: rest => let w1 := final (run_op op w) in w1 :: exec_trace rest w1
  end.

Lemma exec_trace_run allowed env ops w :
  Forall allowed ops → run allowed env w (exec_trace ops w) (exec_ops ops w).
Proof.
  revert w. induction ops as [|op ops IH]; intros w Hall; cbn; [constructor|].
  apply list.Forall_cons in Hall as [Hop Hall]. econstructor; [by apply step_op|]. by apply IH.
Qed.

Lemma step_spec allowed env w w' :
  step allowed env w w' →
  evidence (rt w') = evidence (rt w) ∨ ∃ op, allowed op ∧ spec_step op (evidence (rt w)) (evidence (rt w')).
Proof.
  intros [op w0 Hop|w0 a' _]; [right|by left]. exists op. split; [done|]. apply (refine_op op w0).
Qed.

(** Along a run out of a set, the gate is entered at some world. *)
Lemma run_gate env S gate w ws w' :
  enters_only_through S gate → run no_recovery env w ws w' →
  S (state_of w) = true → S (state_of w') = false →
  ∃ ws1 wg ws2, ws = ws1 ++ wg :: ws2 ∧ gate (state_of wg) = true
    ∧ run no_recovery env wg ws2 w' ∧ Forall (λ v, S (state_of v) = true) ws1.
Proof.
  intros Hgate Hrun. induction Hrun as [w|w w1 ws w' Hstep Hrun IH]; intros Hin Hout; [congruence|].
  assert (Hcase : S (state_of w1) = true ∨ gate (state_of w1) = true).
  { destruct (step_spec _ _ _ _ Hstep) as [E|(op & Hop & Hs)].
    - left. apply (f_equal ev_state) in E. cbn in E. by rewrite E.
    - by apply (Hgate op _ _ Hop Hs). }
  destruct Hcase as [Hin1|Hg].
  - destruct (IH Hin1 Hout) as (ws1 & wg & ws2 & -> & Hg & Hr & Hall).
    exists (w1 :: ws1), wg, ws2. split_and!; [done|done|done|]. by constructor.
  - exists [], w1, ws. split_and!; [done|done|done|constructor].
Qed.

(** An invariant of the abstract protocol holds in every reachable world. *)
Lemma reachable_evidence allowed (env : A → A → Prop) (P : Evidence → Prop) :
  P (mkEvidence kInvalid false false false) →
  (∀ op e e', allowed op → spec_step op e e' → P e → P e') →
  ∀ w, reachable allowed env w → P (evidence (rt w)).
Proof.
  intros Hinit Hstep. apply reachable_ind.
  - by intros w (epoch & policy & ->).
  - intros op w Hop. apply (Hstep op); [done|]. apply (refine_op op w).
  - done.
Qed.

Lemma reachable_coherent env w : reachable no_recovery env w → coherent (evidence (rt w)).
Proof.
  apply reachable_evidence; [done|]. intros op e e'. apply spec_step_coherent.
Qed.

Lemma reachable_committed allowed env w :
  (∀ op, allowed op → checked op) → reachable allowed env w → committed (evidence (rt w)).
Proof.
  intros Hall. apply reachable_evidence; [done|]. intros op e e' Hop. apply spec_step_committed. by apply Hall.
Qed.

End runs.

Module Safety.
Import LifecycleState.

Section safety.
Context {A : Type} `{Adapters A}.
Implicit Types w : World A.

(** C1: in every world that any interleaving of calls and adapter changes can reach, with
    recoveries from arbitrary bytes and calls of [restore] with states that pass
    [validate_state], an execution that counts as durably preempted was quiesced, has durable
    state and has released its resources. *)
Theorem preempted_has_evidence w :
  reachable checked any_env w → Machine.is_preempted_durable (machine_ (rt w)) = true →
  quiesced_ (rt w) = true ∧ state_durable_ (rt w) = true ∧ resources_released_ (rt w) = true.
Proof. by intros Hw%reachable_committed. Qed.

(** The condition on the states given to [restore] is needed: it installs a state that claims
    a durable preemption without evidence. *)
Theorem unchecked_restore_lacks_evidence epoch policy w :
  let st := (snapshot (new_runtime epoch policy)) <| ps_lifecycle := kPreempted |> in
  let w' := final (run_op (ORestoreState st) w) in
  Store.validate_state st ≠ PersistenceError.kOk
  ∧ Machine.is_preempted_durable (machine_ (rt w')) = true
  ∧ quiesced_ (rt w') = false ∧ state_durable_ (rt w') = false ∧ resources_released_ (rt w') = false.
Proof. done. Qed.

(** Without recovery, every phase carries the evidence of all the phases before it. *)
Theorem evidence_coherent w :
  reachable no_recovery any_env w → coherent (evidence (rt w)).
Proof.
  apply reachable_coherent.
Qed.

(** C2: in a run that installs no durable state (no [restore_bytes] and no [restore] of a
    state), whatever other calls and adapter changes are interleaved, the way from
    [ASSESSING] to [PREEMPTED] passes quiescence, then durable state, then released
    resources. *)
Theorem phases_in_order env w ws w' :
  run no_recovery env w ws w' →
  lifecycle_state (rt w) = kAssessing → lifecycle_state (rt w') = kPreempted →
  ∃ ws1 wq ws2 wd ws3 wr ws4,
    ws = ws1 ++ wq :: ws2 ++ wd :: ws3 ++ wr :: ws4
    ∧ lifecycle_state (rt wq) = kQuiesced
    ∧ (lifecycle_state (rt wd) = kStateDurable ∨ lifecycle_state (rt wd) = kReleasePending)
    ∧ lifecycle_state (rt wr) = kResourcesReleased.
Proof.
  intros Hrun Hw Hw'.
  destruct (run_gate _ _ _ _ _ _ quiescence_gate Hrun) as (ws1 & wq & ws2 & -> & Hq & Hrun2 & _);
    [by rewrite Hw|by rewrite Hw'|].
  apply bool_decide_eq_true in Hq.
  destruct (run_gate _ _ _ _ _ _ durability_gate Hrun2) as (ws3 & wd & ws4 & -> & Hd & Hrun3 & _);
    [by rewrite Hq|by rewrite Hw'|].
  apply orb_prop in Hd as Hd'.
  destruct (run_gate _ _ _ _ _ _ release_gate Hrun3) as (ws5 & wr & ws6 & -> & Hr & _ & _).
  { destruct Hd' as [E|E]; apply bool_decide_eq_true in E; by rewrite E. }
  { by rewrite Hw'. }
  apply bool_decide_eq_true in Hr.
  exists ws1, wq, ws3, wd, ws5, wr, ws6. split_and!; [done|done| |done].
  destruct Hd' as [E|E]; apply bool_decide_eq_true in E; auto.
Qed.

(** C3: each call of the runtime, on any state and whatever its adapters answer, takes one of
    the steps the abstract protocol has for that call, or changes no evidence where the
    protocol lets that call do so: a start and a [restore] of a state always take their step,
    a cancellation unless the lifecycle is over, a completion unless it is ignored, and
    [restore_bytes] installs the decoded state unless the bytes do not decode. *)
Theorem runtime_refines_protocol op w :
  spec_step op (evidence (rt w)) (evidence (rt (final (run_op op w)))).
Proof. apply (refine_op op w). Qed.

End safety.

Lemma preempted_has_evidence_witness :
  quiesced_ (rt Scenario.preempted) = true ∧ state_durable_ (rt Scenario.preempted) = true
  ∧ resources_released_ (rt Scenario.preempted) = true.
Proof.
  apply (preempted_has_evidence Scenario.preempted).
  - apply exec_ops_reachable; [apply Scenario.world0_initial|by repeat constructor].
  - vm_compute. reflexivity.
Defined.

Lemma evidence_coherent_witness : coherent (evidence (rt Scenario.preempted)).
Proof.
  apply (evidence_coherent Scenario.preempted).
  apply exec_ops_reachable; [apply Scenario.world0_initial|by repeat constructor].
Defined.

Lemma phases_in_order_witness :
  ∃ wq wd wr : World ReferenceAdapters,
    lifecycle_state (rt wq) = kQuiesced
    ∧ (lifecycle_state (rt wd) = kStateDurable ∨ lifecycle_state (rt wd) = kReleasePending)
    ∧ lifecycle_state (rt wr) = kResourcesReleased.
Proof.
  destruct (phases_in_order any_env Scenario.requested _ _
    (exec_trace_run no_recovery any_env Scenario.preempt_ops Scenario.requested
       ltac:(by repeat constructor)))
    as (? & wq & ? & wd & ? & wr & ? & _ & Hq & Hd & Hr);
    [vm_compute; reflexivity|vm_compute; reflexivity|].
  exists wq, wd, wr. split; [exact Hq|]. split; [exact Hd|exact Hr].
Defined.

End Safety.
