(* ===== verification/RuntimeErrors.v ===== *)
(** * Exceptions of the runtime

    When a call throws, and what it leaves behind. *)

From S2P Require Import Prelude Exec Identity Enums Lifecycle OrdMap Domains Interfaces Bytes PersistentState.
From S2P Require Import Store Runtime Recovery RuntimeSpec ReferenceAdapters Scenario RuntimeSafety.
From stdpp Require Import base list strings numbers.
From Stdlib Require Import ZArith Lia.
Open Scope Z_scope.

Section errors.
Context {A : Type} `{Adapters A}.
Implicit Types w : World A.
Import LifecycleState.

(** The calls that throw. *)
Definition throws (op : Op) (w : World A) : bool :=
  match op with
  | OReachSafePoint id _ _ => negb (bool_decide (is_Some (omap.find id (safe_points_ (rt w)))))
  | OBeginQuiesce => bool_decide (lifecycle_state (rt w) = kDeferred) && at_valid_safe_point (rt w)
  | _ => false
  end.

Definition outcome_ok (op : Op) w (r : PreemptionError + unit) (w' : World A) : Prop :=
  match r with
  | inl _ => throws op w = true ∧ w' = w
  | inr _ => throws op w = false
  end.

Lemma wp_outcome_inr {B} op w (m : Exec (World A) B) :
  throws op w = false → wp m w (λ r _, ∃ x, r = inr x) →
  wp (void m) w (outcome_ok op w).
Proof.
  intros Ht Hm. apply wp_bind. eapply wp_mono; [exact Hm|]. cbn. by intros r w' [x ->].
Qed.

(** A call none of whose paths throws. *)
Ltac no_throw := wp_run; prune; eauto.

Lemma run_op_outcome op w : wp (run_op op) w (outcome_ok op w).
Proof.
  destruct op; cbn [run_op];
    try (apply wp_outcome_inr; [done|]); unfold outcome_ok; cbn [throws].
  - unfold start_execution. no_throw.
  - unfold declare_safe_point. no_throw.
  - unfold reach_safe_point. apply wp_bind, wp_get. destruct (omap.find id _) eqn:E.
    + rewrite bool_decide_eq_true_2 by eauto. no_throw.
    + rewrite bool_decide_eq_false_2 by (by intros [? ?]). by apply wp_throw.
  - unfold publish_progress. no_throw.
  - unfold request_preemption. no_throw.
  - unfold begin_quiesce. wp_run; prune; rewrite ?bool_decide_eq_false_2 by congruence;
      rewrite ?bool_decide_eq_true_2 by congruence; auto.
  - unfold report_quiesced. no_throw.
  - unfold request_state_capture. no_throw.
  - unfold report_state_captured. no_throw.
  - unfold request_release. no_throw.
  - unfold report_released. no_throw.
  - unfold commit_preempted. no_throw.
  - unfold request_resume. no_throw.
  - unfold revalidate. no_throw.
  - unfold restore. no_throw.
  - unfold confirm_resumed. no_throw.
  - unfold Runtime.cancel. no_throw.
  - unfold complete. no_throw.
  - unfold set_worker_incarnation. no_throw.
  - unfold set_priority_generation. no_throw.
  - unfold restore_bytes. destruct (Store.decode bytes); [no_throw|]. unfold restore_state. no_throw.
  - unfold restore_state. no_throw.
Qed.

End errors.

Module Errors.
Import LifecycleState.

Section theorems.
Context {A : Type} `{Adapters A}.
Implicit Types w : World A.

(** C23: a call throws exactly when it names an unknown safe point, or starts quiescing in
    [DEFERRED] at a valid safe point; and a call that throws has changed nothing. *)
Theorem throws_exactly op w :
  (threw (run_op op w) ↔ throws op w = true)
  ∧ (threw (run_op op w) → final (run_op op w) = w).
Proof.
  pose proof (run_op_outcome op w) as Hout. unfold wp in Hout. unfold threw, final.
  destruct (run_op op w) as [[e|[]] w']; cbn in *.
  - destruct Hout as [Ht ->]. split; [|done]. split; eauto.
  - split; [|by intros [? ?]]. split; [by intros [? ?]|congruence].
Qed.

(** C24: without recovery no call ever throws in a reachable world, except
    [reach_safe_point] on an identifier that was not declared. *)
Theorem reachable_no_throw op w :
  reachable no_recovery any_env w → threw (run_op op w) →
  ∃ id position capture_required, op = OReachSafePoint id position capture_required
    ∧ omap.find id (safe_points_ (rt w)) = None.
Proof.
  intros Hw Hthrew. pose proof (run_op_outcome op w) as Hout. unfold wp in Hout.
  destruct Hthrew as [e He]. rewrite He in Hout. destruct Hout as [Ht _].
  assert (Hnd : lifecycle_state (rt w) ≠ kDeferred).
  { apply (reachable_evidence _ _ (λ e, ev_state e ≠ kDeferred)) with (w := w) in Hw; [exact Hw|done|].
    intros op' e1 e2. apply spec_step_not_deferred. }
  destruct op; try done; cbn in Ht; [|by rewrite bool_decide_eq_false_2 in Ht].
  bool_props. eexists _, _, _. split; [done|].
  by apply eq_None_not_Some.
Qed.

End theorems.

Lemma reachable_no_throw_witness :
  omap.find (mkId 2) (safe_points_ (rt Scenario.started)) = None.
Proof.
  destruct (reachable_no_throw (OReachSafePoint (mkId 2) 700 true) Scenario.started)
    as (id & p & c & Heq & Hfind).
  - apply exec_ops_reachable; [apply Scenario.world0_initial|by repeat constructor].
  - eexists. vm_compute. reflexivity.
  - injection Heq as -> _ _. exact Hfind.
Defined.

End Errors.
