(* ===== verification/RuntimeRequests.v ===== *)
(** * Admission of preemption requests

    [request_preemption] as a decision on validity, authority and the active request, and
    the exclusiveness of an admitted request. *)

From S2P Require Import Prelude Exec Identity Enums Lifecycle OrdMap Domains Interfaces Bytes PersistentState.
From S2P Require Import Store Runtime Recovery RuntimeSpec ReferenceAdapters Scenario RuntimeSafety.
From stdpp Require Import base list strings numbers relations.
From Stdlib Require Import ZArith Lia.
Open Scope Z_scope.

(** The request names the current scope of authority. *)
Definition authorized (r : PreemptionRuntime) (req : PreemptionRequest) : Prop :=
  req_coordinator_epoch req = epoch_ r
  ∧ req_execution_id req = execution_id_ r ∧ req_attempt_id req = attempt_id_ r
  ∧ req_execution_generation req = execution_generation_ r
  ∧ req_attempt_generation req = attempt_generation_ r
  ∧ (req_worker_boot_id req = default_id ∨ req_worker_boot_id req = worker_boot_ r).

Definition identified (req : PreemptionRequest) : Prop :=
  req_id req ≠ default_id ∧ req_generation req ≠ default_gen.

Definition same_request (q req : PreemptionRequest) : Prop :=
  req_id q = req_id req ∧ req_generation q = req_generation req.
#[export] Instance same_request_dec q req : Decision (same_request q req).
Proof. unfold same_request. apply _. Defined.

Lemma valid_id {d} (x : Id d) : is_valid x = true ↔ x ≠ default_id.
Proof.
  rewrite is_valid_spec. split; intros Hx Heq; apply Hx; [by rewrite Heq|].
  by apply (value_inj x default_id).
Qed.
Lemma valid_gen {d} (x : Generation d) : is_valid x = true ↔ x ≠ default_gen.
Proof.
  rewrite is_valid_spec. split; intros Hx Heq; apply Hx; [by rewrite Heq|].
  by apply (value_inj x default_gen).
Qed.

Lemma validate_authority_spec r req : validate_authority r req = true ↔ authorized r req.
Proof.
  unfold validate_authority, authorized.
  assert (Hb : req_worker_boot_id req = default_id ↔ is_valid (req_worker_boot_id req) = false).
  { rewrite <- not_true_iff_false, valid_id. split; [tauto|].
    destruct (decide (req_worker_boot_id req = default_id)); tauto. }
  rewrite Hb. destruct (is_valid (req_worker_boot_id req)); cbn;
    repeat case_bool_decide; cbn; intuition congruence.
Qed.

Section requests.
Context {A : Type} `{Adapters A}.
Implicit Types w : World A.
Import RequestAdmissionCode.

(** The world an admitted request leaves. *)
Definition admitted (req : PreemptionRequest) (w : World A) : World A :=
  go LifecycleState.kAssessing
    (w <| rt := (rt w) <| active_request_ := Some req |>
                       <| authoritative_request_generation_ := req_generation req |> |>).

(** The code the specification assigns to a request. *)
Definition admission_code_spec (req : PreemptionRequest) (r : PreemptionRuntime)
    (code : RequestAdmissionCode) : Prop :=
  match code with
  | kRejectedInvalid => ¬ identified req
  | kRejectedStale => identified req ∧ ¬ authorized r req
  | kIdempotentDuplicate =>
      identified req ∧ authorized r req ∧ ∃ q, active_request_ r = Some q ∧ same_request q req
  | kConflictingDuplicate =>
      identified req ∧ authorized r req ∧ ∃ q, active_request_ r = Some q ∧ ¬ same_request q req
  | kAccepted => identified req ∧ authorized r req ∧ active_request_ r = None
  | kInvalid => False
  end.

Lemma request_preemption_outcome req w :
  wp (request_preemption req) w (λ res w', ∃ adm, res = inr adm
    ∧ admission_code_spec req (rt w) (adm_code adm)
    ∧ w' = match adm_code adm with kAccepted => admitted req w | _ => w end).
Proof.
  unfold request_preemption.
  assert (Hid : negb (is_valid (req_id req)) || negb (is_valid (req_generation req)) = false
                ↔ identified req).
  { unfold identified. rewrite orb_false_iff, !negb_false_iff, valid_id, valid_gen. done. }
  pose proof (validate_authority_spec (rt w) req) as Hau.
  wp_run.
  - eexists. split_and!; [done| |done]. cbn. rewrite <- Hid. congruence.
  - eexists. split_and!; [done| |done]. cbn. rewrite <- Hid, <- Hau. split; [done|].
    bool_props. congruence.
  - eexists. split_and!; [done| |done]. cbn. rewrite <- Hid, <- Hau. split_and!; [done|by bool_props|].
    unfold request_matches_current in *. destruct (active_request_ (rt w)); [|done]. bool_props.
    eexists. split; [done|]. simplify_eq. by split.
  - eexists. split_and!; [done| |done]. cbn. rewrite <- Hid, <- Hau. split_and!; [done|by bool_props|].
    unfold request_matches_current in *. destruct (active_request_ (rt w)); [|done].
    eexists. split; [done|]. unfold same_request. intros [E1 E2]. simplify_eq.
    rewrite !bool_decide_eq_true_2 in * by done. done.
  - eexists. split_and!; [done| |done]. cbn. rewrite <- Hid, <- Hau. split_and!; [done|by bool_props|done].
  - prune.
  - prune.
Qed.

(** Calls that neither start an execution nor install an image. *)
Definition same_execution (op : Op) : Prop :=
  match op with OStart _ _ _ _ _ _ _ _ | ORestoreBytes _ | ORestoreState _ => False | _ => True end.

Lemma active_request_kept op w q :
  same_execution op → active_request_ (rt w) = Some q →
  wp (run_op op) w (λ _ w', active_request_ (rt w') = Some q).
Proof.
  intros Hop Hq. run_every_op op; try done; congruence.
Qed.

End requests.

Module Requests.
Import RequestAdmissionCode.

Section theorems.
Context {A : Type} `{Adapters A}.
Implicit Types w : World A.

(** C25: [request_preemption] answers with the one code its specification assigns to the
    request: invalid, stale, idempotent duplicate, conflicting duplicate or accepted.  Only
    an accepted request changes anything, and it leaves the runtime in [ASSESSING]. *)
Theorem request_preemption_spec req w :
  ∃ adm, request_preemption req w
      = (inr adm, match adm_code adm with kAccepted => admitted req w | _ => w end)
    ∧ ∀ code, admission_code_spec req (rt w) code ↔ code = adm_code adm.
Proof.
  pose proof (request_preemption_outcome req w) as Hout. unfold wp in Hout.
  destruct (request_preemption req w) as [res w'].
  destruct Hout as (adm & Hres & Hcode & Hw'). cbn in Hres, Hw'. subst res w'.
  exists adm. split; [done|]. intros code. split; [|by intros ->].
  destruct (adm_code adm), code; cbn in *; try done; try tauto;
    intros Hspec; destruct_and?; repeat match goal with H : ∃ _, _ |- _ => destruct H as (? & ? & ?) end;
    simplify_eq; tauto || congruence.
Qed.

(** C26: once a request is active, it stays the active request and no other request is
    accepted, whatever calls and adapter changes follow, until an execution is started or an
    image or a state is restored. *)
Theorem admitted_request_exclusive env w w' q req adm w'' :
  active_request_ (rt w) = Some q → rtc (step same_execution env) w w' →
  request_preemption req w' = (inr adm, w'') →
  active_request_ (rt w') = Some q ∧ adm_code adm ≠ kAccepted ∧ w'' = w'.
Proof.
  intros Hq Hrtc Hreq.
  assert (Hq' : active_request_ (rt w') = Some q).
  { clear Hreq. induction Hrtc as [w|w1 w2 w3 Hstep _ IH]; [done|]. apply IH.
    destruct Hstep as [op w1 Hop|w1 a' _]; [|done]. by apply (active_request_kept op w1 q). }
  pose proof (request_preemption_outcome req w') as Hout. unfold wp in Hout. rewrite Hreq in Hout.
  destruct Hout as (adm' & Heq & Hcode & Hw). cbn in Heq, Hw. injection Heq as <-.
  assert (Hne : adm_code adm ≠ kAccepted).
  { intros E. rewrite E in Hcode. destruct Hcode as (_ & _ & Hnone). congruence. }
  split_and!; [done|done|]. rewrite Hw. by destruct (adm_code adm).
Qed.

End theorems.

Lemma admitted_request_exclusive_witness :
  active_request_ (rt Scenario.preempted) = Some Scenario.request.
Proof.
  refine (proj1 (admitted_request_exclusive any_env Scenario.requested Scenario.preempted
    Scenario.request Scenario.request (mkRequestAdmission kIdempotentDuplicate (mkId 100) (mkGeneration 1))
    Scenario.preempted _ _ _)).
  - vm_compute. reflexivity.
  - unfold Scenario.preempted. rewrite exec_ops_app. apply exec_ops_rtc. by repeat constructor.
  - vm_compute. reflexivity.
Defined.

End Requests.
