(* ===== verification/RuntimeProgress.v ===== *)
(** * Progress, plans and evidence queries

    Positions never move backward and the durable one never overtakes the current one;
    the plan and the classifications derived from them. *)

From S2P Require Import Prelude Exec Identity Enums Lifecycle OrdMap Domains Interfaces Bytes PersistentState.
From S2P Require Import Store StoreTheorems Priority Runtime Recovery RuntimeSpec ReferenceAdapters.
From S2P Require Import Scenario RuntimeSafety RuntimeRequests.
From stdpp Require Import base list strings numbers.
From Stdlib Require Import ZArith Lia.
Open Scope Z_scope.

Section progress.
Context {A : Type} `{Adapters A}.
Implicit Types w : World A.

Definition progress_ok (r : PreemptionRuntime) : Prop := durable_position_ r ≤ current_position_ r.

(** Neither position decreases. *)
Definition progress_grows (r r' : PreemptionRuntime) : Prop :=
  durable_position_ r ≤ durable_position_ r' ∧ current_position_ r ≤ current_position_ r'.

Lemma op_progress op w :
  no_recovery op → progress_ok (rt w) →
  wp (run_op op) w (λ _ w', progress_grows (rt w) (rt w') ∧ progress_ok (rt w')).
Proof.
  intros Hop Hok. unfold progress_ok, progress_grows in *.
  run_every_op op; try done; lia.
Qed.

Lemma restore_members_positions st r :
  durable_position_ (restore_members st r) = ps_durable_progress st
  ∧ current_position_ (restore_members st r) = ps_durable_progress st.
Proof. unfold restore_members. by destruct (is_valid (ps_request_id st)). Qed.

Lemma reachable_progress_ok allowed env w : reachable allowed env w → progress_ok (rt w).
Proof.
  apply (reachable_ind allowed env (λ w, progress_ok (rt w))).
  - intros w0 (epoch & policy & ->). unfold progress_ok. cbn. lia.
  - intros op w0 _ Hok. destruct (is_recovery op) eqn:Hr; [|by apply (op_progress op w0)].
    apply (wp_recovery op w0 (λ w, progress_ok (rt w))); [done|done|]. intros st _.
    unfold progress_ok. rewrite rt_restore_state.
    destruct (restore_members_positions st (rt w0)) as [-> ->]. lia.
  - done.
Qed.

End progress.

(** The classification leaves the positions of the plan alone. *)
Lemma classify_plan r plan :
  let plan' := (classify r plan).1.2 in
  plan_last_durable_progress plan' = plan_last_durable_progress plan
  ∧ plan_current_position plan' = plan_current_position plan
  ∧ plan_max_rollback plan' = plan_max_rollback plan
  ∧ plan_release_before_preempted plan' = plan_release_before_preempted plan.
Proof.
  unfold classify. destruct (if at_valid_safe_point r then _ else _) as [sp|].
  - by destruct (sp_state_capture_required sp).
  - destruct (safe_points_ r) as [|[first sp] rest]; [|done]. by destruct (_ || _).
Qed.

Module Progress.

Section theorems.
Context {A : Type} `{Adapters A}.
Implicit Types w : World A.

(** C27: in every reachable world, recoveries and restored states included, durable progress
    is at most the current position, and apart from these no call ever moves either position
    backward. *)
Theorem progress_monotone w op :
  reachable (λ _, True) any_env w →
  progress_ok (rt w) ∧ (no_recovery op → progress_grows (rt w) (rt (final (run_op op w)))).
Proof.
  intros Hw. assert (Hok : progress_ok (rt w)) by (by eapply reachable_progress_ok).
  split; [done|]. intros Hop. by apply (op_progress op w Hop Hok).
Qed.

(** [publish_progress] accepts a position exactly when the attempt is authoritative, its
    worker boot is the current one and the position is not behind the durable one; a
    rejected call changes nothing, an accepted durable one sets the durable position. *)
Theorem publish_progress_spec position kind w :
  let r := rt w in
  let auth := current_attempt_authority (ad w) (execution_id_ r) (attempt_id_ r) in
  let ok := aav_authoritative auth && bool_decide (aav_worker_boot_id auth = worker_boot_ r)
              && (durable_position_ r <=? position) in
  let '(res, w') := publish_progress position kind w in
  res = inr ok
  ∧ (ok = false → w' = w)
  ∧ (ok = true → ad w' = ad w ∧ current_position_ (rt w') = Z.max (current_position_ r) position
     ∧ durable_position_ (rt w')
       = (if bool_decide (kind = ProgressKind.kDurable) then position else durable_position_ r)
     ∧ progress_generation_ (rt w') = Generation_next (progress_generation_ r)).
Proof.
  intros r auth ok.
  assert (Hwp : wp (publish_progress position kind) w (λ res w',
    res = inr ok ∧ (ok = false → w' = w)
    ∧ (ok = true → ad w' = ad w ∧ current_position_ (rt w') = Z.max (current_position_ r) position
       ∧ durable_position_ (rt w')
         = (if bool_decide (kind = ProgressKind.kDurable) then position else durable_position_ r)
       ∧ progress_generation_ (rt w') = Generation_next (progress_generation_ r)))).
  { unfold publish_progress, ok, auth, r. wp_run; fields.
    - by destruct (aav_authoritative _), (bool_decide _).
    - rewrite (proj2 (Z.leb_gt _ _)) by (by apply Z.ltb_lt). by rewrite andb_false_r.
    - match goal with H : negb _ || negb _ = false |- _ =>
        apply orb_false_iff in H as [->%negb_false_iff ->%negb_false_iff] end.
      bool_props. rewrite bool_decide_eq_true_2 by done. by rewrite (proj2 (Z.leb_le _ _)) by done.
    - match goal with H : negb _ || negb _ = false |- _ =>
        apply orb_false_iff in H as [->%negb_false_iff ->%negb_false_iff] end.
      match goal with H : (position <? _) = false |- _ => apply Z.ltb_ge, Z.leb_le in H; rewrite H in * end.
      rewrite andb_true_r in *. bool_props. by rewrite bool_decide_eq_false_2 by done. }
  unfold wp in Hwp. by destruct (publish_progress position kind w).
Qed.

(** C31: the plan of [assess] states the exact rollback: in a reachable world the maximal
    rollback is the distance from the durable to the current position, and every resource
    of the current contract is listed for release. *)
Theorem assess_plan_exact w :
  reachable (λ _, True) any_env w →
  let plan := as_plan (assess w) in
  plan_last_durable_progress plan + plan_max_rollback plan = plan_current_position plan
  ∧ plan_last_durable_progress plan = durable_position_ (rt w)
  ∧ plan_current_position plan = current_position_ (rt w)
  ∧ plan_resources_to_release plan
    = lease_resource <$> contract_leases (current_contract (ad w) (execution_id_ (rt w)))
  ∧ plan_release_before_preempted plan = true.
Proof.
  intros Hw. assert (Hok : progress_ok (rt w)) by (by eapply reachable_progress_ok).
  unfold progress_ok in Hok. unfold assess.
  pose proof (classify_plan (rt w) (initial_plan (rt w))) as Hplan.
  destruct (classify (rt w) (initial_plan (rt w))) as [[c plan] why]. cbn in Hplan.
  destruct Hplan as (E1 & E2 & E3 & E4).
  destruct (Z.ltb_spec (durable_position_ (rt w)) (current_position_ (rt w)));
    destruct (contract_leases _); cbn; rewrite ?E1, ?E2, ?E3, ?E4; split_and!; try done; lia.
Qed.

(** [assess] claims that the execution can be preempted only on evidence: a valid
    current safe point, a declared one, or a phase in which it is already quiesced. *)
Theorem assess_needs_boundary w :
  as_preemptibility (assess w) ≠ PreemptibilityClass.kUnknown ↔
  at_valid_safe_point (rt w) = true ∨ safe_points_ (rt w) ≠ []
  ∨ lifecycle_state (rt w) = LifecycleState.kQuiesced
  ∨ lifecycle_state (rt w) = LifecycleState.kStateDurable
  ∨ lifecycle_state (rt w) = LifecycleState.kReleasePending.
Proof.
  unfold assess, classify, at_valid_safe_point. destruct (current_safe_point_ (rt w)) as [sp|].
  - destruct (bool_decide (sp_state sp = SafePointState.kValid)).
    { destruct (sp_state_capture_required sp); cbn; split; auto; done. }
    destruct (safe_points_ (rt w)) as [|[first sp'] rest]; cbn; [|split; [auto|done]].
    repeat case_bool_decide; cbn; intuition congruence.
  - destruct (safe_points_ (rt w)) as [|[first sp'] rest]; cbn; [|split; [auto|done]].
    repeat case_bool_decide; cbn; intuition congruence.
Qed.

(** A priority-inversion assessment recommends preemption exactly when the facts are
    valid and current, the holder is authoritative and concretely preemptible, and their
    provenance is known; unknown preemptibility never leads to a recommendation. *)
Theorem inversion_recommendation w input :
  positive_recommendation (priority_inversion_assessment w input) = true ↔
  pii_resource input ≠ ResourceClass.kInvalid
  ∧ pii_holder_workload input ≠ default_id ∧ pii_blocked_workload input ≠ default_id
  ∧ pii_policy_generation input = policy_generation_ (rt w)
  ∧ pii_priority_generation input ≠ default_gen
  ∧ pii_priority_generation input = priority_generation_ (rt w)
  ∧ pii_holder_authoritative input = true
  ∧ is_concretely_preemptible (pii_holder_preemptibility input) = true
  ∧ pii_provenance input ≠ EvidenceKind.kUnknown.
Proof.
  assert (Hu : is_concretely_preemptible (pii_holder_preemptibility input) = true →
               is_unknown_preemptibility (pii_holder_preemptibility input) = false)
    by (by destruct (pii_holder_preemptibility input)).
  rewrite <- !valid_id, <- valid_gen.
  unfold positive_recommendation, priority_inversion_assessment.
  case_bool_decide as Hres; cbn; [intuition congruence|].
  destruct (is_valid (pii_holder_workload input)); cbn; [|intuition congruence].
  destruct (is_valid (pii_blocked_workload input)); cbn; [|intuition congruence].
  case_bool_decide as Hpol; cbn; [|intuition congruence].
  destruct (is_valid (pii_priority_generation input)); cbn; [|intuition congruence].
  case_bool_decide as Hpri; cbn; [|intuition congruence].
  destruct (pii_holder_authoritative input); cbn; [|repeat case_bool_decide; cbn; intuition congruence].
  destruct (is_concretely_preemptible _).
  - rewrite Hu by done. cbn. repeat case_bool_decide; cbn; intuition congruence.
  - destruct (is_unknown_preemptibility _); cbn; repeat case_bool_decide; cbn; intuition congruence.
Qed.

(** A destination is reported compatible exactly when the preempted state is durable and
    bound to a checkpoint, the destination is current and compatible, the resume dependency
    is neither stale nor missing and the resource contract is valid. *)
Theorem migration_compatible_iff w dst :
  mc_outcome (evaluate_migration_destination w dst) = MigrationCompatibilityOutcome.kCompatible ↔
  Machine.is_preempted_durable (machine_ (rt w)) = true ∧ state_durable_ (rt w) = true
  ∧ checkpoint_ref_ (rt w) ≠ default_id ∧ checkpoint_generation_ (rt w) ≠ default_gen
  ∧ capability_generation_current (ad w) dst = true ∧ capability_is_compatible (ad w) dst = true
  ∧ dep_status (resume_dependencies (ad w) (execution_id_ (rt w))) ≠ DependencyStatus.kStale
  ∧ dep_status (resume_dependencies (ad w) (execution_id_ (rt w))) ≠ DependencyStatus.kMissing
  ∧ contract_generation (current_contract (ad w) (execution_id_ (rt w))) ≠ default_gen.
Proof.
  rewrite <- valid_id, <- !valid_gen. unfold evaluate_migration_destination, dependency_blocked.
  destruct (Machine.is_preempted_durable _), (state_durable_ _), (is_valid (checkpoint_ref_ _)),
    (is_valid (checkpoint_generation_ _)), (capability_generation_current _ _),
    (capability_is_compatible _ _); cbn; repeat case_bool_decide; cbn;
    destruct (is_valid (contract_generation _)); cbn; intuition congruence.
Qed.

End theorems.

Lemma progress_monotone_witness :
  durable_position_ (rt Scenario.preempted) ≤ current_position_ (rt Scenario.preempted).
Proof.
  refine (proj1 (progress_monotone Scenario.preempted OCancel _)).
  apply exec_ops_reachable; [apply Scenario.world0_initial|by repeat constructor].
Defined.

Lemma assess_plan_exact_witness :
  plan_last_durable_progress (as_plan (assess Scenario.requested))
    + plan_max_rollback (as_plan (assess Scenario.requested)) = 640.
Proof.
  destruct (assess_plan_exact Scenario.requested) as [E [_ [Ec _]]].
  - apply exec_ops_reachable; [apply Scenario.world0_initial|by repeat constructor].
  - rewrite E, Ec. vm_compute. reflexivity.
Defined.

End Progress.
