(* ===== verification/RuntimeAuthority.v ===== *)
(** * Authority of the attempt

    Against the laws of the execution fabric: an attempt that was preempted stays fenced
    until [confirm_resumed] obtains fresh authority, and the fresh authority is a newer
    attempt generation bound to the current worker boot. *)

From S2P Require Import Prelude Exec Identity Enums Lifecycle OrdMap Domains Interfaces ReferenceAdapters.
From S2P Require Import Bytes PersistentState Store Runtime Recovery RuntimeSpec Scenario RuntimeSafety.
From stdpp Require Import base list strings numbers relations.
From Stdlib Require Import ZArith Lia.
Open Scope Z_scope.

Section authority.
Context {A : Type} `{Adapters A} `{!ExecutionFabricLaws A}.
Implicit Types w : World A.
Import LifecycleState.

(** The authority view of the runtime's own attempt. *)
Definition own_authority w : AttemptAuthorityView :=
  current_attempt_authority (ad w) (execution_id_ (rt w)) (attempt_id_ (rt w)).

(** The phases from the commit of a preemption until its resume is confirmed. *)
Definition fenced_phase (s : LifecycleState) : bool :=
  match s with
  | kPreempted | kResumePending | kRevalidating | kRestoring | kResumeReady => true
  | _ => false
  end.

Definition fenced w : Prop :=
  fenced_phase (lifecycle_state (rt w)) = true → aav_authoritative (own_authority w) = false.

(** Other clients do not hand out authority. *)
Definition no_grant (a a' : A) : Prop :=
  ∀ e at_, aav_authoritative (current_attempt_authority a e at_) = false →
           aav_authoritative (current_attempt_authority a' e at_) = false.

Lemma release_leases_authority e g leases (a : A) e' at_ :
  current_attempt_authority (release_leases e g leases a) e' at_ = current_attempt_authority a e' at_.
Proof.
  unfold release_leases. revert a. induction leases as [|l leases IH]; intros a; cbn; [done|].
  by rewrite IH, release_keeps_authority.
Qed.

Lemma op_fenced op w : no_recovery op → fenced w → wp (run_op op) w (λ _ w', fenced w').
Proof.
  intros Hop Hf. unfold fenced, own_authority in *.
  run_every_op op; try done; try (intros _; by apply Hf); intros _.
  - apply fence_revokes.
  - rewrite restore_keeps_authority. by apply Hf.
  - pose proof (grant_is_current (ad w) (execution_id_ (rt w)) (attempt_id_ (rt w))
      (execution_generation_ (rt w)) (worker_boot_ (rt w))) as Hg.
    destruct (grant_fresh_attempt_authority _ _ _ _ _) as [v a']. cbn in *. by rewrite Hg.
Qed.

Lemma reachable_fenced w : reachable no_recovery no_grant w → fenced w.
Proof.
  apply reachable_ind.
  - intros w0 (epoch & policy & Hrt). unfold fenced. by rewrite Hrt.
  - intros op w0 Hop Hf. by apply (op_fenced op w0).
  - intros w0 a' Henv Hf. unfold fenced, own_authority in *. cbn. intros Hp. by apply Henv, Hf.
Qed.

End authority.

Module Authority.
Import LifecycleState.

Section theorems.
Context {A : Type} `{Adapters A} `{!ExecutionFabricLaws A}.
Implicit Types w : World A.

(** C4: from the commit of a preemption until its resume is confirmed, the attempt holds no
    authority: every progress report is rejected and changes nothing.  This holds for any
    execution fabric that satisfies its laws, in runs without recovery in which no other
    client hands out authority. *)
Theorem preempted_attempt_fenced w position kind :
  reachable no_recovery no_grant w → fenced_phase (lifecycle_state (rt w)) = true →
  publish_progress position kind w = (inr false, w).
Proof.
  intros Hw Hp. apply reachable_fenced in Hw. specialize (Hw Hp). unfold own_authority in Hw.
  unfold publish_progress, get, mbind, Exec_bind. by rewrite Hw.
Qed.

(** C29: [confirm_resumed] reports success only with fresh authority: the attempt is
    authoritative again for the current worker boot, under the next attempt generation,
    and the lifecycle is [RESUMED]; the runtime's own [attempt_generation_] stays that of the
    preempted attempt; a run that does not succeed leaves the members as they were. *)
Theorem confirm_resumed_fresh w res w' :
  confirm_resumed w = (inr res, w') →
  (pr_outcome res = PreemptionOutcome.kSafePreemptionCompleted →
     (lifecycle_state (rt w) = kResumeReady ∨ lifecycle_state (rt w) = kResuming)
     ∧ lifecycle_state (rt w') = kResumed
     ∧ aav_authoritative (own_authority w') = true
     ∧ aav_worker_boot_id (own_authority w') = worker_boot_ (rt w')
     ∧ aav_attempt_generation (own_authority w')
       = Generation_next (aav_attempt_generation (own_authority w))
     ∧ attempt_generation_ (rt w') = attempt_generation_ (rt w))
  ∧ (pr_outcome res ≠ PreemptionOutcome.kSafePreemptionCompleted → rt w' = rt w).
Proof.
  assert (Hwp : wp confirm_resumed w (λ r w', ∀ res, r = inr res →
    (pr_outcome res = PreemptionOutcome.kSafePreemptionCompleted →
       (lifecycle_state (rt w) = kResumeReady ∨ lifecycle_state (rt w) = kResuming)
       ∧ lifecycle_state (rt w') = kResumed
       ∧ aav_authoritative (own_authority w') = true
       ∧ aav_worker_boot_id (own_authority w') = worker_boot_ (rt w')
       ∧ aav_attempt_generation (own_authority w')
         = Generation_next (aav_attempt_generation (own_authority w))
     ∧ attempt_generation_ (rt w') = attempt_generation_ (rt w))
    ∧ (pr_outcome res ≠ PreemptionOutcome.kSafePreemptionCompleted → rt w' = rt w))).
  { pose proof (grant_is_current (ad w) (execution_id_ (rt w)) (attempt_id_ (rt w))
      (execution_generation_ (rt w)) (worker_boot_ (rt w))) as Hcur.
    pose proof (grant_is_fresh (ad w) (execution_id_ (rt w)) (attempt_id_ (rt w))
      (execution_generation_ (rt w)) (worker_boot_ (rt w))) as Hfresh.
    unfold confirm_resumed, own_authority in *. wp_run; prune; intros res0 Heq; try done;
      injection Heq as <-; (split; [|done]); try done;
      destruct (grant_fresh_attempt_authority _ _ _ _ _) as [v a']; cbn in *;
      intros _; rewrite Hcur; destruct (Hfresh ltac:(done)) as [? ?]; split_and!; auto. }
  intros Heq. unfold wp in Hwp. rewrite Heq in Hwp. by apply Hwp.
Qed.

End theorems.

Lemma preempted_attempt_fenced_witness :
  publish_progress 700 ProgressKind.kDurable Scenario.preempted = (inr false, Scenario.preempted).
Proof.
  apply preempted_attempt_fenced.
  - apply exec_ops_reachable; [apply Scenario.world0_initial|by repeat constructor].
  - vm_compute. reflexivity.
Defined.

(** The world before the confirmation of the resume. *)
Definition ready : World ReferenceAdapters :=
  exec_ops [ORequestResume; ORevalidate; ORestore] Scenario.preempted.

Lemma confirm_resumed_fresh_witness :
  lifecycle_state (rt (final (confirm_resumed ready))) = kResumed.
Proof.
  destruct (confirm_resumed_fresh ready
    (mkPreemptionResult PreemptionOutcome.kSafePreemptionCompleted kResumed [])
    (final (confirm_resumed ready))) as [Hs _]; [vm_compute; reflexivity|].
  apply Hs. reflexivity.
Defined.

End Authority.
