(* ===== verification/RuntimeRecovery.v ===== *)
(** * Recovery of the runtime

    The shape of the safe points and of the active request in every reachable world, when
    a snapshot can be restored, and that a restart loses nothing of the durable image. *)

From S2P Require Import Prelude Exec Identity Enums Lifecycle OrdMap Domains Interfaces ReferenceAdapters.
From S2P Require Import Bytes PersistentState Store StoreTheorems Runtime Recovery RuntimeSpec Scenario.
From S2P Require Import RuntimeSafety RuntimeRequests RuntimeProgress.
From stdpp Require Import base list strings numbers relations.
From Stdlib Require Import ZArith Lia.
Open Scope Z_scope.

(** ** The durable members are well shaped *)

(** The map of safe points is ordered and keyed by the identifiers of its entries. *)
Definition safe_points_ok (m : OrdMap SafePointId SafePoint) : Prop :=
  omap.sorted m ∧ ∀ k sp, (k, sp) ∈ m → sp_id sp = k.
(** Every safe point has a state. *)
Definition states_set (r : PreemptionRuntime) : Prop :=
  Forall (λ p, sp_state p.2 ≠ SafePointState.kUnset) (safe_points_ r).
Definition request_ok (r : PreemptionRuntime) : Prop :=
  ∀ q, active_request_ r = Some q → is_valid (req_id q) = true.

Definition shape_ok (r : PreemptionRuntime) : Prop :=
  safe_points_ok (safe_points_ r) ∧ request_ok r.

Lemma safe_points_ok_set m id sp :
  safe_points_ok m → sp_id sp = id → safe_points_ok (omap.set id sp m).
Proof.
  intros [Hs Hk] Hid. split; [by apply omap.set_sorted|].
  intros k sp' [Heq|Hin]%omap.elem_of_set; [by simplify_eq|by apply Hk].
Qed.

Lemma restore_members_safe_points st r :
  safe_points_ (restore_members st r)
  = omap.of_list ((λ psp, (psp_id psp, restore_safe_point psp)) <$> ps_safe_points st).
Proof. unfold restore_members. by destruct (is_valid (ps_request_id st)). Qed.

(** Every safe point after a restore is one of the state. *)
Lemma elem_of_restored st r p :
  p ∈ safe_points_ (restore_members st r) →
  ∃ psp, psp ∈ ps_safe_points st ∧ p = (psp_id psp, restore_safe_point psp).
Proof.
  rewrite restore_members_safe_points. intros Hp.
  apply omap.elem_of_of_list, list_elem_of_fmap in Hp as (psp & -> & Hin). by exists psp.
Qed.

Lemma restore_members_shape st r : request_ok r → shape_ok (restore_members st r).
Proof.
  intros Hr. split.
  - split; [rewrite restore_members_safe_points; apply omap.of_list_is_sorted|].
    intros k sp (psp & Hin & Heq)%elem_of_restored. by simplify_eq.
  - unfold request_ok, restore_members. destruct (is_valid (ps_request_id st)) eqn:E; cbn; [|exact Hr].
    intros q Hq. by simplify_eq.
Qed.

Lemma restore_members_states st r : image_valid st → states_set (restore_members st r).
Proof.
  intros (_ & _ & _ & _ & _ & Hsp & _). unfold states_set. rewrite Forall_forall in Hsp. apply Forall_forall.
  intros p (psp & Hin & ->)%elem_of_restored. by destruct (Hsp psp Hin).
Qed.

Section recovery.
Context {A : Type} `{Adapters A}.
Implicit Types w : World A.

Lemma op_shape op w : shape_ok (rt w) → wp (run_op op) w (λ _ w', shape_ok (rt w')).
Proof.
  intros [Hsp Hreq]. destruct (is_recovery op) eqn:Hrec.
  { apply (wp_recovery op w (λ w, shape_ok (rt w))); [done|by split|].
    intros st _. by apply restore_members_shape. }
  unfold shape_ok, request_ok in *.
  run_every_op op; try done; try (split; [exact Hsp|intros q ?; apply Hreq; congruence]).
  - split; [|exact Hreq]. by apply safe_points_ok_set.
  - split; [|exact Hreq]. apply safe_points_ok_set; [done|].
    by apply (proj2 Hsp id s), omap.find_elem.
  - split; [|exact Hreq]. apply safe_points_ok_set; [done|].
    by apply (proj2 Hsp id s), omap.find_elem.
  - split; [done|]. intros q Hq. by simplify_eq.
Qed.

Lemma reachable_shape allowed env w : reachable allowed env w → shape_ok (rt w).
Proof.
  apply (reachable_ind allowed env (λ w, shape_ok (rt w))).
  - intros w0 (epoch & policy & ->). split; [|by intros q].
    split; [apply omap.sorted_nil|by intros k sp ?%not_elem_of_nil].
  - intros op w0 _ Hok. by apply (op_shape op w0).
  - done.
Qed.

Lemma op_states op w :
  checked op → states_set (rt w) → wp (run_op op) w (λ _ w', states_set (rt w')).
Proof.
  intros Hop Hst. destruct (is_recovery op) eqn:Hrec.
  { apply (wp_recovery op w (λ w, states_set (rt w))); [done|done|].
    intros st Hi. by eapply restore_members_states, installs_valid. }
  unfold states_set in *.
  assert (Hset : ∀ id sp, sp_state sp ≠ SafePointState.kUnset →
    Forall (λ p, sp_state p.2 ≠ SafePointState.kUnset) (omap.set id sp (safe_points_ (rt w)))).
  { intros id sp Hsp. rewrite Forall_forall in *. intros p [->|Hp]%omap.elem_of_set; [done|by apply Hst]. }
  run_every_op op; try done; by apply Hset.
Qed.

Lemma reachable_states allowed env w :
  (∀ op, allowed op → checked op) → reachable allowed env w → states_set (rt w).
Proof.
  intros Hall. apply (reachable_ind allowed env (λ w, states_set (rt w))).
  - intros w0 (epoch & policy & ->). constructor.
  - intros op w0 Hop Hst. by apply (op_states op w0 (Hall op Hop)).
  - done.
Qed.

End recovery.

(** ** Restoring a snapshot *)

Lemma snapshot_restore_safe_point sp :
  snapshot_safe_point (restore_safe_point (snapshot_safe_point sp)) = snapshot_safe_point sp.
Proof. done. Qed.

Lemma restored_safe_points m :
  safe_points_ok m →
  omap.of_list ((λ psp, (psp_id psp, restore_safe_point psp)) <$> ((λ p, snapshot_safe_point p.2) <$> m))
  = (λ p, (p.1, restore_safe_point (snapshot_safe_point p.2))) <$> m.
Proof.
  intros [Hs Hk]. rewrite <- (list_fmap_compose _ _ m).
  assert (Heq : (λ p, (psp_id (snapshot_safe_point p.2), restore_safe_point (snapshot_safe_point p.2))) <$> m
    = (λ p, (p.1, restore_safe_point (snapshot_safe_point p.2))) <$> m).
  { apply list_fmap_ext. intros i [k sp] Hi. cbn.
    rewrite (Hk k sp); [done|]. by eapply list_elem_of_lookup_2. }
  unfold compose. rewrite Heq. apply omap.of_list_sorted.
  by apply (omap.sorted_fmap (λ p, restore_safe_point (snapshot_safe_point p.2)) m).
Qed.

(** The safe points of a snapshot pass the semantic check when their identifiers are valid. *)
Lemma snapshot_safe_points_valid r :
  shape_ok r → states_set r →
  NoDup (psp_id <$> ps_safe_points (snapshot r))
  ∧ (Forall StoreLemmas.safe_point_valid (ps_safe_points (snapshot r))
     ↔ Forall (λ p, is_valid p.1 = true) (safe_points_ r)).
Proof.
  intros [[Hsorted Hkeys] _] Hset. unfold states_set in Hset. cbn. split.
  - rewrite <- list_fmap_compose. unfold compose. cbn.
    assert (Heq : (λ p, sp_id p.2) <$> safe_points_ r = (safe_points_ r).*1).
    { apply list_fmap_ext. intros i [k sp] Hi. cbn.
      apply Hkeys. by eapply list_elem_of_lookup_2. }
    rewrite Heq. by apply omap.sorted_keys_NoDup.
  - rewrite Forall_fmap. rewrite !Forall_forall in *. unfold StoreLemmas.safe_point_valid. cbn.
    split; intros Hall [k sp] Hin; pose proof (Hkeys k sp Hin) as Hid; specialize (Hall _ Hin); cbn in *.
    + rewrite <- Hid. by destruct Hall.
    + split; [by rewrite Hid|by apply (Hset (k, sp))].
Qed.

(** The image is a fixed point: what was restored would be persisted unchanged. *)
Lemma snapshot_restore_members r r0 :
  shape_ok r → epoch_ r0 = epoch_ r → policy_generation_ r0 = policy_generation_ r →
  active_request_ r0 = None →
  snapshot (restore_members (snapshot r) r0) = snapshot r.
Proof.
  intros [Hsp Hreq] He Hp Hnone.
  assert (Hs : safe_points_ (restore_members (snapshot r) r0)
    = (λ p, (p.1, restore_safe_point (snapshot_safe_point p.2))) <$> safe_points_ r).
  { rewrite <- restored_safe_points by done.
    unfold restore_members. by destruct (is_valid (ps_request_id (snapshot r))). }
  unfold snapshot at 1. rewrite Hs, <- list_fmap_compose. clear Hs.
  unfold restore_members, snapshot, lifecycle_state. cbn.
  unfold request_ok in Hreq. destruct (active_request_ r) as [q|]; cbn.
  - rewrite (Hreq q) by done. cbn. by rewrite He, Hp.
  - rewrite Hnone. by rewrite He, Hp.
Qed.

(** ** Ranges *)

(** The arguments of a call have the range of their C++ types. *)
Definition op_in_range (op : Op) : Prop :=
  match op with
  | OStart w wg e eg a ag worker boot =>
      wf w ∧ wf wg ∧ wf e ∧ wf eg ∧ wf a ∧ wf ag ∧ wf worker ∧ wf boot
  | ODeclareSafePoint sp => safe_point_wf (snapshot_safe_point sp)
  | OReachSafePoint _ position _ | OPublishProgress position _ => in_u64 position
  | ORequestPreemption req => wf (req_id req) ∧ wf (req_generation req)
  | OReportQuiesced report => wf (qr_generation report)
  | OReportStateCaptured res =>
      wf (cr_capture_generation res) ∧ wf (cr_checkpoint_ref res) ∧ wf (cr_checkpoint_generation res)
  | OSetWorkerIncarnation worker boot => wf worker ∧ wf boot
  | ORestoreState st => state_wf st
  | _ => True
  end.

(** Every durable member has the range of its type, and so have the positions. *)
Definition members_wf (r : PreemptionRuntime) : Prop :=
  state_wf (snapshot r) ∧ wf (progress_generation_ r).

Lemma safe_points_wf_set (m : OrdMap SafePointId SafePoint) k sp :
  Forall safe_point_wf ((λ p, snapshot_safe_point p.2) <$> m) → safe_point_wf (snapshot_safe_point sp) →
  Forall safe_point_wf ((λ p, snapshot_safe_point p.2) <$> omap.set k sp m).
Proof.
  rewrite !Forall_fmap, !Forall_forall. intros Hm Hsp p [->|Hp]%omap.elem_of_set; [done|by apply Hm].
Qed.

Lemma safe_points_wf_find (m : OrdMap SafePointId SafePoint) k sp :
  Forall safe_point_wf ((λ p, snapshot_safe_point p.2) <$> m) → omap.find k m = Some sp →
  safe_point_wf (snapshot_safe_point sp).
Proof.
  rewrite Forall_fmap, Forall_forall. intros Hm Hf. by apply (Hm (k, sp)), omap.find_elem.
Qed.

Section ranges.
Context {A : Type} `{Adapters A}.
Implicit Types w : World A.

Lemma op_members_wf op w :
  no_recovery op → op_in_range op → members_wf (rt w) →
  wp (run_op op) w (λ _ w', members_wf (rt w')).
Proof.
  intros Hrec Hop [Hst Hpg]. unfold members_wf, state_wf in *. cbn in Hst.
  destruct Hst as (? & ? & ? & ? & ? & ? & ? & ? & ? & ? & ? & ? & ? & ? & ? & ? & ? & ? & ? & ? & ?
    & ? & Hsp & ? & Hhi).
  run_every_op op; try done; cbn in *.
  all: split; [|by eauto with fabric].
  all: split_and!; eauto with fabric; try tauto.
  all: try match goal with E : active_request_ _ = _ |- _ => rewrite E; eauto with fabric end.
  - apply safe_points_wf_set; [done|]. exact Hop.
  - apply safe_points_wf_set; [done|].
    destruct (safe_points_wf_find _ id s Hsp) as (? & ? & ? & ? & ? & ? & _ & ?); [done|]. by split_and!.
  - apply safe_points_wf_set; [done|].
    destruct (safe_points_wf_find _ id s Hsp) as (? & ? & ? & ? & ? & ? & _ & ?); [done|]. by split_and!.
  - match goal with E : active_request_ _ = _ |- _ => rewrite E in * end.
    apply Forall_app. split; [done|]. constructor; [by split|constructor].
Qed.

Lemma restore_members_wf st r : state_wf st → members_wf r → members_wf (restore_members st r).
Proof.
  intros Hst [Hr Hpg].
  assert (Hspwf : Forall safe_point_wf
    ((λ p, snapshot_safe_point p.2) <$> safe_points_ (restore_members st r))).
  { rewrite Forall_fmap, Forall_forall. intros p (psp & Hin & ->)%elem_of_restored.
    destruct Hst as (_ & _ & _ & _ & _ & _ & _ & _ & _ & _ & _ & _ & _ & _ & _ & _ & _ & _ & _ & _ & _
      & _ & Hall & _). rewrite Forall_forall in Hall. destruct (Hall psp Hin) as (? & ? & ? & ? & ? & ? & ? & ?).
    by split_and!. }
  unfold members_wf, state_wf in *. cbn in Hr.
  destruct Hst as (? & ? & ? & ? & ? & ? & ? & ? & ? & ? & ? & ? & ? & ? & ? & ? & ? & ? & ? & ? & ?
    & ? & ? & ? & ?).
  destruct Hr as (? & ? & ? & ? & ? & ? & ? & ? & ? & ? & ? & ? & ? & ? & ? & ? & ? & ? & ? & ? & ?
    & ? & ? & ? & ?).
  unfold restore_members in *. destruct (is_valid (ps_request_id st)); cbn in *; by split_and!.
Qed.

Lemma op_members_wf_any op w :
  op_in_range op → members_wf (rt w) → wp (run_op op) w (λ _ w', members_wf (rt w')).
Proof.
  intros Hop Hwf. destruct (is_recovery op) eqn:Hrec; [|by apply op_members_wf].
  apply (wp_recovery op w (λ w, members_wf (rt w))); [done|done|]. intros st Hi.
  apply restore_members_wf; [|done]. destruct op; try done; cbn in Hi; [|by subst].
  by apply StoreLemmas.decode_ok_inv in Hi as (_ & _ & _ & ?).
Qed.

(** The epoch and the policy are fixed at construction. *)
Lemma op_epoch op w :
  wp (run_op op) w (λ _ w', epoch_ (rt w') = epoch_ (rt w)
                            ∧ policy_generation_ (rt w') = policy_generation_ (rt w)).
Proof.
  destruct (is_recovery op) eqn:Hrec; [|run_every_op op; done].
  apply (wp_recovery op w (λ w', epoch_ (rt w') = epoch_ (rt w)
    ∧ policy_generation_ (rt w') = policy_generation_ (rt w))); [done|done|].
  intros st _. rewrite rt_restore_state. unfold restore_members. by destruct (is_valid (ps_request_id st)).
Qed.

Lemma reachable_members_wf w :
  reachable op_in_range any_env w → wf (epoch_ (rt w)) → wf (policy_generation_ (rt w)) →
  members_wf (rt w).
Proof.
  apply (reachable_ind op_in_range any_env
    (λ w, wf (epoch_ (rt w)) → wf (policy_generation_ (rt w)) → members_wf (rt w))).
  - intros w0 (epoch & policy & ->) He Hp. unfold members_wf, state_wf. cbn in *.
    split_and!; eauto with fabric. unfold PF_PERSISTENCE_VERSION. zlia.
  - intros op w0 Hop IH. unfold final. destruct (op_epoch op w0) as [-> ->]. intros He Hp.
    by apply (op_members_wf_any op w0); [|apply IH].
  - done.
Qed.

Lemma restore_snapshot r w0 :
  state_wf (snapshot r) → encodable (snapshot r) = true → image_valid (snapshot r) →
  shape_ok r → initial w0 → epoch_ (rt w0) = epoch_ r → policy_generation_ (rt w0) = policy_generation_ r →
  ∃ w1, restore_bytes (persist_bytes r) w0 = (inr true, w1) ∧ snapshot (rt w1) = snapshot r.
Proof.
  intros Hwf Henc Hv Hshape Hinit He Hp.
  unfold restore_bytes, persist_bytes. rewrite StoreLemmas.decode_encode_gen by done.
  assert (Hver : (snapshot r) <| ps_format_version := PF_PERSISTENCE_VERSION |> = snapshot r) by done.
  rewrite Hver, (proj2 (validate_state_ok (snapshot r)) Hv).
  eexists. split; [done|]. apply snapshot_restore_members; try done.
  by destruct Hinit as (epoch & policy & ->).
Qed.

(** [restore_bytes] accepts the bytes of a runtime when they fit and the snapshot is valid. *)
Lemma restore_accepts r w0 :
  state_wf (snapshot r) →
  fst (restore_bytes (persist_bytes r) w0) = inr true ↔ encodable (snapshot r) = true ∧ image_valid (snapshot r).
Proof.
  intros Hwf. unfold restore_bytes, persist_bytes. rewrite StoreLemmas.decode_encode_total by done.
  assert (Hver : (snapshot r) <| ps_format_version := PF_PERSISTENCE_VERSION |> = snapshot r) by done.
  rewrite Hver, <- validate_state_ok. destruct (encodable (snapshot r)); [|by split; [|intros [? _]]].
  destruct (Store.validate_state (snapshot r)); split; try done; by intros [_ ?].
Qed.

(** The snapshots of a run without recovery that pass the semantic check. *)
Lemma snapshot_valid_iff w :
  reachable no_recovery any_env w →
  image_valid (snapshot (rt w)) ↔
  (lifecycle_state (rt w) = LifecycleState.kReleasePending ∨ lifecycle_state (rt w) = LifecycleState.kReleasing →
     resources_released_ (rt w) = true)
  ∧ (state_durable_ (rt w) = true →
     is_valid (checkpoint_ref_ (rt w)) = true ∧ is_valid (checkpoint_generation_ (rt w)) = true)
  ∧ Forall (λ p, is_valid p.1 = true) (safe_points_ (rt w)).
Proof.
  intros Hw. assert (Hshape : shape_ok (rt w)) by (by eapply reachable_shape).
  assert (Hset : states_set (rt w)) by (by eapply reachable_states; [|exact Hw]; apply no_recovery_checked).
  assert (Hco : coherent (evidence (rt w))) by (by eapply reachable_coherent).
  unfold coherent, evidence in Hco. cbn in Hco. unfold image_valid. cbn.
  destruct (snapshot_safe_points_valid (rt w) Hshape Hset) as [Hnd Hsp]. cbn in Hnd, Hsp.
  rewrite Hsp. unfold Machine.is_preempted_durable. fold (lifecycle_state (rt w)).
  destruct Hco as (Hq & Hd & Hr).
  assert (Hrr : Forall StoreLemmas.receipt_valid []) by constructor.
  destruct (lifecycle_state (rt w)); cbn in *; intuition congruence.
Qed.

End ranges.

Module Restart.
Import LifecycleState.

Section theorems.
Context {A : Type} `{Adapters A}.
Implicit Types w : World A.

(** C30: at any moment of a run without recovery whose arguments are in the range of their
    types, the bytes [persist_bytes] gives are accepted by [restore_bytes], in any runtime,
    exactly when the image fits its 32-bit lengths, the release is not under way without being
    complete, durable state names a checkpoint, and no safe point has the invalid identifier. *)
Theorem snapshot_recoverable_iff w w0 :
  reachable (λ op, no_recovery op ∧ op_in_range op) any_env w →
  wf (epoch_ (rt w)) → wf (policy_generation_ (rt w)) →
  fst (restore_bytes (persist_bytes (rt w)) w0) = inr true ↔
  encodable (snapshot (rt w)) = true
  ∧ (lifecycle_state (rt w) = kReleasePending ∨ lifecycle_state (rt w) = kReleasing →
     resources_released_ (rt w) = true)
  ∧ (state_durable_ (rt w) = true →
     is_valid (checkpoint_ref_ (rt w)) = true ∧ is_valid (checkpoint_generation_ (rt w)) = true)
  ∧ Forall (λ p, is_valid p.1 = true) (safe_points_ (rt w)).
Proof.
  intros Hw He Hp.
  assert (Hn : reachable no_recovery any_env w) by (eapply reachable_mono; [|exact Hw]; by intros op [? ?]).
  assert (Hwf : members_wf (rt w))
    by (apply reachable_members_wf; [eapply reachable_mono; [|exact Hw]; by intros op [? ?]|done|done]).
  rewrite (restore_accepts (rt w) w0 (proj1 Hwf)).
  by rewrite (snapshot_valid_iff w Hn).
Qed.

(** C8: a restart loses nothing of the durable image: from a world reachable by calls with
    arguments in the range of their types, whose snapshot fits the format and is valid, the
    persisted bytes are accepted by a fresh runtime of the same epoch and policy, and the
    snapshot of the restored runtime is the one that was persisted. *)
Theorem restart_roundtrip w w0 :
  reachable op_in_range any_env w → wf (epoch_ (rt w)) → wf (policy_generation_ (rt w)) →
  image_valid (snapshot (rt w)) → encodable (snapshot (rt w)) = true →
  initial w0 → epoch_ (rt w0) = epoch_ (rt w) → policy_generation_ (rt w0) = policy_generation_ (rt w) →
  ∃ w1, restore_bytes (persist_bytes (rt w)) w0 = (inr true, w1) ∧ snapshot (rt w1) = snapshot (rt w).
Proof.
  intros Hw He Hp Hv Henc H0 He0 Hp0. apply restore_snapshot; try done.
  - by apply reachable_members_wf.
  - by eapply reachable_shape.
Qed.

(** Bytes that do not decode are refused and leave the runtime as it was. *)
Theorem restore_rejects w bytes e :
  Store.decode bytes = inl e → restore_bytes bytes w = (inr false, w).
Proof. intros E. unfold restore_bytes. by rewrite E. Qed.

End theorems.

(** C38: restoring an image hands authority back to the recorded worker boot in every
    lifecycle, [PREEMPTED] included: with the reference adapters, the attempt that was
    fenced before the restart has its progress accepted again after it. *)
Theorem restart_lifts_fence (st : PersistentState) (w : World ReferenceAdapters) position kind :
  ps_durable_progress st ≤ position →
  fst (publish_progress position kind (final (restore_state st w))) = inr true.
Proof.
  intros Hpos. set (r := restore_members st (rt w)).
  assert (Hw : final (restore_state st w)
    = mkWorld r (Ref.set_authoritative (execution_id_ r) (attempt_id_ r) (execution_generation_ r)
        (attempt_generation_ r) (epoch_ r) (worker_boot_ r) (ad w))) by done.
  destruct (restore_members_positions st (rt w)) as [Hd _]. fold r in Hd. rewrite Hw. clearbody r.
  unfold publish_progress, get, mbind, Exec_bind. cbn.
  rewrite !bool_decide_eq_true_2 by done. cbn. rewrite Hd.
  destruct (Z.ltb_spec position (ps_durable_progress st)); [lia|]. cbn.
  by destruct (bool_decide (kind = ProgressKind.kDurable) && (ps_durable_progress st <=? position)).
Qed.

Definition fresh_world : World ReferenceAdapters :=
  mkWorld (new_runtime (mkGeneration 3) (mkGeneration 1)) Ref.init.

Lemma scenario_in_range :
  Forall op_in_range (Scenario.request_ops ++ Scenario.preempt_ops).
Proof.
  cbn. repeat (apply list.Forall_cons; split); try apply List.Forall_nil;
    cbn; unfold wf, safe_point_wf; cbn; try done; unfold wf; cbn; zlia.
Qed.

Lemma scenario_calls :
  Forall (λ op, no_recovery op ∧ op_in_range op) (Scenario.request_ops ++ Scenario.preempt_ops).
Proof. apply Forall_and. split; [by repeat constructor|apply scenario_in_range]. Qed.

(** The scenario up to [request_release]. *)
Definition releasing : World ReferenceAdapters :=
  exec_ops (take 10 (Scenario.request_ops ++ Scenario.preempt_ops)) Scenario.world0.

(** A runtime whose preemption is complete is recovered; one in [RELEASING] is not. *)
Lemma snapshot_recoverable_iff_witness :
  fst (restore_bytes (persist_bytes (rt Scenario.preempted)) fresh_world) = inr true
  ∧ fst (restore_bytes (persist_bytes (rt releasing)) fresh_world) ≠ inr true.
Proof.
  split.
  - apply (snapshot_recoverable_iff Scenario.preempted fresh_world).
    + apply exec_ops_reachable; [apply Scenario.world0_initial|apply scenario_calls].
    + vm_compute. split; intros E; discriminate E.
    + vm_compute. split; intros E; discriminate E.
    + split; [vm_compute; reflexivity|]. split; [vm_compute; intros [E|E]; discriminate E|].
      split; [vm_compute; done|vm_compute; repeat constructor].
  - rewrite (snapshot_recoverable_iff releasing fresh_world).
    + intros (_ & Hr & _).
      assert (El : lifecycle_state (rt releasing) = kReleasing) by (vm_compute; reflexivity).
      assert (Er : resources_released_ (rt releasing) = false) by (vm_compute; reflexivity).
      rewrite (Hr (or_intror El)) in Er. discriminate Er.
    + apply exec_ops_reachable; [apply Scenario.world0_initial|]. apply Forall_take, scenario_calls.
    + vm_compute. split; intros E; discriminate E.
    + vm_compute. split; intros E; discriminate E.
Defined.

Lemma restart_roundtrip_witness :
  ∃ w1, restore_bytes (persist_bytes (rt Scenario.preempted)) fresh_world = (inr true, w1)
    ∧ snapshot (rt w1) = snapshot (rt Scenario.preempted).
Proof.
  apply (restart_roundtrip Scenario.preempted fresh_world).
  - apply exec_ops_reachable; [apply Scenario.world0_initial|apply scenario_in_range].
  - vm_compute. split; intros E; discriminate E.
  - vm_compute. split; intros E; discriminate E.
  - apply validate_state_ok. vm_compute. reflexivity.
  - vm_compute. reflexivity.
  - by eexists _, _.
  - vm_compute. reflexivity.
  - vm_compute. reflexivity.
Defined.

Lemma restore_rejects_witness : restore_bytes [] Scenario.started = (inr false, Scenario.started).
Proof. apply (restore_rejects Scenario.started [] PersistenceError.kTruncated). reflexivity. Defined.

Lemma restart_lifts_fence_witness :
  lifecycle_state (rt (final (restore_state (snapshot (rt Scenario.preempted)) fresh_world))) = kPreempted
  ∧ fst (publish_progress 700 ProgressKind.kDurable
      (final (restore_state (snapshot (rt Scenario.preempted)) fresh_world))) = inr true.
Proof.
  split; [vm_compute; reflexivity|]. apply restart_lifts_fence. vm_compute. intros E. discriminate E.
Defined.

End Restart.
