(* ===== verification/RuntimeExplain.v ===== *)
(** * Explanations and behaviour

    [explain_resume_blockers] against what a resume does. *)

From S2P Require Import Prelude Exec Identity Enums Lifecycle OrdMap Domains Interfaces ReferenceAdapters.
From S2P Require Import Bytes PersistentState Runtime Recovery RuntimeSpec RuntimeSafety Scenario.
From stdpp Require Import base list strings numbers.
From Stdlib Require Import ZArith.
Open Scope Z_scope.

Module Explanations.
Import LifecycleState.

Section theorems.
Context {A : Type} `{Adapters A}.
Implicit Types w : World A.

Definition eligible : ExplainEntry := explain "resume_eligible" "resume is eligible" EvidenceKind.kDerived.
Definition no_checkpoint : ExplainEntry :=
  explain "resume_blocked_state_missing" "no checkpoint reference" EvidenceKind.kDerived.

(** What [request_resume] and [revalidate] answer. *)
Definition resume_outcome w : option PreemptionOutcome :=
  match fst ((_ ← request_resume; revalidate) w) with
  | inr r => Some (pr_outcome r)
  | inl _ => None
  end.

(** What is reported of a preempted execution with its evidence. *)
Lemma blockers_cases w :
  lifecycle_state (rt w) = kPreempted → state_durable_ (rt w) = true → resources_released_ (rt w) = true →
  let stale := is_valid (checkpoint_ref_ (rt w))
    && negb (validate_checkpoint (ad w) (checkpoint_ref_ (rt w)) (checkpoint_generation_ (rt w))) in
  let blocked := dependency_blocked (resume_dependencies (ad w) (execution_id_ (rt w))) in
  (explain_resume_blockers w = [eligible] ∨ explain_resume_blockers w = [no_checkpoint])
  ↔ stale = false ∧ blocked = false.
Proof.
  intros Hl Hd Hr. unfold explain_resume_blockers, dependency_blocked, push_if.
  rewrite Hl, Hd, Hr. cbn [negb andb bool_decide].
  destruct (is_valid (checkpoint_ref_ (rt w))); cbn [negb andb].
  - destruct (validate_checkpoint _ _ _); cbn [negb app].
    all: destruct (dep_status _); cbn; split; first [done|by intros [?|?]|by intros [? ?]|auto].
  - destruct (dep_status _); cbn; split; first [done|by intros [?|?]|by intros [? ?]|auto].
Qed.

Lemma resume_outcome_preempted w :
  lifecycle_state (rt w) = kPreempted →
  resume_outcome w = Some PreemptionOutcome.kSafePreemptionCompleted
  ↔ is_valid (checkpoint_ref_ (rt w))
      && negb (validate_checkpoint (ad w) (checkpoint_ref_ (rt w)) (checkpoint_generation_ (rt w))) = false
    ∧ dependency_blocked (resume_dependencies (ad w) (execution_id_ (rt w))) = false.
Proof.
  intros Hl.
  assert (Hrun : wp (_ ← request_resume; revalidate) w (λ r _,
    match r with
    | inr res => pr_outcome res = PreemptionOutcome.kSafePreemptionCompleted
        ↔ is_valid (checkpoint_ref_ (rt w))
            && negb (validate_checkpoint (ad w) (checkpoint_ref_ (rt w)) (checkpoint_generation_ (rt w))) = false
          ∧ dependency_blocked (resume_dependencies (ad w) (execution_id_ (rt w))) = false
    | inl _ => False
    end)).
  { autounfold with calls. wp_run; prune; cbn [pr_outcome].
    all: repeat match goal with H : ?b = true |- context [?b] => rewrite H
                           | H : ?b = false |- context [?b] => rewrite H end.
    all: cbn [negb andb]; rewrite ?andb_false_r; split; first [done|by intros [? ?]]. }
  unfold resume_outcome. unfold wp in Hrun. destruct (((_ ← request_resume; revalidate) w).1) as [e|res]; [done|].
  rewrite <- Hrun. split; [by intros [= ->]|by intros ->].
Qed.

(** C35: the explanation agrees with the behaviour: for a preempted execution reached by any
    calls (states given to [restore] having passed [validate_state]), [request_resume] and
    [revalidate] complete exactly when [explain_resume_blockers] reports that the resume is
    eligible, or reports only that there is no checkpoint, which the resume does not need. *)
Theorem resume_blockers_exact w :
  reachable checked any_env w → lifecycle_state (rt w) = kPreempted →
  resume_outcome w = Some PreemptionOutcome.kSafePreemptionCompleted
  ↔ explain_resume_blockers w = [eligible] ∨ explain_resume_blockers w = [no_checkpoint].
Proof.
  intros Hw Hl. rewrite (resume_outcome_preempted w Hl).
  apply reachable_committed in Hw as Hc; [|done].
  unfold committed, evidence in Hc. cbn in Hc. rewrite Hl in Hc. destruct (Hc eq_refl) as (_ & Hd & Hr).
  symmetry. by apply blockers_cases.
Qed.

End theorems.

(** A preemption at a safe point that needs no capture. *)
Definition uncaptured_ops : list Op :=
  [OReachSafePoint (mkId 1) 640 false; OBeginQuiesce; OReportQuiesced Scenario.quiescence;
   ORequestStateCapture] ++ Scenario.release_ops ++ [OCommitPreempted].
Definition uncaptured : World ReferenceAdapters :=
  exec_ops (Scenario.request_ops ++ uncaptured_ops) Scenario.world0.

(** With a checkpoint the resume is eligible; without one it is reported as blocked, and
    completes all the same. *)
Lemma resume_blockers_exact_witness :
  (explain_resume_blockers Scenario.preempted = [eligible]
   ∧ resume_outcome Scenario.preempted = Some PreemptionOutcome.kSafePreemptionCompleted)
  ∧ (explain_resume_blockers uncaptured = [no_checkpoint]
     ∧ resume_outcome uncaptured = Some PreemptionOutcome.kSafePreemptionCompleted).
Proof.
  split; (split; [vm_compute; reflexivity|]).
  - apply (resume_blockers_exact Scenario.preempted).
    + apply exec_ops_reachable; [apply Scenario.world0_initial|by repeat constructor].
    + vm_compute. reflexivity.
    + left. vm_compute. reflexivity.
  - apply (resume_blockers_exact uncaptured).
    + apply exec_ops_reachable; [apply Scenario.world0_initial|by repeat constructor].
    + vm_compute. reflexivity.
    + right. vm_compute. reflexivity.
Defined.

End Explanations.
