(* ===== verification/RuntimeRelease.v ===== *)
(** * Release of resources, and completion of a preemption

    The accounting of the reference broker: releasing the current contract empties every
    lease, units move between reserved and released without loss, and with it the calls of
    a preemption carry an execution from [ASSESSING] to [PREEMPTED]. *)

From S2P Require Import Prelude Exec Identity Enums Lifecycle OrdMap Domains Interfaces ReferenceAdapters.
From S2P Require Import Bytes PersistentState Runtime Recovery RuntimeSpec Scenario RuntimeSafety.
From stdpp Require Import base list strings numbers relations.
From Stdlib Require Import ZArith Lia.
Open Scope Z_scope.

(** ** The broker's books *)

(** The books are well formed: ordered, with 64-bit entries. *)
Definition books_ok (a : ReferenceAdapters) : Prop :=
  omap.sorted (reserved_ a) ∧ ∀ c, in_u64 (Ref.reserved a c) ∧ in_u64 (Ref.released a c).

Section broker.
Implicit Types a : ReferenceAdapters.

(** A request for exactly what is reserved is granted. *)
Lemma request_release_all a rc n :
  omap.find rc (reserved_ a) = Some n →
  Ref.request_release (contract_execution_ a) rc n (contract_gen_ a) a
  = (mkReleaseResult true (contract_gen_ a) (attempt_boot_ a),
     a <| reserved_ := omap.set rc (wrap 64 (n - n)) (reserved_ a) |>
       <| released_ := Ref.add_units rc n (released_ a) |>).
Proof.
  intros Hf. unfold Ref.request_release. rewrite !bool_decide_eq_true_2 by done. cbn [negb orb].
  by rewrite Hf, Z.ltb_irrefl.
Qed.

(** Releasing distinct leases for exactly their units empties each of them. *)
Lemma release_leases_empties (l : list (ResourceClass * Z)) a e g :
  e = contract_execution_ a → g = contract_gen_ a →
  NoDup l.*1 → (∀ c n, (c, n) ∈ l → omap.find c (reserved_ a) = Some n) →
  let a' := release_leases e g ((λ p, mkResourceLease p.1 p.2) <$> l) a in
  (∀ c, c ∈ l.*1 → omap.find c (reserved_ a') = Some 0)
  ∧ (∀ c, (c ∉ l.*1) → omap.find c (reserved_ a') = omap.find c (reserved_ a)
                      ∧ Ref.released a' c = Ref.released a c)
  ∧ (∀ c n, (c, n) ∈ l → Ref.released a' c = wrap 64 (Ref.released a c + n)).
Proof.
  revert a. induction l as [|[c0 n0] l IH]; intros a He Hg Hnd Hl.
  { cbn. split_and!; [by intros c ?%not_elem_of_nil|done|by intros c n ?%not_elem_of_nil]. }
  cbn [fmap list_fmap] in Hnd. apply NoDup_cons in Hnd as [Hnotin Hnd].
  assert (Hc0 : omap.find c0 (reserved_ a) = Some n0) by (apply Hl; by left).
  set (a1 := a <| reserved_ := omap.set c0 0 (reserved_ a) |>
               <| released_ := Ref.add_units c0 n0 (released_ a) |>).
  assert (Hstep : release_leases e g ((λ p, mkResourceLease p.1 p.2) <$> (c0, n0) :: l) a
                  = release_leases e g ((λ p, mkResourceLease p.1 p.2) <$> l) a1).
  { subst e g. unfold release_leases. cbn [fmap list_fmap foldl lease_resource lease_units fst snd].
    cbn [broker_request_release adapters_broker Ref_Adapters Ref_IResourceBroker].
    rewrite request_release_all, Z.sub_diag by done. done. }
  intros a'. assert (Ha' : a' = release_leases e g ((λ p, mkResourceLease p.1 p.2) <$> l) a1)
    by exact Hstep.
  clearbody a'. subst a'. clear Hstep.
  assert (Hne : ∀ c, c ∈ l.*1 → c0 ≠ c) by (intros c Hc ->; done).
  destruct (IH a1) as (H1 & H2 & H3); [done|done|done| |].
  { intros c n Hin. cbn. rewrite omap.find_set_ne; [apply Hl; by right|].
    apply Hne, list_elem_of_fmap. by exists (c, n). }
  split_and!.
  - intros c Hc. cbn in Hc. apply elem_of_cons in Hc as [->|Hc]; [|by apply H1].
    destruct (H2 c0 Hnotin) as [-> _]. cbn. apply omap.find_set_eq.
  - intros c Hc. cbn in Hc. apply not_elem_of_cons in Hc as [Hc Hin]. destruct (H2 c Hin) as [-> ->]. cbn.
    unfold Ref.released, Ref.lookup, Ref.add_units. cbn. by rewrite !omap.find_set_ne.
  - intros c n [Heq|Hin]%elem_of_cons.
    + simplify_eq. destruct (H2 c0 Hnotin) as [_ ->]. cbn.
      unfold Ref.released, Ref.lookup, Ref.add_units. cbn. by rewrite omap.find_set_eq.
    + rewrite (H3 c n Hin). assert (E : Ref.released a1 c = Ref.released a c); [|by rewrite E].
      unfold Ref.released, Ref.lookup, a1, Ref.add_units. cbn [released_ set_field].
      rewrite omap.find_set_ne; [done|]. apply Hne, list_elem_of_fmap. by exists (c, n).
Qed.

(** Releasing the current contract of the execution it belongs to empties the books. *)
Lemma release_contract_empties a e :
  books_ok a → e = contract_execution_ a →
  let k := Ref.current_contract a e in
  let a' := release_leases e (contract_generation k) (contract_leases k) a in
  ∀ c, Ref.reserved a' c = 0 ∧ Ref.released a' c = wrap 64 (Ref.released a c + Ref.reserved a c).
Proof.
  intros [Hs Hrange] -> k a' c.
  destruct (release_leases_empties (reserved_ a) a (contract_execution_ a) (contract_gen_ a))
    as (H1 & H2 & H3); [done|done|by apply omap.sorted_keys_NoDup|by intros; apply omap.elem_find|].
  fold (contract_generation k) in H1, H2, H3.
  change (release_leases (contract_execution_ a) (contract_gen_ a)
    ((λ p, mkResourceLease p.1 p.2) <$> reserved_ a) a) with a' in H1, H2, H3.
  clearbody a'. unfold Ref.reserved, Ref.lookup.
  destruct (omap.find c (reserved_ a)) as [n|] eqn:E; cbn [default].
  - apply omap.find_elem in E. split; [|by apply H3].
    rewrite H1; [done|]. apply list_elem_of_fmap. by exists (c, n).
  - assert (Hc : c ∉ (reserved_ a).*1).
    { intros ([c' n] & -> & Hin)%list_elem_of_fmap. apply (omap.elem_find _ _ _ Hs) in Hin.
      cbn in E. congruence. }
    destruct (H2 c Hc) as [-> ->]. rewrite E, Z.add_0_r, wrap64_small by apply Hrange. done.
Qed.

Lemma lookup_set (m : OrdMap ResourceClass Z) k v c :
  Ref.lookup (omap.set k v m) c = if bool_decide (k = c) then v else Ref.lookup m c.
Proof.
  unfold Ref.lookup. case_bool_decide; [subst; by rewrite omap.find_set_eq|by rewrite omap.find_set_ne].
Qed.

(** [moves rc n a a']: exactly [n] units of class [rc] went from the reserved to the released
    book, back when [n] is negative, and the books of the other classes are as they were. *)
Definition moves (rc : ResourceClass) (n : Z) a a' : Prop :=
  ∀ c, let d := if bool_decide (rc = c) then n else 0 in
    Ref.reserved a' c = Ref.reserved a c - d ∧ Ref.released a' c = Ref.released a c + d.

(** No class has more units than a 64-bit counter holds. *)
Definition totals_ok a : Prop := ∀ c, Ref.reserved a c + Ref.released a c ≤ u64_max.

(** The conditions under which a call is granted. *)
Definition release_granted a (e : ExecutionId) (rc : ResourceClass) (units : Z) (g : ResourceContractGeneration) : bool :=
  bool_decide (e = contract_execution_ a) && bool_decide (g = contract_gen_ a)
  && bool_decide (is_Some (omap.find rc (reserved_ a))) && (units <=? Ref.reserved a rc).
Definition reacquire_granted a (e : ExecutionId) (rc : ResourceClass) (units : Z) : bool :=
  bool_decide (e = contract_execution_ a) && (units <=? Ref.released a rc).

Lemma moves_none rc a a' :
  (∀ c, Ref.reserved a' c = Ref.reserved a c ∧ Ref.released a' c = Ref.released a c) → moves rc 0 a a'.
Proof. intros E c. destruct (E c) as [-> ->]. case_bool_decide; lia. Qed.

(** A movement within the books keeps them well formed. *)
Lemma moves_books rc n a a' :
  books_ok a → totals_ok a → omap.sorted (reserved_ a') → moves rc n a a' →
  n ≤ Ref.reserved a rc → - n ≤ Ref.released a rc → books_ok a' ∧ totals_ok a'.
Proof.
  intros [_ Hr] Ht Hs Hm H1 H2. split; [split; [done|]|]; intros c; destruct (Hm c) as [-> ->];
    specialize (Ht c); destruct (Hr c); unfold in_u64 in *; case_bool_decide; subst; split_and?; lia.
Qed.

Lemma request_release_moves a e rc units g :
  books_ok a → totals_ok a → 0 ≤ units →
  let '(res, a') := Ref.request_release e rc units g a in
  let ok := release_granted a e rc units g in
  release_success res = ok ∧ moves rc (if ok then units else 0) a a' ∧ books_ok a' ∧ totals_ok a'.
Proof.
  intros Hb Ht Hu. unfold Ref.request_release, release_granted.
  case_bool_decide as He; cbn [negb orb andb]; [|by split_and!; try apply moves_none].
  case_bool_decide as Hg; cbn [negb orb andb]; [|by split_and!; try apply moves_none].
  destruct (omap.find rc (reserved_ a)) as [n|] eqn:E;
    [rewrite bool_decide_eq_true_2 by eauto|by split_and!; try apply moves_none].
  assert (Hn : Ref.reserved a rc = n) by (unfold Ref.reserved, Ref.lookup; by rewrite E).
  rewrite Z.leb_antisym, Hn. cbn [andb].
  destruct (Z.ltb_spec n units) as [Hlt|Hle]; cbn [negb]; [by split_and!; try apply moves_none|].
  assert (Hm : moves rc units a (a <| reserved_ := omap.set rc (wrap 64 (n - units)) (reserved_ a) |>
                                  <| released_ := Ref.add_units rc units (released_ a) |>)).
  { destruct (proj2 Hb rc) as [Hr1 Hr2]. specialize (Ht rc) as Htc. intros c.
    unfold Ref.reserved, Ref.released, Ref.add_units in *. cbn [reserved_ released_ set_field].
    rewrite !lookup_set. case_bool_decide as Hc; [subst c|lia]. unfold in_u64 in *.
    rewrite !wrap64_small by (unfold in_u64; lia). lia. }
  split_and!; [done|done|..]; (eapply moves_books; [exact Hb|exact Ht| |exact Hm|lia|]);
    try (destruct (proj2 Hb rc); unfold in_u64 in *; lia); by apply omap.set_sorted, Hb.
Qed.

Lemma reacquire_moves a e rc units g :
  books_ok a → totals_ok a → 0 ≤ units →
  let '(res, a') := Ref.reacquire e rc units g a in
  let ok := reacquire_granted a e rc units in
  reacquire_success res = ok ∧ moves rc (if ok then - units else 0) a a' ∧ books_ok a' ∧ totals_ok a'.
Proof.
  intros Hb Ht Hu. unfold Ref.reacquire, reacquire_granted.
  set (gen := if is_valid g then _ else _). clearbody gen.
  case_bool_decide as He; cbn [negb andb]; [|by split_and!; try apply moves_none].
  cbn [released_ set_field]. fold (Ref.released a rc). rewrite Z.leb_antisym.
  destruct (proj2 Hb rc) as [Hr1 Hr2]. specialize (Ht rc) as Htc. unfold in_u64 in Hr1, Hr2.
  set (a2 := a <| contract_gen_ := gen |> <| released_ := omap.set rc (Ref.released a rc) (released_ a) |>).
  assert (H2 : ∀ c, Ref.reserved a2 c = Ref.reserved a c ∧ Ref.released a2 c = Ref.released a c).
  { intros c. split; [done|]. unfold a2, Ref.released. cbn [released_ set_field]. rewrite lookup_set.
    case_bool_decide; by subst. }
  destruct (Z.ltb_spec (Ref.released a rc) units) as [Hlt|Hle]; cbn [negb].
  { assert (Hm : moves rc 0 a a2) by (by apply moves_none).
    split_and!; [done|done|..]; (eapply moves_books; [exact Hb|exact Ht|apply Hb|exact Hm|lia|lia]). }
  assert (Hm : moves rc (- units) a (a2 <| released_ := Ref.sub_units rc units (released_ a2) |>
                                        <| reserved_ := Ref.add_units rc units (reserved_ a2) |>)).
  { intros c. destruct (H2 c) as [<- <-], (H2 rc) as [E1 E2]. unfold Ref.reserved, Ref.released in *.
    unfold Ref.add_units, Ref.sub_units. cbn [reserved_ released_ set_field].
    rewrite !lookup_set. case_bool_decide as Hc; [subst c|lia].
    rewrite !wrap64_small by (unfold in_u64; lia). lia. }
  split_and!; [done|done|..]; (eapply moves_books; [exact Hb|exact Ht| |exact Hm|lia|lia]);
    by apply omap.set_sorted, Hb.
Qed.

(** The units of a class in a list of leases. *)
Definition leased (leases : list ResourceLease) (c : ResourceClass) : Z :=
  foldr (λ l n, (if bool_decide (lease_resource l = c) then lease_units l else 0) + n) 0 leases.

Lemma leased_cons l leases c :
  leased (l :: leases) c = (if bool_decide (lease_resource l = c) then lease_units l else 0) + leased leases c.
Proof. done. Qed.
Lemma leased_nonneg leases c : Forall (λ l, 0 ≤ lease_units l) leases → 0 ≤ leased leases c.
Proof. induction 1 as [|l leases Hl _ IH]; [done|]. rewrite leased_cons. case_bool_decide; lia. Qed.

(** Adding the leases up does not wrap when each class fits. *)
Lemma fold_leases leases (m : OrdMap ResourceClass Z) :
  omap.sorted m → Forall (λ l, 0 ≤ lease_units l) leases →
  (∀ c, 0 ≤ Ref.lookup m c ∧ Ref.lookup m c + leased leases c ≤ u64_max) →
  let m' := foldl (λ m l, Ref.add_units (lease_resource l) (lease_units l) m) m leases in
  omap.sorted m' ∧ ∀ c, Ref.lookup m' c = Ref.lookup m c + leased leases c.
Proof.
  intros Hs Hl. revert m Hs. induction Hl as [|l leases H0 Hl IH]; intros m Hs Hb;
    [by split; [|intros c; rewrite Z.add_0_r]|]. intros m'.
  assert (Hm1 : ∀ c, Ref.lookup (Ref.add_units (lease_resource l) (lease_units l) m) c
    = Ref.lookup m c + if bool_decide (lease_resource l = c) then lease_units l else 0).
  { intros c. unfold Ref.add_units. rewrite lookup_set. case_bool_decide as Hc; [subst c|lia].
    destruct (Hb (lease_resource l)) as [? Hle]. rewrite leased_cons, bool_decide_eq_true_2 in Hle by done.
    pose proof (leased_nonneg leases (lease_resource l) Hl). apply wrap64_small. unfold in_u64. lia. }
  destruct (IH (Ref.add_units (lease_resource l) (lease_units l) m)) as [Hs' Hsum].
  - by apply omap.set_sorted.
  - intros c. rewrite Hm1. destruct (Hb c) as [? Hle].
    rewrite leased_cons in Hle. pose proof (leased_nonneg leases c Hl). case_bool_decide; lia.
  - split; [done|]. intros c. unfold m'. cbn [foldl]. rewrite Hsum, Hm1, leased_cons. lia.
Qed.

Lemma set_contract_books a e g leases :
  Forall (λ l, 0 ≤ lease_units l) leases → (∀ c, leased leases c ≤ u64_max) →
  let a' := Ref.set_contract e g leases a in
  books_ok a' ∧ totals_ok a' ∧ ∀ c, Ref.reserved a' c = leased leases c ∧ Ref.released a' c = 0.
Proof.
  intros Hl Hfit. destruct (fold_leases leases [] omap.sorted_nil Hl) as [Hs Hsum]; [by intros c; split; [|apply Hfit]|].
  assert (Hres : ∀ c, Ref.reserved (Ref.set_contract e g leases a) c = leased leases c) by (intros c; apply Hsum).
  assert (Hrel : ∀ c, Ref.released (Ref.set_contract e g leases a) c = 0) by done.
  assert (Hc : ∀ c, 0 ≤ leased leases c ≤ u64_max) by (intros c; split; [by apply leased_nonneg|apply Hfit]).
  intros a'. refine (conj (conj Hs _) (conj _ _)); intros c; rewrite ?Hres, ?Hrel; specialize (Hc c);
    unfold in_u64; lia.
Qed.

End broker.

(** ** Completion of the release *)

Lemma existsb_false {T} (f : T → bool) l : (∀ x, f x = false) → existsb f l = false.
Proof. intros Hf. induction l as [|x l IH]; cbn; [done|]. by rewrite Hf, IH. Qed.

(** After the release of a contract nothing of it remains reserved. *)
Lemma release_contract_done a e e' :
  books_ok a → e = contract_execution_ a →
  let k := Ref.current_contract a e in
  let a' := release_leases e (contract_generation k) (contract_leases k) a in
  existsb (λ l, negb (Ref.reserved a' (lease_resource l) =? 0))
    (contract_leases (Ref.current_contract a' e')) = false.
Proof.
  intros Hb He k a'. apply existsb_false. intros l.
  assert (Hz : Ref.reserved a' (lease_resource l) = 0)
    by apply (release_contract_empties a e Hb He (lease_resource l)).
  by rewrite Hz.
Qed.

(** Sequences of calls, one at a time. *)
Lemma exec_ops_cons {A} `{Adapters A} op ops (w : World A) (P : World A → Prop) :
  wp (run_op op) w (λ _ w', P (exec_ops ops w')) → P (exec_ops (op :: ops) w).
Proof. done. Qed.

(** Runs the next call of a sequence along the path the hypotheses select. *)
Ltac next_call :=
  apply exec_ops_cons; cbn [run_op]; autounfold with calls; wp_run; prune; try done.

Section completion.
Import LifecycleState.
Implicit Types w : World ReferenceAdapters.

Lemma request_release_completes w :
  lifecycle_state (rt w) = kStateDurable ∨ lifecycle_state (rt w) = kReleasePending →
  state_durable_ (rt w) = true → books_ok (ad w) → contract_execution_ (ad w) = execution_id_ (rt w) →
  let w' := exec_ops [ORequestRelease; OReportReleased] w in
  let a' := release_leases (execution_id_ (rt w)) (contract_gen_ (ad w))
              (contract_leases (Ref.current_contract (ad w) (execution_id_ (rt w)))) (ad w) in
  w' = mkWorld ((rt w) <| machine_ := mkMachine kResourcesReleased |> <| resources_released_ := true |>) a'.
Proof.
  intros Hs Hd Hb He w' a'. pose proof (release_contract_done (ad w) (execution_id_ (rt w))
    (execution_id_ (rt w)) Hb (eq_sym He)) as Hdone. cbn zeta in Hdone.
  destruct Hs as [Hs|Hs].
  all: apply (exec_ops_cons _ _ _ (λ v, v = _)); cbn [run_op]; autounfold with calls; wp_run; prune; try done.
  all: apply (exec_ops_cons _ _ _ (λ v, v = _)); cbn [run_op]; autounfold with calls; wp_run; prune; try done.
  all: match goal with H : existsb _ _ = true |- _ =>
         exfalso; exact (diff_true_false (eq_trans (eq_sym H) Hdone)) end.
Qed.

(** The calls up to durable state. *)
Definition durable_ops (report : QuiescenceReport) (res : CaptureResult) (r : PreemptionRuntime)
    : list Op :=
  [OBeginQuiesce; OReportQuiesced report; ORequestStateCapture]
  ++ (if capture_is_required r then [OReportStateCaptured res] else []).

(** What the environment contributes to a preemption: the report comes from the current
    worker, all activity is quiesced, a capture that is needed succeeds with a checkpoint of
    the current generation, and the contract is the one of the execution. *)
Record ready_to_preempt (report : QuiescenceReport) (res : CaptureResult) w : Prop := {
  rp_boundary : at_valid_safe_point (rt w) = true;
  rp_boot : qr_worker_boot_id report = worker_boot_ (rt w);
  rp_report : qr_fully_quiesced report = true;
  rp_quiesced : is_quiesced_all (ad w) = true;
  rp_captured : cr_success res = true ∧ cr_completed res = true;
  rp_checkpoint :
    Ref.validate_checkpoint (ad w) (cr_checkpoint_ref res) (cr_checkpoint_generation res) = true;
  rp_books : books_ok (ad w);
  rp_contract : contract_execution_ (ad w) = execution_id_ (rt w)
}.

Definition durable_reached w : Prop :=
  (lifecycle_state (rt w) = kStateDurable ∨ lifecycle_state (rt w) = kReleasePending)
  ∧ quiesced_ (rt w) = true ∧ state_durable_ (rt w) = true ∧ books_ok (ad w)
  ∧ contract_execution_ (ad w) = execution_id_ (rt w).

Lemma durable_ops_reach report res w :
  lifecycle_state (rt w) = kAssessing → ready_to_preempt report res w →
  durable_reached (exec_ops (durable_ops report res (rt w)) w).
Proof.
  intros Hs [Hb Hboot Hrep Hq [Hsu Hco] Hck Hbk Hct]. unfold durable_ops.
  do 3 (apply (exec_ops_cons _ _ _ durable_reached); cbn [run_op]; autounfold with calls;
        wp_run; prune; try done; try (exfalso; cbn in *; congruence)).
  all: match goal with H : capture_is_required _ = ?b |- _ =>
         change (capture_is_required (rt w) = b) in H; rewrite H end.
  - cbn. by split_and!; [right|..].
  - apply (exec_ops_cons _ _ _ durable_reached); cbn [run_op]; autounfold with calls;
      wp_run; prune; try done; try (exfalso; cbn in *; congruence).
    + match goal with H : validate_checkpoint _ _ _ = false |- _ =>
        exfalso; exact (diff_true_false (eq_trans (eq_sym Hck) H)) end.
    + cbn. by split_and!; [left|..].
Qed.

Lemma commit_after_release w :
  lifecycle_state (rt w) = kResourcesReleased → quiesced_ (rt w) = true →
  state_durable_ (rt w) = true → resources_released_ (rt w) = true →
  let w' := final (run_op OCommitPreempted w) in
  lifecycle_state (rt w') = kPreempted ∧ is_attempt_authoritative w' = false
  ∧ reserved_ (ad w') = reserved_ (ad w) ∧ released_ (ad w') = released_ (ad w).
Proof.
  intros Hs Hq Hd Hr. apply (proj1 (wp_final _ _ (λ w', lifecycle_state (rt w') = kPreempted
    ∧ is_attempt_authoritative w' = false ∧ reserved_ (ad w') = reserved_ (ad w)
    ∧ released_ (ad w') = released_ (ad w)))).
  cbn [run_op]. autounfold with calls. wp_run; prune; done.
Qed.

(** The calls of a whole preemption. *)
Definition preemption_ops (report : QuiescenceReport) (res : CaptureResult) (r : PreemptionRuntime)
    : list Op :=
  durable_ops report res r ++ [ORequestRelease; OReportReleased] ++ [OCommitPreempted].

(** What the environment contributes to a resume: the checkpoint is still current and no
    dependency is stale or missing. *)
Definition ready_to_resume w : Prop :=
  (is_valid (checkpoint_ref_ (rt w)) = true →
     Ref.validate_checkpoint (ad w) (checkpoint_ref_ (rt w)) (checkpoint_generation_ (rt w)) = true)
  ∧ dependency_blocked (resume_dep_ (ad w)) = false.

Definition resume_ops : list Op := [ORequestResume; ORevalidate; ORestore; OConfirmResumed].

End completion.

Module Release.
Import LifecycleState.

(** [report_released] accepts the release exactly in [RELEASING] and when the broker
    holds nothing reserved for any lease of the current contract; otherwise it leaves
    everything as it is. *)
Theorem report_released_spec {A} `{Adapters A} (w : World A) :
  let done_ := lifecycle_state (rt w) = kReleasing
    ∧ Forall (λ l, reserved (ad w) (lease_resource l) = 0)
        (contract_leases (current_contract (ad w) (execution_id_ (rt w)))) in
  ∃ res, report_released w
    = (inr res, final (report_released w))
    ∧ (pr_outcome res = PreemptionOutcome.kSafePreemptionCompleted ↔ done_)
    ∧ (done_ → final (report_released w)
         = w <| rt := (rt w) <| machine_ := mkMachine kResourcesReleased |>
                             <| resources_released_ := true |> |>)
    ∧ (¬ done_ → final (report_released w) = w).
Proof.
  intros done_.
  assert (Hex : ∀ l, existsb (λ l, negb (reserved (ad w) (lease_resource l) =? 0)) l = false
    ↔ Forall (λ l, reserved (ad w) (lease_resource l) = 0) l).
  { intros l. induction l as [|x l IH]; cbn; [done|].
    rewrite list.Forall_cons, <- IH. destruct (Z.eqb_spec (reserved (ad w) (lease_resource x)) 0); cbn;
      intuition congruence. }
  assert (Hdone : done_ ↔ lifecycle_state (rt w) = kReleasing
    ∧ existsb (λ l, negb (reserved (ad w) (lease_resource l) =? 0))
        (contract_leases (current_contract (ad w) (execution_id_ (rt w)))) = false)
    by (unfold done_; by rewrite Hex).
  clearbody done_. clear Hex.
  assert (Hwp : wp report_released w (λ r w', ∃ res, r = inr res
    ∧ (pr_outcome res = PreemptionOutcome.kSafePreemptionCompleted ↔ done_)
    ∧ (done_ → w' = w <| rt := (rt w) <| machine_ := mkMachine kResourcesReleased |>
                             <| resources_released_ := true |> |>) ∧ (¬ done_ → w' = w))).
  { unfold report_released. wp_run; prune; eexists; (split; [done|]);
      cbn; split_and!; intuition congruence. }
  unfold wp in Hwp. destruct Hwp as (res & Hr & Hrest). exists res. split; [|done].
  unfold final. rewrite <- Hr. by destruct (report_released w).
Qed.

(** With the reference broker and a contract of this execution, requesting the release
    of durable state and reporting it always ends in [RESOURCES_RELEASED]: nothing stays
    reserved, and every unit that was reserved is booked as released. *)
Theorem release_completes (w : World ReferenceAdapters) :
  lifecycle_state (rt w) = kStateDurable ∨ lifecycle_state (rt w) = kReleasePending →
  state_durable_ (rt w) = true → books_ok (ad w) → contract_execution_ (ad w) = execution_id_ (rt w) →
  let w' := exec_ops [ORequestRelease; OReportReleased] w in
  lifecycle_state (rt w') = kResourcesReleased ∧ resources_released_ (rt w') = true
  ∧ ∀ c, Ref.reserved (ad w') c = 0
         ∧ Ref.released (ad w') c = wrap 64 (Ref.released (ad w) c + Ref.reserved (ad w) c).
Proof.
  intros Hs Hd Hb He w'. unfold w'. rewrite request_release_completes by done. cbn [rt ad].
  split_and!; [done|done|]. apply (release_contract_empties (ad w)); [done|by symmetry].
Qed.

(** C16: the broker's books are exact.  A new contract reserves the units of its leases and
    has released nothing, for leases whose classes each total at most 2^64 - 1.  With well-formed books
    whose classes total at most 2^64 - 1, a release of a contract's own execution and generation
    for units the class has moves exactly these units from reserved to released, a
    reacquisition for units released moves exactly these back; any other call is refused and
    moves nothing; and the books stay well formed with the same totals. *)
Theorem broker_conserves_units a e g leases :
  (Forall (λ l, 0 ≤ lease_units l) leases → (∀ c, leased leases c ≤ u64_max) →
   let a' := Ref.set_contract e g leases a in
   books_ok a' ∧ totals_ok a' ∧ ∀ c, Ref.reserved a' c = leased leases c ∧ Ref.released a' c = 0)
  ∧ ∀ rc units, books_ok a → totals_ok a → 0 ≤ units →
   (let '(res, a') := Ref.request_release e rc units g a in
    let ok := release_granted a e rc units g in
    release_success res = ok ∧ moves rc (if ok then units else 0) a a' ∧ books_ok a' ∧ totals_ok a')
   ∧ (let '(res, a') := Ref.reacquire e rc units g a in
      let ok := reacquire_granted a e rc units in
      reacquire_success res = ok ∧ moves rc (if ok then - units else 0) a a' ∧ books_ok a' ∧ totals_ok a').
Proof.
  split; [apply set_contract_books|]. intros rc units Hb Ht Hu.
  split; [by apply request_release_moves|by apply reacquire_moves].
Qed.

(** C14: a preemption completes: from [ASSESSING] at a valid safe point, with an environment
    that contributes its part, the calls of a preemption reach [PREEMPTED], fence the
    attempt and leave nothing reserved. *)
Theorem preemption_completes report res (w : World ReferenceAdapters) :
  lifecycle_state (rt w) = kAssessing → ready_to_preempt report res w →
  let w' := exec_ops (preemption_ops report res (rt w)) w in
  lifecycle_state (rt w') = kPreempted ∧ is_attempt_authoritative w' = false
  ∧ ∀ c, Ref.reserved (ad w') c = 0.
Proof.
  intros Hs Hready w'. unfold w', preemption_ops. rewrite !exec_ops_app.
  destruct (durable_ops_reach report res w Hs Hready) as (Hs1 & Hq & Hd & Hb & He).
  set (w1 := exec_ops (durable_ops report res (rt w)) w) in *. clearbody w1.
  rewrite request_release_completes by done. cbn [exec_ops].
  match goal with |- context [final (run_op OCommitPreempted ?v)] =>
    destruct (commit_after_release v) as (H1 & H2 & H3 & H4); try done end.
  split_and!; [done|done|]. intros c. unfold Ref.reserved at 1. rewrite H3.
  apply (release_contract_empties (ad w1) (execution_id_ (rt w1))); [done|by symmetry].
Qed.

(** C15: a resume completes: from [PREEMPTED], while the checkpoint is current and the
    dependencies are not stale or missing, the calls of a resume reach [RESUMED] and the
    attempt is authoritative again. *)
Theorem resume_completes (w : World ReferenceAdapters) :
  lifecycle_state (rt w) = kPreempted → ready_to_resume w →
  let w' := exec_ops resume_ops w in
  lifecycle_state (rt w') = kResumed ∧ is_attempt_authoritative w' = true
  ∧ resume_generation_ (rt w') = Generation_next (resume_generation_ (rt w)).
Proof.
  intros Hs [Hck Hdep]. cbn zeta. unfold resume_ops.
  set (P := λ w' : World ReferenceAdapters, lifecycle_state (rt w') = kResumed
    ∧ is_attempt_authoritative w' = true
    ∧ resume_generation_ (rt w') = Generation_next (resume_generation_ (rt w))).
  change (P (exec_ops [ORequestResume; ORevalidate; ORestore; OConfirmResumed] w)).
  assert (Hck' : is_valid (checkpoint_ref_ (rt w)) = true →
    validate_checkpoint (ICheckpointFabric := adapters_checkpoint) (ad w) (checkpoint_ref_ (rt w))
      (checkpoint_generation_ (rt w)) = true
    ∧ (restore_checkpoint (ICheckpointFabric := adapters_checkpoint) (checkpoint_ref_ (rt w)) (checkpoint_generation_ (rt w)) (ad w)).1 = true)
    by (intros Hv; specialize (Hck Hv); by split).
  assert (Hdep' : dependency_blocked (resume_dependencies (IDependencyFabric := adapters_dependency)
    (ad w) (execution_id_ (rt w))) = false) by exact Hdep.
  clear Hck Hdep.
  do 4 (apply (exec_ops_cons _ _ _ P); cbn [run_op]; autounfold with calls; wp_run; prune; try done;
        try (exfalso; intuition congruence)).
  all: unfold P, lifecycle_state, is_attempt_authoritative; cbn;
    rewrite ?bool_decide_eq_true_2 by done; done.
Qed.

(** A world in [ASSESSING] at a reached safe point. *)
Definition assessing : World ReferenceAdapters :=
  final (run_op (OReachSafePoint (mkId 1) 640 true) Scenario.requested).
Definition durable : World ReferenceAdapters :=
  exec_ops (durable_ops Scenario.quiescence Scenario.capture (rt assessing)) assessing.

Lemma books_ok_intro a :
  omap.sorted (reserved_ a) → (∀ c, (0 <=? Ref.reserved a c) && (Ref.reserved a c <=? u64_max)
    && (0 <=? Ref.released a c) && (Ref.released a c <=? u64_max) = true) → books_ok a.
Proof.
  intros Hs Hr. split; [done|]. intros c. specialize (Hr c). bool_props. unfold in_u64. lia.
Qed.

Lemma scenario_books a :
  reserved_ a = reserved_ Scenario.adapters → released_ a = [] → books_ok a.
Proof.
  intros Hr Hl. apply books_ok_intro.
  - rewrite Hr. apply omap.of_list_is_sorted || (vm_compute; repeat constructor).
  - intros c. unfold Ref.reserved, Ref.released. rewrite Hr, Hl. destruct c; vm_compute; reflexivity.
Qed.

Lemma release_completes_witness :
  lifecycle_state (rt (exec_ops [ORequestRelease; OReportReleased] durable)) = kResourcesReleased.
Proof.
  apply (release_completes durable).
  - left. vm_compute. reflexivity.
  - vm_compute. reflexivity.
  - apply scenario_books; vm_compute; reflexivity.
  - vm_compute. reflexivity.
Defined.

(** Three of the four units of device memory are released, and two of them taken back. *)
Lemma broker_conserves_units_witness :
  let a1 := (Ref.request_release Scenario.execution ResourceClass.kDeviceMemory 3 Scenario.contract
       Scenario.adapters).2 in
  let a2 := (Ref.reacquire Scenario.execution ResourceClass.kDeviceMemory 2 Scenario.contract a1).2 in
  moves ResourceClass.kDeviceMemory 3 Scenario.adapters a1 ∧ moves ResourceClass.kDeviceMemory (- 2) a1 a2.
Proof.
  assert (Hb : books_ok Scenario.adapters) by (apply scenario_books; reflexivity).
  assert (Ht : totals_ok Scenario.adapters) by (intros c; destruct c; vm_compute; intros E; discriminate E).
  destruct (proj1 (proj2 (broker_conserves_units Scenario.adapters Scenario.execution Scenario.contract [])
    ResourceClass.kDeviceMemory 3 Hb Ht ltac:(lia))) as (_ & Hm1 & Hb1 & Ht1).
  split; [exact Hm1|].
  destruct (proj2 (proj2 (broker_conserves_units _ Scenario.execution Scenario.contract [])
    ResourceClass.kDeviceMemory 2 Hb1 Ht1 ltac:(lia))) as (_ & Hm2 & _).
  exact Hm2.
Defined.

Lemma assessing_ready : ready_to_preempt Scenario.quiescence Scenario.capture assessing.
Proof.
  split.
  1-4: vm_compute; reflexivity.
  - by split.
  - vm_compute. reflexivity.
  - apply scenario_books; vm_compute; reflexivity.
  - vm_compute. reflexivity.
Qed.

Lemma preemption_completes_witness :
  lifecycle_state
    (rt (exec_ops (preemption_ops Scenario.quiescence Scenario.capture (rt assessing)) assessing))
  = kPreempted.
Proof.
  apply (preemption_completes Scenario.quiescence Scenario.capture assessing);
    [vm_compute; reflexivity|apply assessing_ready].
Defined.

Lemma resume_completes_witness :
  lifecycle_state (rt (exec_ops resume_ops Scenario.preempted)) = kResumed.
Proof.
  apply (resume_completes Scenario.preempted); [vm_compute; reflexivity|].
  split; [vm_compute; reflexivity|vm_compute; reflexivity].
Defined.

End Release.
