(* ===== verification/RuntimeTerminal.v ===== *)
(** * Cancellation, completion and terminal states *)

From S2P Require Import Prelude Exec Identity Enums Lifecycle OrdMap Domains Interfaces ReferenceAdapters.
From S2P Require Import Bytes PersistentState Store Runtime Recovery RuntimeSpec Scenario RuntimeSafety.
From stdpp Require Import base list strings numbers relations.
From Stdlib Require Import ZArith Lia.
Open Scope Z_scope.

Module Terminal.
Import LifecycleState.

(** Calls that begin a new lifecycle or install another one. *)
Definition begins_lifecycle (op : Op) : bool :=
  match op with
  | OStart _ _ _ _ _ _ _ _ | ORequestPreemption _ | ORestoreBytes _ | ORestoreState _ => true
  | _ => false
  end.

Section theorems.
Context {A : Type} `{Adapters A}.
Implicit Types w : World A.

(** C28: a terminal state is final for the request: no sequence of calls and adapter changes
    leaves it, unless it starts an execution, submits a request or restores an image or a
    state. *)
Theorem terminal_is_final env w w' :
  Machine.is_terminal (machine_ (rt w)) = true →
  rtc (step (λ op, begins_lifecycle op = false) env) w w' →
  lifecycle_state (rt w') = lifecycle_state (rt w).
Proof.
  intros Ht Hrtc. induction Hrtc as [w|w1 w2 w3 Hstep _ IH]; [done|].
  assert (Hsame : lifecycle_state (rt w2) = lifecycle_state (rt w1)).
  { destruct Hstep as [op w1 Hop|w1 a' _]; [|done].
    apply (proj1 (wp_final _ _ (λ w', lifecycle_state (rt w') = lifecycle_state (rt w1)))).
    unfold Machine.is_terminal in Ht. run_every_op op; done. }
  rewrite <- Hsame. apply IH. unfold Machine.is_terminal. fold (lifecycle_state (rt w2)).
  by rewrite Hsame.
Qed.

(** Cancellation wins in every state that is not terminal, pending resumes included,
    and records the active request in the history; in a terminal state it does nothing. *)
Theorem cancel_spec w :
  Runtime.cancel w = (inr tt,
    if Machine.is_terminal (machine_ (rt w)) then w
    else w <| rt := (rt w) <| machine_ := mkMachine kCancelled |>
              <| history_ := history_ (rt w) ++
                   match active_request_ (rt w) with
                   | None => []
                   | Some q => [mkPersistentSuperseded (req_id q) (req_generation q) kCancelled]
                   end |> |>).
Proof.
  assert (Hwp : wp Runtime.cancel w (λ r w', r = inr tt ∧ w' =
    if Machine.is_terminal (machine_ (rt w)) then w
    else w <| rt := (rt w) <| machine_ := mkMachine kCancelled |>
              <| history_ := history_ (rt w) ++
                   match active_request_ (rt w) with
                   | None => []
                   | Some q => [mkPersistentSuperseded (req_id q) (req_generation q) kCancelled]
                   end |> |>)).
  { unfold Runtime.cancel, Machine.is_terminal. wp_run; prune; (split; [done|]);
      repeat match goal with E : _ = _ |- _ => rewrite E end; try done.
    rewrite app_nil_r. by destruct w as [[] ?]. }
  unfold wp in Hwp. destruct (Runtime.cancel w) as [r w']. cbn in Hwp. by destruct Hwp as [-> ->].
Qed.

(** C37: completion is ignored once a resume is under way or the lifecycle is over, and
    aborts every other lifecycle.  That includes [PREEMPTED]: an execution that was already
    preempted is aborted by a late completion. *)
Theorem complete_spec w :
  complete w = (inr tt,
    if ignores_completion (lifecycle_state (rt w)) then w else go kAborted w)
  ∧ ignores_completion kPreempted = false.
Proof.
  split; [|done].
  assert (Hwp : wp complete w (λ r w', r = inr tt ∧ w' =
    if ignores_completion (lifecycle_state (rt w)) then w else go kAborted w)).
  { unfold complete. wp_run; split; try done; unfold lifecycle_state in *;
      destruct (state_ (machine_ (rt w))); done. }
  unfold wp in Hwp. destruct (complete w) as [r w']. cbn in Hwp. by destruct Hwp as [-> ->].
Qed.

End theorems.

Lemma terminal_is_final_witness :
  lifecycle_state (rt (exec_ops [OCancel; OComplete; ORevalidate] Scenario.resumed)) = kResumed.
Proof.
  rewrite (terminal_is_final any_env Scenario.resumed).
  - vm_compute. reflexivity.
  - vm_compute. reflexivity.
  - apply exec_ops_rtc. by repeat constructor.
Defined.

End Terminal.
