(* ===== verification/Inspect.v ===== *)
(** * The inspection tool

    Models [src/tools/inspect.cpp]: [dump] prints what a runtime knows about itself, and
    [main] runs it on an image ([--state]) or on a short scenario.  The output is a list of
    lines. *)

From S2P Require Import Prelude Exec Identity Enums Lifecycle OrdMap Domains Interfaces ReferenceAdapters.
From S2P Require Import Bytes PersistentState Store StoreTheorems Runtime Recovery RuntimeSpec RuntimeSafety RuntimeRecovery Scenario.
From stdpp Require Import base list strings numbers pretty.
From Stdlib Require Import ZArith.
Open Scope Z_scope.

Module Inspect.

Definition yes_no (b : bool) : string := if b then "yes" else "no".
(** [%llu], [%zu]. *)
Definition number (z : Z) : string := pretty z.

(** ["  %s: %s\n"] and ["  %s (%s): %s\n"]. *)
Definition entry (e : ExplainEntry) : string := "  " +:+ ex_message e +:+ ": " +:+ ex_detail e.
Definition entry_with_provenance (e : ExplainEntry) : string :=
  "  " +:+ ex_message e +:+ " (" +:+ to_string (ex_provenance e) +:+ "): " +:+ ex_detail e.

Definition safe_point_line (sp : option SafePoint) : string :=
  match sp with
  | Some sp =>
    "current safe point: id=" +:+ number (value (sp_id sp)) +:+ " gen=" +:+ number (value (sp_generation sp))
    +:+ " pos=" +:+ number (sp_progress_position sp)
    +:+ " capture=" +:+ yes_no (sp_state_capture_required sp)
  | None => "current safe point: (none)"
  end.

Section dump.
Context {A : Type} `{Adapters A}.

Definition dump (w : World A) (kind : string) : list string :=
  ["=== Preemption Fabric inspection (" +:+ kind +:+ ") ===";
   "lifecycle: " +:+ to_string (lifecycle_state (rt w));
   "preemptibility: " +:+ to_string (current_preemptibility w);
   "durable progress: " +:+ number (durable_progress w);
   "current position: " +:+ number (current_position w);
   "attempt authoritative: " +:+ yes_no (is_attempt_authoritative w);
   "authoritative request generation: " +:+ number (value (authoritative_request_generation w));
   safe_point_line (current_safe_point w);
   "safe points declared: " +:+ number (safe_point_count w);
   "--- state evidence ---"]%string
  ++ (entry <$> explain_state w)
  ++ ["--- why not preemptible ---"%string]
  ++ (entry_with_provenance <$> explain_why_not_preemptible w)
  ++ ["--- resume blockers ---"%string]
  ++ (entry <$> explain_resume_blockers w).

End dump.

(** The options: the mode is [inspect] with a file, or [scenario]. *)
Record Options := mkOptions { opt_inspect : bool; opt_state_file : string }.
#[export] Instance Options_eta : Eta Options := λ o, mkOptions (opt_inspect o) (opt_state_file o).

Fixpoint parse_options (argv : list string) (o : Options) : Options :=
  match argv with
  | [] => o
  | opt :: rest =>
    match rest with
    | file :: rest' =>
      if bool_decide (opt = "--state"%string)
      then parse_options rest' (o <| opt_inspect := true |> <| opt_state_file := file |>)
      else if bool_decide (opt = "--scenario"%string) then parse_options rest (o <| opt_inspect := false |>)
      else parse_options rest o
    | [] => if bool_decide (opt = "--scenario"%string) then o <| opt_inspect := false |> else o
    end
  end.

Definition adapters : ReferenceAdapters :=
  let a := foldl (λ a c, Ref.set_quiesced c true a) Ref.init (Ref.categories Ref.init) in
  let a := Ref.set_contract (mkId 20) (mkGeneration 1) [mkResourceLease ResourceClass.kDeviceMemory 100] a in
  Ref.set_resume_dependency (mkDependencyView DependencyStatus.kCurrent (mkGeneration 1) false false) a.
Definition world : World ReferenceAdapters := mkWorld (new_runtime (mkGeneration 1) (mkGeneration 1)) adapters.

Definition safe_point : SafePoint :=
  default_SafePoint <| sp_id := mkId 80 |> <| sp_generation := mkGeneration 1 |>
    <| sp_execution_id := mkId 20 |> <| sp_attempt_id := mkId 30 |>
    <| sp_worker_id := mkId 40 |> <| sp_worker_boot_id := mkId 50 |>
    <| sp_state_capture_required := true |> <| sp_checkpoint_required := true |>
    <| sp_invariant := "boundary after segment 3"%string |> <| sp_provenance := EvidenceKind.kReal |>.
Definition request : PreemptionRequest :=
  default_PreemptionRequest <| req_id := mkId 100 |> <| req_generation := mkGeneration 1 |>
    <| req_workload_id := mkId 10 |> <| req_workload_generation := mkGeneration 1 |>
    <| req_execution_id := mkId 20 |> <| req_execution_generation := mkGeneration 1 |>
    <| req_attempt_id := mkId 30 |> <| req_attempt_generation := mkGeneration 1 |>
    <| req_coordinator_epoch := mkGeneration 1 |> <| req_worker_id := mkId 40 |>
    <| req_worker_boot_id := mkId 50 |> <| req_policy_generation := mkGeneration 1 |>
    <| req_authority_generation := mkGeneration 1 |>.

(** The scenario mode: a dump while running and one after the request. *)
Definition scenario : Exec (World ReferenceAdapters) (list string) :=
  start_execution (mkId 10) (mkGeneration 1) (mkId 20) (mkGeneration 1) (mkId 30) (mkGeneration 1)
    (mkId 40) (mkId 50);;
  _ ← declare_safe_point safe_point;
  _ ← publish_progress 100 ProgressKind.kDurable;
  running ← get;
  _ ← request_preemption request;
  requested ← get;
  mret (dump running "running" ++ dump requested "requested").

(** [main]: the lines printed; the exit code is [0] in every mode. *)
Definition main (file : string → option (list byte)) (argv : list string) : Exec (World ReferenceAdapters) (list string * Z) :=
  let o := parse_options argv (mkOptions false EmptyString) in
  put world;;
  if opt_inspect o then
    ok ← load (file (opt_state_file o));
    w ← get;
    mret ((if ok : bool then dump w "persisted state"
           else ["could not load state file " +:+ opt_state_file o])%string, 0)
  else
    out ← scenario;
    mret (out, 0).

(** ** Inspecting an image *)

(** An image of a runtime gives its members back to any fresh runtime, whatever its epoch. *)
Lemma load_image {A} `{Adapters A} (r : PreemptionRuntime) (w0 : World A) :
  state_wf (snapshot r) → encodable (snapshot r) = true → image_valid (snapshot r) →
  load (Some (persist_bytes r)) w0 = (inr true, final (restore_state (snapshot r) w0)).
Proof.
  intros Hwf Henc Hv. cbn [load]. unfold restore_bytes, persist_bytes. rewrite StoreLemmas.decode_encode_gen by done.
  assert (Hver : (snapshot r) <| ps_format_version := PF_PERSISTENCE_VERSION |> = snapshot r) by done.
  by rewrite Hver, (proj2 (validate_state_ok (snapshot r)) Hv).
Qed.

Lemma main_inspects file f c0 w1 :
  load (file f) world = (inr true, w1) →
  main file ["--state"%string; f] c0 = (inr (dump w1 "persisted state", 0), w1).
Proof.
  intros Hload. unfold main.
  change (parse_options ["--state"%string; f] (mkOptions false EmptyString)) with (mkOptions true f).
  cbn [opt_inspect opt_state_file]. unfold put, mbind, Exec_bind. by rewrite Hload.
Qed.

(** The members the dump shows, after a fresh runtime was restored from a snapshot. *)
Lemma restored_members r epoch policy :
  shape_ok r →
  let r1 := restore_members (snapshot r) (new_runtime epoch policy) in
  lifecycle_state r1 = lifecycle_state r ∧ durable_position_ r1 = durable_position_ r
  ∧ current_position_ r1 = durable_position_ r ∧ current_safe_point_ r1 = None
  ∧ value (authoritative_request_generation_ r1)
    = match active_request_ r with Some q => value (req_generation q) | None => 0 end
  ∧ length (safe_points_ r1) = length (safe_points_ r)
  ∧ quiesced_ r1 = quiesced_ r ∧ state_durable_ r1 = state_durable_ r
  ∧ resources_released_ r1 = resources_released_ r.
Proof.
  intros [Hsp Hreq] r1.
  assert (Hs : safe_points_ r1 = (λ p, (p.1, restore_safe_point (snapshot_safe_point p.2))) <$> safe_points_ r).
  { rewrite <- restored_safe_points by done. unfold r1, restore_members.
    by destruct (is_valid (ps_request_id (snapshot r))). }
  rewrite Hs, length_fmap. clear Hs. subst r1. unfold restore_members, request_ok in *.
  cbn [ps_request_id snapshot]. destruct (active_request_ r) as [q|] eqn:E; [rewrite (Hreq q) by done|]; cbn; by rewrite ?E.
Qed.

(** The part of the dump that comes before the explanations. *)
Definition report {A} (w : World A) (preemptibility : PreemptibilityClass) : list string :=
  ["=== Preemption Fabric inspection (persisted state) ===";
   "lifecycle: " +:+ to_string (lifecycle_state (rt w));
   "preemptibility: " +:+ to_string preemptibility;
   "durable progress: " +:+ number (durable_position_ (rt w));
   "current position: " +:+ number (durable_position_ (rt w));
   "attempt authoritative: yes";
   "authoritative request generation: "
     +:+ number (match active_request_ (rt w) with Some q => value (req_generation q) | None => 0 end);
   "current safe point: (none)";
   "safe points declared: " +:+ number (Z.of_nat (length (safe_points_ (rt w))));
   "--- state evidence ---";
   "  lifecycle: " +:+ to_string (lifecycle_state (rt w));
   "  durable_progress: " +:+ number (durable_position_ (rt w));
   "  current_position: " +:+ number (durable_position_ (rt w));
   "  quiesced: " +:+ bool_string (quiesced_ (rt w));
   "  state_durable: " +:+ bool_string (state_durable_ (rt w));
   "  resources_released: " +:+ bool_string (resources_released_ (rt w));
   "--- why not preemptible ---"]%string.

Lemma dump_report {A B} `{Adapters A} (w : World B) (w1 : World A) epoch policy :
  rt w1 = restore_members (snapshot (rt w)) (new_runtime epoch policy) →
  shape_ok (rt w) → is_attempt_authoritative w1 = true →
  dump w1 "persisted state" = report w (current_preemptibility w1)
    ++ (entry_with_provenance <$> explain_why_not_preemptible w1)
    ++ ["--- resume blockers ---"%string] ++ (entry <$> explain_resume_blockers w1).
Proof.
  intros Hr1 Hshape Hauth. pose proof (restored_members (rt w) epoch policy Hshape)
    as (Hl & Hd & Hc & Hs & Hg & Hn & Hq & Hdu & Hre). rewrite <- Hr1 in *. clear Hr1.
  unfold dump, explain_state, durable_progress, current_position, authoritative_request_generation,
    current_safe_point, safe_point_count, explain. rewrite Hl, Hd, Hc, Hs, Hg, Hn, Hq, Hdu, Hre, Hauth.
  unfold report, number. reflexivity.
Qed.

(** C34: inspecting a saved image reports the runtime that saved it: from any reachable
    runtime whose image the store accepts, [--state] prints its lifecycle, its durable
    progress, the generation of its request, the number of its safe points and its evidence;
    the position is the durable one, no safe point is current, and the recorded attempt is
    reported as authoritative in every lifecycle, because loading gives authority back. *)
Theorem inspect_reports_image {A} `{Adapters A} (w : World A) file f c0 :
  reachable op_in_range any_env w → wf (epoch_ (rt w)) → wf (policy_generation_ (rt w)) →
  image_valid (snapshot (rt w)) → encodable (snapshot (rt w)) = true →
  file f = Some (persist_bytes (rt w)) →
  ∃ preemptibility rest w1,
    main file ["--state"%string; f] c0 = (inr (report w preemptibility ++ rest, 0), w1).
Proof.
  intros Hw He Hp Hv Henc Hf.
  destruct (reachable_members_wf w Hw He Hp) as [Hwf _].
  assert (Hshape : shape_ok (rt w)) by (by eapply reachable_shape).
  pose proof (load_image (rt w) world Hwf Henc Hv) as Hload.
  assert (Hr1 : rt (final (restore_state (snapshot (rt w)) world))
    = restore_members (snapshot (rt w)) (new_runtime (mkGeneration 1) (mkGeneration 1))) by done.
  assert (Hauth : is_attempt_authoritative (final (restore_state (snapshot (rt w)) world)) = true).
  { unfold is_attempt_authoritative. cbn. by rewrite !bool_decide_eq_true_2. }
  generalize dependent (final (restore_state (snapshot (rt w)) world)). intros w1 Hload Hr1 Hauth.
  eexists (current_preemptibility w1), _, w1.
  rewrite <- (dump_report w w1 _ _ Hr1 Hshape Hauth), <- Hf in *. apply main_inspects. exact Hload.
Qed.

Lemma inspect_reports_image_witness :
  ∃ rest w1, main (λ _, Some (persist_bytes (rt Scenario.preempted))) ["--state"%string; "image"%string] world
    = (inr (["=== Preemption Fabric inspection (persisted state) ==="; "lifecycle: PREEMPTED"]%string ++ rest, 0), w1).
Proof.
  destruct (inspect_reports_image Scenario.preempted (λ _, Some (persist_bytes (rt Scenario.preempted))) "image" world)
    as (p & rest & w1 & Hrun).
  - apply exec_ops_reachable; [apply Scenario.world0_initial|apply Restart.scenario_in_range].
  - vm_compute. split; intros E; discriminate E.
  - vm_compute. split; intros E; discriminate E.
  - apply validate_state_ok. vm_compute. reflexivity.
  - vm_compute. reflexivity.
  - reflexivity.
  - eexists _, w1. rewrite Hrun. reflexivity.
Defined.

End Inspect.
