(* ===== verification/Clients.v ===== *)
(** * Programs that use the runtime

    Models [examples/basic_preemption.cpp], [examples/forced_termination.cpp] and
    [downstream_consumer/main.cpp]: each sets up the reference adapters, drives one runtime
    and prints what it sees.  A program returns the lines it printed and its exit code. *)

From S2P Require Import Prelude Exec Identity Enums Lifecycle OrdMap Domains Interfaces ReferenceAdapters.
From S2P Require Import Bytes PersistentState Runtime.
From stdpp Require Import base list strings numbers pretty.
From Stdlib Require Import ZArith.
Open Scope Z_scope.

Module Clients.
Abbreviation Program := (Exec (World ReferenceAdapters)).

(** [for (auto c : ad.categories()) ad.set_quiesced(c, q);] *)
Definition set_all_quiesced (q : bool) (a : ReferenceAdapters) : ReferenceAdapters :=
  foldl (λ a c, Ref.set_quiesced c q a) a (Ref.categories a).
Definition contract (a : ReferenceAdapters) : ReferenceAdapters :=
  Ref.set_contract (mkId 20) (mkGeneration 1) [mkResourceLease ResourceClass.kDeviceMemory 100] a.
Definition dependencies_current (a : ReferenceAdapters) : ReferenceAdapters :=
  Ref.set_resume_dependency (mkDependencyView DependencyStatus.kCurrent (mkGeneration 1) false false) a.
(** [PreemptionRuntime rt(CoordinatorEpoch(1), PolicyGeneration(1), ad);] *)
Definition new_world (a : ReferenceAdapters) : World ReferenceAdapters :=
  mkWorld (new_runtime (mkGeneration 1) (mkGeneration 1)) a.

Definition start : Program unit :=
  start_execution (mkId 10) (mkGeneration 1) (mkId 20) (mkGeneration 1) (mkId 30) (mkGeneration 1)
    (mkId 40) (mkId 50).
Definition boundary (invariant : string) : SafePoint :=
  default_SafePoint <| sp_id := mkId 80 |> <| sp_generation := mkGeneration 1 |>
    <| sp_execution_id := mkId 20 |> <| sp_attempt_id := mkId 30 |>
    <| sp_worker_id := mkId 40 |> <| sp_worker_boot_id := mkId 50 |>
    <| sp_state_capture_required := true |> <| sp_checkpoint_required := true |>
    <| sp_invariant := invariant |>.
(** The request, without workload and without authority generation. *)
Definition request (id : Z) (reason : PreemptionReason) : PreemptionRequest :=
  default_PreemptionRequest <| req_id := mkId id |> <| req_generation := mkGeneration 1 |>
    <| req_execution_id := mkId 20 |> <| req_execution_generation := mkGeneration 1 |>
    <| req_attempt_id := mkId 30 |> <| req_attempt_generation := mkGeneration 1 |>
    <| req_coordinator_epoch := mkGeneration 1 |> <| req_worker_id := mkId 40 |>
    <| req_worker_boot_id := mkId 50 |> <| req_reason := reason |>
    <| req_policy_generation := mkGeneration 1 |>.
Definition quiescence (fully : bool) : QuiescenceReport :=
  mkQuiescenceReport (mkGeneration 1) (mkId 40) (mkId 50) fully [] EvidenceKind.kUnknown.

(** [rt.report_state_captured( *ad.last_capture())]: reading an empty [optional] is undefined
    behaviour; an error stands for it, so that a program that returns did not do it. *)
Definition report_last_capture : Program PreemptionResult :=
  w ← get;
  match last_capture_ (ad w) with
  | Some r => report_state_captured r
  | None => throw (mkPreemptionError "undefined" "empty optional read")
  end.
Definition lifecycle : Program LifecycleState := w ← get; mret (lifecycle_state (rt w)).

(** From the report of quiescence to the commit. *)
Definition preempt : Program PreemptionResult :=
  _ ← report_quiesced (quiescence true);
  _ ← request_state_capture;
  _ ← report_last_capture;
  _ ← request_release;
  _ ← report_released;
  commit_preempted.

Definition digit (b : bool) : string := if b then "1" else "0".

(** ** [examples/basic_preemption.cpp] *)

Definition basic_preemption : Program (list string * Z) :=
  put (new_world (dependencies_current (contract (set_all_quiesced true Ref.init))));;
  start;;
  _ ← declare_safe_point (boundary "boundary after segment 3");
  _ ← publish_progress 100 ProgressKind.kDurable;
  _ ← request_preemption (request 100 PreemptionReason.kCapacityPressure);
  _ ← begin_quiesce;
  reach_safe_point (mkId 80) 500 true;;
  _ ← begin_quiesce;
  cp ← preempt;
  s1 ← lifecycle;
  fenced ← publish_progress 900 ProgressKind.kDurable;
  _ ← request_resume;
  _ ← revalidate;
  _ ← restore;
  rm ← confirm_resumed;
  s2 ← lifecycle;
  _ ← publish_progress 600 ProgressKind.kDurable;
  w ← get;
  mret (["preempted outcome=" +:+ to_string (pr_outcome cp) +:+ " lifecycle=" +:+ to_string s1;
         "outcome publish_progress while fenced=" +:+ digit fenced;
         "resumed outcome=" +:+ to_string (pr_outcome rm) +:+ " lifecycle=" +:+ to_string s2;
         "durable progress after resume=" +:+ pretty (durable_progress w)]%string, 0).

(** ** [downstream_consumer/main.cpp] *)

Definition downstream_consumer : Program (list string * Z) :=
  put (new_world (dependencies_current (contract (set_all_quiesced true Ref.init))));;
  start;;
  _ ← declare_safe_point (boundary "");
  _ ← publish_progress 100 ProgressKind.kDurable;
  adm ← request_preemption (request 1 PreemptionReason.kUnknown);
  _ ← begin_quiesce;
  reach_safe_point (mkId 80) 500 true;;
  _ ← begin_quiesce;
  cp ← preempt;
  w ← get;
  mret (["downstream consumer: request="
           +:+ (if bool_decide (adm_code adm = RequestAdmissionCode.kAccepted) then "accepted" else "rejected")
           +:+ " preempted=" +:+ to_string (pr_outcome cp)
           +:+ " lifecycle=" +:+ to_string (lifecycle_state (rt w))
           +:+ " durable=" +:+ pretty (durable_progress w)]%string,
        if bool_decide (pr_outcome cp = PreemptionOutcome.kSafePreemptionCompleted) then 0 else 1).

(** ** [examples/forced_termination.cpp] *)

Definition forced_termination : Program (list string * Z) :=
  put (new_world (contract (set_all_quiesced false Ref.init)));;
  start;;
  _ ← declare_safe_point (boundary "");
  _ ← publish_progress 100 ProgressKind.kDurable;
  _ ← request_preemption (request 1 PreemptionReason.kUnknown);
  _ ← begin_quiesce;
  reach_safe_point (mkId 80) 500 true;;
  _ ← begin_quiesce;
  qr ← report_quiesced (quiescence false);
  cp ← commit_preempted;
  s ← lifecycle;
  mret (["forced termination: quiesce outcome=" +:+ to_string (pr_outcome qr)
           +:+ ", PREEMPTED outcome=" +:+ to_string (pr_outcome cp) +:+ ", lifecycle=" +:+ to_string s;
         "safe preemption claimed? "
           +:+ (if bool_decide (s = LifecycleState.kPreempted) then "YES (BUG)" else "no (correct)")]%string, 0).

(** The programs that come with the library do what their comments announce: the basic
    example preempts, is refused as the fenced attempt, resumes and continues from the
    preserved boundary; the downstream consumer preempts and exits with [0]; the forced
    termination is not reported as a preemption.  None of them throws or reads an empty
    [optional]. *)
Theorem clients_run w0 :
  fst (basic_preemption w0) = inr
    (["preempted outcome=SAFE_PREEMPTION_COMPLETED lifecycle=PREEMPTED";
      "outcome publish_progress while fenced=0";
      "resumed outcome=SAFE_PREEMPTION_COMPLETED lifecycle=RESUMED";
      "durable progress after resume=600"]%string, 0)
  ∧ fst (downstream_consumer w0) = inr
    (["downstream consumer: request=accepted preempted=SAFE_PREEMPTION_COMPLETED lifecycle=PREEMPTED durable=100"]%string, 0)
  ∧ fst (forced_termination w0) = inr
    (["forced termination: quiesce outcome=CANNOT_PREEMPT_SAFELY, PREEMPTED outcome=CANNOT_PREEMPT_SAFELY, lifecycle=QUIESCING";
      "safe preemption claimed? no (correct)"]%string, 0).
Proof. split_and!; vm_compute; reflexivity. Qed.

End Clients.
