(* ===== verification/Cuda.v ===== *)
(** * The CUDA proof

    Models [cuda/cuda_proof.cu]: segmented work on a device, preempted and resumed by the
    runtime at the boundaries between kernels, and compared with a computation on the host.
    Floats are the binary32 of the Standard Library's [SpecFloat], rounded to nearest; the
    CUDA runtime is a parameter ([CudaApi]) with its documented behaviour as laws
    ([CudaLaws]). *)

From S2P Require Import Prelude Exec Identity Enums Lifecycle OrdMap Domains Interfaces ReferenceAdapters.
From S2P Require Import Bytes PersistentState Runtime Recovery.
From stdpp Require Import base list strings numbers pretty gmap.
From Stdlib Require Import ZArith SpecFloat.
Open Scope Z_scope.

(** ** [float] *)

Abbreviation float := spec_float.
#[export] Instance float_inhabited : Inhabited float := populate (S754_zero false).
Definition fmul : float → float → float := SFmul 24 128.
Definition fadd : float → float → float := SFadd 24 128.
Definition fsub : float → float → float := SFsub 24 128.
Definition fgt (x y : float) : bool := SFltb y x.
(** [static_cast<float>(i)]. *)
Definition float_of_Z (i : Z) : float := binary_normalize 24 128 i 0 false.
(** The literal [n / d], whose numerator and denominator are exact. *)
Definition literal (n d : Z) : float := SFdiv 24 128 (float_of_Z n) (float_of_Z d).

(** ** The CUDA runtime *)

Record Thread := mkThread { blockIdx : Z; blockDim : Z; threadIdx : Z }.
(** The threads of [<<<grid, block>>>]. *)
Definition threads (grid block : nat) : list Thread :=
  b ← seq 0 grid; t ← seq 0 block; [mkThread (Z.of_nat b) (Z.of_nat block) (Z.of_nat t)].
(** The effect of one thread on a buffer of floats. *)
Abbreviation Kernel := (Thread → list float → list float).

Class CudaApi (D : Type) := {
  (** [cudaMalloc] of that many floats, if it succeeds. *)
  cuda_malloc : nat → D → option Z * D;
  cuda_free : Z → D → D;
  (** [cudaMemcpy], host to device and device to host. *)
  cuda_copy_in : Z → list float → D → D;
  cuda_copy_out : Z → nat → D → list float;
  (** A launch on a buffer, and [cudaDeviceSynchronize]. *)
  cuda_launch : nat → nat → Kernel → Z → D → D;
  (** The free memory [cudaMemGetInfo] reports at this moment. *)
  cuda_mem_free : D → Z * D
}.

(** Allocations are buffers of their own; a launch runs every thread of the grid, in any
    order.  Nothing is said of the free memory reported, a snapshot that other processes and
    the driver's own reservations move; asking for it leaves the buffers as they are. *)
Class CudaLaws (D : Type) `{CudaApi D} := {
  contents : D → gmap Z (list float);
  cuda_malloc_spec n d :
    match cuda_malloc n d with
    | (Some p, d') => contents d !! p = None
        ∧ ∃ junk, length junk = n ∧ contents d' = <[p := junk]> (contents d)
    | (None, d') => contents d' = contents d
    end;
  cuda_free_spec p d : contents (cuda_free p d) = delete p (contents d);
  cuda_copy_in_spec p data old d :
    contents d !! p = Some old → length old = length data →
    contents (cuda_copy_in p data d) = <[p := data]> (contents d);
  cuda_copy_out_spec p data d :
    contents d !! p = Some data → cuda_copy_out p (length data) d = data;
  cuda_launch_spec grid block (k : Kernel) p data d :
    contents d !! p = Some data →
    ∃ order, order ≡ₚ threads grid block
      ∧ contents (cuda_launch grid block k p d) = <[p := foldl (λ l t, k t l) data order]> (contents d);
  cuda_mem_free_spec d : contents (cuda_mem_free d).2 = contents d
}.

Module CudaProof.

(** ** The kernel and the computation on the host *)

Definition scale_kernel (n : Z) (factor : float) : Kernel := λ t state,
  let i := blockIdx t * blockDim t + threadIdx t in
  if i <? n then alter (λ x, fmul x factor) (Z.to_nat i) state else state.

Definition kN : nat := Z.to_nat 10000.
Definition kTol : float := Eval vm_compute in literal 1 10000.

(** [for (i ...) input[i] = 0.5f + static_cast<float>(i) * 1e-3f;] *)
Definition half : float := Eval vm_compute in literal 1 2.
Definition milli : float := Eval vm_compute in literal 1 1000.
Fixpoint input_from (i : Z) (n : nat) : list float :=
  match n with
  | O => []
  | S n => fadd half (fmul (float_of_Z i) milli) :: input_from (i + 1) n
  end.
Definition input : list float := input_from 0 kN.

Definition cpu_reference (input factors : list float) : list float :=
  let prod := foldl fmul (literal 1 1) factors in
  (λ x, fmul x prod) <$> input.

(** The first index where the values differ by more than [kTol]. *)
Fixpoint mismatch (i : Z) (host expected : list float) : option (Z * float * float) :=
  match host, expected with
  | h :: host, e :: expected =>
    if fgt (SFabs (fsub h e)) kTol then Some (i, h, e) else mismatch (i + 1) host expected
  | _, _ => None
  end.

Definition factors_a : list float := Eval vm_compute in
  [literal 1 1; literal 101 100; literal 102 100; literal 103 100; literal 104 100].
Definition factors_b : list float := Eval vm_compute in [literal 1 1; literal 101 100; literal 102 100].

(** ** The runtime of a scenario *)

Definition configure (a : ReferenceAdapters) : ReferenceAdapters :=
  let a := foldl (λ a c, Ref.set_quiesced c true a) a (Ref.categories a) in
  let a := Ref.set_contract (mkId 20) (mkGeneration 1)
             [mkResourceLease ResourceClass.kDeviceMemory (Z.of_nat kN * 4)] a in
  Ref.set_resume_dependency (mkDependencyView DependencyStatus.kCurrent (mkGeneration 1) false false) a.

Definition make_req : PreemptionRequest :=
  default_PreemptionRequest <| req_id := mkId 100 |> <| req_generation := mkGeneration 1 |>
    <| req_workload_id := mkId 10 |> <| req_workload_generation := mkGeneration 1 |>
    <| req_execution_id := mkId 20 |> <| req_execution_generation := mkGeneration 1 |>
    <| req_attempt_id := mkId 30 |> <| req_attempt_generation := mkGeneration 1 |>
    <| req_coordinator_epoch := mkGeneration 1 |> <| req_worker_id := mkId 40 |>
    <| req_worker_boot_id := mkId 50 |> <| req_reason := PreemptionReason.kCapacityPressure |>
    <| req_policy_generation := mkGeneration 1 |> <| req_authority_generation := mkGeneration 1 |>.

Definition boundary : SafePoint :=
  default_SafePoint <| sp_id := mkId 80 |> <| sp_generation := mkGeneration 1 |>
    <| sp_execution_id := mkId 20 |> <| sp_attempt_id := mkId 30 |>
    <| sp_worker_id := mkId 40 |> <| sp_worker_boot_id := mkId 50 |>
    <| sp_state_capture_required := true |> <| sp_checkpoint_required := true |>
    <| sp_invariant := "runtime safe point between real kernel segments"%string |>
    <| sp_provenance := EvidenceKind.kReal |>.
Definition quiescence : QuiescenceReport :=
  mkQuiescenceReport (mkGeneration 1) (mkId 40) (mkId 50) true [] EvidenceKind.kUnknown.

(** The lines printed, without the blank ones. *)
Inductive Line :=
  | Text (s : string)
  | ParityMismatch (i : Z) (got expected : float).

Record Run (D : Type) := mkRun {
  run_world : World ReferenceAdapters;
  run_device : D;
  run_out : list Line
}.
Arguments mkRun {D}.
Arguments run_world {D}.
Arguments run_device {D}.
Arguments run_out {D}.
#[export] Instance Run_eta D : Eta (Run D) := λ r, mkRun (run_world r) (run_device r) (run_out r).

Section program.
Context {D : Type} `{CudaApi D}.
Abbreviation Do := (Exec (Run D)).

Definition runtime {B} (m : Exec (World ReferenceAdapters) B) : Do B :=
  zoom run_world (λ w r, r <| run_world := w |>) m.
Definition device (f : D → D) : Do unit := modify (λ r, r <| run_device := f (run_device r) |>).
Definition print (l : Line) : Do unit := modify (λ r, r <| run_out := run_out r ++ [l] |>).
Definition say (s : string) : Do unit := print (Text s).

(** [DeviceState::alloc] and [free]; [run_segment]. *)
Definition alloc : Do (option Z) :=
  zoom run_device (λ d r, r <| run_device := d |>) (λ d, (inr (cuda_malloc kN d).1, (cuda_malloc kN d).2)).
Definition free (p : Z) : Do unit := device (cuda_free p).
Definition run_segment (p : Z) (factor : float) : Do unit :=
  device (cuda_launch ((kN + 255) / 256) 256 (scale_kernel (Z.of_nat kN) factor) p).
(** [for (...) run_segment(s, factors[j]);] *)
Definition run_segments (p : Z) (factors : list float) : Do unit :=
  foldr (λ f k, run_segment p f;; k) (mret tt) factors.
Definition copy_in (p : Z) (data : list float) : Do unit := device (cuda_copy_in p data).
Definition copy_out (p : Z) : Do (list float) := r ← get; mret (cuda_copy_out p kN (run_device r)).
Definition device_free : Do Z :=
  zoom run_device (λ d r, r <| run_device := d |>) (λ d, (inr (cuda_mem_free d).1, (cuda_mem_free d).2)).

Definition check_parity (expected : list float) (p : Z) : Do bool :=
  host ← copy_out p;
  match mismatch 0 host expected with
  | Some (i, h, e) => print (ParityMismatch i h e);; mret false
  | None => mret true
  end.

(** A new runtime over adapters, and the start of the execution with its boundary. *)
Definition new_rt (epoch : Z) (a : ReferenceAdapters) : Do unit :=
  modify (λ r, r <| run_world := mkWorld (new_runtime (mkGeneration epoch) (mkGeneration 1)) a |>).
Definition start : Do unit :=
  runtime (start_execution (mkId 10) (mkGeneration 1) (mkId 20) (mkGeneration 1) (mkId 30) (mkGeneration 1)
             (mkId 40) (mkId 50)).
Definition declare_boundary : Do SafePointId := runtime (declare_safe_point boundary).
(** [if (ad.last_capture()) rt.report_state_captured( *ad.last_capture());] *)
Definition report_last_capture : Do unit :=
  runtime (w ← get;
    match last_capture_ (ad w) with
    | Some c => _ ← report_state_captured c; mret tt
    | None => mret tt
    end).
Definition lifecycle : Do LifecycleState := runtime (w ← get; mret (lifecycle_state (rt w))).
Definition reach (position : Z) (capture : bool) : Do unit := runtime (reach_safe_point (mkId 80) position capture).
Definition publish (position : Z) : Do bool := runtime (publish_progress position ProgressKind.kDurable).

Definition completed (o : PreemptionOutcome) : bool :=
  bool_decide (o = PreemptionOutcome.kSafePreemptionCompleted).
(** [if (!c) ++failures;] *)
Definition failed (c : bool) : Z := if c then 0 else 1.
Definition pass (b : bool) : string := if b then "PASS" else "FAIL".
Definition yes (b : bool) : string := if b then "yes" else "no".
Definition mib (n : Z) : string := pretty (Z.shiftr n 20).
(** [std::abs(after - base) < (8 << 20)]. *)
Definition near (base after : Z) : bool := Z.abs (after - base) <? Z.shiftl 8 20.

(** A scenario gives the number of its failures, or [None] when it ends the program. *)
Definition or_stop (message : list string) (k : Z → Do (option Z)) : Do (option Z) :=
  p ← alloc;
  match p with
  | Some p => k p
  | None => modify (λ r, r <| run_out := run_out r ++ (Text <$> message) |>);; mret None
  end.

(** ** Scenario A *)

Definition scenario_a (base : Z) : Do (option Z) :=
  say "--- Scenario A: safe cooperative preemption with durable state + CPU parity (REAL) ---";;
  new_rt 1 (configure Ref.init);;
  start;;
  _ ← declare_boundary;
  or_stop ["  cudaMalloc failed"%string] (λ p,
    copy_in p input;;
    run_segment p (factors_a !!! 0%nat);;
    reach 100 false;;
    _ ← publish 100;
    run_segment p (factors_a !!! 1%nat);;
    reach 200 true;;
    _ ← publish 200;
    _ ← runtime (request_preemption make_req);
    _ ← runtime begin_quiesce;
    _ ← runtime (report_quiesced quiescence);
    _ ← runtime request_state_capture;
    report_last_capture;;
    _ ← runtime request_release;
    _ ← runtime report_released;
    free p;;
    cp ← runtime commit_preempted;
    s ← lifecycle;
    say ("  PREEMPTED: outcome=" +:+ to_string (pr_outcome cp) +:+ " lifecycle=" +:+ to_string s);;
    or_stop ["  realloc failed"%string] (λ p,
      _ ← runtime request_resume;
      _ ← runtime revalidate;
      _ ← runtime restore;
      let recompute := foldl (λ l f, (λ x, fmul x f) <$> l) input (take 2 factors_a) in
      copy_in p recompute;;
      rm ← runtime confirm_resumed;
      s ← lifecycle;
      say ("  RESUMED: outcome=" +:+ to_string (pr_outcome rm) +:+ " lifecycle=" +:+ to_string s);;
      run_segments p (drop 2 factors_a);;
      parity ← check_parity (cpu_reference input factors_a) p;
      say ("  CPU parity: " +:+ pass parity);;
      free p;;
      after ← device_free;
      say ("  device memory returned to baseline: " +:+ pass (near base after) +:+ " (" +:+ mib base
           +:+ " MiB base, " +:+ mib after +:+ " MiB after)");;
      mret (Some (failed (completed (pr_outcome cp)) + failed parity + failed (near base after))))).

(** ** Scenario B *)

Definition scenario_b : Do (option Z) :=
  say "--- Scenario B: state capture required (real device copyback) [REAL] ---";;
  new_rt 1 (configure Ref.init);;
  start;;
  _ ← declare_boundary;
  or_stop [] (λ p,
    copy_in p input;;
    run_segment p (factors_b !!! 0%nat);;
    reach 100 true;;
    _ ← publish 100;
    run_segment p (factors_b !!! 1%nat);;
    reach 200 true;;
    _ ← publish 200;
    _ ← runtime (request_preemption make_req);
    _ ← runtime begin_quiesce;
    _ ← runtime (report_quiesced quiescence);
    captured ← copy_out p;
    _ ← runtime request_state_capture;
    report_last_capture;;
    _ ← runtime request_release;
    _ ← runtime report_released;
    free p;;
    _ ← runtime commit_preempted;
    say "  state captured (real D2H copyback) and device memory freed";;
    or_stop [] (λ p,
      _ ← runtime request_resume;
      _ ← runtime revalidate;
      _ ← runtime restore;
      copy_in p captured;;
      _ ← runtime confirm_resumed;
      run_segment p (factors_b !!! 2%nat);;
      parity ← check_parity (cpu_reference input factors_b) p;
      say ("  CPU parity: " +:+ pass parity);;
      free p;;
      mret (Some (failed parity)))).

(** ** Scenario D *)

Definition scenario_d : Do (option Z) :=
  say "--- Scenario D: invalid boundary returns DEFER_TO_SAFE_POINT [REAL] ---";;
  new_rt 1 (configure Ref.init);;
  start;;
  _ ← declare_boundary;
  or_stop [] (λ p,
    copy_in p input;;
    _ ← runtime (request_preemption make_req);
    bq ← runtime begin_quiesce;
    s ← lifecycle;
    say ("  begin_quiesce outcome=" +:+ to_string (pr_outcome bq) +:+ " lifecycle=" +:+ to_string s);;
    run_segment p (literal 1 1);;
    reach 100 false;;
    _ ← runtime begin_quiesce;
    _ ← runtime (report_quiesced quiescence);
    _ ← runtime request_state_capture;
    _ ← runtime request_release;
    _ ← runtime report_released;
    cp ← runtime commit_preempted;
    say ("  after reaching boundary, PREEMPTED=" +:+ to_string (pr_outcome cp));;
    free p;;
    mret (Some (failed (bool_decide (pr_outcome bq = PreemptionOutcome.kDeferToSafePoint))
                + failed (completed (pr_outcome cp))))).

(** ** Scenario E *)

Definition scenario_e : Do (option Z) :=
  say "--- Scenario E: stale authority rejected before launch [REAL] ---";;
  new_rt 1 (configure Ref.init);;
  start;;
  _ ← declare_boundary;
  or_stop [] (λ p,
    copy_in p input;;
    _ ← publish 100;
    _ ← runtime (request_preemption make_req);
    _ ← runtime begin_quiesce;
    reach 100 false;;
    _ ← runtime begin_quiesce;
    _ ← runtime (report_quiesced quiescence);
    _ ← runtime request_state_capture;
    report_last_capture;;
    _ ← runtime request_release;
    _ ← runtime report_released;
    _ ← runtime commit_preempted;
    old_authoritative ← publish 900;
    say ("  old attempt publish_progress after PREEMPTED: "
         +:+ (if old_authoritative : bool then "1" else "0") +:+ " (expect 0)");;
    _ ← runtime request_resume;
    _ ← runtime revalidate;
    _ ← runtime restore;
    rm ← runtime confirm_resumed;
    let resumed := completed (pr_outcome rm) in
    say ("  fresh authority obtained: " +:+ yes resumed +:+ " (attempt gen advanced)");;
    free p;;
    mret (Some (failed (negb (old_authoritative || negb resumed))))).

(** ** Scenario F/G *)

Definition scenario_f : Do (option Z) :=
  say "--- Scenario F/G: worker loss & coordinator restart (host-simulated, SYNTHETIC) ---";;
  new_rt 1 (configure Ref.init);;
  start;;
  _ ← declare_boundary;
  _ ← publish 100;
  runtime (set_worker_incarnation (mkId 40) (mkId 0));;
  _ ← runtime (request_preemption make_req);
  _ ← runtime begin_quiesce;
  quiesce_result ← runtime (report_quiesced quiescence);
  cp ← runtime commit_preempted;
  say ("  worker loss before capture: quiesce=" +:+ to_string (pr_outcome quiesce_result)
       +:+ " PREEMPTED=" +:+ to_string (pr_outcome cp) +:+ " (must not be safe preemption)");;
  r ← get;
  new_rt 1 (ad (run_world r));;
  start;;
  _ ← declare_boundary;
  _ ← publish 100;
  _ ← runtime (request_preemption make_req);
  _ ← runtime begin_quiesce;
  reach 200 true;;
  _ ← runtime begin_quiesce;
  _ ← runtime (report_quiesced quiescence);
  _ ← runtime request_state_capture;
  report_last_capture;;
  _ ← runtime request_release;
  _ ← runtime report_released;
  _ ← runtime commit_preempted;
  r ← get;
  let bytes := persist_bytes (rt (run_world r)) in
  new_rt 2 (ad (run_world r));;
  recovered ← runtime (restore_bytes bytes);
  runtime (set_worker_incarnation (mkId 40) (mkId 600));;
  _ ← runtime request_resume;
  _ ← runtime revalidate;
  _ ← runtime restore;
  rm ← runtime confirm_resumed;
  say ("  coordinator restart: recovered=" +:+ (if recovered : bool then "1" else "0")
       +:+ ", resumed after revalidation=" +:+ yes (completed (pr_outcome rm)));;
  mret (Some (failed (negb (completed (pr_outcome cp)))
              + failed (negb (negb recovered || negb (completed (pr_outcome rm)))))).

(** ** [main] *)

(** One scenario after another, until one ends the program. *)
Fixpoint run_scenarios (scenarios : list (Do (option Z))) (failures : Z) : Do (option Z) :=
  match scenarios with
  | [] => mret (Some failures)
  | s :: rest =>
    n ← s;
    match n with
    | Some n => run_scenarios rest (failures + n)
    | None => mret None
    end
  end.

Definition main : Do Z :=
  say "=== Preemption Fabric CUDA proof: NVIDIA RTX 5090 (sm_120) ===";;
  say "interruption mode: cooperative boundaries between real kernel segments";;
  say "claimed hardware features: NONE beyond cooperative boundaries";;
  base ← device_free;
  say ("baseline device free memory: " +:+ mib base +:+ " MiB");;
  total ← run_scenarios [scenario_a base; scenario_b; scenario_d; scenario_e; scenario_f] 0;
  match total with
  | None => mret 1
  | Some failures =>
    say ("=== CUDA proof complete: FAILURES=" +:+ pretty failures +:+ " ===");;
    mret (failed (failures =? 0))
  end.

End program.
End CudaProof.
