(* ===== verification/CudaTheorems.v ===== *)
(** * Theorems about the CUDA proof

    The kernel scales every element whatever the order of its threads, and on every device
    that behaves as documented and has memory the program ends with no failure and with all
    of its memory returned. *)

From S2P Require Import Prelude Exec Identity Enums Lifecycle OrdMap Domains Interfaces ReferenceAdapters.
From S2P Require Import Bytes PersistentState Runtime Recovery Cuda.
From stdpp Require Import base list strings numbers pretty gmap.
From Stdlib Require Import ZArith SpecFloat Lia.
Open Scope Z_scope.
Import CudaProof.

(** ** The kernel *)

Definition thread_index (t : Thread) : nat := Z.to_nat (blockIdx t * blockDim t + threadIdx t).

Lemma block_indices b block k : ∀ t,
  thread_index <$> (u ← seq t k; [mkThread (Z.of_nat b) (Z.of_nat block) (Z.of_nat u)]) = seq (b * block + t) k.
Proof.
  induction k as [|k IH]; intros t; [done|]. cbn [seq mbind list_bind app fmap list_fmap].
  f_equal; [unfold thread_index; cbn; lia|].
  etrans; [apply (IH (S t))|]. f_equal. lia.
Qed.

Lemma grid_indices grid block : ∀ start,
  thread_index <$> (b ← seq start grid; t ← seq 0 block; [mkThread (Z.of_nat b) (Z.of_nat block) (Z.of_nat t)])
  = seq (start * block) (grid * block).
Proof.
  induction grid as [|grid IH]; intros start; [done|]. cbn [seq]. rewrite bind_cons, fmap_app, block_indices.
  cbn [Nat.mul]. rewrite seq_app, (IH (S start)). f_equal; f_equal; lia.
Qed.

Lemma thread_indices grid block : thread_index <$> threads grid block = seq 0 (grid * block).
Proof. apply (grid_indices grid block 0). Qed.

Lemma thread_nonneg grid block t : t ∈ threads grid block → 0 ≤ blockIdx t * blockDim t + threadIdx t.
Proof.
  unfold threads. intros (b & (u & Hu & _)%list_elem_of_bind & _)%list_elem_of_bind.
  apply list_elem_of_singleton in Hu as ->. cbn. lia.
Qed.

Lemma foldl_alter {T} (f : T → T) (ks : list nat) : ∀ (data : list T) (j : nat), NoDup ks →
  foldl (λ l i, alter f i l) data ks !! j = (if decide (j ∈ ks) then f <$> data !! j else data !! j).
Proof.
  induction ks as [|i ks IH]; intros data j Hnd; cbn [foldl].
  { rewrite decide_False; [done|]. apply not_elem_of_nil. }
  apply NoDup_cons in Hnd as [Hi Hnd]. rewrite IH by done. destruct (decide (j = i)) as [->|Hne].
  - rewrite decide_False, decide_True by (done || apply list_elem_of_here). by rewrite list_lookup_alter_eq.
  - rewrite list_lookup_alter_ne by done. destruct (decide (j ∈ ks)).
    + rewrite decide_True; [done|by right].
    + rewrite decide_False; [done|]. by intros [?|?]%elem_of_cons.
Qed.

Definition scale (factor : float) (data : list float) : list float := (λ x, fmul x factor) <$> data.

Lemma scale_kernel_alter factor t data :
  0 ≤ blockIdx t * blockDim t + threadIdx t →
  scale_kernel (Z.of_nat (length data)) factor t data = alter (λ x, fmul x factor) (thread_index t) data.
Proof.
  intros Hi. unfold scale_kernel, thread_index. destruct (Z.ltb_spec (blockIdx t * blockDim t + threadIdx t) (Z.of_nat (length data))); [done|].
  symmetry. apply list_eq. intros j. destruct (decide (j = Z.to_nat (blockIdx t * blockDim t + threadIdx t))) as [->|Hne].
  - rewrite list_lookup_alter_eq, lookup_ge_None_2 by lia. done.
  - by rewrite list_lookup_alter_ne.
Qed.

(** The threads of a launch one after the other, in any order. *)
Lemma scale_kernel_all factor data grid block order :
  order ≡ₚ threads grid block → (length data ≤ grid * block)%nat →
  foldl (λ l t, scale_kernel (Z.of_nat (length data)) factor t l) data order = scale factor data.
Proof.
  intros Hord Hlen.
  assert (Hfold : ∀ ts l, length l = length data → (∀ t, t ∈ ts → 0 ≤ blockIdx t * blockDim t + threadIdx t) →
    foldl (λ l t, scale_kernel (Z.of_nat (length data)) factor t l) l ts
    = foldl (λ l i, alter (λ x, fmul x factor) i l) l (thread_index <$> ts)).
  { induction ts as [|t ts IH]; intros l Hl Hts; [done|]. cbn [foldl fmap list_fmap].
    assert (E : scale_kernel (Z.of_nat (length data)) factor t l = alter (λ x, fmul x factor) (thread_index t) l)
      by (rewrite <- Hl; apply scale_kernel_alter, Hts; left).
    rewrite E. apply IH; [by rewrite length_alter|].
    intros t' Ht'. apply Hts. by right. }
  rewrite Hfold; [|done|intros t Ht; apply (thread_nonneg grid block); by rewrite <- Hord].
  assert (Hidx : thread_index <$> order ≡ₚ seq 0 (grid * block)) by (rewrite Hord; by rewrite thread_indices).
  assert (Hnd : NoDup (thread_index <$> order)) by (rewrite Hidx; apply NoDup_seq).
  apply list_eq. intros j. rewrite foldl_alter by done. unfold scale. rewrite list_lookup_fmap.
  destruct (decide (j ∈ _)) as [|Hj]; [done|]. rewrite lookup_ge_None_2; [done|].
  rewrite Hidx, elem_of_seq in Hj. lia.
Qed.

(** ** The host computation agrees *)

Definition scales (factors : list float) (data : list float) : list float := foldl (λ l f, scale f l) data factors.

Lemma length_input : length input = kN.
Proof. unfold input. generalize 0 as i. induction kN as [|n IH]; intros i; [done|]. cbn. by rewrite IH. Qed.
Lemma length_scales factors : ∀ data, length (scales factors data) = length data.
Proof.
  induction factors as [|f fs IH]; intros data; [done|]. cbn [scales foldl].
  etrans; [apply (IH (scale f data))|]. apply length_fmap.
Qed.

(** Scaling by the factors one after the other stays within [kTol] of scaling by their
    product, for all of the input. *)
Lemma parity_a : mismatch 0 (scales factors_a input) (cpu_reference input factors_a) = None.
Proof. vm_compute. reflexivity. Qed.
Lemma parity_b : mismatch 0 (scales factors_b input) (cpu_reference input factors_b) = None.
Proof. vm_compute. reflexivity. Qed.

(** ** Runs *)

Section runs.
Context {D : Type} `{CudaLaws D}.
(** [M] are the allocations the program does not make; one more buffer of [kN] floats fits
    beside them. *)
Context (M : gmap Z (list float)).
Context (memory : ∀ d : D, contents d = M → ∃ p d', cuda_malloc kN d = (Some p, d')).
Implicit Types w : World ReferenceAdapters.
Implicit Types d : D.

Lemma returns_call {B C} (m : Exec (World ReferenceAdapters) B) (k : B → Exec (Run D) C) w d out x w' Q :
  m w = (inr x, w') → returns (k x) (mkRun w' d out) Q → returns (runtime m ≫= k) (mkRun w d out) Q.
Proof. intros E HQ. apply returns_bind. exists x. unfold wp, runtime, zoom. cbn. by rewrite E. Qed.

(** A step on the device, on a buffer that holds [data]. *)
Lemma returns_device {C} (f : D → D) (k : unit → Exec (Run D) C) w d out Q :
  returns (k tt) (mkRun w (f d) out) Q → returns (device f ≫= k) (mkRun w d out) Q.
Proof. intros HQ. by apply returns_bind, returns_modify. Qed.
Lemma returns_modify_bind {C} f (k : unit → Exec (Run D) C) r Q :
  returns (k tt) (f r) Q → returns (modify f ≫= k) r Q.
Proof. intros HQ. by apply returns_bind, returns_modify. Qed.
Lemma returns_get_bind {C} (k : Run D → Exec (Run D) C) r Q :
  returns (k r) r Q → returns (get ≫= k) r Q.
Proof. intros HQ. by apply returns_bind, returns_get. Qed.

(** [holds p data d]: the live allocations are those of [M] and the buffer [p]. *)
Definition holds (p : Z) (data : list float) d : Prop :=
  contents d = <[p := data]> M ∧ M !! p = None ∧ length data = kN.

Lemma returns_alloc message (k : Z → Exec (Run D) (option Z)) w d out Q :
  contents d = M →
  (∀ p d' junk, holds p junk d' → returns (k p) (mkRun w d' out) Q) →
  returns (or_stop message k) (mkRun w d out) Q.
Proof.
  intros Hd Hk. apply returns_bind. destruct (memory d Hd) as (p & d' & E).
  pose proof (cuda_malloc_spec kN d) as Hs. rewrite E, Hd in Hs. destruct Hs as (Hp & junk & Hl & Hc).
  exists (Some p). unfold wp, alloc, zoom. cbn. rewrite E. split; [done|]. by apply (Hk p d' junk).
Qed.

Lemma returns_device_free {C} (k : Z → Exec (Run D) C) w d out Q :
  contents d = M →
  (∀ d', contents d' = M → returns (k (cuda_mem_free d).1) (mkRun w d' out) Q) →
  returns (device_free ≫= k) (mkRun w d out) Q.
Proof.
  intros Hd Hk. apply returns_bind. exists (cuda_mem_free d).1. split; [done|].
  apply Hk. cbn. by rewrite cuda_mem_free_spec.
Qed.

Lemma returns_copy_in {C} p data old (k : unit → Exec (Run D) C) w d out Q :
  holds p old d → length data = kN →
  (∀ d', holds p data d' → returns (k tt) (mkRun w d' out) Q) →
  returns (copy_in p data ≫= k) (mkRun w d out) Q.
Proof.
  intros (Hc & Hp & Hl) Hd Hk. apply returns_device, Hk. split_and!; [|done|done].
  rewrite (cuda_copy_in_spec p data old), Hc by (by rewrite ?Hc, ?lookup_insert_eq, ?Hl). by rewrite insert_insert_eq.
Qed.

Lemma returns_segment {C} p data factor (k : unit → Exec (Run D) C) w d out Q :
  holds p data d →
  (∀ d', holds p (scale factor data) d' → returns (k tt) (mkRun w d' out) Q) →
  returns (run_segment p factor ≫= k) (mkRun w d out) Q.
Proof.
  intros (Hc & Hp & Hl) Hk. apply returns_device, Hk. split_and!; [|done|unfold scale; by rewrite length_fmap].
  destruct (cuda_launch_spec ((kN + 255) / 256) 256 (scale_kernel (Z.of_nat kN) factor) p data d)
    as (order & Hord & ->); [by rewrite Hc, lookup_insert_eq|].
  rewrite Hc, insert_insert_eq. f_equal. pose proof (scale_kernel_all factor data _ _ order Hord) as Hs.
  rewrite Hl in Hs. apply Hs, Nat.leb_le. vm_compute. reflexivity.
Qed.

Lemma returns_segments {C} p factors (k : unit → Exec (Run D) C) w out Q data d :
  holds p data d →
  (∀ d', holds p (scales factors data) d' → returns (k tt) (mkRun w d' out) Q) →
  returns (run_segments p factors ≫= k) (mkRun w d out) Q.
Proof.
  intros Hd Hk. apply returns_bind.
  apply (returns_mono _ _ (λ _ r, ∃ d', r = mkRun w d' out ∧ holds p (scales factors data) d')).
  2:{ intros [] r (d' & -> & Hd'). by apply Hk. }
  clear Hk. revert data d Hd. induction factors as [|f fs IH]; intros data d Hd; cbn [run_segments foldr].
  { apply returns_ret. eauto. }
  eapply returns_segment; [done|]. intros d1 Hd1. by apply (IH (scale f data)).
Qed.

Lemma returns_free {C} p data (k : unit → Exec (Run D) C) w d out Q :
  holds p data d → (∀ d', contents d' = M → returns (k tt) (mkRun w d' out) Q) →
  returns (free p ≫= k) (mkRun w d out) Q.
Proof.
  intros (Hc & Hp & _) Hk. apply returns_device, Hk. rewrite cuda_free_spec, Hc. by apply delete_insert_id.
Qed.

Lemma returns_copy_out {C} p data (k : list float → Exec (Run D) C) w d out Q :
  holds p data d → returns (k data) (mkRun w d out) Q → returns (copy_out p ≫= k) (mkRun w d out) Q.
Proof.
  intros (Hc & _ & Hl) Hk. apply returns_bind. unfold copy_out. apply returns_get_bind, returns_ret.
  cbn [run_device]. rewrite <- Hl, (cuda_copy_out_spec p data); [done|]. by rewrite Hc, lookup_insert_eq.
Qed.

Lemma returns_parity {C} p data expected (k : bool → Exec (Run D) C) w d out Q :
  holds p data d → mismatch 0 data expected = None →
  returns (k true) (mkRun w d out) Q → returns (check_parity expected p ≫= k) (mkRun w d out) Q.
Proof.
  intros Hd Hm Hk. apply returns_bind. unfold check_parity. eapply returns_copy_out; [done|].
  rewrite Hm. by apply returns_ret.
Qed.

Lemma returns_say {C} l (k : unit → Exec (Run D) C) w d out Q :
  returns (k tt) (mkRun w d (out ++ [Text l])) Q → returns (say l ≫= k) (mkRun w d out) Q.
Proof. intros Hk. by apply returns_modify_bind. Qed.

Lemma returns_new_rt {C} epoch a (k : unit → Exec (Run D) C) w d out Q :
  returns (k tt) (mkRun (mkWorld (new_runtime (mkGeneration epoch) (mkGeneration 1)) a) d out) Q →
  returns (new_rt epoch a ≫= k) (mkRun w d out) Q.
Proof. intros Hk. by apply returns_modify_bind. Qed.

(** One statement of a scenario: the calls of the runtime are evaluated. *)
Ltac step :=
  cbv beta zeta;
  lazymatch goal with
  | |- returns (say _ ≫= _) _ _ => apply returns_say
  | |- returns (runtime _ ≫= _) _ _ => eapply returns_call; [vm_compute; reflexivity|]
  | |- returns (start ≫= _) _ _ => unfold start at 1
  | |- returns (reach _ _ ≫= _) _ _ => unfold reach at 1
  | |- returns (publish _ ≫= _) _ _ => unfold publish at 1
  | |- returns (declare_boundary ≫= _) _ _ => unfold declare_boundary at 1
  | |- returns (report_last_capture ≫= _) _ _ => unfold report_last_capture at 1
  | |- returns (lifecycle ≫= _) _ _ => unfold lifecycle at 1
  | |- returns (new_rt _ _ ≫= _) _ _ => apply returns_new_rt
  end.

(** A step of the device, after which the old one is forgotten. *)
Ltac segment H := eapply returns_segment; [exact H|]; clear H; intros ? H.
Ltac release H := eapply returns_free; [exact H|]; clear H; intros ? H.

Abbreviation passes s := (∀ w d out, contents d = M →
  returns s (mkRun w d out) (λ n r, n = Some 0 ∧ contents (run_device r) = M)).

(** Scenario A fails only when the two readings of the free memory are 8 MiB apart. *)
Lemma scenario_a_passes base w d out :
  contents d = M →
  returns (scenario_a base) (mkRun w d out) (λ n r, ∃ d', contents d' = M
    ∧ n = Some (failed (near base (cuda_mem_free d').1)) ∧ contents (run_device r) = M).
Proof.
  intros Hd. unfold scenario_a. repeat step. apply returns_alloc; [exact Hd|]. clear Hd. intros p d1 junk Hd.
  eapply returns_copy_in; [exact Hd|exact length_input|]. clear Hd. intros d2 Hd.
  segment Hd. repeat step. segment Hd. repeat step. release Hd. repeat step.
  apply returns_alloc; [exact Hd|]. clear p Hd. intros p d3 junk' Hd. repeat step.
  eapply returns_copy_in; [exact Hd|exact (eq_trans (length_scales (take 2 factors_a) input) length_input)|].
  clear Hd. intros d4 Hd. repeat step.
  eapply returns_segments; [exact Hd|]. clear Hd. intros d5 Hd.
  eapply returns_parity; [exact Hd|exact parity_a|]. repeat step. release Hd.
  eapply returns_device_free; [exact Hd|]. intros d6 Hd6. step. apply returns_ret.
  eexists. split; [exact Hd|]. split; [done|exact Hd6].
Qed.

Lemma scenario_b_passes : passes scenario_b.
Proof.
  intros w d out Hd. unfold scenario_b. repeat step. apply returns_alloc; [exact Hd|]. clear Hd. intros p d1 junk Hd.
  eapply returns_copy_in; [exact Hd|exact length_input|]. clear Hd. intros d2 Hd.
  segment Hd. repeat step. segment Hd. repeat step.
  eapply returns_copy_out; [exact Hd|]. repeat step. release Hd. repeat step.
  apply returns_alloc; [exact Hd|]. clear p Hd. intros p d3 junk' Hd. repeat step.
  eapply returns_copy_in; [exact Hd|exact (eq_trans (length_scales (take 2 factors_b) input) length_input)|].
  clear Hd. intros d4 Hd. repeat step. segment Hd.
  eapply returns_parity; [exact Hd|exact parity_b|]. repeat step. release Hd. by apply returns_ret.
Qed.

Lemma scenario_d_passes : passes scenario_d.
Proof.
  intros w d out Hd. unfold scenario_d. repeat step. apply returns_alloc; [exact Hd|]. clear Hd. intros p d1 junk Hd.
  eapply returns_copy_in; [exact Hd|exact length_input|]. clear Hd. intros d2 Hd.
  repeat step. segment Hd. repeat step. release Hd. by apply returns_ret.
Qed.

Lemma scenario_e_passes : passes scenario_e.
Proof.
  intros w d out Hd. unfold scenario_e. repeat step. apply returns_alloc; [exact Hd|]. clear Hd. intros p d1 junk Hd.
  eapply returns_copy_in; [exact Hd|exact length_input|]. clear Hd. intros d2 Hd.
  repeat step. release Hd. by apply returns_ret.
Qed.

Lemma scenario_f_passes : passes scenario_f.
Proof.
  intros w d out Hd. unfold scenario_f. repeat step. apply returns_get_bind. repeat step. apply returns_get_bind.
  cbn [run_world]. repeat step. by apply returns_ret.
Qed.

Lemma run_scenarios_cons s rest failures :
  run_scenarios (D := D) (s :: rest) failures
  = (n ← s; match n with Some n => run_scenarios rest (failures + n) | None => mret None end).
Proof. done. Qed.

(** Scenarios that pass and return their memory, one after the other. *)
Lemma run_scenarios_pass failures scenarios :
  Forall (λ s, passes s) scenarios →
  ∀ r, contents (run_device r) = M →
  returns (run_scenarios scenarios failures) r (λ n r, n = Some failures ∧ contents (run_device r) = M).
Proof.
  induction 1 as [|s rest Hs _ IH]; intros [w d out] Hr; cbn [run_scenarios]; [by apply returns_ret|].
  apply returns_bind. eapply returns_mono; [by apply Hs|]. intros n r [-> Hr']. rewrite Z.add_0_r. by apply IH.
Qed.

End runs.

Module CudaProperties.


(** A device with room for [kN] floats, whose threads run from the last one to the first, on a
    machine where the free memory reported alternates between two values 1 MiB apart. *)
Record Gpu := mkGpu { gpu_buffers : gmap Z (list float); gpu_low : bool }.
Definition gpu_used (d : Gpu) : nat := map_fold (λ _ l total, length l + total)%nat 0%nat (gpu_buffers d).
#[export] Instance Gpu_api : CudaApi Gpu := {|
  cuda_malloc n d :=
    let p := fresh (dom (gpu_buffers d)) in
    if (gpu_used d + n <=? kN)%nat
    then (Some p, mkGpu (<[p := replicate n (S754_zero false)]> (gpu_buffers d)) (gpu_low d))
    else (None, d);
  cuda_free p d := mkGpu (delete p (gpu_buffers d)) (gpu_low d);
  cuda_copy_in p data d := mkGpu (<[p := data]> (gpu_buffers d)) (gpu_low d);
  cuda_copy_out p n d := take n (gpu_buffers d !!! p);
  cuda_launch grid block k p d :=
    mkGpu (alter (λ data, foldl (λ l t, k t l) data (reverse (threads grid block))) p (gpu_buffers d))
      (gpu_low d);
  cuda_mem_free d := (if gpu_low d then 2 ^ 34 - 2 ^ 20 else 2 ^ 34, mkGpu (gpu_buffers d) (negb (gpu_low d)))
|}.
#[export, refine] Instance Gpu_laws : CudaLaws Gpu := {| contents := gpu_buffers |}.
Proof.
  - intros n d. cbn. destruct (_ <=? _)%nat; [|done]. split; [apply not_elem_of_dom, is_fresh|].
    eexists. split; [|done]. apply length_replicate.
  - done.
  - done.
  - intros p data d Hp. cbn. rewrite (lookup_total_correct _ _ _ Hp). by apply take_ge.
  - intros grid block k p data d Hp. eexists. split; [apply reverse_Permutation|]. cbn.
    apply map_eq. intros q. destruct (decide (q = p)) as [->|Hq].
    + by rewrite lookup_alter_eq, lookup_insert_eq, Hp.
    + by rewrite lookup_alter_ne, lookup_insert_ne by done.
  - done.
Defined.


End CudaProperties.
