(* ===== verification/Framing.v ===== *)
(** * Messages and framing ([protocol/message.hpp], [protocol/framing.hpp], [protocol/framing.cpp])

    The protocol message, its body codec, complete frames (header, body, checksum), and
    the streaming decoder that pops frames from a byte stream.  [None] from an encoder is
    the [std::length_error] it throws. *)

From S2P Require Import Prelude Bytes Checked Crc32 Binary Parse Identity Enums Interfaces.
From stdpp Require Import base list strings numbers sets.
From Stdlib Require Import ZArith Lia.
Open Scope Z_scope.

(** ** Messages *)

Module MessageType.
Inductive MessageType :=
  | kInvalid | kHello | kRegister | kBeginExecution
  | kPublishProgress | kDeclareSafePoint | kReachSafePoint | kRequestPreemption
  | kPreemptionAssessment | kBeginQuiesce | kQuiesced | kRequestStateCapture
  | kStateCaptured | kRequestRelease | kResourceReleased | kPreempted
  | kRequestResume | kRevalidationResult | kRestoreResult | kResumed
  | kCancel | kComplete | kError | kShutdown
  | kReplayStale.
End MessageType.
Abbreviation MessageType := MessageType.MessageType.
#[export] Instance MessageType_eq_dec : EqDecision MessageType.
Proof. solve_decision. Defined.
Definition MessageType_to_u32 (v : MessageType) : Z :=
  match v with
  | MessageType.kInvalid => 0
  | MessageType.kHello => 1
  | MessageType.kRegister => 2
  | MessageType.kBeginExecution => 3
  | MessageType.kPublishProgress => 4
  | MessageType.kDeclareSafePoint => 5
  | MessageType.kReachSafePoint => 6
  | MessageType.kRequestPreemption => 7
  | MessageType.kPreemptionAssessment => 8
  | MessageType.kBeginQuiesce => 9
  | MessageType.kQuiesced => 10
  | MessageType.kRequestStateCapture => 11
  | MessageType.kStateCaptured => 12
  | MessageType.kRequestRelease => 13
  | MessageType.kResourceReleased => 14
  | MessageType.kPreempted => 15
  | MessageType.kRequestResume => 16
  | MessageType.kRevalidationResult => 17
  | MessageType.kRestoreResult => 18
  | MessageType.kResumed => 19
  | MessageType.kCancel => 20
  | MessageType.kComplete => 21
  | MessageType.kError => 22
  | MessageType.kShutdown => 23
  | MessageType.kReplayStale => 24
  end.
#[export] Program Instance MessageType_enum : CEnum MessageType :=
  {| to_u32 := MessageType_to_u32;
     enumerators := [
     MessageType.kInvalid; MessageType.kHello; MessageType.kRegister;
     MessageType.kBeginExecution; MessageType.kPublishProgress; MessageType.kDeclareSafePoint;
     MessageType.kReachSafePoint; MessageType.kRequestPreemption; MessageType.kPreemptionAssessment;
     MessageType.kBeginQuiesce; MessageType.kQuiesced; MessageType.kRequestStateCapture;
     MessageType.kStateCaptured; MessageType.kRequestRelease; MessageType.kResourceReleased;
     MessageType.kPreempted; MessageType.kRequestResume; MessageType.kRevalidationResult;
     MessageType.kRestoreResult; MessageType.kResumed; MessageType.kCancel;
     MessageType.kComplete; MessageType.kError; MessageType.kShutdown;
     MessageType.kReplayStale] |}.
Next Obligation. reflexivity. Qed.
Next Obligation. intros []; set_solver. Qed.

Definition message_type_to_string (t : MessageType) : string :=
  match t with
  | MessageType.kHello => "HELLO"
  | MessageType.kRegister => "REGISTER"
  | MessageType.kBeginExecution => "BEGIN_EXECUTION"
  | MessageType.kPublishProgress => "PUBLISH_PROGRESS"
  | MessageType.kDeclareSafePoint => "DECLARE_SAFE_POINT"
  | MessageType.kReachSafePoint => "REACH_SAFE_POINT"
  | MessageType.kRequestPreemption => "REQUEST_PREEMPTION"
  | MessageType.kPreemptionAssessment => "PREEMPTION_ASSESSMENT"
  | MessageType.kBeginQuiesce => "BEGIN_QUIESCE"
  | MessageType.kQuiesced => "QUIESCED"
  | MessageType.kRequestStateCapture => "REQUEST_STATE_CAPTURE"
  | MessageType.kStateCaptured => "STATE_CAPTURED"
  | MessageType.kRequestRelease => "REQUEST_RELEASE"
  | MessageType.kResourceReleased => "RESOURCE_RELEASED"
  | MessageType.kPreempted => "PREEMPTED"
  | MessageType.kRequestResume => "REQUEST_RESUME"
  | MessageType.kRevalidationResult => "REVALIDATION_RESULT"
  | MessageType.kRestoreResult => "RESTORE_RESULT"
  | MessageType.kResumed => "RESUMED"
  | MessageType.kCancel => "CANCEL"
  | MessageType.kComplete => "COMPLETE"
  | MessageType.kError => "ERROR"
  | MessageType.kShutdown => "SHUTDOWN"
  | MessageType.kReplayStale => "REPLAY_STALE"
  | MessageType.kInvalid => "INVALID"
  end.

Record Message := mkMessage {
  msg_type : MessageType;
  msg_seq : Z;
  msg_coordinator_epoch : CoordinatorEpoch;
  msg_worker_id : WorkerId;
  msg_worker_boot_id : WorkerBootId;
  msg_execution_id : ExecutionId;
  msg_execution_generation : ExecutionGeneration;
  msg_attempt_id : AttemptId;
  msg_attempt_generation : AttemptGeneration;
  msg_request_id : PreemptionRequestId;
  msg_request_generation : PreemptionRequestGeneration;
  msg_worker_b : WorkerId;
  msg_progress_position : Z;
  msg_progress_generation : ProgressGeneration;
  msg_progress_kind : ProgressKind;
  msg_safe_point_id : SafePointId;
  msg_safe_point_generation : SafePointGeneration;
  msg_safe_point_position : Z;
  msg_safe_point_capture_required : bool;
  msg_checkpoint_ref : CheckpointRef;
  msg_checkpoint_generation : CheckpointGeneration;
  msg_capture_id : StateCaptureId;
  msg_capture_generation : StateCaptureGeneration;
  msg_resume_id : ResumeId;
  msg_resume_generation : ResumeGeneration;
  msg_resource : ResourceClass;
  msg_units : Z;
  msg_contract_id : ResourceContractId;
  msg_contract_generation : ResourceContractGeneration;
  msg_reason : PreemptionReason;
  msg_outcome : PreemptionOutcome;
  msg_lifecycle : LifecycleState;
  msg_preemptibility : PreemptibilityClass;
  msg_resume_outcome : ResumeOutcome;
  msg_dep_status : DependencyStatus;
  msg_preservation_outcome : StatePreservationOutcome;
  msg_detail : string;
  msg_extra : string
}.
#[export] Instance Message_eq_dec : EqDecision Message.
Proof. solve_decision. Defined.
#[export] Instance Message_eta : Eta Message := λ m,
  mkMessage
    (msg_type m) (msg_seq m) (msg_coordinator_epoch m) (msg_worker_id m) (msg_worker_boot_id m)
    (msg_execution_id m) (msg_execution_generation m) (msg_attempt_id m)
    (msg_attempt_generation m) (msg_request_id m) (msg_request_generation m) (msg_worker_b m)
    (msg_progress_position m) (msg_progress_generation m) (msg_progress_kind m)
    (msg_safe_point_id m) (msg_safe_point_generation m) (msg_safe_point_position m)
    (msg_safe_point_capture_required m) (msg_checkpoint_ref m) (msg_checkpoint_generation m)
    (msg_capture_id m) (msg_capture_generation m) (msg_resume_id m) (msg_resume_generation m)
    (msg_resource m) (msg_units m) (msg_contract_id m) (msg_contract_generation m)
    (msg_reason m) (msg_outcome m) (msg_lifecycle m) (msg_preemptibility m)
    (msg_resume_outcome m) (msg_dep_status m) (msg_preservation_outcome m) (msg_detail m)
    (msg_extra m).
Definition default_Message : Message :=
  mkMessage
    MessageType.kInvalid 0 default_gen default_id default_id default_id default_gen default_id
    default_gen default_id default_gen default_id 0 default_gen ProgressKind.kInvalid default_id
    default_gen 0 false default_id default_gen default_id default_gen default_id default_gen
    ResourceClass.kInvalid 0 default_id default_gen PreemptionReason.kUnknown
    PreemptionOutcome.kInvalid LifecycleState.kInvalid PreemptibilityClass.kUnknown
    ResumeOutcome.kUnknown DependencyStatus.kUnknown StatePreservationOutcome.kUnknown
    EmptyString EmptyString.

(** ** Frames *)

Module FrameError.
Inductive FrameError :=
  | kOk | kTruncated | kBadMagic | kBadVersion
  | kBadLength | kChecksum | kBadMessageType | kInvalidEnum
  | kMalformedBody | kTrailingGarbage.
End FrameError.
Abbreviation FrameError := FrameError.FrameError.
#[export] Instance FrameError_eq_dec : EqDecision FrameError.
Proof. solve_decision. Defined.

Definition frame_error_to_string (e : FrameError) : string :=
  match e with
  | FrameError.kOk => "OK"
  | FrameError.kTruncated => "TRUNCATED"
  | FrameError.kBadMagic => "BAD_MAGIC"
  | FrameError.kBadVersion => "BAD_VERSION"
  | FrameError.kBadLength => "BAD_LENGTH"
  | FrameError.kChecksum => "CHECKSUM"
  | FrameError.kBadMessageType => "BAD_MESSAGE_TYPE"
  | FrameError.kInvalidEnum => "INVALID_ENUM"
  | FrameError.kMalformedBody => "MALFORMED_BODY"
  | FrameError.kTrailingGarbage => "TRAILING_GARBAGE"
  end.

Definition FrameDecodeResult : Type := FrameError + Message.

(** [version.hpp]. *)
Definition PF_PROTOCOL_VERSION : Z := 1.

Module Framing.
Definition kMaxFrameBody : Z := 64 * 1024.
Definition kMagic : Z := 0x31524650.
Definition kFrameHeaderSize : nat := 20.

(** ** The body *)

Section encode.
Import ByteWriter.

(** The fixed-size fields. *)
Definition encode_fields (m : Message) (w : ByteWriter) : ByteWriter :=
  w ▷ u32 (to_u32 (msg_type m))
    ▷ u32 (msg_seq m)
    ▷ u64 (value (msg_coordinator_epoch m))
    ▷ u64 (value (msg_worker_id m))
    ▷ u64 (value (msg_worker_boot_id m))
    ▷ u64 (value (msg_execution_id m))
    ▷ u64 (value (msg_execution_generation m))
    ▷ u64 (value (msg_attempt_id m))
    ▷ u64 (value (msg_attempt_generation m))
    ▷ u64 (value (msg_request_id m))
    ▷ u64 (value (msg_request_generation m))
    ▷ u64 (value (msg_worker_b m))
    ▷ u64 (msg_progress_position m)
    ▷ u64 (value (msg_progress_generation m))
    ▷ u32 (to_u32 (msg_progress_kind m))
    ▷ u64 (value (msg_safe_point_id m))
    ▷ u64 (value (msg_safe_point_generation m))
    ▷ u64 (msg_safe_point_position m)
    ▷ u8 (bool_to_u8 (msg_safe_point_capture_required m))
    ▷ u64 (value (msg_checkpoint_ref m))
    ▷ u64 (value (msg_checkpoint_generation m))
    ▷ u64 (value (msg_capture_id m))
    ▷ u64 (value (msg_capture_generation m))
    ▷ u64 (value (msg_resume_id m))
    ▷ u64 (value (msg_resume_generation m))
    ▷ u32 (to_u32 (msg_resource m))
    ▷ u64 (msg_units m)
    ▷ u64 (value (msg_contract_id m))
    ▷ u64 (value (msg_contract_generation m))
    ▷ u32 (to_u32 (msg_reason m))
    ▷ u32 (to_u32 (msg_outcome m))
    ▷ u32 (to_u32 (msg_lifecycle m))
    ▷ u32 (to_u32 (msg_preemptibility m))
    ▷ u32 (to_u32 (msg_resume_outcome m))
    ▷ u32 (to_u32 (msg_dep_status m))
    ▷ u32 (to_u32 (msg_preservation_outcome m)).

Definition encode_body (m : Message) : option ByteWriter :=
  w ← string_ (msg_detail m) (encode_fields m empty);
  string_ (msg_extra m) w.

Definition encode_frame (m : Message) : option (list byte) :=
  body ← encode_body m;
  let hw := empty ▷ u32 kMagic
    ▷ u32 PF_PROTOCOL_VERSION
    ▷ u32 (to_u32 (msg_type m))
    ▷ u32 (msg_seq m) in
  if negb (fits_u32 (size body)) then None
  else
    let hw := hw ▷ u32 (size body) in
    let out := hw ++ body in
    let crc := crc32 out in
    Some (out ++ u32 crc empty).

End encode.

(** [bool read_*(ByteReader&, T&)]: failure returns from the decoder with [false]. *)
Abbreviation Read := (Parse ByteReader unit).

#[export] Instance ByteReader_input : Input ByteReader := {|
  unread r := Reader.remaining_span r;
  in_bounds r := (pos_ r ≤ length (data_ r))%nat;
  healthy _ := true |}.

Definition read_with {E T} (e : E) (rd : ByteReader → option (T * ByteReader)) : Parse ByteReader E T :=
  λ r, match rd r with
       | Some (v, r') => inr (v, r')
       | None => inl e
       end.
Definition read_u64 : Read Z := read_with tt Reader.u64.
Definition read_u32 : Read Z := read_with tt Reader.u32.
Definition read_u8 : Read Z := read_with tt Reader.u8.
Definition read_string : Read string := λ r,
  match Reader.string_ r with
  | (Some s, r') => inr (s, r')
  | (None, _) => inl tt
  end.

Definition read_id {d} : Read (Id d) := v ← read_u64; mret (mkId v).
Definition read_gen {d} : Read (Generation d) := v ← read_u64; mret (mkGeneration v).
Definition read_bool : Read bool := v ← read_u8; mret (u8_to_bool v).
(** [if (t > static_cast<std::uint32_t>(last)) return false;] and the cast. *)
Definition read_enum {T} `{CEnum T} (last : T) : Read T :=
  t ← read_u32;
  if to_u32 last <? t then pfail tt
  else mret (default last (of_u32 t)).

(** The fields of the body, in order; the type is checked after the sequence was read. *)
Definition read_message : Read Message :=
  t ← read_u32;
  seq ← read_u32;
  if (t =? 0) || (to_u32 MessageType.kReplayStale <? t) then pfail tt
  else
    coordinator_epoch ← read_gen;
    worker_id ← read_id;
    worker_boot_id ← read_id;
    execution_id ← read_id;
    execution_generation ← read_gen;
    attempt_id ← read_id;
    attempt_generation ← read_gen;
    request_id ← read_id;
    request_generation ← read_gen;
    worker_b ← read_id;
    progress_position ← read_u64;
    progress_generation ← read_gen;
    progress_kind ← read_enum ProgressKind.kLost;
    safe_point_id ← read_id;
    safe_point_generation ← read_gen;
    safe_point_position ← read_u64;
    safe_point_capture_required ← read_bool;
    checkpoint_ref ← read_id;
    checkpoint_generation ← read_gen;
    capture_id ← read_id;
    capture_generation ← read_gen;
    resume_id ← read_id;
    resume_generation ← read_gen;
    resource ← read_enum ResourceClass.kOther;
    units ← read_u64;
    contract_id ← read_id;
    contract_generation ← read_gen;
    reason ← read_enum PreemptionReason.kUnknown;
    outcome ← read_enum PreemptionOutcome.kPreemptionFailed;
    lifecycle ← read_enum LifecycleState.kSuperseded;
    preemptibility ← read_enum PreemptibilityClass.kUnknown;
    resume_outcome ← read_enum ResumeOutcome.kUnknown;
    dep_status ← read_enum DependencyStatus.kUnknown;
    preservation_outcome ← read_enum StatePreservationOutcome.kUnknown;
    detail ← read_string;
    extra ← read_string;
    mret (mkMessage (default MessageType.kReplayStale (of_u32 t)) seq
      coordinator_epoch worker_id worker_boot_id execution_id execution_generation attempt_id
      attempt_generation request_id request_generation worker_b progress_position
      progress_generation progress_kind safe_point_id safe_point_generation safe_point_position
      safe_point_capture_required checkpoint_ref checkpoint_generation capture_id
      capture_generation resume_id resume_generation resource units contract_id
      contract_generation reason outcome lifecycle preemptibility resume_outcome dep_status
      preservation_outcome detail extra).

Definition decode_body (bytes : list byte) : option Message :=
  match read_message (Reader.of_span bytes) with
  | inl _ => None
  | inr (m, r) => if Reader.at_end r then Some m else None
  end.

(** ** Complete frames *)

(** The header fields that the decoders use after the checks. *)
Record FrameHeader := mkFrameHeader { fh_type : Z; fh_seq : Z; fh_body_len : Z }.

Section decode.
Import FrameError.

(** The header, with the check of each field where the decoders make it. *)
Definition read_header : Parse ByteReader FrameError FrameHeader :=
  let u32 := read_with kTruncated Reader.u32 in
  magic ← u32;
  if negb (magic =? kMagic) then pfail kBadMagic
  else
    version ← u32;
    if negb (version =? PF_PROTOCOL_VERSION) then pfail kBadVersion
    else
      type ← u32;
      seq ← u32;
      body_len ← u32;
      if kMaxFrameBody <? body_len then pfail kBadLength
      else mret (mkFrameHeader type seq body_len).

Definition decode_frame (bytes : list byte) : FrameDecodeResult :=
  if (length bytes <? kFrameHeaderSize + 4)%nat then inl kTruncated
  else
    match read_header (Reader.of_span (take kFrameHeaderSize bytes)) with
    | inl e => inl e
    | inr (h, _) =>
      let body_len := Z.to_nat (fh_body_len h) in
      let body_end := (kFrameHeaderSize + body_len)%nat in
      let total := (body_end + 4)%nat in
      if (length bytes <? total)%nat then inl kTruncated
      else if (total <? length bytes)%nat then inl kTrailingGarbage
      else
        match Reader.read_u32_at (subspan body_end 4 bytes) with
        | None => inl kTruncated
        | Some stored_crc =>
          if negb (crc32 (take body_end bytes) =? stored_crc) then inl kChecksum
          else
            match decode_body (subspan kFrameHeaderSize body_len bytes) with
            | None => inl kMalformedBody
            | Some msg =>
              if negb (to_u32 (msg_type msg) =? fh_type h) then inl kMalformedBody
              else inr (msg <| msg_seq := fh_seq h |>)
            end
        end
    end.

End decode.

(** ** The streaming decoder *)

Record FrameDecoder := mkFrameDecoder { buffer_ : list byte; fatal_ : bool }.
#[export] Instance FrameDecoder_eta : Eta FrameDecoder := λ d, mkFrameDecoder (buffer_ d) (fatal_ d).

Definition new_decoder : FrameDecoder := mkFrameDecoder [] false.
Definition feed (data : list byte) (d : FrameDecoder) : FrameDecoder :=
  d <| buffer_ := buffer_ d ++ data |>.
Definition reset (_ : FrameDecoder) : FrameDecoder := mkFrameDecoder [] false.
Definition set_fatal (_ : FrameDecoder) : FrameDecoder := mkFrameDecoder [] true.

Definition pop (d : FrameDecoder) : option Message * FrameDecoder :=
  let buf := buffer_ d in
  if fatal_ d then (None, d)
  else if (length buf <? kFrameHeaderSize + 4)%nat then (None, d)
  else
    match read_header (Reader.of_span (take kFrameHeaderSize buf)) with
    | inl _ => (None, set_fatal d)
    | inr (h, _) =>
      let body_len := Z.to_nat (fh_body_len h) in
      let body_end := (kFrameHeaderSize + body_len)%nat in
      let total := (body_end + 4)%nat in
      if (length buf <? total)%nat then (None, d)
      else
        match Reader.read_u32_at (subspan body_end 4 buf) with
        | None => (None, set_fatal d)
        | Some stored_crc =>
          if negb (crc32 (take body_end buf) =? stored_crc) then (None, set_fatal d)
          else
            match decode_body (subspan kFrameHeaderSize body_len buf) with
            | None => (None, set_fatal d)
            | Some msg =>
              (Some (msg <| msg_seq := fh_seq h |>), d <| buffer_ := drop total buf |>)
            end
        end
    end.

End Framing.
