(* ===== verification/FramingTheorems.v ===== *)
(** * Correctness of the framing

    Round trip of a message through a frame, what a decoder accepts, and the streaming
    decoder: however a byte stream is cut into chunks, the frames come out whole and in
    order. *)

From S2P Require Import Prelude Bytes Checked Crc32 Binary Parse Identity Enums Interfaces Framing.
From stdpp Require Import base list strings numbers.
From Stdlib Require Import ZArith Lia.
Open Scope Z_scope.

(** Every value of the message has the range of its C++ type. *)
Definition message_wf (m : Message) : Prop :=
  in_u32 (msg_seq m) ∧ wf (msg_coordinator_epoch m) ∧ wf (msg_worker_id m) ∧
  wf (msg_worker_boot_id m) ∧ wf (msg_execution_id m) ∧ wf (msg_execution_generation m) ∧
  wf (msg_attempt_id m) ∧ wf (msg_attempt_generation m) ∧ wf (msg_request_id m) ∧
  wf (msg_request_generation m) ∧ wf (msg_worker_b m) ∧ in_u64 (msg_progress_position m) ∧
  wf (msg_progress_generation m) ∧ wf (msg_safe_point_id m) ∧ wf (msg_safe_point_generation m) ∧
  in_u64 (msg_safe_point_position m) ∧ wf (msg_checkpoint_ref m) ∧
  wf (msg_checkpoint_generation m) ∧ wf (msg_capture_id m) ∧ wf (msg_capture_generation m) ∧
  wf (msg_resume_id m) ∧ wf (msg_resume_generation m) ∧ in_u64 (msg_units m) ∧
  wf (msg_contract_id m) ∧ wf (msg_contract_generation m) ∧
  Z.of_nat (String.length (msg_detail m)) ≤ u32_max ∧
  Z.of_nat (String.length (msg_extra m)) ≤ u32_max.

Module FramingLemmas.
Import Framing.

(** ** Single reads *)

Lemma parses_reader_le {E} (e : E) n rd v :
  (∀ r, rd r = Reader.read_le n r) → 0 ≤ v < 256 ^ Z.of_nat n →
  parses (read_with e rd) (le_bytes n v) v.
Proof.
  intros Hrd Hv r rest Hb _ Hu. cbn in *.
  edestruct (ReaderLemmas.read_le_app n) as (E1 & Hrest & Hp); [exact Hb|exact Hu|exact Hv|].
  eexists. unfold read_with. rewrite Hrd, E1. split_and!; [done|exact Hp|done|exact Hrest].
Qed.

Lemma parses_reader_u32 {E} (e : E) v : in_u32 v → parses (read_with e Reader.u32) (le_bytes 4 v) v.
Proof. intros ?%in_u32_256. by apply parses_reader_le. Qed.
Lemma parses_body_u64 v : in_u64 v → parses read_u64 (le_bytes 8 v) v.
Proof. intros ?%in_u64_256. by apply parses_reader_le. Qed.
Lemma parses_body_u32 v : in_u32 v → parses read_u32 (le_bytes 4 v) v.
Proof. apply parses_reader_u32. Qed.
Lemma parses_body_id {d} (x : Id d) : wf x → parses read_id (le_bytes 8 (value x)) x.
Proof. intros Hx. destruct x. eapply parses_bind_last; [by apply parses_body_u64|apply parses_ret]. Qed.
Lemma parses_body_gen {d} (x : Generation d) : wf x → parses read_gen (le_bytes 8 (value x)) x.
Proof. intros Hx. destruct x. eapply parses_bind_last; [by apply parses_body_u64|apply parses_ret]. Qed.
Lemma parses_body_bool b : parses read_bool (le_bytes 1 (bool_to_u8 b)) b.
Proof.
  eapply parses_bind_last; [apply (parses_reader_le _ 1), bool_to_u8_range; apply ReaderLemmas.u8_read_le|].
  rewrite u8_to_bool_to_u8. apply parses_ret.
Qed.
Lemma parses_body_enum {T} `{CEnum T} (last e : T) :
  to_u32 last = enum_last T → enum_last T ≤ u32_max → parses (read_enum last) (le_bytes 4 (to_u32 e)) e.
Proof.
  intros Hlast Hmax. eapply parses_bind_last; [by apply parses_body_u32, to_u32_in_u32|].
  pose proof (to_u32_bounds e). destruct (Z.ltb_spec (to_u32 last) (to_u32 e)); [lia|].
  rewrite of_u32_to_u32. apply parses_ret.
Qed.
Lemma parses_body_string s :
  Z.of_nat (String.length s) ≤ u32_max →
  parses read_string (le_bytes 4 (Z.of_nat (String.length s)) ++ string_bytes s) s.
Proof.
  intros Hs r rest Hb _ Hu.
  destruct (Fields.read_field_app (Fields.FStr s) r rest Hs Hb Hu) as (r' & E & Hd & Hrest & Hp).
  exists r'. unfold read_string. cbn in E.
  destruct (Reader.string_ r) as [[s'|] r1]; [|done]. injection E as -> ->.
  split_and!; [done|exact Hp|done|exact Hrest].
Qed.

#[local] Hint Resolve parses_body_u64 parses_body_u32 parses_body_id parses_body_gen parses_body_bool parses_body_string : parse.
#[local] Hint Extern 2 (parses (read_enum _) _ _) => apply parses_body_enum; [reflexivity|discriminate] : parse.

(** ** The body *)

Definition body_bytes (m : Message) : list byte :=
  encode_fields m []
  ++ (le_bytes 4 (Z.of_nat (String.length (msg_detail m))) ++ string_bytes (msg_detail m))
  ++ (le_bytes 4 (Z.of_nat (String.length (msg_extra m))) ++ string_bytes (msg_extra m)).

Lemma encode_body_bytes m : message_wf m → encode_body m = Some (body_bytes m).
Proof.
  intros Hm. assert (Hs : Z.of_nat (String.length (msg_detail m)) ≤ u32_max
    ∧ Z.of_nat (String.length (msg_extra m)) ≤ u32_max) by (unfold message_wf in Hm; tauto).
  destruct Hs as [Hd He]. unfold encode_body, body_bytes.
  rewrite ByteWriter.string_app by done. cbn [mbind option_bind].
  rewrite ByteWriter.string_app by done. by rewrite <- !app_assoc.
Qed.

Lemma message_type_code t :
  t ≠ MessageType.kInvalid ↔
  (to_u32 t =? 0) || (to_u32 MessageType.kReplayStale <? to_u32 t) = false.
Proof. by destruct t. Qed.

Lemma parses_message m :
  message_wf m → msg_type m ≠ MessageType.kInvalid → parses read_message (body_bytes m) m.
Proof.
  intros Hm Ht. unfold message_wf in Hm. destruct_and! Hm.
  unfold body_bytes, encode_fields, read_message. norm_writer. cbn [app].
  eapply parses_bind; [apply parses_body_u32, to_u32_in_u32; discriminate|].
  eapply parses_bind; [by apply parses_body_u32|].
  apply message_type_code in Ht. rewrite Ht, of_u32_to_u32. cbn [default].
  do 34 (eapply parses_bind; [solve [eauto with parse]|]).
  rewrite (app_assoc (le_bytes 4 (Z.of_nat (String.length (msg_detail m))))).
  eapply parses_bind; [by apply parses_body_string|].
  eapply parses_bind_last; [by apply parses_body_string|].
  destruct m. apply parses_ret.
Qed.

Lemma body_bytes_head m :
  ∃ rest, body_bytes m = le_bytes 4 (to_u32 (msg_type m)) ++ le_bytes 4 (msg_seq m) ++ rest.
Proof. unfold body_bytes, encode_fields. norm_writer. cbn [app]. by eexists. Qed.

Lemma decode_body_bytes m :
  message_wf m →
  decode_body (body_bytes m)
  = if bool_decide (msg_type m = MessageType.kInvalid) then None else Some m.
Proof.
  intros Hm. unfold decode_body. case_bool_decide as Ht.
  - assert (Hseq : in_u32 (msg_seq m)) by (unfold message_wf in Hm; tauto).
    assert (Htype : in_u32 (to_u32 (msg_type m))) by (apply to_u32_in_u32; discriminate).
    destruct (body_bytes_head m) as [rest Hrest]. unfold read_message, mbind, Parse_bind.
    destruct (parses_body_u32 _ Htype (Reader.of_span (body_bytes m)) (le_bytes 4 (msg_seq m) ++ rest))
      as (r1 & E1 & Hb1 & _ & Hu1); [cbn; lia|done|done|].
    rewrite E1. destruct (parses_body_u32 _ Hseq r1 _ Hb1 eq_refl Hu1) as (r2 & E2 & _).
    by rewrite E2, Ht.
  - destruct (parses_message m Hm Ht (Reader.of_span (body_bytes m)) []) as (r & E & Hb & _ & Hu);
      [cbn; lia|done|by rewrite app_nil_r|].
    rewrite E. cbn in Hb, Hu. apply (f_equal length) in Hu. unfold Reader.remaining_span in Hu.
    rewrite length_drop in Hu. cbn in Hu. unfold Reader.at_end.
    by rewrite (proj2 (Nat.eqb_eq _ _)) by lia.
Qed.

(** ** Frames *)

Definition header_bytes (m : Message) (len : Z) : list byte :=
  le_bytes 4 kMagic ++ le_bytes 4 PF_PROTOCOL_VERSION ++ le_bytes 4 (to_u32 (msg_type m))
    ++ le_bytes 4 (msg_seq m) ++ le_bytes 4 len.
Definition body_len (m : Message) : Z := Z.of_nat (length (body_bytes m)).
Definition covered (m : Message) : list byte := header_bytes m (body_len m) ++ body_bytes m.
Definition frame_bytes (m : Message) : list byte := covered m ++ le_bytes 4 (crc32 (covered m)).

Lemma length_frame_header m len : length (header_bytes m len) = kFrameHeaderSize.
Proof. unfold header_bytes. by rewrite !length_app, !length_le_bytes. Qed.
Lemma length_covered m : length (covered m) = (kFrameHeaderSize + length (body_bytes m))%nat.
Proof. unfold covered. by rewrite length_app, length_frame_header. Qed.
Lemma length_frame m : length (frame_bytes m) = (kFrameHeaderSize + length (body_bytes m) + 4)%nat.
Proof. unfold frame_bytes. by rewrite length_app, length_covered, length_le_bytes. Qed.

Lemma encode_frame_bytes m :
  message_wf m →
  encode_frame m = if bool_decide (body_len m ≤ u32_max) then Some (frame_bytes m) else None.
Proof.
  intros Hm. unfold encode_frame. rewrite encode_body_bytes by done. cbn [mbind option_bind].
  unfold ByteWriter.size. fold (body_len m).
  case_bool_decide as Hlen.
  - rewrite (proj2 (fits_u32_spec _) Hlen). cbn [negb]. unfold frame_bytes, covered, header_bytes.
    norm_writer. done.
  - destruct (fits_u32 (body_len m)) eqn:E; [|done]. by apply fits_u32_spec in E.
Qed.

(** Reading the header of a frame, given at least its first bytes. *)
Lemma read_header_bytes m len rest :
  message_wf m → in_u32 len →
  (∃ r, read_header (Reader.of_span (take kFrameHeaderSize (header_bytes m len ++ rest)))
        = inr (mkFrameHeader (to_u32 (msg_type m)) (msg_seq m) len, r) ∧ len ≤ kMaxFrameBody)
  ∨ (read_header (Reader.of_span (take kFrameHeaderSize (header_bytes m len ++ rest)))
       = inl FrameError.kBadLength ∧ kMaxFrameBody < len).
Proof.
  intros Hm Hlen. rewrite take_app_length_eq by (by rewrite length_frame_header).
  assert (Hseq : in_u32 (msg_seq m)) by (unfold message_wf in Hm; tauto).
  assert (Htype : in_u32 (to_u32 (msg_type m))) by (apply to_u32_in_u32; discriminate).
  unfold read_header, header_bytes, mbind, Parse_bind.
  destruct (parses_reader_u32 FrameError.kTruncated kMagic ltac:(unfold kMagic; zlia)
    (Reader.of_span (header_bytes m len))
    (le_bytes 4 PF_PROTOCOL_VERSION ++ le_bytes 4 (to_u32 (msg_type m)) ++ le_bytes 4 (msg_seq m)
       ++ le_bytes 4 len)) as (r1 & E1 & Hb1 & _ & Hu1); [cbn; lia|done|done|].
  unfold header_bytes in E1. rewrite E1, Z.eqb_refl. cbn [negb].
  destruct (parses_reader_u32 FrameError.kTruncated PF_PROTOCOL_VERSION
    ltac:(unfold PF_PROTOCOL_VERSION; zlia) r1 _ Hb1 eq_refl Hu1) as (r2 & E2 & Hb2 & _ & Hu2).
  rewrite E2, Z.eqb_refl. cbn [negb].
  destruct (parses_reader_u32 FrameError.kTruncated _ Htype r2 _ Hb2 eq_refl Hu2)
    as (r3 & E3 & Hb3 & _ & Hu3). rewrite E3.
  destruct (parses_reader_u32 FrameError.kTruncated _ Hseq r3 _ Hb3 eq_refl Hu3)
    as (r4 & E4 & Hb4 & _ & Hu4). rewrite E4.
  rewrite <- (app_nil_r (le_bytes 4 len)) in Hu4.
  destruct (parses_reader_u32 FrameError.kTruncated _ Hlen r4 _ Hb4 eq_refl Hu4)
    as (r5 & E5 & _). rewrite E5.
  destruct (Z.ltb_spec kMaxFrameBody len); [right|left]; eauto.
Qed.

(** The pieces of a buffer that starts with a frame. *)
Lemma frame_pieces m rest :
  let bytes := frame_bytes m ++ rest in
  let n := length (body_bytes m) in
  bytes = header_bytes m (body_len m) ++ body_bytes m ++ le_bytes 4 (crc32 (covered m)) ++ rest
  ∧ take (kFrameHeaderSize + n) bytes = covered m
  ∧ subspan kFrameHeaderSize n bytes = body_bytes m
  ∧ subspan (kFrameHeaderSize + n) 4 bytes = le_bytes 4 (crc32 (covered m))
  ∧ drop (kFrameHeaderSize + n + 4) bytes = rest.
Proof.
  intros bytes n.
  assert (Hb : bytes = header_bytes m (body_len m) ++ body_bytes m
                 ++ le_bytes 4 (crc32 (covered m)) ++ rest)
    by (unfold bytes, frame_bytes, covered; by rewrite <- !app_assoc).
  assert (Hc : bytes = covered m ++ le_bytes 4 (crc32 (covered m)) ++ rest)
    by (unfold bytes, frame_bytes; by rewrite <- !app_assoc).
  assert (Hl : (kFrameHeaderSize + n)%nat = length (covered m)) by (by rewrite length_covered).
  split_and!; [done|..].
  - rewrite Hl, Hc. apply take_app_length.
  - unfold subspan. rewrite Hb, drop_app_length_eq by (by rewrite length_frame_header). apply take_app_length.
  - unfold subspan. rewrite Hl, Hc, drop_app_length. apply take_app_length_eq.
    by rewrite length_le_bytes.
  - rewrite <- drop_drop, Hl, Hc, drop_app_length. apply drop_app_length_eq.
    by rewrite length_le_bytes.
Qed.

Lemma decode_frame_bytes m :
  message_wf m → body_len m ≤ u32_max →
  decode_frame (frame_bytes m)
  = if kMaxFrameBody <? body_len m then inl FrameError.kBadLength
    else if bool_decide (msg_type m = MessageType.kInvalid) then inl FrameError.kMalformedBody
    else inr m.
Proof.
  intros Hm Hlen. pose proof (frame_pieces m []) as Hp. rewrite app_nil_r in Hp.
  destruct Hp as (Hb & Hcov & Hbody & Hcrc & _). unfold decode_frame.
  destruct (Nat.ltb_spec (length (frame_bytes m)) (kFrameHeaderSize + 4)) as [Hs|_];
    [rewrite length_frame in Hs; unfold kFrameHeaderSize in *; lia|].
  destruct (read_header_bytes m (body_len m) (body_bytes m ++ le_bytes 4 (crc32 (covered m)) ++ [])
    Hm ltac:(unfold body_len in *; zlia)) as [[r [E Hmax]]|[E Hmax]]; rewrite Hb at 1; rewrite E.
  2:{ by rewrite (proj2 (Z.ltb_lt _ _) Hmax). }
  rewrite (proj2 (Z.ltb_ge _ _) Hmax). cbn [fh_body_len fh_type fh_seq].
  unfold body_len at 1 2 3 4 5. rewrite !Nat2Z.id, length_frame, Nat.ltb_irrefl.
  rewrite Hcrc, ReaderLemmas.read_u32_at_le_bytes by apply crc32_in_u32.
  rewrite Hcov, Z.eqb_refl. cbn [negb]. rewrite Hbody, decode_body_bytes by done.
  case_bool_decide; [done|]. rewrite Z.eqb_refl. cbn [negb]. by destruct m.
Qed.

(** A message that fits a frame. *)
Definition deliverable (m : Message) : Prop :=
  message_wf m ∧ msg_type m ≠ MessageType.kInvalid ∧ body_len m ≤ kMaxFrameBody.

(** A complete frame at the head of the buffer is popped, and only it. *)
Lemma pop_frame m rest :
  deliverable m →
  pop (mkFrameDecoder (frame_bytes m ++ rest) false) = (Some m, mkFrameDecoder rest false).
Proof.
  intros (Hm & Ht & Hlen). destruct (frame_pieces m rest) as (Hb & Hcov & Hbody & Hcrc & Hrest).
  assert (Htot : length (frame_bytes m ++ rest)
                 = (kFrameHeaderSize + length (body_bytes m) + 4 + length rest)%nat)
    by (rewrite length_app, length_frame; done).
  unfold pop. cbn [buffer_ fatal_].
  destruct (Nat.ltb_spec (length (frame_bytes m ++ rest)) (kFrameHeaderSize + 4)) as [Hs|_];
    [rewrite Htot in Hs; lia|].
  destruct (read_header_bytes m (body_len m) (body_bytes m ++ le_bytes 4 (crc32 (covered m)) ++ rest)
    Hm ltac:(unfold body_len, kMaxFrameBody in *; zlia)) as [[r [E _]]|[_ Hmax]]; [|lia].
  rewrite Hb at 1. rewrite E. cbn [fh_body_len fh_seq].
  unfold body_len. rewrite !Nat2Z.id.
  destruct (Nat.ltb_spec (length (frame_bytes m ++ rest))
    (kFrameHeaderSize + length (body_bytes m) + 4)) as [Hs|_]; [rewrite Htot in Hs; lia|].
  rewrite Hcrc, ReaderLemmas.read_u32_at_le_bytes by apply crc32_in_u32.
  rewrite Hcov, Z.eqb_refl. cbn [negb]. rewrite Hbody, decode_body_bytes by done.
  rewrite bool_decide_eq_false_2 by done. rewrite Hrest. by destruct m.
Qed.

(** A buffer that holds only a part of a frame is left alone. *)
Lemma pop_partial m buf rest :
  deliverable m → frame_bytes m = buf ++ rest → rest ≠ [] →
  pop (mkFrameDecoder buf false) = (None, mkFrameDecoder buf false).
Proof.
  intros (Hm & Ht & Hlen) Heq Hne. unfold pop. cbn [buffer_ fatal_].
  destruct (Nat.ltb_spec (length buf) (kFrameHeaderSize + 4)) as [_|Hge]; [done|].
  assert (Hl : (length buf < kFrameHeaderSize + length (body_bytes m) + 4)%nat).
  { rewrite <- length_frame, Heq, length_app. destruct rest; [done|]. cbn. lia. }
  assert (Hbuf : take kFrameHeaderSize buf
    = take kFrameHeaderSize (header_bytes m (body_len m) ++ [])).
  { rewrite app_nil_r, (take_ge (header_bytes _ _)) by (by rewrite length_frame_header).
    apply (f_equal (take kFrameHeaderSize)) in Heq. revert Heq.
    rewrite take_app_le by lia. unfold frame_bytes, covered. rewrite <- !app_assoc.
    by rewrite take_app_length_eq by (by rewrite length_frame_header). }
  rewrite Hbuf. destruct (read_header_bytes m (body_len m) [] Hm
    ltac:(unfold body_len, kMaxFrameBody in *; zlia)) as [[r [E _]]|[_ Hmax]]; [|lia].
  rewrite E. cbn [fh_body_len]. unfold body_len. rewrite Nat2Z.id.
  by rewrite (proj2 (Nat.ltb_lt _ _) Hl).
Qed.

(** ** What [decode_frame] accepts is sealed *)

Lemma decode_frame_sealed bytes m : decode_frame bytes = inr m → sealed bytes.
Proof.
  unfold decode_frame. destruct (Nat.ltb_spec (length bytes) (kFrameHeaderSize + 4)) as [|Hlen]; [done|].
  destruct (read_header _) as [e|[h r]]; [done|].
  set (be := (kFrameHeaderSize + Z.to_nat (fh_body_len h))%nat).
  destruct (Nat.ltb_spec (length bytes) (be + 4)); [done|].
  destruct (Nat.ltb_spec (be + 4) (length bytes)); [done|].
  rewrite ReaderLemmas.read_u32_at_spec. unfold subspan at 1 2. rewrite length_take, length_drop.
  destruct (Nat.ltb_spec (4 `min` (length bytes - be)) 4); [done|].
  rewrite take_take, (take_ge (drop be bytes)) by (rewrite length_drop; lia).
  destruct (Z.eqb_spec (crc32 (take be bytes)) (le_value (drop be bytes))) as [Hcrc|]; [|done].
  intros _. unfold sealed. by replace (length bytes - 4)%nat with be by lia.
Qed.

(** ** The streaming decoder against [decode_frame] *)

(** Two buffers that share a prefix show the decoders the same pieces inside it. *)
Lemma subspan_prefix k n l1 l2 :
  l1 `prefix_of` l2 → (k + n ≤ length l1)%nat → subspan k n l1 = subspan k n l2.
Proof.
  intros [ext ->] Hlen. unfold subspan. rewrite !take_drop_commute.
  by rewrite (take_app_le l1) by lia.
Qed.
Lemma take_prefix n l1 l2 : l1 `prefix_of` l2 → (n ≤ length l1)%nat → take n l1 = take n (l2 : list byte).
Proof. intros [ext ->] Hlen. by rewrite take_app_le. Qed.
Lemma subspan_take k n m (l : list byte) : (k + n ≤ m)%nat → subspan k n (take m l) = subspan k n l.
Proof. intros H. unfold subspan. rewrite !take_drop_commute, take_take. by rewrite Nat.min_l. Qed.

(** What [pop] promises about the bytes it was fed, in terms of [decode_frame]. *)
Inductive pop_outcome (buf : list byte) : option Message * FrameDecoder → Prop :=
  | pop_delivers frame rest m :
      buf = frame ++ rest →
      decode_frame frame = inr m
        ∨ (decode_frame frame = inl FrameError.kMalformedBody
           ∧ ∃ m' seq, decode_body (subspan kFrameHeaderSize (length frame - 24) frame) = Some m'
                       ∧ m = m' <| msg_seq := seq |>) →
      pop_outcome buf (Some m, mkFrameDecoder rest false)
  | pop_waits :
      decode_frame buf = inl FrameError.kTruncated →
      pop_outcome buf (None, mkFrameDecoder buf false)
  | pop_fails :
      (∀ ext frame, frame `prefix_of` buf ++ ext → ∃ e, decode_frame frame = inl e) →
      pop_outcome buf (None, mkFrameDecoder [] true).

Lemma decode_frame_header_error buf e frame :
  (kFrameHeaderSize + 4 ≤ length buf)%nat →
  read_header (Reader.of_span (take kFrameHeaderSize buf)) = inl e →
  ∀ ext, frame `prefix_of` buf ++ ext → ∃ e', decode_frame frame = inl e'.
Proof.
  intros Hlen Hh ext Hpre. unfold decode_frame.
  destruct (Nat.ltb_spec (length frame) (kFrameHeaderSize + 4)); [eauto|].
  rewrite (take_prefix _ _ _ Hpre), take_app_le by lia. rewrite Hh. eauto.
Qed.

(** The checks that follow a good header, on the pieces of a buffer that holds the frame. *)
Definition checked_body (h : FrameHeader) (buf : list byte) : FrameError + Message :=
  let n := Z.to_nat (fh_body_len h) in
  match Reader.read_u32_at (subspan (kFrameHeaderSize + n) 4 buf) with
  | None => inl FrameError.kTruncated
  | Some stored_crc =>
    if negb (crc32 (take (kFrameHeaderSize + n) buf) =? stored_crc) then inl FrameError.kChecksum
    else match decode_body (subspan kFrameHeaderSize n buf) with
         | None => inl FrameError.kMalformedBody
         | Some msg => inr msg
         end
  end.

Lemma decode_frame_checked buf h r :
  (kFrameHeaderSize + 4 ≤ length buf)%nat →
  read_header (Reader.of_span (take kFrameHeaderSize buf)) = inr (h, r) →
  let total := (kFrameHeaderSize + Z.to_nat (fh_body_len h) + 4)%nat in
  decode_frame buf =
  if (length buf <? total)%nat then inl FrameError.kTruncated
  else if (total <? length buf)%nat then inl FrameError.kTrailingGarbage
  else match checked_body h buf with
       | inl e => inl e
       | inr msg => if negb (to_u32 (msg_type msg) =? fh_type h) then inl FrameError.kMalformedBody
                    else inr (msg <| msg_seq := fh_seq h |>)
       end.
Proof.
  intros Hlen Hh. unfold decode_frame. rewrite (proj2 (Nat.ltb_ge _ _) Hlen), Hh.
  unfold checked_body. repeat case_match; simplify_eq; done.
Qed.

Lemma pop_checked buf h r :
  (kFrameHeaderSize + 4 ≤ length buf)%nat →
  read_header (Reader.of_span (take kFrameHeaderSize buf)) = inr (h, r) →
  let total := (kFrameHeaderSize + Z.to_nat (fh_body_len h) + 4)%nat in
  pop (mkFrameDecoder buf false) =
  if (length buf <? total)%nat then (None, mkFrameDecoder buf false)
  else match checked_body h buf with
       | inl e => (None, mkFrameDecoder [] true)
       | inr msg => (Some (msg <| msg_seq := fh_seq h |>), mkFrameDecoder (drop total buf) false)
       end.
Proof.
  intros Hlen Hh. unfold pop. cbn [buffer_ fatal_]. rewrite (proj2 (Nat.ltb_ge _ _) Hlen), Hh.
  unfold checked_body. repeat case_match; simplify_eq; done.
Qed.

Lemma checked_body_prefix h frame buf :
  frame `prefix_of` buf → (kFrameHeaderSize + Z.to_nat (fh_body_len h) + 4 ≤ length frame)%nat →
  checked_body h frame = checked_body h buf.
Proof.
  intros Hpre Hlen. unfold checked_body.
  rewrite !(subspan_prefix _ _ frame buf), (take_prefix _ frame buf) by (done || lia). done.
Qed.

(** A frame that failed a check behind a good header fails however the stream goes on. *)
Lemma checked_body_error buf h r e frame ext :
  (kFrameHeaderSize + Z.to_nat (fh_body_len h) + 4 ≤ length buf)%nat →
  read_header (Reader.of_span (take kFrameHeaderSize buf)) = inr (h, r) →
  checked_body h buf = inl e → frame `prefix_of` buf ++ ext → ∃ e', decode_frame frame = inl e'.
Proof.
  intros Hs Hh Hc Hpre.
  destruct (Nat.le_gt_cases (kFrameHeaderSize + 4) (length frame)) as [Hl|Hl].
  2:{ unfold decode_frame. rewrite (proj2 (Nat.ltb_lt _ _) Hl). eauto. }
  rewrite (decode_frame_checked frame h r); [|done|by rewrite (take_prefix _ _ _ Hpre), take_app_le by lia].
  cbn zeta. set (total := (kFrameHeaderSize + Z.to_nat (fh_body_len h) + 4)%nat) in *.
  destruct (Nat.ltb_spec (length frame) total); [eauto|].
  destruct (Nat.ltb_spec total (length frame)); [eauto|].
  rewrite (checked_body_prefix h frame (buf ++ ext)) by done.
  rewrite <- (checked_body_prefix h buf (buf ++ ext)) by (by exists ext || done).
  rewrite Hc. eauto.
Qed.

(** A frame that passed them is what [decode_frame] accepts, up to the type of the header. *)
Lemma checked_body_delivers buf h r msg :
  let total := (kFrameHeaderSize + Z.to_nat (fh_body_len h) + 4)%nat in
  (total ≤ length buf)%nat →
  read_header (Reader.of_span (take kFrameHeaderSize buf)) = inr (h, r) →
  checked_body h buf = inr msg →
  pop_outcome buf (Some (msg <| msg_seq := fh_seq h |>), mkFrameDecoder (drop total buf) false).
Proof.
  intros total Hs Hh Hc.
  assert (Hl : length (take total buf) = total) by (rewrite length_take; lia).
  assert (Hl4 : (kFrameHeaderSize + 4 ≤ length (take total buf))%nat) by (rewrite Hl; unfold total; lia).
  assert (Hpre : take total buf `prefix_of` buf) by (exists (drop total buf); by rewrite take_drop).
  eapply (pop_delivers _ (take total buf)); [by rewrite take_drop|].
  rewrite (decode_frame_checked (take total buf) h r); [|done|by rewrite (take_prefix _ _ _ Hpre) by lia].
  cbn zeta. fold total. rewrite Hl, !Nat.ltb_irrefl.
  rewrite (checked_body_prefix h _ buf), Hc by (done || by rewrite Hl).
  destruct (to_u32 (msg_type msg) =? fh_type h) eqn:Ht; [by left|right].
  split; [done|]. exists msg, (fh_seq h). split; [|done]. revert Hc. unfold checked_body.
  replace (total - 24)%nat with (Z.to_nat (fh_body_len h)) by (unfold total, kFrameHeaderSize; lia).
  rewrite subspan_take by (unfold total; lia). repeat case_match; naive_solver.
Qed.

Lemma pop_outcome_of buf : pop_outcome buf (pop (mkFrameDecoder buf false)).
Proof.
  destruct (Nat.le_gt_cases (kFrameHeaderSize + 4) (length buf)) as [Hlen|Hlen].
  2:{ unfold pop. cbn [buffer_ fatal_]. rewrite (proj2 (Nat.ltb_lt _ _) Hlen). apply pop_waits.
      unfold decode_frame. by rewrite (proj2 (Nat.ltb_lt _ _) Hlen). }
  destruct (read_header (Reader.of_span (take kFrameHeaderSize buf))) as [e|[h r]] eqn:Hh.
  { unfold pop. cbn [buffer_ fatal_]. rewrite (proj2 (Nat.ltb_ge _ _) Hlen), Hh. apply pop_fails.
    intros ext frame. by apply (decode_frame_header_error buf e). }
  rewrite (pop_checked buf h r) by done. cbn zeta.
  destruct (Nat.ltb_spec (length buf) (kFrameHeaderSize + Z.to_nat (fh_body_len h) + 4)) as [Hs|Hs].
  { apply pop_waits. rewrite (decode_frame_checked buf h r) by done. cbn zeta.
    by rewrite (proj2 (Nat.ltb_lt _ _) Hs). }
  destruct (checked_body h buf) as [e|msg] eqn:Hc; [|by apply (checked_body_delivers buf h r)].
  apply pop_fails. intros ext frame. by apply (checked_body_error buf h r e).
Qed.

End FramingLemmas.

Module FramingProperties.
Import Framing FramingLemmas.

Definition hello : Message :=
  default_Message <| msg_type := MessageType.kHello |> <| msg_seq := 7 |>
    <| msg_worker_id := mkId 3 |> <| msg_detail := "hello"%string |>.

(** C19: what the receiver of an encoded message gets.  Encoding fails only for a body whose
    length a [uint32_t] cannot hold; decoding gives back the message unless its body is
    longer than [kMaxFrameBody], which the encoder does not check, or its type is
    [kInvalid]; those two are reported as [kBadLength] and [kMalformedBody]. *)
Theorem frame_roundtrip m :
  message_wf m →
  match encode_frame m with
  | None => u32_max < body_len m
  | Some frame =>
      decode_frame frame
      = if kMaxFrameBody <? body_len m then inl FrameError.kBadLength
        else if bool_decide (msg_type m = MessageType.kInvalid) then inl FrameError.kMalformedBody
        else inr m
  end.
Proof.
  intros Hm. rewrite encode_frame_bytes by done. case_bool_decide; [|lia].
  by apply decode_frame_bytes.
Qed.

Lemma frame_roundtrip_witness :
  ∃ frame, encode_frame hello = Some frame ∧ decode_frame frame = inr hello.
Proof.
  pose proof (frame_roundtrip hello ltac:(unfold message_wf; vm_compute; intuition discriminate)) as H.
  destruct (encode_frame hello) as [frame|] eqn:E; [|vm_compute in E; discriminate].
  exists frame. split; [done|exact H].
Defined.

(** C20: overwriting up to four consecutive bytes of an accepted frame, in the checksummed
    part or in the checksum, gives bytes that [decode_frame] rejects. *)
Theorem frame_rejects_corruption pre m1 m2 post m :
  decode_frame (pre ++ m1 ++ post) = inr m →
  length m1 = length m2 → (length m1 ≤ 4)%nat → m1 ≠ m2 →
  (4 ≤ length post)%nat ∨ (length (m1 ++ post) ≤ 4)%nat →
  ∃ e, decode_frame (pre ++ m2 ++ post) = inl e.
Proof.
  intros H1 Hl H4 Hne Hwin. destruct (decode_frame (pre ++ m2 ++ post)) as [e|s2] eqn:H2; [by exists e|].
  apply decode_frame_sealed in H1, H2. destruct Hne. by apply (sealed_burst pre m1 m2 post).
Qed.

Lemma frame_rejects_corruption_witness :
  ∃ pre b post, frame_bytes hello = pre ++ [b] ++ post
    ∧ ∃ e, decode_frame (pre ++ [xff] ++ post) = inl e.
Proof.
  exists (take 41 (frame_bytes hello)), x00, (drop 42 (frame_bytes hello)).
  split; [vm_compute; reflexivity|].
  apply (frame_rejects_corruption _ [x00] _ _ hello).
  - vm_compute. reflexivity.
  - reflexivity.
  - cbn. lia.
  - discriminate.
  - left. apply Nat.leb_le. vm_compute. reflexivity.
Defined.

(** C18: the streaming decoder against [decode_frame], for every content of its buffer.  It
    delivers the frame at the head of the buffer and keeps the rest, and what it delivers
    [decode_frame] accepts, unless header and body name different types; it waits only
    while [decode_frame] finds the buffer truncated; and it gives up only when no frame
    that the stream could still begin with would be accepted. *)
Theorem pop_refines_decode_frame buf : pop_outcome buf (pop (mkFrameDecoder buf false)).
Proof. apply pop_outcome_of. Qed.

(** A frame whose header names [kShutdown] and whose body is the one of [hello]. *)
Definition mistyped : list byte :=
  let covered := header_bytes (hello <| msg_type := MessageType.kShutdown |>) (body_len hello)
                   ++ body_bytes hello in
  covered ++ le_bytes 4 (crc32 covered).

(** The streaming decoder does not compare the type in the header with the type in the
    body: it delivers a frame that [decode_frame] rejects as malformed. *)
Theorem pop_ignores_header_type :
  decode_frame mistyped = inl FrameError.kMalformedBody ∧
  pop (mkFrameDecoder mistyped false) = (Some hello, mkFrameDecoder [] false).
Proof. vm_compute. done. Qed.

End FramingProperties.
