(* ===== verification/FramingTypes.v ===== *)
(** * Messages on the wire are well typed

    What a decoder delivers has every value in the range of its C++ type, whatever bytes
    arrived; and the messages without strings fit a frame. *)

From S2P Require Import Prelude Bytes Checked Binary Parse Identity Enums Interfaces Framing FramingTheorems.
From stdpp Require Import base list strings numbers.
From Stdlib Require Import ZArith Lia.
Open Scope Z_scope.

Module FramingTypeLemmas.
Import Framing FramingLemmas.

(** ** Single reads *)

Lemma yields_with {E} (e : E) n rd (Hrd : ∀ r, rd r = Reader.read_le n r) :
  yields (read_with e rd) (λ v, 0 ≤ v < 256 ^ Z.of_nat n).
Proof.
  intros r v r' Hb. unfold read_with. rewrite Hrd.
  destruct (Reader.read_le n r) as [[v' r1]|] eqn:E1; [|done]. intros Heq. injection Heq as <- <-.
  by apply ReaderLemmas.read_le_inv in E1 as (-> & Hle & Hv).
Qed.
Lemma yields_msg_u64 : yields read_u64 in_u64.
Proof. eapply yields_weaken; [|by apply (yields_with tt 8)]. intros v. apply in_u64_256. Qed.
Lemma yields_any_u32 {E} (e : E) : yields (read_with e Reader.u32) in_u32.
Proof. eapply yields_weaken; [|by apply (yields_with e 4)]. intros v. apply in_u32_256. Qed.
Lemma yields_msg_u32 : yields read_u32 in_u32.
Proof. apply yields_any_u32. Qed.
Lemma yields_msg_id {d} : yields (read_id (d := d)) wf.
Proof. eapply yields_bind; [apply yields_msg_u64|]. intros v Hv. by apply yields_ret. Qed.
Lemma yields_msg_gen {d} : yields (read_gen (d := d)) wf.
Proof. eapply yields_bind; [apply yields_msg_u64|]. intros v Hv. by apply yields_ret. Qed.
Lemma yields_msg_bool : yields read_bool (λ _, True).
Proof.
  eapply yields_bind; [by apply (yields_with tt 1), ReaderLemmas.u8_read_le|].
  intros v Hv. by apply yields_ret.
Qed.
Lemma yields_msg_enum {T} `{CEnum T} (last : T) : yields (read_enum last) (λ _, True).
Proof.
  eapply yields_bind; [apply yields_msg_u32|]. intros v Hv. cbn beta.
  destruct (_ <? _); [apply yields_fail|by apply yields_ret].
Qed.
Lemma yields_msg_string : yields read_string (λ s, Z.of_nat (String.length s) ≤ u32_max).
Proof.
  intros r s r' Hb. unfold read_string, Reader.string_, Reader.u32.
  destruct (Reader.read_le 4 r) as [[n r1]|] eqn:E1; [|done].
  apply ReaderLemmas.read_le_inv in E1 as (-> & Hle & Hv); [|done].
  destruct (fits_u32 n) eqn:Hf; [|done]. cbn [negb]. apply fits_u32_spec in Hf.
  unfold Reader.remaining. cbn [pos_ data_].
  destruct (Z.ltb_spec (Z.of_nat (length (data_ r) - (pos_ r + 4))) n) as [|Hn]; [done|].
  intros [= <- <-]. cbn [in_bounds pos_ data_ set_field]. split.
  - rewrite <- Fields.length_string_bytes, string_bytes_string, length_take, length_drop. lia.
  - cbn. lia.
Qed.

#[local] Hint Resolve yields_msg_u64 yields_msg_u32 yields_msg_id yields_msg_gen yields_msg_bool
  yields_msg_enum yields_msg_string : parse.

(** ** Messages *)

Lemma yields_message : yields read_message (λ m, message_wf m ∧ msg_type m ≠ MessageType.kInvalid).
Proof.
  unfold read_message.
  do 2 (eapply yields_bind; [solve [eauto with parse]|]; intros ? ?; cbn beta in *).
  destruct (_ || _) eqn:Ht; [apply yields_fail|].
  repeat (eapply yields_bind; [solve [eauto with parse]|]; intros ? ?; cbn beta in *).
  apply yields_ret. split; [by unfold message_wf; cbn; split_and!|]. cbn.
  intros E. destruct (of_u32 x) eqn:Eu; [|done]. cbn in E. subst.
  apply to_u32_of_u32 in Eu. by subst.
Qed.

Lemma decode_body_typed bytes m :
  decode_body bytes = Some m → message_wf m ∧ msg_type m ≠ MessageType.kInvalid.
Proof.
  unfold decode_body. destruct (read_message _) as [e|[m' r]] eqn:E; [done|].
  destruct (Reader.at_end r); [|done]. intros [= <-].
  apply yields_message in E; [apply E|cbn; lia].
Qed.

Lemma header_seq bytes h r : read_header (Reader.of_span bytes) = inr (h, r) → in_u32 (fh_seq h).
Proof.
  assert (Hy : yields read_header (λ h, in_u32 (fh_seq h))).
  { unfold read_header.
    repeat first [eapply yields_bind; [apply yields_any_u32|]; intros ? ?; cbn beta
                 |apply yields_fail | apply yields_ret; done
                 |match goal with |- yields (if ?b then _ else _) _ => destruct b end]. }
  intros E. apply Hy in E; [apply E|cbn; lia].
Qed.

Lemma pop_typed d m d' :
  pop d = (Some m, d') → message_wf m ∧ msg_type m ≠ MessageType.kInvalid.
Proof.
  unfold pop. destruct (fatal_ d); [done|]. destruct (_ <? _)%nat; [done|].
  destruct (read_header _) as [e|[h r]] eqn:Eh; [done|]. apply header_seq in Eh.
  destruct (_ <? _)%nat; [done|]. destruct (Reader.read_u32_at _); [|done].
  destruct (_ =? _); [|done]. cbn [negb]. destruct (decode_body _) as [msg|] eqn:Eb; [|done].
  intros [= <- _]. apply decode_body_typed in Eb as [Hwf Ht]. split; [|done].
  unfold message_wf in *. destruct_and! Hwf. by split_and!.
Qed.

(** ** Sizes *)

(** The bytes of a body next to its strings. *)
Definition fixed_body : nat := 245.

Lemma length_body m :
  length (body_bytes m) = (fixed_body + String.length (msg_detail m) + String.length (msg_extra m))%nat.
Proof.
  unfold body_bytes, encode_fields. norm_writer. cbn [app].
  rewrite !length_app, !length_le_bytes, !Fields.length_string_bytes. unfold fixed_body. lia.
Qed.

(** A message without strings. *)
Definition plain (m : Message) : Prop := msg_detail m = EmptyString ∧ msg_extra m = EmptyString.

Lemma plain_deliverable m :
  message_wf m → msg_type m ≠ MessageType.kInvalid → plain m → deliverable m.
Proof.
  intros Hm Ht [Hd He]. split_and!; [done|done|]. unfold body_len. rewrite length_body, Hd, He.
  cbn. unfold kMaxFrameBody. lia.
Qed.
Lemma plain_frame_length m : plain m → length (frame_bytes m) = (kFrameHeaderSize + fixed_body + 4)%nat.
Proof. intros [Hd He]. rewrite length_frame, length_body, Hd, He. cbn. lia. Qed.

End FramingTypeLemmas.

Module FramingTypeProperties.
Import Framing FramingLemmas FramingTypeLemmas.

(** C32: what arrives is well typed: whatever bytes a decoder holds, a message it pops has
    every field in the range of its C++ type and a valid message type, so the identifiers,
    generations and positions that reach the runtime are 64-bit values. *)
Theorem received_message_typed d m d' :
  pop d = (Some m, d') → message_wf m ∧ msg_type m ≠ MessageType.kInvalid.
Proof. apply pop_typed. Qed.

Lemma received_message_typed_witness :
  ∃ d', pop (feed (frame_bytes FramingProperties.hello) (mkFrameDecoder [] false))
      = (Some FramingProperties.hello, d')
    ∧ message_wf FramingProperties.hello ∧ msg_type FramingProperties.hello ≠ MessageType.kInvalid.
Proof.
  destruct (pop (feed (frame_bytes FramingProperties.hello) (mkFrameDecoder [] false))) as [[m|] d'] eqn:E.
  - assert (Hm : m = FramingProperties.hello) by (vm_compute in E; injection E as <- _; reflexivity).
    subst m. exists d'. split; [reflexivity|].
    apply (received_message_typed (feed (frame_bytes FramingProperties.hello) (mkFrameDecoder [] false)) _ d').
    exact E.
  - exfalso. vm_compute in E. discriminate E.
Defined.

End FramingTypeProperties.

