(* ===== verification/Connection.v ===== *)
(** * Framed TCP connections

    Models [include/preemption_fabric/protocol/connection.hpp] and
    [src/protocol/connection.cpp].  The socket calls of the operating system are a
    parameter, class [SocketApi] over a state [N] of the network; what the code relies on
    of them is class [SocketLaws].  [TcpConnection] keeps a socket handle and a frame
    decoder; a call that can block takes fuel, one unit per system call. *)

From S2P Require Import Prelude Bytes Framing.
From stdpp Require Import base list strings numbers gmap.
From Stdlib Require Import ZArith Lia.
Open Scope Z_scope.

Abbreviation SOCKET := Z.
Definition kInvalidSocket : SOCKET := -1.

(** The calls: each returns what the C function returns. [os_recv] also gives the bytes it
    stored, [os_getsockname] the port. *)
Class SocketApi (N : Type) := {
  os_startup : N → bool * N;
  os_socket : N → SOCKET * N;
  os_setsockopt : SOCKET → N → Z * N;
  os_bind : SOCKET → Z → N → Z * N;
  os_listen : SOCKET → Z → N → Z * N;
  os_getsockname : SOCKET → N → Z * Z * N;
  os_accept : SOCKET → N → SOCKET * N;
  os_connect : SOCKET → Z → N → Z * N;
  os_close : SOCKET → N → N;
  os_send : SOCKET → list byte → N → Z * N;
  os_recv : SOCKET → Z → N → Z * list byte * N
}.

(** ** Sockets *)

Section sockets.
Context {N : Type} `{SocketApi N}.

Definition ensure_winsock (n : N) : bool * N := os_startup n.
Definition set_reuse (s : SOCKET) (n : N) : bool * N :=
  let '(r, n) := os_setsockopt s n in (r =? 0, n).
Definition close_socket (s : SOCKET) (n : N) : N :=
  if negb (s =? kInvalidSocket) then os_close s n else n.

Record Listener := mkListener { sock : SOCKET; port : Z }.
Definition default_Listener : Listener := mkListener kInvalidSocket 0.

Definition listen_loopback (p : Z) (n : N) : Listener * N :=
  let l := default_Listener in
  let '(up, n) := ensure_winsock n in
  if negb up then (l, n)
  else
    let '(s, n) := os_socket n in
    if s =? kInvalidSocket then (l, n)
    else
      let '(_, n) := set_reuse s n in
      let '(r, n) := os_bind s p n in
      if negb (r =? 0) then (l, close_socket s n)
      else
        let '(r, n) := os_listen s 16 n in
        if negb (r =? 0) then (l, close_socket s n)
        else if p =? 0 then
          let '(r, actual, n) := os_getsockname s n in
          (mkListener s (if r =? 0 then actual else port l), n)
        else (mkListener s p, n).

Definition accept_connection (listener : SOCKET) (n : N) : SOCKET * N := os_accept listener n.

Definition connect_loopback (p : Z) (n : N) : SOCKET * N :=
  let '(up, n) := ensure_winsock n in
  if negb up then (kInvalidSocket, n)
  else
    let '(s, n) := os_socket n in
    if s =? kInvalidSocket then (s, n)
    else
      let '(r, n) := os_connect s p n in
      if negb (r =? 0) then (kInvalidSocket, close_socket s n)
      else (s, n).

(** ** Connections *)

Record TcpConnection := mkTcpConnection { sock_ : SOCKET; decoder_ : Framing.FrameDecoder }.
#[export] Instance TcpConnection_eta : Eta TcpConnection := λ c, mkTcpConnection (sock_ c) (decoder_ c).

Definition new_connection (s : SOCKET) : TcpConnection := mkTcpConnection s Framing.new_decoder.
Definition is_open (c : TcpConnection) : bool := negb (sock_ c =? kInvalidSocket).
Definition raw_socket (c : TcpConnection) : SOCKET := sock_ c.
Definition protocol_failed (c : TcpConnection) : bool := Framing.fatal_ (decoder_ c).
Definition close (c : TcpConnection) (n : N) : TcpConnection * N :=
  (c <| sock_ := kInvalidSocket |>, close_socket (sock_ c) n).

(** [remaining > 1048576u ? 1048576u : remaining]. *)
Definition chunk_size (remaining : nat) : Z := Z.min 1048576 (Z.of_nat remaining).

(** The loop of [write_all]; [data] is what is left to send, [n - sent] bytes. A successful
    call sends at least one byte, so as many iterations as bytes are enough. *)
Fixpoint write_loop (fuel : nat) (s : SOCKET) (data : list byte) (n : N) : bool * N :=
  match data, fuel with
  | [], _ => (true, n)
  | _, O => (true, n)
  | _, S fuel =>
    let '(r, n) := os_send s (take (Z.to_nat (chunk_size (length data))) data) n in
    if r <=? 0 then (false, n)
    else write_loop fuel s (drop (Z.to_nat r) data) n
  end.
Definition write_all (s : SOCKET) (data : list byte) (n : N) : bool * N :=
  write_loop (length data) s data n.

(** The loop of [read_exact]; [got] are the bytes stored so far. *)
Fixpoint read_loop (fuel : nat) (s : SOCKET) (want : nat) (got : list byte) (n : N)
    : bool * list byte * N :=
  if (want <=? length got)%nat then (true, got, n)
  else
    match fuel with
    | O => (true, got, n)
    | S fuel =>
      let '(r, bs, n) := os_recv s (chunk_size (want - length got)) n in
      if r <=? 0 then (false, got, n)
      else read_loop fuel s want (got ++ bs) n
    end.
Definition read_exact (s : SOCKET) (want : nat) (n : N) : bool * list byte * N :=
  read_loop want s want [] n.

(** [encode_frame] throws where the model gives [None]. *)
Definition send (m : Message) (c : TcpConnection) (n : N) : option (bool * N) :=
  if sock_ c =? kInvalidSocket then Some (false, n)
  else
    frame ← Framing.encode_frame m;
    Some (write_all (sock_ c) frame n).

(** The loop of [receive]: [None] when it still waits for bytes after [fuel] reads. *)
Fixpoint receive_loop (fuel : nat) (s : SOCKET) (d : Framing.FrameDecoder) (n : N)
    : option (option Message * Framing.FrameDecoder * N) :=
  if Framing.fatal_ d then Some (None, d, n)
  else
    match Framing.pop d with
    | (Some m, d) => Some (Some m, d, n)
    | (None, d) =>
      match fuel with
      | O => None
      | S fuel =>
        let '(r, bs, n) := os_recv s 4096 n in
        if r =? 0 then Some (None, d, n)
        else if r <? 0 then Some (None, d, n)
        else receive_loop fuel s (Framing.feed bs d) n
      end
    end.

Definition receive (fuel : nat) (c : TcpConnection) (n : N)
    : option (option Message * TcpConnection * N) :=
  if sock_ c =? kInvalidSocket then Some (None, c, n)
  else
    '(m, d, n) ← receive_loop fuel (sock_ c) (decoder_ c) n;
    Some (m, c <| decoder_ := d |>, n).

End sockets.
