(* ===== verification/ConnectionTheorems.v ===== *)
(** * Correctness of the connections

    What is relied on of the operating system's sockets ([SocketLaws], [SocketReliable]),
    an instance of them ([Pipe]), and what the connections give in return: no handle is
    leaked, [write_all] and [read_exact] move exactly the bytes asked for, and the messages
    sent over a connection are received in order however the network cuts the bytes. *)

From S2P Require Import Prelude Bytes Parse Framing FramingTheorems Connection.
From stdpp Require Import base list strings numbers gmap fin_sets.
From Stdlib Require Import ZArith Lia.
Open Scope Z_scope.
Import Framing FramingLemmas.

(** The documented behaviour of the calls. [handles] are the descriptors that are open,
    [outgoing] the bytes the system accepted for sending on a socket so far, [incoming]
    the bytes of the peer that were not received yet. *)
Class SocketLaws (N : Type) `{SocketApi N} := {
  handles : N → gset SOCKET;
  outgoing : SOCKET → N → list byte;
  incoming : SOCKET → N → list byte;
  os_startup_handles n : handles (os_startup n).2 = handles n;
  os_socket_handles n :
    let '(s, n') := os_socket n in
    if s =? kInvalidSocket then handles n' = handles n
    else (s ∉ handles n) ∧ handles n' = {[s]} ∪ handles n;
  os_setsockopt_handles s n : handles (os_setsockopt s n).2 = handles n;
  os_bind_handles s p n : handles (os_bind s p n).2 = handles n;
  os_listen_handles s b n : handles (os_listen s b n).2 = handles n;
  os_getsockname_handles s n : handles (os_getsockname s n).2 = handles n;
  os_connect_handles s p n : handles (os_connect s p n).2 = handles n;
  os_close_handles s n : handles (os_close s n) = handles n ∖ {[s]};
  os_send_spec s data n :
    data ≠ [] →
    let '(r, n') := os_send s data n in
    r ≤ Z.of_nat (length data)
    ∧ outgoing s n' = outgoing s n ++ take (Z.to_nat r) data;
  os_recv_spec s cap n :
    0 < cap →
    let '(r, bs, n') := os_recv s cap n in
    r ≤ cap ∧ length bs = Z.to_nat r ∧ incoming s n = bs ++ incoming s n'
}.

(** The peer's bytes arrive: a read reports the end of the stream only at its end. *)
Class SocketReliable (N : Type) `{SocketLaws N} :=
  os_recv_arrives s cap n : 0 < cap → incoming s n ≠ [] → 0 < (os_recv s cap n).1.1.

Module ConnectionLemmas.
Section laws.
Context {N : Type} `{SocketLaws N}.

Lemma chunk_size_pos k : (0 < k)%nat → 0 < chunk_size k ≤ Z.of_nat k.
Proof. unfold chunk_size. lia. Qed.

(** *** Handles *)

Lemma close_fresh s (X : gset SOCKET) : s ∉ X → ({[s]} ∪ X) ∖ {[s]} = X.
Proof. set_solver. Qed.

Lemma close_socket_handles s n : s ≠ kInvalidSocket → handles (close_socket s n) = handles n ∖ {[s]}.
Proof.
  intros Hs. unfold close_socket. rewrite (proj2 (Z.eqb_neq _ _) Hs). apply os_close_handles.
Qed.

(** What [listen_loopback] and [connect_loopback] promise: a new handle or none. *)
Definition opened (n : N) (s : SOCKET) (n' : N) : Prop :=
  if s =? kInvalidSocket then handles n' = handles n
  else (s ∉ handles n) ∧ handles n' = {[s]} ∪ handles n.

Lemma opened_refused n s n1 :
  s ≠ kInvalidSocket → s ∉ handles n → handles n1 = {[s]} ∪ handles n →
  opened n kInvalidSocket (close_socket s n1).
Proof.
  intros Hs Hfresh H1. unfold opened. cbn. rewrite close_socket_handles, H1 by done.
  by apply close_fresh.
Qed.

(** *** Writing and reading a given number of bytes *)

Lemma write_loop_spec s fuel data n ok n' :
  (length data ≤ fuel)%nat → write_loop fuel s data n = (ok, n') →
  ∃ done rest, data = done ++ rest ∧ outgoing s n' = outgoing s n ++ done
    ∧ (ok = true ↔ rest = []).
Proof.
  revert data n. induction fuel as [|fuel IH]; intros data n Hf;
    destruct data as [|b data']; cbn [write_loop]; try (cbn in Hf; lia).
  1,2: intros [= <- <-]; exists [], []; rewrite (app_nil_r (outgoing _ _)); split_and!; (done || by split).
  set (data := b :: data') in *.
  pose proof (chunk_size_pos (length data) ltac:(cbn; lia)) as Hc.
  set (part := take (Z.to_nat (chunk_size (length data))) data).
  pose proof (os_send_spec s part n) as Hsend. destruct (os_send s part n) as [r n1].
  destruct Hsend as [Hr Hout].
  { intros E%(f_equal length). unfold part in E. rewrite length_take in E. cbn [length] in E. lia. }
  unfold part in Hr, Hout. rewrite length_take in Hr. rewrite take_take in Hout.
  destruct (Z.leb_spec r 0) as [Hneg|Hpos].
  - intros [= <- <-]. exists [], data.
    replace (Z.to_nat r) with 0%nat in Hout by lia. split_and!; [done|by rewrite Hout|by split].
  - intros Hrun. apply IH in Hrun as (done & rest & Hd & Ho & Hok).
    2:{ rewrite length_drop. lia. }
    exists (take (Z.to_nat r) data ++ done), rest. split_and!; [|..|done].
    + by rewrite <- app_assoc, <- Hd, take_drop.
    + rewrite Ho, Hout, <- app_assoc. by rewrite Nat.min_l by lia.
Qed.

Lemma read_loop_spec s want fuel got n ok out n' :
  (length got ≤ want)%nat → (want - length got ≤ fuel)%nat →
  read_loop fuel s want got n = (ok, out, n') →
  ∃ bs, out = got ++ bs ∧ (ok = true ↔ length out = want)
    ∧ (ok = true → incoming s n = bs ++ incoming s n').
Proof.
  revert got n. induction fuel as [|fuel IH]; intros got n Hgot Hf; cbn [read_loop];
    destruct (Nat.leb_spec want (length got)) as [Hle|Hlt]; try lia.
  1,2: intros [= <- <- <-]; exists []; rewrite app_nil_r; split_and!; done || (split; [lia|done]).
  pose proof (chunk_size_pos (want - length got) ltac:(lia)) as Hc.
  pose proof (os_recv_spec s (chunk_size (want - length got)) n) as Hrecv.
  destruct (os_recv s _ n) as [[r bs] n1]. destruct Hrecv as (Hr & Hbs & Hin); [lia|].
  destruct (Z.leb_spec r 0) as [Hneg|Hpos].
  - intros [= <- <- <-]. exists []. rewrite app_nil_r. split_and!; [done|split; [done|lia]|done].
  - intros Hrun. apply IH in Hrun as (bs' & -> & Hok & Hin').
    2,3: rewrite length_app; lia.
    exists (bs ++ bs'). rewrite app_assoc. split_and!; [done|done|].
    intros E. by rewrite Hin, (Hin' E), app_assoc.
Qed.

(** *** Receiving *)

(** [receive] returns once the bytes the peer sent are used up, whatever they are. *)
Lemma receive_loop_returns s fuel d n :
  (length (incoming s n) < fuel)%nat → is_Some (receive_loop fuel s d n).
Proof.
  revert d n. induction fuel as [|fuel IH]; intros d n Hf; [lia|]. cbn [receive_loop].
  destruct (fatal_ d); [eauto|]. destruct (pop d) as [[m|] d']; [eauto|].
  pose proof (os_recv_spec s 4096 n) as Hrecv. destruct (os_recv s 4096 n) as [[r bs] n1].
  destruct Hrecv as (Hr & Hbs & Hin); [lia|].
  destruct (Z.eqb_spec r 0); [eauto|]. destruct (Z.ltb_spec r 0); [eauto|].
  apply IH. rewrite Hin, length_app in Hf. lia.
Qed.

(** The bytes of the longest frame. *)
Definition frame_limit : nat := kFrameHeaderSize + Z.to_nat kMaxFrameBody + 4.

Lemma read_header_limit r h r' : read_header r = inr (h, r') → fh_body_len h ≤ kMaxFrameBody.
Proof.
  unfold read_header, mbind, Parse_bind, pfail, mret, Parse_ret. intros E. repeat case_match; simplify_eq.
  cbn. by apply Z.ltb_ge.
Qed.

(** A decoder waits only for a buffer shorter than the longest frame. *)
Lemma pop_waits d d' :
  fatal_ d = false → pop d = (None, d') → fatal_ d' = false → d' = d ∧ (length (buffer_ d) < frame_limit)%nat.
Proof.
  intros Hf. unfold pop. rewrite Hf. intros E Hf'.
  destruct (Nat.ltb_spec (length (buffer_ d)) (kFrameHeaderSize + 4)).
  { injection E as <-. split; [done|]. unfold frame_limit. lia. }
  destruct (read_header _) as [|[h r]] eqn:Hh; [by injection E as <-|]. apply read_header_limit in Hh.
  destruct (Nat.ltb_spec (length (buffer_ d)) (kFrameHeaderSize + Z.to_nat (fh_body_len h) + 4)).
  { injection E as <-. split; [done|]. unfold frame_limit.
    assert (Z.to_nat (fh_body_len h) ≤ Z.to_nat kMaxFrameBody)%nat by lia. lia. }
  repeat case_match; simplify_eq.
Qed.

(** A bound on the reads beyond the longest frame is never met: by then the decoder has a
    message or has given up. *)
Lemma receive_loop_enough s fuel d n :
  (0 < fuel)%nat → (frame_limit < fuel + length (buffer_ d))%nat → is_Some (receive_loop fuel s d n).
Proof.
  revert d n. induction fuel as [|fuel IH]; intros d n Hpos Hf; [lia|]. cbn [receive_loop].
  destruct (fatal_ d) eqn:Hd; [eauto|]. destruct (pop d) as [[m|] d'] eqn:Hp; [eauto|].
  pose proof (os_recv_spec s 4096 n) as Hrecv. destruct (os_recv s 4096 n) as [[r bs] n1].
  destruct Hrecv as (Hr & Hbs & _); [lia|].
  destruct (Z.eqb_spec r 0); [eauto|]. destruct (Z.ltb_spec r 0); [eauto|].
  destruct (fatal_ d') eqn:Hd'.
  { assert (E : fatal_ (feed bs d') = true) by exact Hd'. destruct fuel; cbn [receive_loop]; rewrite E; eauto. }
  destruct (pop_waits d d' Hd Hp Hd') as [-> Hl]. apply IH; [lia|].
  change (buffer_ (feed bs d)) with (buffer_ d ++ bs). rewrite length_app. lia.
Qed.
Lemma receive_enough fuel c n : (frame_limit < fuel)%nat → is_Some (receive fuel c n).
Proof.
  intros Hf. unfold receive. destruct (sock_ c =? kInvalidSocket); [eauto|].
  destruct (receive_loop_enough (sock_ c) fuel (decoder_ c) n) as [[[m d] n'] ->]; [lia|lia|]. cbn. eauto.
Qed.

Lemma pop_empty d : fatal_ d = false → buffer_ d = [] → pop d = (None, d).
Proof. destruct d as [buf f]. cbn. by intros -> ->. Qed.

(** At the end of the stream it reports the close, not a protocol error. *)
Lemma receive_loop_end s fuel d n :
  fatal_ d = false → buffer_ d ++ incoming s n = [] → (0 < fuel)%nat →
  ∃ n', receive_loop fuel s d n = Some (None, d, n').
Proof.
  intros Hd [Hb Hin]%app_eq_nil Hf. destruct fuel as [|fuel]; [lia|]. cbn [receive_loop].
  rewrite Hd, (pop_empty d) by done.
  pose proof (os_recv_spec s 4096 n) as Hrecv. destruct (os_recv s 4096 n) as [[r bs] n1].
  destruct Hrecv as (Hr & Hbs & Hin'); [lia|]. rewrite Hin in Hin'.
  symmetry in Hin'. apply app_eq_nil in Hin' as [-> _]. cbn in Hbs.
  destruct (Z.eqb_spec r 0); [eauto|]. destruct (Z.ltb_spec r 0); [eauto|lia].
Qed.

(** When the bytes buffered and on their way begin with a frame, its message is next. *)
Lemma receive_loop_frame `{!SocketReliable N} s m rest fuel d n :
  deliverable m → fatal_ d = false →
  buffer_ d ++ incoming s n = frame_bytes m ++ rest → (length (incoming s n) ≤ fuel)%nat →
  ∃ d' n', receive_loop fuel s d n = Some (Some m, d', n') ∧ fatal_ d' = false
    ∧ buffer_ d' ++ incoming s n' = rest
    ∧ (length (incoming s n') ≤ length (incoming s n))%nat.
Proof.
  intros Hm. revert d n. induction fuel as [|fuel IH]; intros [buf f] n; cbn [buffer_ fatal_ receive_loop];
    intros -> Heq Hf; apply app_eq_app in Heq as [l [[-> Hl]|[Hfr Hl]]].
  1,3: rewrite (pop_frame m l) by done; eexists _, _; split_and!; [done|done|by cbn|lia].
  - destruct (incoming s n) eqn:E; [|cbn in Hf; lia].
    symmetry in Hl. apply app_eq_nil in Hl as [-> ->]. rewrite app_nil_r in Hfr. subst buf.
    rewrite <- (app_nil_r (frame_bytes m)), (pop_frame m []) by done.
    eexists _, _; split_and!; [done|done|by cbn; rewrite E|by rewrite E].
  - destruct (decide (l = [])) as [->|Hne].
    { rewrite app_nil_r in Hfr. subst buf. rewrite <- (app_nil_r (frame_bytes m)), (pop_frame m []) by done.
      eexists _, _; split_and!; [done|done|by cbn|lia]. }
    rewrite (pop_partial m buf l) by done.
    assert (Hin : incoming s n ≠ []) by (rewrite Hl; by destruct l).
    pose proof (os_recv_spec s 4096 n) as Hrecv. pose proof (os_recv_arrives s 4096 n) as Harr.
    destruct (os_recv s 4096 n) as [[r bs] n1]. destruct Hrecv as (Hr & Hbs & Hsplit); [lia|].
    cbn in Harr. specialize (Harr ltac:(lia) Hin).
    destruct (Z.eqb_spec r 0); [lia|]. destruct (Z.ltb_spec r 0); [lia|].
    rewrite Hsplit, length_app in Hf.
    destruct (IH (feed bs (mkFrameDecoder buf false)) n1) as (d' & n' & Hrun & Hd' & Hrest & Hlen').
    + done.
    + change ((buf ++ bs) ++ incoming s n1 = frame_bytes m ++ rest).
      by rewrite <- app_assoc, <- Hsplit, Hl, Hfr, <- app_assoc.
    + lia.
    + eexists _, _. split_and!; [exact Hrun|done|done|rewrite Hsplit, length_app; lia].
Qed.

End laws.
End ConnectionLemmas.

(** ** A network

    One end of a connection: what was sent, what is still to be received, and the sizes the
    network transfers at most, one per call, all of it when the list has run out. *)
Record Pipe := mkPipe {
  p_handles : gset SOCKET;
  p_out : list byte;
  p_in : list byte;
  p_sizes : list nat }.

Module Pipe.

Definition limit (p : Pipe) (n : nat) : nat :=
  match p_sizes p with [] => n | k :: _ => S k `min` n end.

#[export] Instance Pipe_api : SocketApi Pipe := {|
  os_startup p := (true, p);
  os_socket p :=
    let s := fresh ({[kInvalidSocket]} ∪ p_handles p) in
    (s, mkPipe ({[s]} ∪ p_handles p) (p_out p) (p_in p) (p_sizes p));
  os_setsockopt _ p := (0, p);
  os_bind _ _ p := (0, p);
  os_listen _ _ p := (0, p);
  os_getsockname _ p := (0, 40000, p);
  os_accept _ p := (kInvalidSocket, p);
  os_connect _ _ p := (-1, p);
  os_close s p := mkPipe (p_handles p ∖ {[s]}) (p_out p) (p_in p) (p_sizes p);
  os_send _ data p :=
    let k := limit p (length data) in
    (Z.of_nat k, mkPipe (p_handles p) (p_out p ++ take k data) (p_in p) (tail (p_sizes p)));
  os_recv _ cap p :=
    let k := limit p (Z.to_nat cap `min` length (p_in p)) in
    (Z.of_nat k, take k (p_in p), mkPipe (p_handles p) (p_out p) (drop k (p_in p)) (tail (p_sizes p)))
|}.

Lemma limit_le p n : (limit p n ≤ n)%nat.
Proof. unfold limit. destruct (p_sizes p); lia. Qed.
Lemma limit_pos p n : (0 < n)%nat → (0 < limit p n)%nat.
Proof. unfold limit. destruct (p_sizes p); lia. Qed.

#[export, refine] Instance Pipe_laws : SocketLaws Pipe := {|
  handles := p_handles; outgoing _ := p_out; incoming _ := p_in |}.
Proof.
  1,3,4,5,6,7,8: done.
  - intros n. cbn. pose proof (is_fresh ({[kInvalidSocket]} ∪ p_handles n)) as Hf.
    destruct (Z.eqb_spec (fresh ({[kInvalidSocket]} ∪ p_handles n)) kInvalidSocket); set_solver.
  - intros s data n _. cbn. pose proof (limit_le n (length data)). rewrite Nat2Z.id. split; [lia|done].
  - intros s cap n Hcap. cbn. pose proof (limit_le n (Z.to_nat cap `min` length (p_in n))).
    rewrite Nat2Z.id, length_take, take_drop. split_and!; [lia|lia|done].
Defined.

#[export] Instance Pipe_reliable : SocketReliable Pipe.
Proof.
  intros s cap n Hcap Hin. cbn in *. pose proof (limit_pos n (Z.to_nat cap `min` length (p_in n))).
  destruct (p_in n); [done|]. cbn [length] in *. lia.
Qed.

End Pipe.

(** ** Properties *)

Module ConnectionProperties.
Import ConnectionLemmas Pipe.

(** The messages one by one, until one is not sent. *)
Fixpoint send_all {N} `{SocketApi N} (ms : list Message) (c : TcpConnection) (n : N) : option (bool * N) :=
  match ms with
  | [] => Some (true, n)
  | m :: ms =>
    match send m c n with
    | Some (true, n) => send_all ms c n
    | r => r
    end
  end.

(** [k] calls of [receive]. *)
Fixpoint receive_all {N} `{SocketApi N} (fuel k : nat) (c : TcpConnection) (n : N)
    : option (list (option Message) * TcpConnection * N) :=
  match k with
  | O => Some ([], c, n)
  | S k =>
    '(m, c, n) ← receive fuel c n;
    '(ms, c, n) ← receive_all fuel k c n;
    Some (m :: ms, c, n)
  end.

Section delivery.
Context {N : Type} `{SocketReliable N}.

Lemma receive_all_S fuel k c (n : N) :
  receive_all fuel (S k) c n
  = ('(m, c, n) ← receive fuel c n; '(ms, c, n) ← receive_all fuel k c n; Some (m :: ms, c, n)).
Proof. done. Qed.

Lemma receive_frames ms c n fuel :
  sock_ c ≠ kInvalidSocket → fatal_ (decoder_ c) = false → Forall deliverable ms →
  buffer_ (decoder_ c) ++ incoming (sock_ c) n = concat (frame_bytes <$> ms) →
  (length (incoming (sock_ c) n) < fuel)%nat →
  ∃ c' n', receive_all fuel (S (length ms)) c n = Some ((Some <$> ms) ++ [None], c', n')
    ∧ protocol_failed c' = false.
Proof.
  intros Hs. revert c n Hs. induction ms as [|m ms IH]; intros c n Hs Hd Hms Hbuf Hf;
    rewrite receive_all_S; unfold receive; rewrite (proj2 (Z.eqb_neq _ _) Hs).
  - destruct (receive_loop_end (sock_ c) fuel (decoder_ c) n Hd Hbuf) as [n' ->]; [lia|].
    cbn. eauto.
  - apply list.Forall_cons in Hms as [Hm Hms]. rewrite fmap_cons, concat_cons in Hbuf.
    destruct (receive_loop_frame (sock_ c) m _ fuel (decoder_ c) n Hm Hd Hbuf) as (d' & n' & -> & Hd' & Hb' & Hl');
      [lia|]. cbn [mbind option_bind length].
    destruct (IH (c <| decoder_ := d' |>) n') as (c2 & n2 & Hrun & Hok); [done|done|done|done|cbn; lia|].
    rewrite Hrun. cbn. eauto.
Qed.

(** Every send that succeeded put a whole frame on the wire. *)
Lemma send_all_frames ms c (n n' : N) :
  Forall message_wf ms → send_all ms c n = Some (true, n') →
  outgoing (sock_ c) n' = outgoing (sock_ c) n ++ concat (frame_bytes <$> ms).
Proof.
  intros Hms. revert n. induction ms as [|m ms IH]; intros n; cbn [send_all].
  { intros [= ->]. cbn. by rewrite app_nil_r. }
  apply list.Forall_cons in Hms as [Hm Hms]. unfold send at 1.
  destruct (sock_ c =? kInvalidSocket); [done|]. rewrite encode_frame_bytes by done.
  case_bool_decide; [|done]. cbn [mbind option_bind]. unfold write_all.
  destruct (write_loop _ _ _ _) as [[] n1] eqn:E; [|done]. intros Hrun.
  apply write_loop_spec in E as (bs & rest & Hf & Ho & Hok); [|done].
  rewrite (proj1 Hok eq_refl), app_nil_r in Hf. subst bs.
  by rewrite (IH Hms _ Hrun), Ho, fmap_cons, concat_cons, <- app_assoc.
Qed.

End delivery.

(** C17: end to end, over any network that keeps the socket laws: when [send] reported
    success for each of a list of messages whose bodies have at most 64 KiB and whose type is
    not [kInvalid] (the receiver rejects others), on a connection that had sent nothing, the
    peer that receives those bytes gets exactly these messages, in order, and then the end of
    the stream, without a protocol error.
    [fuel] bounds the reads of each [receive]; one per byte in flight is enough. *)
Theorem messages_delivered {N1 N2} `{SocketReliable N1} `{SocketReliable N2}
    ms c1 (n1 n1' : N1) s2 (n2 : N2) fuel :
  Forall deliverable ms → outgoing (sock_ c1) n1 = [] → send_all ms c1 n1 = Some (true, n1') →
  s2 ≠ kInvalidSocket → incoming s2 n2 = outgoing (sock_ c1) n1' →
  (length (incoming s2 n2) < fuel)%nat →
  ∃ c2 n2', receive_all fuel (S (length ms)) (new_connection s2) n2
              = Some ((Some <$> ms) ++ [None], c2, n2')
    ∧ protocol_failed c2 = false.
Proof.
  intros Hms Hstart Hsend Hs Hin Hf.
  assert (Hwf : Forall message_wf ms) by (eapply Forall_impl; [exact Hms|by intros m []]).
  apply send_all_frames in Hsend; [|done]. rewrite Hstart in Hsend. cbn [app] in Hsend.
  apply receive_frames; [done|done|done| |done]. cbn. by rewrite Hin, Hsend.
Qed.

Definition hello_again : Message := FramingProperties.hello <| msg_seq := 8 |>.

Lemma messages_delivered_witness :
  let sender := mkPipe {[3]} [] [] [100; 2; 7]%nat in
  ∃ n1', send_all [FramingProperties.hello; hello_again] (new_connection 3) sender = Some (true, n1')
  ∧ ∃ c2 n2', receive_all 1000 3 (new_connection 4) (mkPipe {[4]} [] (p_out n1') [5; 30; 0; 200]%nat)
      = Some ([Some FramingProperties.hello; Some hello_again; None], c2, n2')
    ∧ protocol_failed c2 = false.
Proof.
  intros sender. eexists. split; [vm_compute; reflexivity|].
  eapply (messages_delivered [FramingProperties.hello; hello_again] (new_connection 3) sender _ 4
    (mkPipe _ _ _ _)).
  - repeat constructor; unfold message_wf; vm_compute; intuition discriminate.
  - reflexivity.
  - vm_compute. reflexivity.
  - discriminate.
  - reflexivity.
  - apply Nat.ltb_lt. vm_compute. reflexivity.
Defined.

(** [write_all] reports success exactly when every byte was accepted, and otherwise has
    put a prefix of the data on the wire. *)
Theorem write_all_spec {N} `{SocketLaws N} s data (n : N) :
  let '(ok, n') := write_all s data n in
  ∃ sent rest, data = sent ++ rest ∧ outgoing s n' = outgoing s n ++ sent
    ∧ (ok = true ↔ rest = []).
Proof.
  destruct (write_all s data n) as [ok n'] eqn:E. by eapply write_loop_spec.
Qed.

Lemma write_all_spec_witness :
  let '(ok, n') := write_all 3 [x00; x01; x02] (mkPipe {[3]} [] [] [0; 1]%nat) in
  ∃ sent rest, [x00; x01; x02] = sent ++ rest
    ∧ outgoing 3 n' = outgoing 3 (mkPipe {[3]} [] [] [0; 1]%nat) ++ sent ∧ (ok = true ↔ rest = []).
Proof. exact (write_all_spec 3 [x00; x01; x02] (mkPipe {[3]} [] [] [0; 1]%nat)). Defined.

(** C40: whatever bytes the peer sends, [receive] returns: it makes at most one more read
    than there are bytes to come. *)
Theorem receive_returns {N} `{SocketLaws N} fuel c (n : N) :
  (length (incoming (sock_ c) n) < fuel)%nat → is_Some (receive fuel c n).
Proof.
  intros Hf. unfold receive. destruct (sock_ c =? kInvalidSocket); [eauto|].
  destruct (receive_loop_returns (sock_ c) fuel (decoder_ c) n Hf) as [[[m d] n'] ->]. cbn. eauto.
Qed.

Lemma receive_returns_witness : is_Some (receive 4 (new_connection 3) (mkPipe {[3]} [] [x00; x01; x02] [])).
Proof. apply receive_returns. cbn. lia. Defined.

(** [listen_loopback] and [connect_loopback] do not leak: either they return a socket
    that was not open before and is the only new handle, or they return an invalid one and
    leave the handles as they were, whichever call failed. *)
Theorem sockets_not_leaked {N} `{SocketLaws N} p (n : N) :
  (let '(l, n') := listen_loopback p n in opened n (sock l) n')
  ∧ (let '(s, n') := connect_loopback p n in opened n s n').
Proof.
  unfold listen_loopback, connect_loopback, ensure_winsock, set_reuse.
  pose proof (os_startup_handles n) as H1. destruct (os_startup n) as [[] n1]; cbn in H1; [|by split].
  pose proof (os_socket_handles n1) as H2. destruct (os_socket n1) as [s n2].
  cbn [negb]. unfold opened at 1. destruct (Z.eqb_spec s kInvalidSocket) as [->|Hs].
  { cbn. split; congruence. }
  rewrite H1 in H2. destruct H2 as [Hfresh H2]. split.
  - pose proof (os_setsockopt_handles s n2) as H3. destruct (os_setsockopt s n2) as [r3 n3].
    pose proof (os_bind_handles s p n3) as H4. destruct (os_bind s p n3) as [r4 n4].
    cbn in H3, H4. destruct (r4 =? 0); [|apply opened_refused; [done|done|congruence]].
    pose proof (os_listen_handles s 16 n4) as H5. destruct (os_listen s 16 n4) as [r5 n5].
    cbn in H5. destruct (r5 =? 0); [|apply opened_refused; [done|done|congruence]].
    pose proof (os_getsockname_handles s n5) as H6. destruct (os_getsockname s n5) as [[r6 a6] n6].
    cbn in H6. destruct (p =? 0); unfold opened; cbn [sock negb];
      rewrite (proj2 (Z.eqb_neq _ _) Hs); split; congruence.
  - pose proof (os_connect_handles s p n2) as H3. destruct (os_connect s p n2) as [r3 n3].
    cbn in H3. destruct (r3 =? 0); cbn; [|apply opened_refused; [done|done|congruence]].
    unfold opened. rewrite (proj2 (Z.eqb_neq _ _) Hs). split; congruence.
Qed.

Lemma sockets_not_leaked_witness :
  let '(l, n') := listen_loopback 0 (mkPipe {[3]} [] [] []) in
  opened (mkPipe {[3]} [] [] []) (sock l) n'.
Proof. exact (proj1 (sockets_not_leaked 0 (mkPipe {[3]} [] [] []))). Defined.

End ConnectionProperties.
