(* ===== verification/Link.v ===== *)
(** * Links between the processes

    What the coordinator and the worker use of a [TcpConnection]: [send], [receive],
    [is_open] and [close].  The two programs are written against class [Link]; a connection over the
    sockets of an operating system is an instance. *)

From S2P Require Import Prelude Bytes Framing Connection ConnectionTheorems.
From stdpp Require Import base list strings numbers.
From Stdlib Require Import ZArith Ascii.
Open Scope Z_scope.

Class Link (L : Type) := {
  link_send : Message → L → bool * L;
  link_receive : L → option Message * L;
  link_is_open : L → bool;
  link_close : L → L
}.

(** A connection with the network below it.  [tl_reads] bounds the reads of one [receive]; a
    [receive] that would make more gives nothing, as on a closed connection.  With a bound
    beyond the longest frame this never happens, whatever arrives ([tcp_receive_exact]).  The
    theorems about every coordinator hold for every bound. *)
Record TcpLink (N : Type) := mkTcpLink { tl_conn : TcpConnection; tl_net : N; tl_reads : nat }.
Arguments mkTcpLink {N}.
Arguments tl_conn {N}.
Arguments tl_net {N}.
Arguments tl_reads {N}.

(** [encode_frame] throws for a body of 4 GiB or more, which no message of the two programs
    has; the link refuses it. *)
#[export] Instance TcpLink_link {N} `{SocketApi N} : Link (TcpLink N) := {|
  link_send m l :=
    match send m (tl_conn l) (tl_net l) with
    | Some (ok, n) => (ok, mkTcpLink (tl_conn l) n (tl_reads l))
    | None => (false, l)
    end;
  link_receive l :=
    match receive (tl_reads l) (tl_conn l) (tl_net l) with
    | Some (m, c, n) => (m, mkTcpLink c n (tl_reads l))
    | None => (None, l)
    end;
  link_is_open l := is_open (tl_conn l);
  link_close l :=
    let '(c, n) := close (tl_conn l) (tl_net l) in mkTcpLink c n (tl_reads l) |}.

(** The link does what the connection does: with enough reads for the longest frame,
    [receive] returns, and the link gives its result. *)
Lemma tcp_receive_exact {N} `{SocketLaws N} (l : TcpLink N) :
  (ConnectionLemmas.frame_limit < tl_reads l)%nat →
  ∃ m c n, receive (tl_reads l) (tl_conn l) (tl_net l) = Some (m, c, n)
    ∧ link_receive l = (m, mkTcpLink c n (tl_reads l)).
Proof.
  intros Hr. cbn [link_receive TcpLink_link].
  assert (Hs : is_Some (receive (tl_reads l) (tl_conn l) (tl_net l))) by (by apply ConnectionLemmas.receive_enough).
  destruct Hs as [[[m c] n] ->]. by exists m, c, n.
Qed.

(** ** Command line arguments

    [std::atoi] and [std::atoll] on a string: leading white space, a sign, and digits up to
    the first other character.  Values the type cannot represent are not modelled. *)

Definition digit (c : Ascii.ascii) : option Z :=
  let v := Z.of_nat (Ascii.nat_of_ascii c) - 48 in
  if (0 <=? v) && (v <=? 9) then Some v else None.
Fixpoint digits (acc : Z) (s : string) : Z :=
  match s with
  | EmptyString => acc
  | String c s => match digit c with Some v => digits (10 * acc + v) s | None => acc end
  end.
Definition is_space (c : Ascii.ascii) : bool :=
  let v := Ascii.nat_of_ascii c in (v =? 32)%nat || ((9 <=? v)%nat && (v <=? 13)%nat).
Fixpoint atoi (s : string) : Z :=
  match s with
  | EmptyString => 0
  | String c rest =>
    if is_space c then atoi rest
    else if bool_decide (c = "-"%char) then - digits 0 rest
    else if bool_decide (c = "+"%char) then digits 0 rest
    else digits 0 s
  end.

(** [static_cast<std::uint16_t>(std::atoi(s))]. *)
Definition parse_port (s : string) : Z := wrap 16 (atoi s).
