(* ===== verification/Worker.v ===== *)
(** * The worker process

    Models [src/coordinator/worker.cpp]: a worker registers with the coordinator and then
    answers its commands, one at a time, over a link. *)

From S2P Require Import Prelude Identity Enums Framing Link.
From stdpp Require Import base list strings numbers.
From Stdlib Require Import ZArith.
Open Scope Z_scope.

(** The locals of [main] after the registration. *)
Record Worker := mkWorker {
  wk_seq : Z;
  wk_worker_id : WorkerId;
  wk_label : string;
  wk_boot : WorkerBootId;
  wk_epoch : CoordinatorEpoch
}.
#[export] Instance Worker_eta : Eta Worker := λ w,
  mkWorker (wk_seq w) (wk_worker_id w) (wk_label w) (wk_boot w) (wk_epoch w).

Module WorkerProcess.

(** [static_cast<std::uint32_t>(seq++)] on a [std::uint64_t]. *)
Definition seq_value (seq : Z) : Z := wrap 32 seq.
Definition seq_next (seq : Z) : Z := wrap 64 (seq + 1).

Definition hello_message (worker_id : WorkerId) (label : string) : Message :=
  default_Message <| msg_type := MessageType.kHello |> <| msg_seq := seq_value 0 |>
    <| msg_worker_id := worker_id |> <| msg_detail := label |>.
Definition register_message (worker_id : WorkerId) (label : string) : Message :=
  default_Message <| msg_type := MessageType.kRegister |> <| msg_seq := seq_value (seq_next 0) |>
    <| msg_worker_id := worker_id |> <| msg_detail := label |>.

(** The fields every answer copies from the worker and from the command. *)
Definition answer (type : MessageType) (w : Worker) (cmd : Message) : Message :=
  default_Message <| msg_type := type |> <| msg_seq := seq_value (wk_seq w) |>
    <| msg_worker_id := wk_worker_id w |> <| msg_worker_boot_id := wk_boot w |>
    <| msg_execution_id := msg_execution_id cmd |>
    <| msg_execution_generation := msg_execution_generation cmd |>
    <| msg_attempt_id := msg_attempt_id cmd |>
    <| msg_attempt_generation := msg_attempt_generation cmd |>
    <| msg_coordinator_epoch := wk_epoch w |>.

Definition progress_message (w : Worker) (cmd : Message) : Message :=
  (answer MessageType.kPublishProgress w cmd)
    <| msg_progress_position := msg_progress_position cmd |>
    <| msg_progress_kind := ProgressKind.kDurable |>.
Definition reach_message (w : Worker) (cmd : Message) : Message :=
  (answer MessageType.kReachSafePoint w cmd)
    <| msg_safe_point_id := msg_safe_point_id cmd |>
    <| msg_safe_point_position := msg_progress_position cmd |>
    <| msg_safe_point_capture_required := msg_safe_point_capture_required cmd |>.
Definition quiesced_message (w : Worker) (cmd : Message) : Message :=
  answer MessageType.kQuiesced w cmd.
Definition resumed_message (w : Worker) (cmd : Message) : Message :=
  (answer MessageType.kResumed w cmd) <| msg_resume_generation := msg_resume_generation cmd |>.
Definition shutdown_message (w : Worker) : Message :=
  default_Message <| msg_type := MessageType.kShutdown |> <| msg_seq := seq_value (wk_seq w) |>.

Definition advance (w : Worker) : Worker := w <| wk_seq := seq_next (wk_seq w) |>.

(** One turn of the command loop: the answers, in the order they are sent, the worker after
    them, and the exit code when the command ends the process. *)
Definition handle (cmd : Message) (w : Worker) : list Message * Worker * option Z :=
  match msg_type cmd with
  | MessageType.kBeginExecution => ([], w, None)
  | MessageType.kPublishProgress =>
    let prog := progress_message w cmd in
    let w := advance w in
    let reach := reach_message w cmd in
    ([prog; reach], advance w, None)
  | MessageType.kQuiesced => ([quiesced_message w cmd], advance w, None)
  | MessageType.kResumed => ([resumed_message w cmd], advance w, None)
  | MessageType.kShutdown => ([shutdown_message w], advance w, Some 0)
  | _ => ([], w, Some 1)
  end.

Section process.
Context {L : Type} `{Link L}.

(** [conn.send(m)] with the result ignored. *)
Definition send_each (ms : list Message) (l : L) : L := foldl (λ l m, (link_send m l).2) l ms.

(** The command loop; [None] when more than [fuel] commands arrive. *)
Fixpoint command_loop (fuel : nat) (w : Worker) (l : L) : option (Z * L) :=
  match fuel with
  | O => None
  | S fuel =>
    match link_receive l with
    | (None, l) => Some (0, l)
    | (Some cmd, l) =>
      let '(answers, w, exit) := handle cmd w in
      let l := send_each answers l in
      match exit with
      | Some code => Some (code, l)
      | None => command_loop fuel w l
      end
    end
  end.

(** [main] from the connection on. *)
Definition session (fuel : nat) (worker_id : WorkerId) (label : string) (l : L) : option (Z * L) :=
  let '(ok, l) := link_send (hello_message worker_id label) l in
  if negb ok then Some (1, l)
  else
    let '(ok, l) := link_send (register_message worker_id label) l in
    if negb ok then Some (1, l)
    else
      match link_receive l with
      | (None, l) => Some (1, l)
      | (Some reg_ack, l) =>
        let w := mkWorker (seq_next (seq_next 0)) worker_id label (msg_worker_boot_id reg_ack)
                   (msg_coordinator_epoch reg_ack) in
        command_loop fuel w l
      end.

(** [main]; [argv] without the program name, [connect] the outcome of [connect_loopback]. *)
Definition main (fuel : nat) (argv : list string) (connect : Z → option L) : option Z :=
  match argv with
  | port :: worker_id :: label :: _ =>
    match connect (parse_port port) with
    | None => Some 1
    | Some l => fst <$> session fuel (mkId (wrap 64 (atoi worker_id))) label l
    end
  | _ => Some 2
  end.

End process.
End WorkerProcess.
