(* ===== verification/WorkerLink.v ===== *)
(** * A worker at the other end of a link

    [Attached] is a worker process that answers without delay.  Class [WorkerLink] says that
    such a worker is at the other end of a link; what the coordinator does with a worker is
    proved against it.  An [Attached] worker is an instance, a connection over a network is
    another one (file [Cable]). *)

From S2P Require Import Prelude Identity Enums Interfaces Framing FramingTheorems FramingTypes Link Worker.
From stdpp Require Import base list strings numbers.
From Stdlib Require Import ZArith Lia.
Open Scope Z_scope.
Import FramingLemmas FramingTypeLemmas.

(** Before the registration is acknowledged, serving commands, or gone. *)
Inductive Process :=
  | Registering (worker_id : WorkerId) (label : string)
  | Serving (w : Worker)
  | Exited.
(** The process and what it sent that was not received yet. *)
Record Attached := mkAttached { at_process : Process; at_replies : list Message }.

Definition spawn (worker_id : WorkerId) (label : string) : Attached :=
  mkAttached (Registering worker_id label)
    [WorkerProcess.hello_message worker_id label; WorkerProcess.register_message worker_id label].

(** The answers to a message, and the process after it. *)
Definition respond (m : Message) (p : Process) : list Message * Process :=
  match p with
  | Registering worker_id label =>
    ([], Serving (mkWorker (WorkerProcess.seq_next (WorkerProcess.seq_next 0)) worker_id label
                    (msg_worker_boot_id m) (msg_coordinator_epoch m)))
  | Serving w =>
    let '(answers, w, exit) := WorkerProcess.handle m w in
    (answers, match exit with None => Serving w | Some _ => Exited end)
  | Exited => ([], Exited)
  end.

Definition deliver (m : Message) (a : Attached) : Attached :=
  mkAttached (respond m (at_process a)).2 (at_replies a ++ (respond m (at_process a)).1).
(** A send fails once the process is gone. *)
Definition running (p : Process) : bool := match p with Exited => false | _ => true end.

#[export] Instance Attached_link : Link Attached := {|
  link_send m a := (running (at_process a), deliver m a);
  link_receive a :=
    match at_replies a with
    | [] => (None, a)
    | m :: rest => (Some m, mkAttached (at_process a) rest)
    end;
  link_is_open a := true;
  link_close a := mkAttached Exited (at_replies a) |}.

(** [connects l a]: the worker at the other end of [l] is [a]. *)
Class WorkerLink (L : Type) `{Link L} := {
  connects : L → Attached → Prop;
  connects_open l a : connects l a → link_is_open l = true;
  connects_send l a m :
    connects l a → at_replies a = [] → deliverable m → running (respond m (at_process a)).2 = true →
    ∃ l', link_send m l = (true, l') ∧ connects l' (deliver m a);
  connects_receive l a m rest :
    connects l a → at_replies a = m :: rest →
    ∃ l', link_receive l = (Some m, l') ∧ connects l' (mkAttached (at_process a) rest)
}.

#[export, refine] Instance Attached_worker : WorkerLink Attached := {| connects l a := l = a |}.
Proof.
  - done.
  - intros l a m -> _ _ Hr. eexists. split; [|done]. cbn. destruct (at_process a); [done|done|]. done.
  - intros l a m rest -> E. cbn. rewrite E. by eexists.
Defined.

(** ** Serving workers *)

Section serving.
Context {L : Type} `{WorkerLink L}.

(** A serving worker with no answer on its way. *)
Definition serves (l : L) (p : Worker) : Prop := connects l (mkAttached (Serving p) []).

Lemma registered l worker_id label m :
  connects l (mkAttached (Registering worker_id label) []) → deliverable m →
  ∃ l', link_send m l = (true, l')
    ∧ serves l' (mkWorker (WorkerProcess.seq_next (WorkerProcess.seq_next 0)) worker_id label
                   (msg_worker_boot_id m) (msg_coordinator_epoch m)).
Proof. intros Hl Hm. by destruct (connects_send l _ m Hl eq_refl Hm eq_refl) as (l' & -> & Hl'); eauto. Qed.

(** A command the worker answers. *)
Lemma served l p m answers p' :
  serves l p → deliverable m → WorkerProcess.handle m p = (answers, p', None) →
  ∃ l', link_send m l = (true, l') ∧ connects l' (mkAttached (Serving p') answers).
Proof.
  intros Hl Hm Hh.
  destruct (connects_send l _ m Hl eq_refl Hm) as (l' & -> & Hl'); [cbn; by rewrite Hh|].
  exists l'. split; [done|]. unfold deliver in Hl'. cbn in Hl'. by rewrite Hh in Hl'.
Qed.

End serving.

(** ** The worker over a recorded connection *)

(** What will arrive, and what was sent. *)
Record Script := mkScript { sc_in : list Message; sc_out : list Message }.
#[export] Instance Script_link : Link Script := {|
  link_send m l := (true, mkScript (sc_in l) (sc_out l ++ [m]));
  link_receive l :=
    match sc_in l with
    | [] => (None, l)
    | m :: rest => (Some m, mkScript rest (sc_out l))
    end;
  link_is_open l := true;
  link_close l := l |}.

(** The commands delivered to an attached worker, one after the other. *)
Definition deliver_all (ms : list Message) (a : Attached) : Attached :=
  foldl (λ a m, deliver m a) a ms.

Lemma deliver_exited ms rs : deliver_all ms (mkAttached Exited rs) = mkAttached Exited rs.
Proof. induction ms as [|m ms IH]; [done|]. cbn. unfold deliver. cbn. by rewrite app_nil_r. Qed.

Lemma send_each_script ms i o :
  WorkerProcess.send_each ms (mkScript i o) = mkScript i (o ++ ms).
Proof.
  unfold WorkerProcess.send_each. revert o. induction ms as [|m ms IH]; intros o; cbn; [by rewrite app_nil_r|].
  by rewrite IH, <- app_assoc.
Qed.

Lemma command_loop_deliver cmds : ∀ fuel p out, (length cmds < fuel)%nat →
  ∃ code rest, WorkerProcess.command_loop fuel p (mkScript cmds out)
    = Some (code, mkScript rest (at_replies (deliver_all cmds (mkAttached (Serving p) out)))).
Proof.
  induction cmds as [|cmd cmds IH]; intros [|fuel] p out Hf; cbn in Hf; try lia.
  { by eexists _, _. }
  cbn [WorkerProcess.command_loop link_receive Script_link sc_in sc_out deliver_all foldl].
  unfold deliver at 2. cbn [at_process at_replies respond].
  destruct (WorkerProcess.handle cmd p) as [[answers p'] [code|]]; rewrite send_each_script; cbn [fst snd].
  - exists code, cmds. fold (deliver_all cmds (mkAttached Exited (out ++ answers))).
    by rewrite deliver_exited.
  - apply IH. lia.
Qed.
