(* ===== verification/Cable.v ===== *)
(** * A worker at the other end of a network

    [Cable] is a network with a worker process behind it: the bytes sent go, in pieces of any
    size, to the frame decoder of the worker's connection, and the worker's answers come back
    as frames.  A TCP connection over it is a [WorkerLink], so what is proved of the
    coordinator against that interface holds down to the bytes. *)

From S2P Require Import Prelude Bytes Identity Enums Interfaces Framing FramingTheorems FramingTypes.
From S2P Require Import Connection ConnectionTheorems Link Worker WorkerLink.
From stdpp Require Import base list strings numbers gmap fin_sets.
From Stdlib Require Import ZArith Lia.
Open Scope Z_scope.
Import Framing FramingLemmas FramingTypeLemmas ConnectionLemmas Pipe.

Record Cable := mkCable {
  cb_pipe : Pipe;
  cb_decoder : FrameDecoder;
  cb_process : Process
}.

Definition frames (ms : list Message) : list byte := concat (frame_bytes <$> ms).
(** What the worker's connection writes for its answers. *)
Definition encoded (ms : list Message) : list byte := concat ((λ m, default [] (encode_frame m)) <$> ms).
Definition push (bytes : list byte) (p : Pipe) : Pipe :=
  mkPipe (p_handles p) (p_out p) (p_in p ++ bytes) (p_sizes p).

(** The worker's [receive] and its answers, as long as whole frames are there. *)
Fixpoint serve (fuel : nat) (c : Cable) : Cable :=
  match fuel with
  | O => c
  | S fuel =>
    if running (cb_process c) then
      match pop (cb_decoder c) with
      | (Some m, d) =>
        let '(answers, p) := respond m (cb_process c) in
        serve fuel (mkCable (push (encoded answers) (cb_pipe c)) d p)
      | (None, d) => mkCable (cb_pipe c) d (cb_process c)
      end
    else c
  end.

Definition on_pipe {B} (f : Pipe → B * Pipe) (c : Cable) : B * Cable :=
  let '(r, p) := f (cb_pipe c) in (r, mkCable p (cb_decoder c) (cb_process c)).

#[export] Instance Cable_api : SocketApi Cable := {|
  os_startup := on_pipe os_startup;
  os_socket := on_pipe os_socket;
  os_setsockopt s := on_pipe (os_setsockopt s);
  os_bind s p := on_pipe (os_bind s p);
  os_listen s b := on_pipe (os_listen s b);
  os_getsockname s := on_pipe (os_getsockname s);
  os_accept s := on_pipe (os_accept s);
  os_connect s p := on_pipe (os_connect s p);
  os_close s c := mkCable (os_close s (cb_pipe c)) (cb_decoder c) (cb_process c);
  os_send s data c :=
    let '(r, p) := os_send s data (cb_pipe c) in
    let d := feed (take (Z.to_nat r) data) (cb_decoder c) in
    (r, serve (S (length (buffer_ d))) (mkCable p d (cb_process c)));
  os_recv s cap := on_pipe (os_recv s cap)
|}.

Lemma serve_pipe fuel c :
  p_handles (cb_pipe (serve fuel c)) = p_handles (cb_pipe c)
  ∧ p_out (cb_pipe (serve fuel c)) = p_out (cb_pipe c).
Proof.
  revert c. induction fuel as [|fuel IH]; intros c; cbn [serve]; [done|].
  destruct (running _); [|done]. destruct (pop _) as [[m|] d]; [|done].
  destruct (respond _ _) as [answers p]. by destruct (IH (mkCable (push (encoded answers) (cb_pipe c)) d p)).
Qed.

#[export, refine] Instance Cable_laws : SocketLaws Cable := {|
  handles c := p_handles (cb_pipe c);
  outgoing s c := p_out (cb_pipe c);
  incoming s c := p_in (cb_pipe c) |}.
Proof.
  1,3,4,5,6,7,8: done.
  - intros n. pose proof (os_socket_handles (cb_pipe n)) as Hs. cbn in *.
    destruct (Z.eqb_spec (fresh ({[kInvalidSocket]} ∪ p_handles (cb_pipe n))) kInvalidSocket); exact Hs.
  - intros s data n Hd. pose proof (os_send_spec s data (cb_pipe n) Hd) as Hs. cbn [os_send Cable_api].
    destruct (os_send s data (cb_pipe n)) as [r p]. destruct Hs as [Hr Ho]. split; [done|].
    by rewrite (proj2 (serve_pipe _ _)).
  - intros s cap n Hc. exact (os_recv_spec s cap (cb_pipe n) Hc).
Defined.
#[export] Instance Cable_reliable : SocketReliable Cable.
Proof. intros s cap n Hc Hin. exact (os_recv_arrives s cap (cb_pipe n) Hc Hin). Qed.

(** ** The worker's answers fit their frames *)

Definition process_ok (p : Process) : Prop :=
  match p with
  | Registering worker_id _ => wf worker_id
  | Serving w => wf (wk_worker_id w) ∧ wf (wk_boot w) ∧ wf (wk_epoch w)
  | Exited => False
  end.

Section answers.
Context (w : Worker) (m : Message) (Hw : process_ok (Serving w)) (Hm : message_wf m).

Ltac solve_wf :=
  destruct Hw as (? & ? & ?); unfold message_wf in *; destruct_and! Hm; cbn;
  split_and!; eauto with fabric; done.

Lemma progress_wf : message_wf (WorkerProcess.progress_message w m).
Proof. solve_wf. Qed.
Lemma reach_wf : message_wf (WorkerProcess.reach_message w m).
Proof. solve_wf. Qed.
Lemma quiesced_wf : message_wf (WorkerProcess.quiesced_message w m).
Proof. solve_wf. Qed.
Lemma resumed_wf : message_wf (WorkerProcess.resumed_message w m).
Proof. solve_wf. Qed.

End answers.

Lemma respond_ok m p :
  process_ok p → deliverable m → running (respond m p).2 = true →
  process_ok (respond m p).2 ∧ Forall (λ a, deliverable a ∧ plain a) (respond m p).1
  ∧ (length (respond m p).1 ≤ 2)%nat.
Proof.
  intros Hp (Hm & _) Hr. destruct p as [id label|w|]; [| |done].
  { unfold message_wf in Hm. destruct_and! Hm. split; [by split_and!|]. split; [constructor|cbn; lia]. }
  assert (Hplain : ∀ a, message_wf a → msg_type a ≠ MessageType.kInvalid → plain a → deliverable a ∧ plain a)
    by (intros; split; [by apply plain_deliverable|done]).
  cbn [respond] in *. unfold WorkerProcess.handle in *.
  destruct (msg_type m); try discriminate Hr; cbn [fst snd length].
  all: split; [done|]; split; [|lia]; repeat first [apply List.Forall_nil|apply List.Forall_cons].
  - apply Hplain; [by apply progress_wf|discriminate|by split].
  - apply Hplain; [by apply reach_wf|discriminate|by split].
  - apply Hplain; [by apply quiesced_wf|discriminate|by split].
  - apply Hplain; [by apply resumed_wf|discriminate|by split].
Qed.

Lemma encoded_frames ms : Forall deliverable ms → encoded ms = frames ms.
Proof.
  intros Hms. unfold encoded, frames. f_equal. induction Hms as [|m ms [Hm [_ Hl]] _ IH]; [done|].
  rewrite !fmap_cons, IH, encode_frame_bytes, bool_decide_eq_true_2 by (done || (unfold kMaxFrameBody in Hl; zlia)).
  done.
Qed.

Lemma frames_length ms : Forall plain ms → length (frames ms) = (length ms * (kFrameHeaderSize + fixed_body + 4))%nat.
Proof.
  intros Hms. unfold frames. induction Hms as [|m ms Hm _ IH]; [done|].
  rewrite fmap_cons, concat_cons, length_app, IH, (plain_frame_length m Hm). cbn [length]. lia.
Qed.

(** ** A frame written in pieces is handled once *)

Lemma frame_nonempty m : frame_bytes m ≠ [].
Proof. intros E%(f_equal length). rewrite length_frame in E. cbn in E. lia. Qed.

(** The worker after a whole frame arrived. *)
Lemma serve_frame m pipe p fuel :
  deliverable m → running p = true → process_ok p → running (respond m p).2 = true →
  serve (S (S fuel)) (mkCable pipe (mkFrameDecoder (frame_bytes m) false) p)
  = mkCable (push (frames (respond m p).1) pipe) (mkFrameDecoder [] false) (respond m p).2.
Proof.
  intros Hm Hrun Hp Hr. cbn [serve cb_process cb_decoder]. rewrite Hrun.
  rewrite <- (app_nil_r (frame_bytes m)), (pop_frame m []) by done.
  destruct (respond_ok m p Hp Hm Hr) as (_ & Ha & _).
  rewrite (surjective_pairing (respond m p)). cbn [serve cb_process cb_decoder]. rewrite Hr.
  rewrite (pop_empty (mkFrameDecoder [] false)) by done. cbn [cb_pipe].
  rewrite encoded_frames; [done|]. eapply Forall_impl; [exact Ha|]. by intros ? [].
Qed.

Lemma write_loop_step {N} `{SocketApi N} fuel s data (n : N) :
  data ≠ [] →
  write_loop (S fuel) s data n
  = let '(r, n) := os_send s (take (Z.to_nat (chunk_size (length data))) data) n in
    if r <=? 0 then (false, n) else write_loop fuel s (drop (Z.to_nat r) data) n.
Proof. by destruct data. Qed.

Lemma write_loop_cable m s p :
  deliverable m → process_ok p → running p = true → running (respond m p).2 = true →
  ∀ fuel data buf pipe, frame_bytes m = buf ++ data → data ≠ [] → (length data ≤ fuel)%nat →
  ∃ pipe', write_loop fuel s data (mkCable pipe (mkFrameDecoder buf false) p)
      = (true, mkCable pipe' (mkFrameDecoder [] false) (respond m p).2)
    ∧ p_in pipe' = p_in pipe ++ frames (respond m p).1.
Proof.
  intros Hm Hp Hrun Hr fuel. induction fuel as [|fuel IH]; intros data buf pipe Hf Hne Hl.
  { destruct data; [done|cbn in Hl; lia]. }
  rewrite write_loop_step by done.
  assert (Hpos : (0 < length data)%nat) by (destruct data; [done|cbn; lia]).
  pose proof (chunk_size_pos (length data) Hpos) as Hc.
  set (part := take (Z.to_nat (chunk_size (length data))) data).
  assert (Hpart : (0 < length part ≤ length data)%nat).
  { unfold part. rewrite length_take. lia. }
  cbn [os_send Cable_api Pipe_api cb_pipe cb_decoder cb_process].
  pose proof (limit_pos pipe (length part) ltac:(lia)) as Hk1. pose proof (limit_le pipe (length part)) as Hk2.
  set (k := limit pipe (length part)) in *. set (pipe1 := mkPipe _ _ _ _).
  rewrite Nat2Z.id. destruct (Z.leb_spec (Z.of_nat k) 0); [lia|].
  assert (Hpre : take k part = take k data).
  { unfold part. rewrite take_take, Nat.min_l; [done|]. unfold part in Hk2. rewrite length_take in Hk2. lia. }
  rewrite Hpre. cbn [feed buffer_ fatal_].
  change (feed (take k data) (mkFrameDecoder buf false)) with (mkFrameDecoder (buf ++ take k data) false).
  destruct (decide (drop k data = [])) as [Hd|Hd].
  - assert (Hall : buf ++ take k data = frame_bytes m).
    { rewrite Hf. f_equal. rewrite <- (take_drop k data) at 2. by rewrite Hd, app_nil_r. }
    rewrite Hall. cbn [buffer_].
    destruct (length (frame_bytes m)) as [|n'] eqn:El; [by apply length_zero_iff_nil, frame_nonempty in El|].
    rewrite (serve_frame m pipe1 p n'), Hd by done. destruct fuel; cbn [write_loop]; eauto.
  - cbn [serve cb_process cb_decoder buffer_]. rewrite Hrun.
    rewrite (pop_partial m (buf ++ take k data) (drop k data)); [|done| |done].
    2:{ by rewrite <- app_assoc, take_drop. }
    cbn [cb_pipe]. destruct (IH (drop k data) (buf ++ take k data) pipe1) as (pipe' & Hw & Hin).
    + by rewrite <- app_assoc, take_drop.
    + done.
    + rewrite length_drop. lia.
    + exists pipe'. by rewrite Hw, Hin.
Qed.

(** ** The connection is a link to the worker *)

(** [receive] changes the network by reads only. *)
Lemma receive_loop_reads {N} `{SocketApi N} (P : N → Prop) s fuel d n m d' n' :
  (∀ cap n, P n → P (os_recv s cap n).2) → P n →
  receive_loop fuel s d n = Some (m, d', n') → P n'.
Proof.
  intros Hp. revert d n. induction fuel as [|fuel IH]; intros d n Hn; cbn [receive_loop];
    (destruct (fatal_ d); [by intros [= <- <- <-]|]);
    (destruct (pop d) as [[x|] d1]; [by intros [= <- <- <-]|]); [done|].
  pose proof (Hp 4096 n Hn) as Hn1. destruct (os_recv s 4096 n) as [[r bs] n1]. cbn in Hn1.
  destruct (r =? 0); [by intros [= <- <- <-]|]. destruct (r <? 0); [by intros [= <- <- <-]|].
  by apply IH.
Qed.

(** Reads enough for two answers. *)
Definition answer_reads : nat := 2 * (kFrameHeaderSize + fixed_body + 4).

(** What was sent is handled, and what the worker answered is buffered or on its way. *)
Record plugged (l : TcpLink Cable) (a : Attached) : Prop := {
  pl_socket : sock_ (tl_conn l) ≠ kInvalidSocket;
  pl_reads : (answer_reads ≤ tl_reads l)%nat;
  pl_sane : fatal_ (decoder_ (tl_conn l)) = false;
  pl_handled : cb_decoder (tl_net l) = mkFrameDecoder [] false;
  pl_process : cb_process (tl_net l) = at_process a;
  pl_ok : process_ok (at_process a);
  pl_replies : Forall deliverable (at_replies a);
  pl_bytes : buffer_ (decoder_ (tl_conn l)) ++ p_in (cb_pipe (tl_net l)) = frames (at_replies a);
  pl_fuel : (length (p_in (cb_pipe (tl_net l))) ≤ tl_reads l)%nat
}.

Lemma plugged_send l a m :
  plugged l a → at_replies a = [] → deliverable m → running (respond m (at_process a)).2 = true →
  ∃ l', link_send m l = (true, l') ∧ plugged l' (deliver m a).
Proof.
  destruct l as [c [pipe dec proc] reads], a as [p replies].
  intros [Hs Hrd Hsane Hdec Hproc Hok Hrep Hby _] Hnil Hm Hr. cbn in *. subst dec proc replies.
  apply app_eq_nil in Hby as [Hbuf Hin].
  assert (Hrun : running p = true) by (by destruct p).
  destruct (respond_ok m p Hok Hm Hr) as (Hok' & Ha & Hlen).
  destruct (write_loop_cable m (sock_ c) p Hm Hok Hrun Hr (length (frame_bytes m)) (frame_bytes m) [] pipe)
    as (pipe' & Hw & Hin'); [done|apply frame_nonempty|done|].
  unfold send. rewrite (proj2 (Z.eqb_neq _ _) Hs). pose proof Hm as (Hwf & _ & Hl).
  rewrite encode_frame_bytes, bool_decide_eq_true_2 by (done || (unfold kMaxFrameBody in Hl; zlia)).
  cbn [mbind option_bind]. unfold write_all. rewrite Hw. eexists. split; [done|].
  rewrite Hin in Hin'. cbn [app] in Hin'. unfold deliver. cbn [at_process at_replies app].
  assert (Hd : Forall deliverable (respond m p).1) by (eapply Forall_impl; [exact Ha|]; by intros ? []).
  split; cbn; try done.
  - by rewrite Hbuf, Hin'.
  - rewrite Hin', frames_length.
    { etransitivity; [apply Nat.mul_le_mono_r, Hlen|exact Hrd]. }
    eapply Forall_impl; [exact Ha|]. by intros ? [].
Qed.

Lemma plugged_receive l a m rest :
  plugged l a → at_replies a = m :: rest →
  ∃ l', link_receive l = (Some m, l') ∧ plugged l' (mkAttached (at_process a) rest).
Proof.
  destruct l as [c n reads], a as [p replies].
  intros [Hs Hrd Hsane Hdec Hproc Hok Hrep Hby Hf] E.
  cbn [tl_conn tl_net tl_reads at_process at_replies] in *. subst replies.
  apply list.Forall_cons in Hrep as [Hm Hrest].
  change (frames (m :: rest)) with (frame_bytes m ++ frames rest) in Hby.
  change (p_in (cb_pipe n)) with (incoming (sock_ c) n) in Hby, Hf.
  destruct (receive_loop_frame (sock_ c) m (frames rest) reads (decoder_ c) n Hm Hsane Hby Hf)
    as (d' & n' & Hrun & Hd' & Hb' & Hl').
  pose proof (receive_loop_reads (λ n', cb_decoder n' = cb_decoder n ∧ cb_process n' = cb_process n)
    _ _ _ _ _ _ _ (λ cap n0 Hn0, Hn0) (conj eq_refl eq_refl) Hrun) as [E1 E2].
  unfold link_receive, TcpLink_link. cbn [tl_conn tl_net tl_reads]. unfold receive.
  rewrite (proj2 (Z.eqb_neq _ _) Hs), Hrun. cbn [mbind option_bind].
  eexists. split; [done|]. split; cbn [tl_conn tl_net tl_reads at_process at_replies sock_ decoder_ set_field];
    try done.
  - by rewrite E1.
  - by rewrite E2.
  - etransitivity; [exact Hl'|exact Hf].
Qed.

#[export, refine] Instance Cable_worker : WorkerLink (TcpLink Cable) := {| connects := plugged |}.
Proof.
  - intros l a [Hs _ _ _ _ _ _ _ _]. cbn. unfold is_open. by rewrite (proj2 (Z.eqb_neq _ _) Hs).
  - apply plugged_send.
  - apply plugged_receive.
Defined.

(** A worker that has connected and sent its registration. *)
Definition cable (worker_id : WorkerId) (label : string) (sizes : list nat) : Cable :=
  mkCable (mkPipe {[3]} [] (frames (at_replies (spawn worker_id label))) sizes)
    (mkFrameDecoder [] false) (Registering worker_id label).
Definition cable_link (reads : nat) (worker_id : WorkerId) (label : string) (sizes : list nat) :
    TcpLink Cable :=
  mkTcpLink (new_connection 3) (cable worker_id label sizes) reads.

Lemma hello_register worker_id label :
  deliverable (WorkerProcess.hello_message worker_id label) →
  deliverable (WorkerProcess.register_message worker_id label).
Proof.
  intros (Hwf & _ & Hl). unfold body_len in Hl. rewrite length_body in Hl. split_and!; [|done|].
  - unfold message_wf in *. destruct_and! Hwf. by split_and!.
  - unfold body_len. rewrite length_body. exact Hl.
Qed.

Lemma cable_plugged reads worker_id label sizes :
  wf worker_id → deliverable (WorkerProcess.hello_message worker_id label) →
  (answer_reads + 2 * String.length label ≤ reads)%nat →
  plugged (cable_link reads worker_id label sizes) (spawn worker_id label).
Proof.
  intros Hid Hh Hr.
  pose proof (hello_register _ _ Hh) as Hreg.
  split; try done.
  - change (answer_reads ≤ reads)%nat. lia.
  - repeat first [apply List.Forall_nil|apply List.Forall_cons]; done.
  - unfold cable_link, cable, frames. cbn [tl_net tl_reads cb_pipe p_in spawn at_replies fmap list_fmap concat].
    rewrite !length_app, !length_frame, !length_body. cbn [length msg_detail msg_extra
      WorkerProcess.hello_message WorkerProcess.register_message set_field String.length default_Message].
    unfold answer_reads in Hr. lia.
Qed.
