(* ===== verification/Coordinator.v ===== *)
(** * The coordinator process

    Models [src/coordinator/coordinator.cpp]: the coordinator owns a runtime and the
    reference adapters, accepts a worker and a controller, and runs a controller's commands
    by driving the runtime and exchanging messages with the worker.  Its handlers are
    computations over [Coordinator]; a [PreemptionError] they do not catch ends the process.
    What it prints is the list [co_out]. *)

From S2P Require Import Prelude Exec Identity Enums Domains Interfaces ReferenceAdapters.
From S2P Require Import Bytes Runtime Recovery Framing Link.
From stdpp Require Import base list strings numbers.
From Stdlib Require Import ZArith.
Open Scope Z_scope.

(** The lines printed, one constructor per format. *)
Inductive Output :=
  | PRecover (ok : bool)
  | PPort (port : Z)
  | PRegistered (worker : WorkerId) (boot : WorkerBootId)
  | PWorkerLost
  | PPreempted (ok : bool) (lifecycle : LifecycleState)
  | PResumed (ok : bool) (lifecycle : LifecycleState)
  | PExecutionStarted
  | PSegment (position : Z)
  | PDrivePreemption (ok : bool)
  | PDriveResume (ok : bool)
  | PReRegisterFailed
  | PReRegisterBad
  | PReRegistered (worker : WorkerId) (boot : WorkerBootId)
  | PStalePreemption (code : RequestAdmissionCode)
  | PStaleRelease (refused : bool).

(** The locals of [main] in the command loop.  [co_accepts] are the connections the listener
    will give, [co_save] what happens to the file of [--save], if it is given, at each moment
    (counted in lines printed), [co_saved] the images that were written as a whole and
    [co_torn] the contents that other saves left in the file. *)
Record Coordinator (L : Type) := mkCoordinator {
  co_world : World ReferenceAdapters;
  co_worker : L;
  co_worker_id : WorkerId;
  co_boot : WorkerBootId;
  co_started : bool;
  co_last_progress : Z;
  co_boot_counter : Z;
  co_accepts : list (option L);
  co_save : option (nat → OutFile);
  co_saved : list (list byte);
  co_torn : list (list byte);
  co_out : list Output
}.
Arguments mkCoordinator {L}.
Arguments co_world {L}.
Arguments co_worker {L}.
Arguments co_worker_id {L}.
Arguments co_boot {L}.
Arguments co_started {L}.
Arguments co_last_progress {L}.
Arguments co_boot_counter {L}.
Arguments co_accepts {L}.
Arguments co_save {L}.
Arguments co_saved {L}.
Arguments co_torn {L}.
Arguments co_out {L}.
#[export] Instance Coordinator_eta L : Eta (Coordinator L) := λ c,
  mkCoordinator (co_world c) (co_worker c) (co_worker_id c) (co_boot c) (co_started c)
    (co_last_progress c) (co_boot_counter c) (co_accepts c) (co_save c) (co_saved c) (co_torn c)
    (co_out c).

Module CoordinatorProcess.

(** The constants of the scenario. *)
Definition exec_id : ExecutionId := mkId 20.
Definition exec_gen : ExecutionGeneration := mkGeneration 1.
Definition attempt_id : AttemptId := mkId 30.
Definition attempt_gen : AttemptGeneration := mkGeneration 1.
Definition safe_point : SafePointId := mkId 80.
Definition epoch : CoordinatorEpoch := mkGeneration 100.
Definition workload : WorkloadId := mkId 10.
Definition workload_gen : WorkloadGeneration := mkGeneration 1.
Definition policy : PolicyGeneration := mkGeneration 1.

(** The adapters [main] sets up. *)
Definition setup_adapters : ReferenceAdapters :=
  let a := foldl (λ a c, Ref.set_quiesced c true a) Ref.init (Ref.categories Ref.init) in
  let a := Ref.set_contract exec_id (mkGeneration 1) [mkResourceLease ResourceClass.kDeviceMemory 100] a in
  Ref.set_resume_dependency (mkDependencyView DependencyStatus.kCurrent (mkGeneration 1) false false) a.

Section process.
Context {L : Type} `{Link L}.
Abbreviation Do := (Exec (Coordinator L)).

(** ** Statements *)

Definition runtime {B} (m : Exec (World ReferenceAdapters) B) : Do B :=
  zoom co_world (λ w c, c <| co_world := w |>) m.
Definition print (o : Output) : Do unit := modify (λ c, c <| co_out := co_out c ++ [o] |>).
Definition worker_send (m : Message) : Do bool :=
  zoom co_worker (λ l c, c <| co_worker := l |>) (λ l, (inr (link_send m l).1, (link_send m l).2)).
Definition worker_receive : Do (option Message) :=
  zoom co_worker (λ l c, c <| co_worker := l |>) (λ l, (inr (link_receive l).1, (link_receive l).2)).
Definition worker_lost : Do bool := print PWorkerLost;; mret false.
(** [if (!worker->receive(m)) { WORKER_LOST; return false; }] and the rest. *)
Definition or_lost (k : Message → Do bool) : Do bool :=
  m ← worker_receive;
  match m with
  | None => worker_lost
  | Some m => k m
  end.
(** [rt.lifecycle()]. *)
Definition lifecycle : Do LifecycleState :=
  c ← get; mret (lifecycle_state (rt (co_world c))).

(** ** Messages to the worker *)

Definition scoped (type : MessageType) (c : Coordinator L) : Message :=
  default_Message <| msg_type := type |>
    <| msg_worker_boot_id := co_boot c |>
    <| msg_execution_id := exec_id |> <| msg_execution_generation := exec_gen |>
    <| msg_attempt_id := attempt_id |> <| msg_attempt_generation := attempt_gen |>
    <| msg_coordinator_epoch := epoch |>.
Definition register_ack (worker_id : WorkerId) (boot : WorkerBootId) : Message :=
  default_Message <| msg_type := MessageType.kRegister |> <| msg_worker_id := worker_id |>
    <| msg_worker_boot_id := boot |> <| msg_coordinator_epoch := epoch |>.
Definition segment_message (target : Z) (c : Coordinator L) : Message :=
  (scoped MessageType.kPublishProgress c) <| msg_worker_id := co_worker_id c |>
    <| msg_safe_point_id := safe_point |> <| msg_progress_position := target |>
    <| msg_safe_point_capture_required := true |>.
Definition quiesce_message (c : Coordinator L) : Message :=
  (scoped MessageType.kQuiesced c) <| msg_worker_id := co_worker_id c |>.
Definition begin_message (c : Coordinator L) : Message :=
  (scoped MessageType.kBeginExecution c) <| msg_safe_point_id := safe_point |>.

(** ** [run_segment] *)

Definition run_segment (target : Z) : Do bool :=
  c ← get;
  if negb (link_is_open (co_worker c)) then mret false
  else
    ok ← worker_send (segment_message target c);
    if negb ok then worker_lost
    else
      or_lost (λ prog,
      or_lost (λ reach,
        runtime (reach_safe_point safe_point (msg_safe_point_position reach) false);;
        _ ← runtime (publish_progress (msg_progress_position prog) (msg_progress_kind prog));
        modify (λ c, c <| co_last_progress := msg_progress_position prog |>);;
        mret true)).

(** ** [drive_preemption] *)

Definition preemption_request (c : Coordinator L) : PreemptionRequest :=
  default_PreemptionRequest <| req_id := mkId 1000 |> <| req_generation := mkGeneration 1 |>
    <| req_workload_id := workload |> <| req_workload_generation := workload_gen |>
    <| req_execution_id := exec_id |> <| req_execution_generation := exec_gen |>
    <| req_attempt_id := attempt_id |> <| req_attempt_generation := attempt_gen |>
    <| req_coordinator_epoch := epoch |>
    <| req_worker_id := co_worker_id c |> <| req_worker_boot_id := co_boot c |>
    <| req_reason := PreemptionReason.kCapacityPressure |>
    <| req_policy_generation := policy |> <| req_authority_generation := mkGeneration 1 |>.
Definition quiescence_report (c : Coordinator L) : QuiescenceReport :=
  mkQuiescenceReport (mkGeneration 1) (co_worker_id c) (co_boot c) true [] EvidenceKind.kReal.

(** Reports [ad.last_capture()] to the runtime, when there is one. *)
Definition report_last_capture : Do unit :=
  c ← get;
  match last_capture_ (ad (co_world c)) with
  | Some r => _ ← runtime (report_state_captured r); mret tt
  | None => mret tt
  end.
(** [rt.save(save)]: the result is dropped. *)
Definition record_save (file : OutFile) (c : Coordinator L) : Coordinator L :=
  let r := rt (co_world c) in
  let contents := option_list (save file r).2 in
  if whole file (persist_bytes r) then c <| co_saved := co_saved c ++ contents |>
  else c <| co_torn := co_torn c ++ contents |>.
(** [if (!save.empty() && completed) rt.save(save);] *)
Definition save_image (completed : bool) : Do unit :=
  c ← get;
  match co_save c with
  | Some file => when completed (modify (record_save (file (length (co_out c)))))
  | None => mret tt
  end.
Definition completed (o : PreemptionOutcome) : bool :=
  bool_decide (o = PreemptionOutcome.kSafePreemptionCompleted).

Definition drive_preemption : Do bool :=
  c ← get;
  if negb (link_is_open (co_worker c)) then mret false
  else
    _ ← runtime (request_preemption (preemption_request c));
    _ ← runtime begin_quiesce;
    runtime (reach_safe_point safe_point (co_last_progress c) true);;
    _ ← runtime begin_quiesce;
    ok ← worker_send (quiesce_message c);
    if negb ok then worker_lost
    else
      or_lost (λ _,
        _ ← runtime (report_quiesced (quiescence_report c));
        _ ← runtime request_state_capture;
        report_last_capture;;
        _ ← runtime request_release;
        _ ← runtime report_released;
        cp ← runtime commit_preempted;
        save_image (completed (pr_outcome cp));;
        s ← lifecycle;
        print (PPreempted (completed (pr_outcome cp)) s);;
        mret (completed (pr_outcome cp))).

(** ** [drive_resume] *)

Definition drive_resume : Do bool :=
  _ ← runtime request_resume;
  _ ← runtime revalidate;
  _ ← runtime restore;
  rm ← runtime confirm_resumed;
  s ← lifecycle;
  print (PResumed (completed (pr_outcome rm)) s);;
  mret (completed (pr_outcome rm)).

(** ** Commands *)

Definition reference_safe_point (c : Coordinator L) : SafePoint :=
  default_SafePoint <| sp_id := safe_point |> <| sp_generation := mkGeneration 1 |>
    <| sp_execution_id := exec_id |> <| sp_attempt_id := attempt_id |>
    <| sp_worker_id := co_worker_id c |> <| sp_worker_boot_id := co_boot c |>
    <| sp_state_capture_required := false |> <| sp_checkpoint_required := true |>
    <| sp_resume_requirement := true |> <| sp_invariant := "reference boundary"%string |>
    <| sp_provenance := EvidenceKind.kReal |> <| sp_state := SafePointState.kDeclared |>.

Definition begin_execution : Do unit :=
  modify (λ c, c <| co_started := true |>);;
  c ← get;
  runtime (start_execution workload workload_gen exec_id exec_gen attempt_id attempt_gen
             (mkId 40) (co_boot c));;
  runtime (upd_ad (Ref.set_authoritative exec_id attempt_id exec_gen attempt_gen epoch (co_boot c)));;
  _ ← runtime (declare_safe_point (reference_safe_point c));
  _ ← worker_send (begin_message c);
  print PExecutionStarted.

(** [accept_connection(listener.sock)]: the next connection, if there is one. *)
Definition accept : Do (option L) :=
  c ← get;
  match co_accepts c with
  | [] => mret None
  | l :: rest => modify (λ c, c <| co_accepts := rest |>);; mret l
  end.

(** The two messages of a registration from a new connection. *)
Definition receive_registration (l : L) : option (Message * Message * L) :=
  let '(hello, l) := link_receive l in
  let '(reg, l) := link_receive l in
  match hello, reg with
  | Some hello, Some reg =>
    if bool_decide (msg_type reg = MessageType.kRegister) then Some (hello, reg, l) else None
  | _, _ => None
  end.

Definition re_register : Do unit :=
  ns ← accept;
  match ns with
  | None => print PReRegisterFailed
  | Some nw =>
    match receive_registration nw with
    | None => print PReRegisterBad
    | Some (_, nr, nw) =>
      modify (λ c, c <| co_worker_id := msg_worker_id nr |>
                     <| co_boot_counter := wrap 64 (co_boot_counter c + 1) |>
                     <| co_boot := mkId (wrap 64 (8000 + wrap 64 (co_boot_counter c + 1))) |>);;
      c ← get;
      runtime (set_worker_incarnation (co_worker_id c) (co_boot c));;
      let nw := (link_send (register_ack (co_worker_id c) (co_boot c)) nw).2 in
      modify (λ c, c <| co_worker := nw |>);;
      print (PReRegistered (co_worker_id c) (co_boot c))
    end
  end.

Definition stale_request (cmd : Message) : PreemptionRequest :=
  default_PreemptionRequest <| req_id := mkId 3000 |>
    <| req_generation := msg_request_generation cmd |>
    <| req_workload_id := workload |> <| req_workload_generation := workload_gen |>
    <| req_execution_id := exec_id |> <| req_execution_generation := exec_gen |>
    <| req_attempt_id := attempt_id |>
    <| req_attempt_generation := msg_attempt_generation cmd |>
    <| req_coordinator_epoch := msg_coordinator_epoch cmd |>
    <| req_worker_id := msg_worker_id cmd |> <| req_worker_boot_id := msg_worker_boot_id cmd |>
    <| req_policy_generation := policy |> <| req_authority_generation := mkGeneration 1 |>.

Definition replay_stale (cmd : Message) : Do unit :=
  s ← runtime (request_preemption (stale_request cmd));
  print (PStalePreemption (adm_code s));;
  rel ← runtime request_release;
  print (PStaleRelease (negb (completed (pr_outcome rel)))).

Definition handle_command (cmd : Message) : Do unit :=
  match msg_type cmd with
  | MessageType.kBeginExecution => begin_execution
  | MessageType.kPublishProgress =>
    ok ← run_segment (msg_progress_position cmd);
    when ok (print (PSegment (msg_progress_position cmd)))
  | MessageType.kRequestPreemption => ok ← drive_preemption; print (PDrivePreemption ok)
  | MessageType.kRequestResume => ok ← drive_resume; print (PDriveResume ok)
  | MessageType.kRegister => re_register
  | MessageType.kReplayStale => replay_stale cmd
  | _ => mret tt
  end.

(** The loop over what the controller sends; the connection closes at the end of the list. *)
Fixpoint command_loop (cmds : list Message) : Do unit :=
  match cmds with
  | [] => mret tt
  | cmd :: rest =>
    if bool_decide (msg_type cmd = MessageType.kShutdown) then mret tt
    else handle_command cmd;; command_loop rest
  end.

End process.

(** ** [main]

    [hash] is [std::hash<std::string>].  The environment of the process: the contents of the
    file to recover from, what happens to the file saved to, the port of the listener, the worker's connection, what the
    controller sends, and the connections accepted later. *)

Record Args := mkArgs { arg_port : Z; arg_recover : string; arg_save : string }.
#[export] Instance Args_eta : Eta Args := λ a, mkArgs (arg_port a) (arg_recover a) (arg_save a).

(** [argv] without the program name. *)
Fixpoint parse_args (argv : list string) (a : Args) : Args :=
  match argv with
  | [] => a
  | opt :: rest =>
    match rest with
    | [] => a
    | v :: rest' =>
      if bool_decide (opt = "--port"%string) then parse_args rest' (a <| arg_port := parse_port v |>)
      else if bool_decide (opt = "--recover"%string) then parse_args rest' (a <| arg_recover := v |>)
      else if bool_decide (opt = "--save"%string) then parse_args rest' (a <| arg_save := v |>)
      else parse_args rest a
    end
  end.
Definition default_Args : Args := mkArgs 0 EmptyString EmptyString.

Section main.
Context {L : Type} `{Link L} (hash : string → Z).

Record Environment := mkEnvironment {
  env_file : string → option (list byte);
  env_output : string → nat → OutFile;
  env_listen : Z → option Z;
  env_worker : option L;
  env_controller : option (list Message);
  env_accepts : list (option L)
}.

Definition initial_boot (detail : string) : WorkerBootId := mkId (1000 + hash detail mod 9000).

(** The state before the worker registers. *)
Definition start (args : Args) (env : Environment) (l : L) : Coordinator L :=
  mkCoordinator (mkWorld (new_runtime epoch policy) setup_adapters) l default_id default_id false 0 0
    (env_accepts env)
    (if bool_decide (arg_save args = EmptyString) then None else Some (env_output env (arg_save args)))
    [] [] [].

(** [--recover]. *)
Definition recover (args : Args) (env : Environment) : Exec (Coordinator L) unit :=
  if bool_decide (arg_recover args = EmptyString) then mret tt
  else
    ok ← runtime (load (env_file env (arg_recover args)));
    print (PRecover ok).

Definition register_worker (reg : Message) : Exec (Coordinator L) unit :=
  let boot := initial_boot (msg_detail reg) in
  modify (λ c, c <| co_worker_id := msg_worker_id reg |> <| co_boot := boot |>);;
  runtime (set_worker_incarnation (msg_worker_id reg) boot);;
  _ ← worker_send (register_ack (msg_worker_id reg) boot);
  print (PRegistered (msg_worker_id reg) boot).

(** The exit code. *)
Definition main (argv : list string) (env : Environment) (closed : L) : Exec (Coordinator L) Z :=
  let args := parse_args argv default_Args in
  put (start args env closed);;
  recover args env;;
  match env_listen env (arg_port args) with
  | None => mret 1
  | Some port =>
    print (PPort port);;
    match env_worker env with
    | None => mret 1
    | Some l =>
      match receive_registration l with
      | None => mret 1
      | Some (_, reg, l) =>
        modify (λ c, c <| co_worker := l |>);;
        register_worker reg;;
        match env_controller env with
        | None => mret 1
        | Some cmds =>
          command_loop cmds;;
          modify (λ c, c <| co_worker := link_close (co_worker c) |>);;
          mret 0
        end
      end
    end
  end.

End main.
End CoordinatorProcess.
