(* ===== verification/CoordinatorCalls.v ===== *)
(** * Runs of the coordinator: rules, and the calls of a preemption

    The rules of the judgement [returns] for the statements of the coordinator, and what each
    call of the runtime does along the path of a preemption and of a resume. *)

From S2P Require Import Prelude Exec Identity Enums Lifecycle OrdMap Domains Interfaces.
From S2P Require Import ReferenceAdapters Bytes PersistentState Store Runtime Recovery.
From S2P Require Import RuntimeSpec RuntimeSafety Framing FramingTheorems FramingTypes Link Worker WorkerLink Coordinator.
From stdpp Require Import base list strings numbers relations.
From Stdlib Require Import ZArith Lia.
Open Scope Z_scope.
Import CoordinatorProcess.

Section rules.
Context {L : Type} `{Link L}.
Implicit Types c : Coordinator L.

Lemma returns_runtime {B} (m : Exec (World ReferenceAdapters) B) c Q :
  returns m (co_world c) (λ x w, Q x (c <| co_world := w |>)) → returns (runtime m) c Q.
Proof. unfold returns, wp, runtime, zoom. by destruct (m (co_world c)). Qed.
Lemma returns_send m c (Q : bool → Coordinator L → Prop) :
  Q (link_send m (co_worker c)).1 (c <| co_worker := (link_send m (co_worker c)).2 |>) →
  returns (worker_send m) c Q.
Proof. intros HQ. by eexists. Qed.
Lemma returns_print o c (Q : unit → Coordinator L → Prop) :
  Q tt (c <| co_out := co_out c ++ [o] |>) → returns (print o) c Q.
Proof. intros HQ. by eexists. Qed.
Lemma returns_or_lost k c m l Q :
  link_receive (co_worker c) = (Some m, l) → returns (k m) (c <| co_worker := l |>) Q →
  returns (or_lost k) c Q.
Proof.
  intros E HQ. apply returns_bind. exists (Some m). cbn. rewrite E. split; [done|exact HQ].
Qed.

End rules.

(** Runs a call along the paths its hypotheses leave open. *)
Ltac call_returns :=
  unfold returns; autounfold with calls; wp_run; prune; try (exfalso; congruence);
  eexists; split_and!; try done.

Section drive.
Import LifecycleState.
Implicit Types w : World ReferenceAdapters.

(** What a preemption of the scenario relies on and does not change. *)
Definition static w :=
  (epoch_ (rt w), execution_id_ (rt w), execution_generation_ (rt w), attempt_id_ (rt w),
   attempt_generation_ (rt w), worker_boot_ (rt w),
   quiesced_map_ (ad w), current_checkpoint_gen_ (ad w), checkpoint_valid_ (ad w),
   capture_default_ (ad w), contract_execution_ (ad w), contract_gen_ (ad w), resume_dep_ (ad w)).
Definition scope w := (static w, durable_position_ (rt w)).
Definition leases w := (reserved_ (ad w), released_ (ad w)).
Definition captures w := (checkpoint_generation_ (rt w), capture_count_ (ad w)).
(** The scope of the scenario at a position, served by the worker with this boot id. *)
Definition in_scope (boot : WorkerBootId) (pos : Z) w : Prop :=
  static w = (epoch, exec_id, exec_gen, attempt_id, attempt_gen, boot,
              quiesced_map_ setup_adapters, mkGeneration 1, true, true, exec_id, mkGeneration 1,
              resume_dep_ setup_adapters)
  ∧ durable_position_ (rt w) = pos.
Definition all_reserved w : Prop := leases w = ([(ResourceClass.kDeviceMemory, 100)], []).

Lemma begin_quiesce_returns w :
  lifecycle_state (rt w) = kAssessing →
  returns begin_quiesce w (λ _ w',
    (lifecycle_state (rt w') = kQuiescing ∨ lifecycle_state (rt w') = kWaitingForSafePoint)
    ∧ (scope w' = scope w ∧ leases w' = leases w) ∧ safe_points_ (rt w') = safe_points_ (rt w)
    ∧ captures w' = captures w).
Proof. intros Hs. call_returns; auto. Qed.

Lemma reach_safe_point_returns w at_ :
  lifecycle_state (rt w) = kQuiescing ∨ lifecycle_state (rt w) = kWaitingForSafePoint →
  is_Some (omap.find safe_point (safe_points_ (rt w))) →
  returns (reach_safe_point safe_point at_ true) w (λ _ w',
    (lifecycle_state (rt w') = kQuiescing ∨ lifecycle_state (rt w') = kSafePointReached)
    ∧ capture_is_required (rt w') = true ∧ (scope w' = scope w ∧ leases w' = leases w)
    ∧ captures w' = captures w).
Proof. intros [Hs|Hs] [sp Hsp]; call_returns; auto. Qed.

Lemma begin_quiesce_again_returns w :
  lifecycle_state (rt w) = kQuiescing ∨ lifecycle_state (rt w) = kSafePointReached →
  returns begin_quiesce w (λ _ w',
    lifecycle_state (rt w') = kQuiescing ∧ (scope w' = scope w ∧ leases w' = leases w)
    ∧ capture_is_required (rt w') = capture_is_required (rt w)
    ∧ captures w' = captures w).
Proof. intros [Hs|Hs]; call_returns. Qed.

Lemma report_quiesced_returns w rep :
  lifecycle_state (rt w) = kQuiescing → qr_worker_boot_id rep = worker_boot_ (rt w) →
  qr_fully_quiesced rep = true → is_quiesced_all (ad w) = true →
  returns (report_quiesced rep) w (λ _ w',
    lifecycle_state (rt w') = kQuiesced ∧ quiesced_ (rt w') = true ∧ (scope w' = scope w ∧ leases w' = leases w)
    ∧ capture_is_required (rt w') = capture_is_required (rt w)
    ∧ captures w' = captures w).
Proof. intros Hs Hb Hf Hq. call_returns. Qed.

Lemma request_state_capture_returns w :
  lifecycle_state (rt w) = kQuiesced → capture_is_required (rt w) = true →
  capture_default_ (ad w) = true →
  returns request_state_capture w (λ _ w',
    lifecycle_state (rt w') = kCapturingState ∧ quiesced_ (rt w') = quiesced_ (rt w)
    ∧ (scope w' = scope w ∧ leases w' = leases w)
    ∧ ∃ r, last_capture_ (ad w') = Some r ∧ cr_success r = true ∧ cr_completed r = true
        ∧ cr_checkpoint_ref r = mkId (wrap 64 (capture_count_ (ad w) + 1))
        ∧ cr_checkpoint_generation r = Generation_next (checkpoint_generation_ (rt w))).
Proof. intros Hs Hc Hd. call_returns. eexists. by split_and!. Qed.

Lemma report_state_captured_returns w r :
  lifecycle_state (rt w) = kCapturingState → cr_success r = true → cr_completed r = true →
  Ref.validate_checkpoint (ad w) (cr_checkpoint_ref r) (cr_checkpoint_generation r) = true →
  returns (report_state_captured r) w (λ _ w',
    lifecycle_state (rt w') = kStateDurable ∧ state_durable_ (rt w') = true
    ∧ quiesced_ (rt w') = quiesced_ (rt w) ∧ (scope w' = scope w ∧ leases w' = leases w)
    ∧ checkpoint_ref_ (rt w') = cr_checkpoint_ref r
    ∧ checkpoint_generation_ (rt w') = cr_checkpoint_generation r).
Proof.
  intros Hs H1 H2 H3. call_returns.
  all: match goal with H : validate_checkpoint _ _ _ = false |- _ =>
         exfalso; exact (diff_true_false (eq_trans (eq_sym H3) H)) end.
Qed.

Lemma request_release_returns w :
  lifecycle_state (rt w) = kStateDurable → state_durable_ (rt w) = true → all_reserved w →
  contract_execution_ (ad w) = execution_id_ (rt w) →
  returns request_release w (λ _ w',
    lifecycle_state (rt w') = kReleasing ∧ rt w' = (rt w) <| machine_ := machine_ (rt w') |>
    ∧ scope w' = scope w ∧ leases w' = ([(ResourceClass.kDeviceMemory, 0)], [(ResourceClass.kDeviceMemory, 100)])).
Proof.
  intros Hs Hd Hr He. destruct w as [r []]. injection Hr; cbn in He; intros; subst. call_returns.
  all: unfold scope, leases; cbn; unfold Ref.request_release; cbn; by rewrite !bool_decide_eq_true_2 by done.
Qed.

Lemma report_released_returns w :
  lifecycle_state (rt w) = kReleasing → reserved_ (ad w) = [(ResourceClass.kDeviceMemory, 0)] →
  returns report_released w (λ _ w',
    lifecycle_state (rt w') = kResourcesReleased ∧ resources_released_ (rt w') = true
    ∧ rt w' = (rt w) <| machine_ := machine_ (rt w') |> <| resources_released_ := true |>
    ∧ ad w' = ad w).
Proof.
  intros Hs Hl. destruct w as [r []]. cbn in Hl. subst. call_returns.
Qed.

Lemma commit_preempted_returns w :
  lifecycle_state (rt w) = kResourcesReleased → quiesced_ (rt w) = true →
  state_durable_ (rt w) = true → resources_released_ (rt w) = true →
  returns commit_preempted w (λ res w',
    pr_outcome res = PreemptionOutcome.kSafePreemptionCompleted
    ∧ lifecycle_state (rt w') = kPreempted ∧ scope w' = scope w
    ∧ checkpoint_ref_ (rt w') = checkpoint_ref_ (rt w)
    ∧ checkpoint_generation_ (rt w') = checkpoint_generation_ (rt w)).
Proof. intros Hs Hq Hd Hr. call_returns. Qed.

Lemma request_resume_returns w :
  lifecycle_state (rt w) = kPreempted →
  returns request_resume w (λ _ w',
    lifecycle_state (rt w') = kResumePending ∧ scope w' = scope w
    ∧ checkpoint_ref_ (rt w') = checkpoint_ref_ (rt w)
    ∧ checkpoint_generation_ (rt w') = checkpoint_generation_ (rt w)).
Proof. intros Hs. call_returns. Qed.

(** The checkpoint of the runtime is the current one and no dependency blocks. *)
Definition resumable w : Prop :=
  Ref.validate_checkpoint (ad w) (checkpoint_ref_ (rt w)) (checkpoint_generation_ (rt w)) = true
  ∧ dependency_blocked (resume_dep_ (ad w)) = false.

Lemma revalidate_returns w :
  lifecycle_state (rt w) = kResumePending → resumable w →
  returns revalidate w (λ _ w',
    lifecycle_state (rt w') = kRestoring ∧ scope w' = scope w
    ∧ checkpoint_ref_ (rt w') = checkpoint_ref_ (rt w)
    ∧ checkpoint_generation_ (rt w') = checkpoint_generation_ (rt w)).
Proof.
  intros Hs [Hv Hd]. call_returns.
  all: exfalso; match goal with
       | H : validate_checkpoint _ _ _ = false |- _ => exact (diff_true_false (eq_trans (eq_sym Hv) H))
       | H : dependency_blocked _ = true |- _ => exact (diff_true_false (eq_trans (eq_sym H) Hd))
       end.
Qed.

Lemma restore_returns w :
  lifecycle_state (rt w) = kRestoring → resumable w →
  returns restore w (λ _ w', lifecycle_state (rt w') = kResumeReady ∧ scope w' = scope w).
Proof.
  intros Hs [Hv Hd]. call_returns.
  all: match goal with H : (restore_checkpoint _ _ _).1 = false |- _ =>
         exfalso; exact (diff_true_false (eq_trans (eq_sym Hv) H)) end.
Qed.

Lemma confirm_resumed_returns w :
  lifecycle_state (rt w) = kResumeReady →
  returns confirm_resumed w (λ res w',
    pr_outcome res = PreemptionOutcome.kSafePreemptionCompleted
    ∧ lifecycle_state (rt w') = kResumed ∧ scope w' = scope w).
Proof. intros Hs. call_returns. Qed.

End drive.
