(* ===== verification/CoordinatorRuns.v ===== *)
(** * Runs of the coordinator with a worker

    Against any link with a worker at the other end ([WorkerLink]): segments, preemption,
    resume and the start of an execution return, and what they leave. *)

From S2P Require Import Prelude Exec Identity Enums Lifecycle OrdMap Domains Interfaces.
From S2P Require Import ReferenceAdapters Bytes PersistentState Store Runtime Recovery.
From S2P Require Import RuntimeSpec RuntimeSafety Framing FramingTheorems FramingTypes Link Worker WorkerLink.
From S2P Require Import Coordinator CoordinatorCalls.
From stdpp Require Import base list strings numbers relations.
From Stdlib Require Import ZArith Lia.
Open Scope Z_scope.
Import CoordinatorProcess FramingLemmas FramingTypeLemmas.

(** ** The messages of the coordinator fit their frames *)

Section messages.
Context {L : Type} `{Link L}.
Implicit Types c : Coordinator L.

(** The identifiers the coordinator puts into its messages have the range of their types. *)
Definition typed c : Prop := wf (co_worker_id c) ∧ wf (co_boot c).

Ltac solve_deliverable :=
  apply plain_deliverable; [unfold message_wf; cbn; split_and!|discriminate|by split];
  eauto with fabric; unfold wf; cbn; zlia.

Lemma segment_deliverable p c : typed c → in_u64 p → deliverable (segment_message p c).
Proof. intros [? ?] ?. solve_deliverable. Qed.
Lemma quiesce_deliverable c : typed c → deliverable (quiesce_message c).
Proof. intros [? ?]. solve_deliverable. Qed.
Lemma begin_deliverable c : typed c → deliverable (begin_message c).
Proof. intros [? ?]. solve_deliverable. Qed.
Lemma ack_deliverable worker_id boot : wf worker_id → wf boot → deliverable (register_ack worker_id boot).
Proof. intros ? ?. solve_deliverable. Qed.

End messages.

(** ** The commands of the coordinator *)

Section drive.
Context {L : Type} `{WorkerLink L}.
Import LifecycleState.
Implicit Types c : Coordinator L.
Implicit Types w : World ReferenceAdapters.

(** The execution of the scenario runs at [pos], not preempted. *)
Record world_ready (boot : WorkerBootId) (pos : Z) w : Prop := {
  wr_lifecycle : lifecycle_state (rt w) = kInvalid;
  wr_scope : in_scope boot pos w;
  wr_reserved : all_reserved w;
  wr_request : active_request_ (rt w) = None;
  wr_safe_point : is_Some (omap.find safe_point (safe_points_ (rt w)));
  wr_checkpoint : checkpoint_generation_ (rt w) = default_gen;
  wr_count : capture_count_ (ad w) = 0;
  wr_authority :
    let auth := current_attempt_authority (IExecutionFabric := adapters_execution)
                  (ad w) (execution_id_ (rt w)) (attempt_id_ (rt w)) in
    aav_authoritative auth = true ∧ aav_worker_boot_id auth = worker_boot_ (rt w)
}.
(** The worker serves and has no answer on its way, and the boot id is the coordinator's. *)
Record ready (boot : WorkerBootId) (pos : Z) c : Prop := {
  rd_worker : ∃ p, serves (co_worker c) p;
  rd_boot : co_boot c = boot;
  rd_typed : typed c;
  rd_world : world_ready boot pos (co_world c)
}.

Lemma reach_ready boot pos w at_ :
  world_ready boot pos w →
  returns (reach_safe_point safe_point at_ false) w (λ _ w', world_ready boot pos w').
Proof.
  intros [Hs Hsc Hr Hq [sp Hsp] Hc Hn Ha]. call_returns. split; try done.
  cbn. by rewrite omap.find_set_eq.
Qed.

Lemma publish_ready boot pos p w :
  world_ready boot pos w → pos ≤ p →
  returns (publish_progress p ProgressKind.kDurable) w (λ _ w', world_ready boot p w').
Proof.
  intros [Hs [Hsc Hp] Hr Hq Hsp Hc Hn [Ha1 Ha2]] Hle. unfold returns. autounfold with calls.
  wp_run; prune; try (exfalso; first [congruence|lia]). all: eexists; (split; [done|]); split; done || by split.
Qed.

(** One statement of a handler. *)
Ltac co_step :=
  cbv beta iota zeta;
  lazymatch goal with
  | |- returns (mbind _ _) _ _ => apply returns_bind
  | |- returns (mret _) _ _ => apply returns_ret
  | |- returns get _ _ => apply returns_get
  | |- returns (modify _) _ _ => apply returns_modify
  | |- returns (print _) _ _ => apply returns_print
  | |- returns (worker_send _) _ _ => apply returns_send
  | |- returns (runtime _) _ _ => apply returns_runtime; cbn [co_world set_field]
  end.

(** The exchange with the worker, after which the runtime records the segment. *)
Lemma run_segment_exchange p pr c Q :
  serves (co_worker c) pr → typed c → in_u64 p →
  (∀ l, (∃ pr', serves l pr') →
    returns (runtime (reach_safe_point safe_point p false);;
             _ ← runtime (publish_progress p ProgressKind.kDurable);
             modify (λ c, c <| co_last_progress := p |>);;
             mret true) (c <| co_worker := l |>) Q) →
  returns (run_segment p) c Q.
Proof.
  intros Hp Hty Hu Hk. unfold run_segment. co_step. co_step.
  rewrite (connects_open _ _ Hp). cbn [negb]. co_step. co_step.
  pose proof (segment_deliverable p c Hty Hu) as Hd. set (m := segment_message p c) in *.
  destruct (served (co_worker c) pr m [WorkerProcess.progress_message pr m;
    WorkerProcess.reach_message (WorkerProcess.advance pr) m] _ Hp Hd eq_refl) as (l1 & -> & Hl1).
  cbn [fst snd negb].
  destruct (connects_receive l1 _ _ _ Hl1 eq_refl) as (l2 & E2 & Hl2).
  destruct (connects_receive l2 _ _ _ Hl2 eq_refl) as (l3 & E3 & Hl3).
  eapply returns_or_lost; [exact E2|]. eapply returns_or_lost; [exact E3|].
  apply (Hk l3). by eexists.
Qed.

Lemma run_segment_returns boot pos p c :
  ready boot pos c → pos ≤ p → in_u64 p →
  returns (run_segment p) c (λ ok c', ok = true ∧ ready boot p c'
    ∧ co_out c' = co_out c ∧ co_save c' = co_save c ∧ co_saved c' = co_saved c).
Proof.
  intros [[pr Hp] Hb Hty Hw] Hle Hu. eapply run_segment_exchange; [done|done|done|]. intros l Hl.
  co_step. co_step. eapply returns_mono; [by apply (reach_ready boot pos)|]. intros ? w1 Hw1.
  co_step. co_step. eapply returns_mono; [by apply (publish_ready boot pos p)|]. intros ? w2 Hw2.
  repeat co_step. split_and!; [done| |done|done|done]. split; [done|done|done|exact Hw2].
Qed.

(** A segment while the adapters give authority to another boot id than the worker's. *)
Lemma segment_unrecorded p pr sp c :
  serves (co_worker c) pr → typed c → in_u64 p →
  omap.find safe_point (safe_points_ (rt (co_world c))) = Some sp →
  aav_worker_boot_id (Ref.current_attempt_authority (ad (co_world c))
    (execution_id_ (rt (co_world c))) (attempt_id_ (rt (co_world c)))) ≠ worker_boot_ (rt (co_world c)) →
  returns (ok ← run_segment p; when ok (print (PSegment p))) c (λ _ c',
    co_out c' = co_out c ++ [PSegment p]
    ∧ durable_position_ (rt (co_world c')) = durable_position_ (rt (co_world c))).
Proof.
  intros Hp Hty Hu Hsp Hauth. co_step. eapply run_segment_exchange; [done|done|done|]. intros l _.
  co_step. co_step. eapply returns_mono.
  { instantiate (1 := λ _ w', ad w' = ad (co_world c)
      ∧ execution_id_ (rt w') = execution_id_ (rt (co_world c)) ∧ attempt_id_ (rt w') = attempt_id_ (rt (co_world c))
      ∧ worker_boot_ (rt w') = worker_boot_ (rt (co_world c))
      ∧ durable_position_ (rt w') = durable_position_ (rt (co_world c))). call_returns. }
  intros ? w1 (Ha & He & Hat & Hb & Hd). co_step. co_step. eapply returns_mono.
  { instantiate (1 := λ _ w', durable_position_ (rt w') = durable_position_ (rt (co_world c))).
    exists false. unfold publish_progress, wp, get, mbind, Exec_bind. cbn [fst snd co_world set_field].
    change (@current_attempt_authority _ (@adapters_execution _ _)) with Ref.current_attempt_authority.
    rewrite Ha, He, Hat, Hb, (bool_decide_eq_false_2 _ Hauth), orb_true_r. done. }
  intros ? w2 Hd2. do 3 co_step. cbn [when]. by co_step.
Qed.

Lemma request_admitted boot pos c w :
  world_ready boot pos w → co_boot c = boot →
  returns (request_preemption (preemption_request c)) w (λ _ w',
    lifecycle_state (rt w') = kAssessing ∧ (scope w' = scope w ∧ leases w' = leases w)
    ∧ safe_points_ (rt w') = safe_points_ (rt w)
    ∧ captures w' = captures w).
Proof.
  intros [Hs [Hsc Hp] Hr Hq Hsp Hc Hn _] Hb.
  assert (Hv : validate_authority (rt w) (preemption_request c) = true).
  { injection Hsc. intros. unfold validate_authority, preemption_request. fields. cbn.
    rewrite Hb. repeat match goal with H : _ (rt w) = _ |- _ => rewrite H end.
    rewrite !bool_decide_eq_true_2 by done. cbn. by rewrite andb_false_r. }
  call_returns.
Qed.

Lemma in_scope_kept boot pos w w' : scope w' = scope w → in_scope boot pos w → in_scope boot pos w'.
Proof. intros E [Hs Hp]. split; [by rewrite <- Hs; apply (f_equal fst E)|by rewrite <- Hp; apply (f_equal snd E)]. Qed.

(** What the scope says about the adapters. *)
Lemma in_scope_facts boot pos w :
  in_scope boot pos w →
  worker_boot_ (rt w) = boot ∧ is_quiesced_all (ad w) = true ∧ capture_default_ (ad w) = true
  ∧ contract_execution_ (ad w) = execution_id_ (rt w)
  ∧ dependency_blocked (resume_dep_ (ad w)) = false
  ∧ ∀ ref, is_valid ref = true → Ref.validate_checkpoint (ad w) ref (mkGeneration 1) = true.
Proof.
  intros [Hs Hp]. unfold static in Hs. injection Hs. intros Hdep _ Hex Hcap Hv Hg Hq Hboot _ _ _ He _.
  split_and!; [done| |done|congruence|by rewrite Hdep|].
  - unfold is_quiesced_all. cbn. unfold Ref.is_quiesced. rewrite Hq. vm_compute. reflexivity.
  - intros ref Href. unfold Ref.validate_checkpoint. by rewrite Hv, Hg, Href, bool_decide_eq_true_2.
Qed.

(** The frame of the calls before the capture. *)
Record uncaptured boot pos w : Prop := {
  uc_scope : in_scope boot pos w;
  uc_reserved : all_reserved w;
  uc_captures : captures w = (default_gen, 0)
}.
Lemma uncaptured_kept boot pos w w' :
  scope w' = scope w ∧ leases w' = leases w → captures w' = captures w →
  uncaptured boot pos w → uncaptured boot pos w'.
Proof.
  intros [Hs Hl] Hc [Hsc Hr Hcap]. split; [by eapply in_scope_kept| |congruence].
  unfold all_reserved. congruence.
Qed.

(** The calls of [drive_preemption] before the worker is asked. *)
Abbreviation to_quiescing c :=
  (_ ← (_ ← (_ ← runtime (request_preemption (preemption_request c)); runtime begin_quiesce);
        runtime (reach_safe_point safe_point (co_last_progress c) true));
   runtime begin_quiesce).

Lemma to_quiescing_returns boot pos c :
  ready boot pos c →
  returns (to_quiescing c) c (λ _ c', ∃ w, c' = c <| co_world := w |>
    ∧ lifecycle_state (rt w) = kQuiescing ∧ capture_is_required (rt w) = true
    ∧ uncaptured boot pos w).
Proof.
  intros [_ Hb _ Hw]. pose proof Hw as [_ Hsc Hres _ Hsp Hck Hn _].
  assert (Hu : uncaptured boot pos (co_world c)) by (split; [done|done|unfold captures; congruence]).
  do 4 co_step. eapply returns_mono; [by eapply request_admitted|].
  intros ? w1 (Hl1 & Hf1 & Hsp1 & Hc1). cbn [co_world set_field] in *. apply (uncaptured_kept _ _ _ _ Hf1 Hc1) in Hu. rewrite <- Hsp1 in Hsp.
  co_step. eapply returns_mono; [by apply begin_quiesce_returns|].
  intros ? w2 (Hl2 & Hf2 & Hsp2 & Hc2). cbn [co_world set_field] in *. apply (uncaptured_kept _ _ _ _ Hf2 Hc2) in Hu. rewrite <- Hsp2 in Hsp.
  co_step. eapply returns_mono; [by apply reach_safe_point_returns|].
  intros ? w3 (Hl3 & Hq3 & Hf3 & Hc3). cbn [co_world set_field] in *. apply (uncaptured_kept _ _ _ _ Hf3 Hc3) in Hu.
  co_step. eapply returns_mono; [by apply begin_quiesce_again_returns|].
  intros ? w4 (Hl4 & Hf4 & Hq4 & Hc4). cbn [co_world set_field] in *. apply (uncaptured_kept _ _ _ _ Hf4 Hc4) in Hu.
  exists w4. split_and!; [reflexivity|done|congruence|done].
Qed.

(** ... and after it answered. *)
Abbreviation to_preempted c :=
  (_ ← runtime (report_quiesced (quiescence_report c));
  _ ← runtime request_state_capture;
  report_last_capture;;
  _ ← runtime request_release;
  _ ← runtime report_released;
  cp ← runtime commit_preempted;
  save_image (completed (pr_outcome cp));;
  s ← lifecycle;
  print (PPreempted (completed (pr_outcome cp)) s);;
  mret (completed (pr_outcome cp))).

(** [REQUEST_STATE_CAPTURE] and the report of its result. *)
Lemma capture_returns boot pos w c :
  lifecycle_state (rt w) = kQuiesced → capture_is_required (rt w) = true → quiesced_ (rt w) = true →
  uncaptured boot pos w → co_world c = w →
  returns (_ ← runtime request_state_capture; report_last_capture) c (λ _ c', ∃ w',
    c' = c <| co_world := w' |> ∧ lifecycle_state (rt w') = kStateDurable
    ∧ state_durable_ (rt w') = true ∧ quiesced_ (rt w') = true
    ∧ in_scope boot pos w' ∧ all_reserved w'
    ∧ checkpoint_ref_ (rt w') = mkId 1 ∧ checkpoint_generation_ (rt w') = mkGeneration 1).
Proof.
  intros Hl Hc Hq [Hsc Hr Hcap] Hw. unfold captures in Hcap.
  injection Hcap as Hg Hn. apply in_scope_facts in Hsc as Hfacts. destruct Hfacts as (_ & _ & Hdef & _).
  co_step. co_step. rewrite Hw. eapply returns_mono; [by apply request_state_capture_returns|].
  intros ? w1 (Hl1 & Hq1 & [Hs1 Hr1] & r & Hlast & Hsu & Hco & Href & Hgen). cbn [co_world set_field] in *.
  rewrite Hn in Href. rewrite Hg in Hgen.
  apply (in_scope_kept boot pos) in Hs1; [|done].
  pose proof (in_scope_facts _ _ _ Hs1) as (_ & _ & _ & _ & _ & Hval).
  unfold report_last_capture. co_step. co_step. cbn [co_world set_field]. rewrite Hlast.
  co_step. co_step. eapply returns_mono; [apply report_state_captured_returns; [done|done|done|]|].
  { rewrite Hgen, Href. apply Hval. reflexivity. }
  intros ? w2 (Hl2 & Hd2 & Hq2 & [Hs2 Hr2] & Hcr & Hcg). cbn [co_world set_field] in *.
  co_step. exists w2. split_and!; [reflexivity|done|done|congruence| | |by rewrite Hcr, Href|by rewrite Hcg, Hgen].
  - by eapply in_scope_kept.
  - unfold all_reserved in *. congruence.
Qed.

(** The release and the commit. *)
Lemma release_returns boot pos w c :
  lifecycle_state (rt w) = kStateDurable → state_durable_ (rt w) = true → quiesced_ (rt w) = true →
  in_scope boot pos w → all_reserved w → co_world c = w →
  returns (_ ← (_ ← runtime request_release; runtime report_released); runtime commit_preempted) c
    (λ res c', pr_outcome res = PreemptionOutcome.kSafePreemptionCompleted ∧ ∃ w',
       c' = c <| co_world := w' |> ∧ lifecycle_state (rt w') = kPreempted ∧ in_scope boot pos w'
       ∧ checkpoint_ref_ (rt w') = checkpoint_ref_ (rt w)
       ∧ checkpoint_generation_ (rt w') = checkpoint_generation_ (rt w)).
Proof.
  intros Hl Hd Hq Hsc Hr Hw. pose proof (in_scope_facts _ _ _ Hsc) as (_ & _ & _ & Hex & _).
  co_step. co_step. co_step. rewrite Hw. eapply returns_mono; [by apply request_release_returns|].
  intros ? w1 (Hl1 & Hrt1 & Hs1 & Hr1). injection Hr1 as Hr1 _.
  co_step. eapply returns_mono; [by apply report_released_returns|].
  intros ? w2 (Hl2 & Hrel2 & Hrt2 & Had2). co_step. eapply returns_mono.
  { apply commit_preempted_returns; [done| | |done]; rewrite Hrt2, Hrt1; done. }
  intros res w3 (Hout & Hl3 & Hs3 & Hcr3 & Hcg3). split; [done|]. exists w3.
  assert (Hs2 : scope w2 = scope w1) by (unfold scope, static; rewrite Hrt2, Had2; done).
  split_and!; [done|done| | |].
  - eapply in_scope_kept; [|exact Hsc]. congruence.
  - by rewrite Hcr3, Hrt2, Hrt1.
  - by rewrite Hcg3, Hrt2, Hrt1.
Qed.

(** The image written by [--save]. *)
Definition saved_image c (w : World ReferenceAdapters) : list (list byte) :=
  match co_save c with Some _ => [persist_bytes (rt w)] | None => [] end.
(** The file of [--save], if there is one, takes every image. *)
Definition saves_whole c : Prop := ∀ file, co_save c = Some file → ∀ i, file i = Opened true None.

(** The execution of the scenario is preempted at [pos], with its first checkpoint. *)
Record preempted_at boot pos w : Prop := {
  pa_lifecycle : lifecycle_state (rt w) = kPreempted;
  pa_scope : in_scope boot pos w;
  pa_ref : checkpoint_ref_ (rt w) = mkId 1;
  pa_generation : checkpoint_generation_ (rt w) = mkGeneration 1
}.

Lemma preempted_resumable boot pos w : preempted_at boot pos w → resumable w.
Proof.
  intros [_ Hsc Hr Hg]. apply in_scope_facts in Hsc as (_ & _ & _ & _ & Hdep & Hval).
  split; [|done]. rewrite Hr, Hg. by apply Hval.
Qed.

Lemma to_preempted_returns boot pos c c0 :
  lifecycle_state (rt (co_world c)) = kQuiescing → capture_is_required (rt (co_world c)) = true →
  uncaptured boot pos (co_world c) → co_boot c0 = boot → saves_whole c →
  returns (to_preempted c0) c (λ ok c', ok = true ∧ ∃ w,
    c' = c <| co_world := w |> <| co_saved := co_saved c ++ saved_image c w |>
           <| co_out := co_out c ++ [PPreempted true kPreempted] |>
    ∧ preempted_at boot pos w).
Proof.
  intros Hl Hc Hu Hb Hsave. pose proof Hu as [Hsc _ _].
  apply in_scope_facts in Hsc as (Hboot & Hqa & _).
  co_step. co_step.
  eapply returns_mono; [apply report_quiesced_returns; [done|cbn; congruence|done|done]|].
  intros ? w1 (Hl1 & Hq1 & Hf1 & Hc1 & Hk1).
  apply (uncaptured_kept _ _ _ _ Hf1 Hk1) in Hu. rewrite Hc in Hc1.
  apply returns_assoc. co_step. eapply returns_mono; [by eapply capture_returns|].
  intros ? c2 (w2 & -> & Hl2 & Hd2 & Hq2 & Hsc2 & Hr2 & Hcr & Hcg).
  apply returns_assoc, returns_assoc. co_step. eapply returns_mono; [by eapply release_returns|].
  intros res c3 (Hout & w3 & -> & Hl3 & Hsc3 & Hcr3 & Hcg3).
  rewrite Hout. co_step. eapply returns_mono.
  { instantiate (1 := λ _ c', c' = c <| co_world := w3 |> <| co_saved := co_saved c ++ saved_image c w3 |>).
    unfold save_image, saved_image. co_step. co_step. cbn [co_save set_field].
    destruct (co_save c) as [file|] eqn:E.
    all: change (completed PreemptionOutcome.kSafePreemptionCompleted) with true; cbn [when].
    - co_step. rewrite (Hsave file E). by destruct c.
    - co_step. destruct c; cbn in *; by rewrite app_nil_r. }
  intros ? c4 ->. unfold lifecycle. repeat co_step. cbn [co_world set_field]. rewrite Hl3. split; [done|].
  exists w3. split; [done|]. split; [done|done|congruence|congruence].
Qed.

Lemma drive_preemption_returns boot pos c :
  ready boot pos c → saves_whole c →
  returns drive_preemption c (λ ok c', ok = true ∧ preempted_at boot pos (co_world c')
    ∧ co_saved c' = co_saved c ++ saved_image c (co_world c')
    ∧ co_out c' = co_out c ++ [PPreempted true kPreempted]).
Proof.
  intros Hrd Hsw. pose proof Hrd as [[pr Hp] Hb Hty _].
  unfold drive_preemption. co_step. co_step. rewrite (connects_open _ _ Hp). cbn [negb].
  do 3 apply returns_assoc. co_step. eapply returns_mono; [by apply (to_quiescing_returns boot pos)|].
  intros ? c1 (w1 & -> & Hl1 & Hc1 & Hu1). co_step. co_step. cbn [co_worker set_field].
  pose proof (quiesce_deliverable c Hty) as Hd. set (m := quiesce_message c) in *.
  destruct (served (co_worker c) pr m [WorkerProcess.quiesced_message pr m] _ Hp Hd eq_refl) as (l1 & -> & Hl).
  cbn [fst snd negb]. clearbody m.
  destruct (connects_receive l1 _ _ _ Hl eq_refl) as (l2 & E2 & _).
  eapply returns_or_lost; [exact E2|]. eapply returns_mono; [by apply (to_preempted_returns boot pos)|].
  intros ok c2 (-> & w2 & -> & Hp2). done.
Qed.

Lemma resumable_kept w w' :
  scope w' = scope w → checkpoint_ref_ (rt w') = checkpoint_ref_ (rt w) →
  checkpoint_generation_ (rt w') = checkpoint_generation_ (rt w) → resumable w → resumable w'.
Proof.
  intros Hs H1 H2 [Hv Hd]. apply (f_equal fst) in Hs. unfold static in Hs. cbn [fst scope] in Hs.
  assert (E1 : current_checkpoint_gen_ (ad w') = current_checkpoint_gen_ (ad w))
    by exact (f_equal (λ p, p.1.1.1.1.1.2) Hs).
  assert (E2 : checkpoint_valid_ (ad w') = checkpoint_valid_ (ad w))
    by exact (f_equal (λ p, p.1.1.1.1.2) Hs).
  assert (E3 : resume_dep_ (ad w') = resume_dep_ (ad w)) by exact (f_equal snd Hs).
  unfold resumable, Ref.validate_checkpoint in *. by rewrite H1, H2, E1, E2, E3.
Qed.

Lemma drive_resume_returns c :
  lifecycle_state (rt (co_world c)) = kPreempted → resumable (co_world c) →
  returns drive_resume c (λ ok c', ok = true
    ∧ lifecycle_state (rt (co_world c')) = kResumed
    ∧ durable_position_ (rt (co_world c')) = durable_position_ (rt (co_world c))
    ∧ co_out c' = co_out c ++ [PResumed true kResumed]).
Proof.
  intros Hl Hr. unfold drive_resume, lifecycle.
  co_step. co_step. eapply returns_mono; [by apply request_resume_returns|].
  intros ? w1 (Hl1 & Hs1 & Hr1 & Hg1). apply (resumable_kept _ _ Hs1 Hr1 Hg1) in Hr.
  co_step. co_step. eapply returns_mono; [by apply revalidate_returns|].
  intros ? w2 (Hl2 & Hs2 & Hr2 & Hg2). apply (resumable_kept _ _ Hs2 Hr2 Hg2) in Hr.
  co_step. co_step. eapply returns_mono; [by apply restore_returns|]. intros ? w3 (Hl3 & Hs3).
  co_step. co_step. eapply returns_mono; [by apply confirm_resumed_returns|].
  intros res w4 (Hout & Hl4 & Hs4). repeat co_step. cbn [co_world set_field]. rewrite Hout, Hl4.
  split_and!; [done|done| |done].
  assert (Hs : scope w4 = scope (co_world c)) by congruence. exact (f_equal snd Hs).
Qed.

(** ** From the start of the process *)

(** The registered worker's boot id is the runtime's, and nothing else has happened. *)
Record fresh (boot : WorkerBootId) c : Prop := {
  fr_worker : ∃ p, serves (co_worker c) p;
  fr_boot : co_boot c = boot;
  fr_typed : typed c;
  fr_world : ∃ id, co_world c
    = (set_worker_incarnation id boot (mkWorld (new_runtime epoch policy) setup_adapters)).2
}.

Lemma begin_execution_returns boot c :
  fresh boot c →
  returns begin_execution c (λ _ c', ready boot 0 c' ∧ co_out c' = co_out c ++ [PExecutionStarted]
    ∧ co_save c' = co_save c ∧ co_saved c' = co_saved c).
Proof.
  intros [[pr Hp] Hb Hty [id Hw]]. unfold begin_execution.
  co_step. co_step. co_step. co_step. cbn [co_boot set_field]. rewrite Hb.
  do 2 co_step. rewrite Hw. eexists. split; [reflexivity|]. cbv beta.
  do 2 co_step. eexists. split; [reflexivity|]. cbv beta.
  do 2 co_step. eexists. split; [reflexivity|]. cbv beta.
  co_step. co_step.
  match goal with |- context [link_send ?m ?l] =>
    destruct (served l pr m [] _ Hp (begin_deliverable _ Hty) eq_refl) as (l1 & -> & Hl1) end.
  co_step. cbn [fst snd].
  split; [|done]. split; [by eexists|done|done|].
  cbn [co_world set_field]. clear Hw. subst boot.
  split; vm_compute; try reflexivity; [by split|by eexists|by split].
Qed.

End drive.

(** ** The scenario of a controller *)

Definition command (t : MessageType) : Message := default_Message <| msg_type := t |>.
Definition segment (p : Z) : Message :=
  (command MessageType.kPublishProgress) <| msg_progress_position := p |>.

(** Positions in range that do not go back. *)
Fixpoint ascending (pos : Z) (ps : list Z) : Prop :=
  match ps with
  | [] => True
  | p :: ps => pos ≤ p ∧ in_u64 p ∧ ascending p ps
  end.
Definition final_position (pos : Z) (ps : list Z) : Z := default pos (last ps).

Lemma final_position_cons pos p ps : final_position pos (p :: ps) = final_position p ps.
Proof. unfold final_position. by destruct ps as [|q ps]; [|rewrite last_cons_cons; destruct (last (q :: ps)) eqn:E; [|apply last_None in E]]. Qed.

Section scenario.
Context {L : Type} `{WorkerLink L}.
Import LifecycleState.
Implicit Types c : Coordinator L.

(** A listener on [port], a worker that connects over [l], a controller that sends [cmds],
    and the files [file]. *)
Definition environment (file : string → option (list byte)) (port : Z) (l : L) (cmds : list Message) :
    Environment (L := L) :=
  mkEnvironment file (λ _ _, Opened true None) (λ _, Some port) (Some l) (Some cmds) [].

Lemma command_loop_cons cmd rest :
  msg_type cmd ≠ MessageType.kShutdown →
  command_loop (L := L) (cmd :: rest) = (handle_command cmd;; command_loop rest).
Proof. intros Ht. cbn [command_loop]. by rewrite bool_decide_eq_false_2. Qed.

Lemma segments_return boot ps rest : ∀ pos c (Q : unit → Coordinator L → Prop),
  ready boot pos c → ascending pos ps →
  (∀ c', ready boot (final_position pos ps) c' → co_out c' = co_out c ++ map PSegment ps →
    co_save c' = co_save c → co_saved c' = co_saved c → returns (command_loop rest) c' Q) →
  returns (command_loop (map segment ps ++ rest)) c Q.
Proof.
  induction ps as [|p ps IH]; intros pos c Q Hrd Has Hk.
  { apply Hk; [done|by rewrite app_nil_r|done|done]. }
  destruct Has as (Hle & Hu & Has). cbn [map app]. rewrite command_loop_cons by done.
  apply returns_bind. change (handle_command (segment p)) with
    (ok ← run_segment (L := L) p; when ok (print (PSegment p))).
  apply returns_bind. eapply returns_mono; [by apply (run_segment_returns boot pos p)|].
  intros ? c1 (-> & Hrd1 & Ho1 & Hsv1 & Hsd1). apply returns_print.
  apply (IH p); [by destruct Hrd1; split|done|].
  intros c' Hrd' Ho' Hsv' Hsd'. apply Hk; [by rewrite final_position_cons| |by rewrite Hsv'|by rewrite Hsd'].
  rewrite Ho'. cbn. by rewrite Ho1, <- app_assoc.
Qed.

(** The commands after the last segment. *)
Lemma preempt_returns boot pos rest c (Q : unit → Coordinator L → Prop) :
  ready boot pos c → saves_whole c →
  (∀ c', preempted_at boot pos (co_world c') → co_saved c' = co_saved c ++ saved_image c (co_world c') →
    co_out c' = co_out c ++ [PPreempted true kPreempted; PDrivePreemption true] →
    returns (command_loop rest) c' Q) →
  returns (command_loop (command MessageType.kRequestPreemption :: rest)) c Q.
Proof.
  intros Hrd Hsw Hk. rewrite command_loop_cons by done.
  change (handle_command (command MessageType.kRequestPreemption)) with
    (ok ← drive_preemption (L := L); print (PDrivePreemption ok)).
  do 2 apply returns_bind. eapply returns_mono; [by apply (drive_preemption_returns boot pos)|].
  intros ? c1 (-> & Hp1 & Hs1 & Ho1). apply returns_print. apply Hk; try done.
  cbn. by rewrite Ho1, <- app_assoc.
Qed.

Lemma resume_returns rest c (Q : unit → Coordinator L → Prop) :
  lifecycle_state (rt (co_world c)) = kPreempted → resumable (co_world c) →
  (∀ c', lifecycle_state (rt (co_world c')) = kResumed →
    durable_position_ (rt (co_world c')) = durable_position_ (rt (co_world c)) →
    co_out c' = co_out c ++ [PResumed true kResumed; PDriveResume true] →
    returns (command_loop rest) c' Q) →
  returns (command_loop (command MessageType.kRequestResume :: rest)) c Q.
Proof.
  intros Hl Hr Hk. rewrite command_loop_cons by done.
  change (handle_command (command MessageType.kRequestResume)) with
    (ok ← drive_resume (L := L); print (PDriveResume ok)).
  do 2 apply returns_bind. eapply returns_mono; [by apply drive_resume_returns|].
  intros ? c1 (-> & Hl1 & Hp1 & Ho1). apply returns_print. apply Hk; try done.
  cbn. by rewrite Ho1, <- app_assoc.
Qed.

(** What [main] hands to the command loop: the worker is registered, and the world is the
    one left by the recovery, with the incarnation of the worker. *)
Record registered_with (argv : list string) (worker_id : WorkerId) (boot : WorkerBootId) (port : Z)
    (w0 : World ReferenceAdapters) (out0 : list Output) c : Prop := {
  rg_worker : ∃ p, serves (co_worker c) p;
  rg_boot : co_boot c = boot;
  rg_typed : typed c;
  rg_world : co_world c = (set_worker_incarnation worker_id boot w0).2;
  rg_out : co_out c = out0 ++ [PPort port; PRegistered worker_id boot];
  rg_save : co_save c
    = if bool_decide (arg_save (parse_args argv default_Args) = EmptyString) then None
      else Some (λ _, Opened true None);
  rg_saved : co_saved c = []
}.

Lemma registered_saves argv worker_id boot port w0 out0 c c' :
  registered_with argv worker_id boot port w0 out0 c → co_save c' = co_save c → saves_whole c'.
Proof.
  intros Hrg E file Hf i. rewrite E, (rg_save _ _ _ _ _ _ _ Hrg) in Hf. destruct (bool_decide _); [done|].
  by injection Hf as <-.
Qed.

Lemma initial_boot_wf hash label : wf (initial_boot hash label).
Proof. unfold wf, initial_boot. cbn. pose proof (Z.mod_pos_bound (hash label) 9000). zlia. Qed.

Lemma main_registers hash argv file port l closed worker_id label cmds w0 out0 c0 (Q : Z → Coordinator L → Prop) :
  let args := parse_args argv default_Args in
  let env := environment file port l cmds in
  let boot := initial_boot hash label in
  connects l (spawn worker_id label) → deliverable (WorkerProcess.register_message worker_id label) →
  returns (recover args env) (start args env closed)
    (λ _ c, c = (start args env closed) <| co_world := w0 |> <| co_out := out0 |>) →
  (∀ c, registered_with argv worker_id boot port w0 out0 c →
    returns (command_loop cmds) c (λ _ c', Q 0 (c' <| co_worker := link_close (co_worker c') |>))) →
  returns (main hash argv env closed) c0 Q.
Proof.
  intros args env boot Hl Hd Hrec Hk. unfold main. fold args. apply returns_bind, returns_modify.
  apply returns_bind. eapply returns_mono; [exact Hrec|]. intros ? c1 ->.
  unfold env at 1 2 3. cbn [environment env_listen env_worker env_controller].
  apply returns_bind, returns_print.
  destruct (connects_receive l _ _ _ Hl eq_refl) as (l1 & E1 & Hl1).
  destruct (connects_receive l1 _ _ _ Hl1 eq_refl) as (l2 & E2 & Hl2).
  unfold receive_registration. rewrite E1, E2. cbn [bool_decide].
  change (msg_type (WorkerProcess.register_message worker_id label)) with MessageType.kRegister.
  rewrite bool_decide_eq_true_2 by done.
  apply returns_bind, returns_modify, returns_bind. unfold register_worker.
  change (msg_worker_id (WorkerProcess.register_message worker_id label)) with worker_id.
  change (msg_detail (WorkerProcess.register_message worker_id label)) with label. fold boot.
  assert (Hid : wf worker_id) by (destruct Hd as [Hwf _]; unfold message_wf in Hwf; cbn in Hwf; tauto).
  apply returns_bind, returns_modify, returns_bind, returns_runtime. eexists. split; [reflexivity|].
  apply returns_bind, returns_send.
  match goal with |- context [link_send ?m ?x] =>
    destruct (registered x worker_id label m Hl2 (ack_deliverable _ _ Hid (initial_boot_wf hash label)))
      as (l3 & -> & Hl3) end.
  apply returns_print, returns_bind. eapply returns_mono; [apply Hk|].
  - split; try done; [by eexists|split; [done|apply initial_boot_wf]|by cbn; rewrite <- app_assoc].
  - intros ? c2 Hc2. by apply returns_bind, returns_modify, returns_ret.
Qed.

(** The commands that start the execution and run the segments. *)
Abbreviation start_and_run ps := (command MessageType.kBeginExecution :: map segment ps).

Lemma start_and_run_returns argv worker_id boot port ps rest c (Q : unit → Coordinator L → Prop) :
  registered_with argv worker_id boot port (mkWorld (new_runtime epoch policy) setup_adapters) [] c →
  ascending 0 ps →
  (∀ c', ready boot (final_position 0 ps) c' →
    co_out c' = [PPort port; PRegistered worker_id boot; PExecutionStarted] ++ map PSegment ps →
    co_save c' = co_save c → co_saved c' = [] → returns (command_loop rest) c' Q) →
  returns (command_loop (start_and_run ps ++ rest)) c Q.
Proof.
  intros Hrg Has Hk. cbn [app]. rewrite command_loop_cons by done. apply returns_bind.
  change (handle_command (command MessageType.kBeginExecution)) with (begin_execution (L := L)).
  eapply returns_mono.
  { apply (begin_execution_returns boot). destruct Hrg. split; [done|done|done|]. by eexists. }
  intros ? c1 (Hrd & Ho & Hsv & Hsd). eapply segments_return; [done|done|].
  intros c2 Hrd2 Ho2 Hsv2 Hsd2. apply Hk; [done| |congruence|].
  - by rewrite Ho2, Ho, (rg_out _ _ _ _ _ _ _ Hrg).
  - by rewrite Hsd2, Hsd, (rg_saved _ _ _ _ _ _ _ Hrg).
Qed.

(** Without [--recover], [recover] does nothing. *)
Lemma recover_nothing args (env : Environment (L := L)) closed :
  arg_recover args = EmptyString →
  returns (recover args env) (start args env closed) (λ _ c, c = (start args env closed)
    <| co_world := mkWorld (new_runtime epoch policy) setup_adapters |> <| co_out := [] |>).
Proof. intros Ha. unfold recover. rewrite Ha. by apply returns_ret. Qed.

(** A run that preempts and resumes. *)
Lemma scenario_returns hash file port l closed worker_id label ps c0 :
  connects l (spawn worker_id label) → deliverable (WorkerProcess.register_message worker_id label) →
  ascending 0 ps →
  returns (main hash [] (environment file port l (start_and_run ps
             ++ [command MessageType.kRequestPreemption; command MessageType.kRequestResume])) closed) c0
    (λ code c, code = 0 ∧ lifecycle_state (rt (co_world c)) = kResumed
      ∧ durable_position_ (rt (co_world c)) = final_position 0 ps
      ∧ co_out c = [PPort port; PRegistered worker_id (initial_boot hash label); PExecutionStarted]
          ++ map PSegment ps ++ [PPreempted true kPreempted; PDrivePreemption true;
                                 PResumed true kResumed; PDriveResume true]).
Proof.
  intros Hl Hd Has. eapply main_registers; [done|done|by apply recover_nothing|].
  intros c1 Hrg. eapply start_and_run_returns; [done|done|]. intros c2 Hrd Ho Hsv _.
  eapply preempt_returns; [done|by eapply registered_saves|]. intros c3 Hp _ Ho3.
  apply resume_returns; [apply Hp|by eapply preempted_resumable|]. intros c4 Hl4 Hp4 Ho4. apply returns_ret.
  split_and!; [done|done|cbn; rewrite Hp4; apply Hp|]. cbn [co_out set_field].
  by rewrite Ho4, Ho3, Ho, <- !app_assoc.
Qed.

(** A run that preempts and saves the image. *)
Lemma saving_returns hash f file port l closed worker_id label ps c0 :
  f ≠ EmptyString →
  connects l (spawn worker_id label) → deliverable (WorkerProcess.register_message worker_id label) →
  ascending 0 ps →
  returns (main hash ["--save"%string; f] (environment file port l (start_and_run ps
             ++ [command MessageType.kRequestPreemption])) closed) c0
    (λ code c, code = 0 ∧ preempted_at (initial_boot hash label) (final_position 0 ps) (co_world c)
      ∧ co_saved c = [persist_bytes (rt (co_world c))]).
Proof.
  intros Hf Hl Hd Has. eapply main_registers; [done|done|by apply recover_nothing|].
  intros c1 Hrg. eapply start_and_run_returns; [done|done|]. intros c2 Hrd Ho Hsv Hsd.
  eapply preempt_returns; [done|by eapply registered_saves|]. intros c3 Hp Hs Ho3. apply returns_ret. split_and!; [done|done|].
  cbn [co_saved co_world set_field]. rewrite Hs, Hsd. unfold saved_image. rewrite Hsv, (rg_save _ _ _ _ _ _ _ Hrg).
  change (arg_save (parse_args ["--save"%string; f] default_Args)) with f. by rewrite bool_decide_eq_false_2.
Qed.

(** A run that recovers a preempted execution and resumes it. *)
Lemma resuming_returns hash f file port l closed worker_id label w1 c0 :
  f ≠ EmptyString →
  connects l (spawn worker_id label) → deliverable (WorkerProcess.register_message worker_id label) →
  load (file f) (mkWorld (new_runtime epoch policy) setup_adapters) = (inr true, w1) →
  lifecycle_state (rt w1) = kPreempted → resumable w1 →
  returns (main hash ["--recover"%string; f]
             (environment file port l [command MessageType.kRequestResume]) closed) c0
    (λ code c, code = 0 ∧ lifecycle_state (rt (co_world c)) = kResumed
      ∧ durable_position_ (rt (co_world c)) = durable_position_ (rt w1)
      ∧ co_out c = [PRecover true; PPort port; PRegistered worker_id (initial_boot hash label);
                    PResumed true kResumed; PDriveResume true]).
Proof.
  intros Hf Hl Hd Hload Hw Hr. eapply (main_registers _ _ _ _ _ _ _ _ _ w1 [PRecover true]); [done|done| |].
  { unfold recover. change (arg_recover (parse_args ["--recover"%string; f] default_Args)) with f.
    rewrite bool_decide_eq_false_2 by done. apply returns_bind, returns_runtime.
    exists true. unfold wp. cbn [environment env_file start co_world]. rewrite Hload. split; [done|]. by apply returns_print. }
  intros c1 Hrg. pose proof (rg_world _ _ _ _ _ _ _ Hrg) as E.
  apply resume_returns; [by rewrite E|by rewrite E|]. intros c2 Hl2 Hp2 Ho2. apply returns_ret.
  split_and!; [done|done|cbn; by rewrite Hp2, E|]. cbn [co_out set_field].
  by rewrite Ho2, (rg_out _ _ _ _ _ _ _ Hrg).
Qed.

End scenario.
