(* ===== verification/CoordinatorSafety.v ===== *)
(** * Safety of every coordinator

    The judgement [keeps] carries the safety of the runtime to the coordinator, whatever is
    at the other end of its connections and whatever the controller sends. *)

From S2P Require Import Prelude Exec Identity Enums Lifecycle OrdMap Domains Interfaces.
From S2P Require Import ReferenceAdapters Bytes PersistentState Store Runtime Recovery.
From S2P Require Import RuntimeSpec RuntimeSafety Framing FramingTheorems FramingTypes Link Worker WorkerLink Coordinator.
From stdpp Require Import base list strings numbers relations.
From Stdlib Require Import ZArith Lia.
Open Scope Z_scope.
Import CoordinatorProcess.

(** ** Invariants of computations *)

Section keeps.
Context {L : Type} `{Link L} (I : Coordinator L → Prop).

(** [m] preserves [I], whether it returns or throws. *)
Definition keeps {B} (m : Exec (Coordinator L) B) : Prop := ∀ c, I c → wp m c (λ _ c', I c').

Lemma keeps_bind {B D} (m : Exec _ B) (f : B → Exec _ D) : keeps m → (∀ x, keeps (f x)) → keeps (m ≫= f).
Proof.
  intros Hm Hf c Hc. apply wp_bind. eapply wp_mono; [by apply Hm|]. intros [e|x] c' Hc'; [done|by apply Hf].
Qed.
Lemma keeps_ret {B} (x : B) : keeps (mret x).
Proof. by intros c Hc. Qed.
Lemma keeps_get : keeps get.
Proof. by intros c Hc. Qed.
(** The state read satisfies the invariant. *)
Lemma keeps_get_bind {B} (f : Coordinator L → Exec _ B) : (∀ c, I c → keeps (f c)) → keeps (get ≫= f).
Proof. intros Hf c Hc. by apply wp_bind, Hf. Qed.
Lemma keeps_when b (m : Exec _ unit) : keeps m → keeps (when b m).
Proof. intros Hm. destruct b; [done|apply keeps_ret]. Qed.
Lemma keeps_assign f : (∀ c, I c → I (f c)) → keeps (modify f).
Proof. intros Hf c Hc. by apply Hf. Qed.

End keeps.

(** ** What the saves leave in the file

    Whole images, and beginnings of images where a write stopped. *)

Definition torn_from (image : list byte → Prop) (bytes : list byte) : Prop :=
  ∃ whole n, image whole ∧ (n < length whole)%nat ∧ bytes = take n whole.
Definition files {L} (image : list byte → Prop) (c : Coordinator L) : Prop :=
  Forall image (co_saved c) ∧ Forall (torn_from image) (co_torn c).

Lemma record_save_files {L} image file (c : Coordinator L) :
  image (persist_bytes (rt (co_world c))) → files image c → files image (record_save file c).
Proof.
  intros Hi [Hs Ht]. unfold record_save. destruct (whole _ _) eqn:Hw.
  - split; [|done]. cbn [co_saved set_field]. rewrite save_whole by done.
    apply Forall_app. split; [done|by apply Forall_singleton].
  - split; [done|]. cbn [co_torn set_field]. apply Forall_app. split; [done|].
    destruct file as [|good [n|]]; [constructor| |done]. cbn in Hw. apply Nat.leb_gt in Hw.
    apply Forall_singleton. by eexists _, n.
Qed.

(** ** What every coordinator keeps

    Whatever the link, the worker and the controller do. *)

Section sound.
Context {L : Type} `{Link L}.
Implicit Types c : Coordinator L.
Implicit Types w : World ReferenceAdapters.
Import LifecycleState.

Abbreviation possible := (reachable (A := ReferenceAdapters) bytes_only any_env).
Definition preempted_image (bytes : list byte) : Prop :=
  ∃ w, possible w ∧ lifecycle_state (rt w) = kPreempted ∧ bytes = persist_bytes (rt w).
(** The world is one the runtime can reach, and the images saved are of preempted worlds. *)
Definition sound c : Prop := possible (co_world c) ∧ files preempted_image c.
Abbreviation keeps := (keeps sound).

Lemma possible_op op w : bytes_only op → possible w → possible (final (run_op op w)).
Proof. intros Hop (w0 & Hi & Hr). exists w0. split; [done|]. eapply rtc_r; [done|by apply step_op]. Qed.

(** An assignment that touches neither the runtime nor the images. *)
Lemma keeps_modify f :
  (∀ c, co_world (f c) = co_world c ∧ co_saved (f c) = co_saved c ∧ co_torn (f c) = co_torn c) →
  keeps (modify f).
Proof. intros Hf c [Hw Hs]. destruct (Hf c) as (E1 & E2 & E3). split; unfold files; cbn; by rewrite ?E1, ?E2, ?E3. Qed.
Lemma keeps_print o : keeps (print o).
Proof. by apply keeps_modify. Qed.
Lemma keeps_send m : keeps (worker_send m).
Proof. by intros c Hc. Qed.
Lemma keeps_or_lost k : (∀ m, keeps (k m)) → keeps (or_lost k).
Proof.
  intros Hk. apply keeps_bind; [by intros c Hc|]. intros [m|]; [done|].
  apply keeps_bind; [apply keeps_print|intros; apply keeps_ret].
Qed.
Lemma keeps_op {B} op (m : Exec (World ReferenceAdapters) B) :
  bytes_only op → (∀ w, final (m w) = final (run_op op w)) → keeps (runtime m).
Proof.
  intros Hop Hm c [Hw Hs]. unfold runtime. apply wp_zoom. apply wp_final. split; [|done].
  cbn. rewrite Hm. by apply possible_op.
Qed.
Lemma keeps_call {B} op (m : Exec (World ReferenceAdapters) B) :
  bytes_only op → run_op op = void m → keeps (runtime m).
Proof.
  intros Hb Hop. apply (keeps_op op); [done|]. intros w. rewrite Hop. unfold final, void, mbind, Exec_bind.
  by destruct (m w) as [[e|x] w'].
Qed.
Lemma keeps_env f : keeps (runtime (upd_ad f)).
Proof.
  intros c [(w0 & Hi & Hr) Hs]. split; [|done]. exists w0. split; [done|].
  eapply rtc_r; [exact Hr|]. by apply (step_env _ _ (co_world c) (f (ad (co_world c)))).
Qed.

Ltac keeps_step :=
  lazymatch goal with
  | |- keeps (mbind _ _) => apply keeps_bind; [|intros ?]
  | |- keeps (mret _) => apply keeps_ret
  | |- keeps get => apply keeps_get
  | |- keeps (modify _) => by apply keeps_modify
  | |- keeps (print _) => apply keeps_print
  | |- keeps (worker_send _) => apply keeps_send
  | |- keeps worker_lost => unfold worker_lost
  | |- keeps lifecycle => unfold lifecycle
  | |- keeps (or_lost _) => apply keeps_or_lost; intros ?
  | |- keeps (when _ _) => apply keeps_when
  | |- keeps (runtime (upd_ad _)) => apply keeps_env
  | |- keeps (runtime (reach_safe_point ?a ?b ?d)) => by apply (keeps_op (OReachSafePoint a b d))
  | |- keeps (runtime (start_execution ?a ?b ?c ?d ?e ?f ?g ?h)) => by apply (keeps_op (OStart a b c d e f g h))
  | |- keeps (runtime (set_worker_incarnation ?a ?b)) => by apply (keeps_op (OSetWorkerIncarnation a b))
  | |- keeps (runtime (declare_safe_point ?a)) => by apply (keeps_call (ODeclareSafePoint a))
  | |- keeps (runtime (publish_progress ?a ?b)) => by apply (keeps_call (OPublishProgress a b))
  | |- keeps (runtime (request_preemption ?a)) => by apply (keeps_call (ORequestPreemption a))
  | |- keeps (runtime (report_quiesced ?a)) => by apply (keeps_call (OReportQuiesced a))
  | |- keeps (runtime (report_state_captured ?a)) => by apply (keeps_call (OReportStateCaptured a))
  | |- keeps (runtime begin_quiesce) => by apply (keeps_call OBeginQuiesce)
  | |- keeps (runtime request_state_capture) => by apply (keeps_call ORequestStateCapture)
  | |- keeps (runtime request_release) => by apply (keeps_call ORequestRelease)
  | |- keeps (runtime report_released) => by apply (keeps_call OReportReleased)
  | |- keeps (runtime request_resume) => by apply (keeps_call ORequestResume)
  | |- keeps (runtime revalidate) => by apply (keeps_call ORevalidate)
  | |- keeps (runtime restore) => by apply (keeps_call ORestore)
  | |- keeps (runtime confirm_resumed) => by apply (keeps_call OConfirmResumed)
  | |- keeps (runtime (restore_bytes ?a)) => by apply (keeps_call (ORestoreBytes a))
  | |- keeps (if ?b then _ else _) => destruct b
  | |- keeps (match ?o with _ => _ end) => destruct o
  end.

Lemma run_segment_keeps target : keeps (run_segment target).
Proof. unfold run_segment. repeat keeps_step. Qed.

Lemma commit_preempted_completed w :
  wp commit_preempted w (λ r w', ∀ res, r = inr res →
    completed (pr_outcome res) = true → lifecycle_state (rt w') = kPreempted).
Proof. autounfold with calls. wp_run; prune; intros res [= <-]; done. Qed.

(** The commit, and the image saved when it completed. *)
Lemma commit_keeps {B} (k : PreemptionResult → Exec (Coordinator L) B) :
  (∀ cp, keeps (k cp)) →
  keeps (cp ← runtime commit_preempted; save_image (completed (pr_outcome cp));; k cp).
Proof.
  intros Hk c [Hw Hs]. apply wp_bind, wp_zoom.
  apply (wp_mono _ _ (λ r w', (∀ res, r = inr res → completed (pr_outcome res) = true →
                                lifecycle_state (rt w') = kPreempted) ∧ possible w')).
  { split; [apply (commit_preempted_completed (co_world c))|].
    pose proof (possible_op OCommitPreempted _ I Hw) as Hw'. revert Hw'. cbn [run_op].
    unfold final, void, mbind, Exec_bind. by destruct (commit_preempted (co_world c)) as [[e|x] w']. }
  intros [e|cp] w' [Hc Hp]; [by split|].
  apply wp_bind. unfold save_image. apply wp_bind, wp_get. cbn [co_save set_field].
  destruct (co_save c) as [file|]; [|by apply Hk].
  apply wp_when; intros Hcp; [|by apply Hk].
  apply wp_modify. apply Hk. split; [by unfold record_save; destruct (whole _ _)|].
  apply record_save_files; [|done]. exists w'. split_and!; [done|by eapply Hc|done].
Qed.

Lemma drive_preemption_keeps : keeps drive_preemption.
Proof.
  unfold drive_preemption, report_last_capture.
  repeat lazymatch goal with
  | |- keeps (cp ← runtime commit_preempted; _) => apply commit_keeps; intros ?
  | _ => keeps_step
  end.
Qed.

Lemma handle_command_keeps cmd : keeps (handle_command cmd).
Proof.
  unfold handle_command. destruct (msg_type cmd); try apply keeps_ret.
  all: unfold re_register, accept, begin_execution, drive_resume, replay_stale.
  all: repeat first [apply run_segment_keeps|apply drive_preemption_keeps|keeps_step].
Qed.

Lemma command_loop_keeps cmds : keeps (command_loop cmds).
Proof.
  induction cmds as [|cmd cmds IH]; cbn; [apply keeps_ret|]. keeps_step; [apply keeps_ret|].
  keeps_step; [apply handle_command_keeps|done].
Qed.

Lemma load_keeps contents : keeps (runtime (load contents)).
Proof. destruct contents as [bytes|]; [by apply (keeps_call (ORestoreBytes bytes))|by intros c Hc]. Qed.

Lemma main_sound hash argv env closed c :
  sound (final (main (L := L) hash argv env closed c)).
Proof.
  unfold main. apply (proj1 (wp_final _ _ sound)). apply wp_bind, wp_modify.
  assert (Hs : sound (start (parse_args argv default_Args) env closed)).
  { split; [|split; constructor]. exists (co_world (start (parse_args argv default_Args) env closed)).
    split; [by eexists _, _|constructor]. }
  revert Hs. generalize (start (parse_args argv default_Args) env closed). clear c.
  refine (_ : keeps _). unfold recover, register_worker.
  repeat first [apply command_loop_keeps|apply load_keeps|keeps_step].
Qed.

End sound.

