(* ===== verification/CoordinatorImages.v ===== *)
(** * The images the coordinator saves can be recovered

    The durable members of a coordinator's runtime stay in the range of their types, durable
    state always names a checkpoint, and so every image saved passes the checks of the store
    and gives back the preempted execution, whatever bytes arrive on the connections. *)

From S2P Require Import Prelude Exec Identity Enums Lifecycle OrdMap Domains Interfaces.
From S2P Require Import ReferenceAdapters Bytes PersistentState Store StoreTheorems Runtime Recovery.
From S2P Require Import RuntimeSpec RuntimeSafety RuntimeRecovery Framing FramingTheorems FramingTypes.
From S2P Require Import Connection Link Worker WorkerLink Coordinator CoordinatorCalls CoordinatorRuns CoordinatorSafety.
From stdpp Require Import base list strings numbers relations.
From Stdlib Require Import ZArith Lia.
Open Scope Z_scope.
Import CoordinatorProcess.

(** ** Invariants of the world of a coordinator *)

Section world.
Implicit Types w : World ReferenceAdapters.
Import LifecycleState.

(** Durable state names a checkpoint. *)
Definition has_checkpoint (r : PreemptionRuntime) : Prop :=
  state_durable_ r = true →
  is_valid (checkpoint_ref_ r) = true ∧ is_valid (checkpoint_generation_ r) = true.
Definition keys_valid (r : PreemptionRuntime) : Prop :=
  Forall (λ p, is_valid p.1 = true) (safe_points_ r).
Definition capture_wf (res : CaptureResult) : Prop :=
  wf (cr_capture_generation res) ∧ wf (cr_checkpoint_ref res) ∧ wf (cr_checkpoint_generation res).
(** The current checkpoint generation is valid and the last capture is in range. *)
Definition adapters_ok (a : ReferenceAdapters) : Prop :=
  is_valid (current_checkpoint_gen_ a) = true ∧ ∀ res, last_capture_ a = Some res → capture_wf res.

(** Only the safe point of the scenario is declared, and nothing was cancelled. *)
Definition own (r : PreemptionRuntime) : Prop :=
  Forall (λ p, p.1 = safe_point) (safe_points_ r) ∧ history_ r = [].

(** [from_file] is whether the process recovers from a file. *)
Context (from_file : Prop).

Record good w : Prop := {
  gd_members : members_wf (rt w);
  gd_shape : shape_ok (rt w);
  gd_states : states_set (rt w);
  gd_committed : committed (evidence (rt w));
  gd_checkpoint : has_checkpoint (rt w);
  gd_keys : keys_valid (rt w);
  gd_adapters : adapters_ok (ad w);
  gd_epoch : epoch_ (rt w) = epoch;
  gd_policy : policy_generation_ (rt w) = policy;
  gd_own : from_file ∨ own (rt w)
}.

(** The calls the coordinator makes: in range, with the safe point of the scenario, a capture
    only where one is required, no cancellation, and a recovery only from the bytes of its file. *)
Definition careful (op : Op) w : Prop :=
  op_in_range op ∧
  match op with
  | ODeclareSafePoint sp => sp_id sp = safe_point
  | OCancel => False
  | ORestoreBytes _ => from_file
  | ORestoreState _ => False
  | ORequestStateCapture => capture_is_required (rt w) = true
  | _ => True
  end.

Lemma careful_checked op w : careful op w → checked op.
Proof. by destruct op; intros [_ ?]. Qed.

Lemma release_leases_adapters e g ls a :
  adapters_ok a → adapters_ok (release_leases e g ls a).
Proof.
  unfold release_leases. revert a. induction ls as [|l ls IH]; intros a Ha; [done|]. apply IH.
  cbn. unfold Ref.request_release. repeat case_match; exact Ha.
Qed.

Lemma capture_adapters r a :
  wf (checkpoint_generation_ r) → adapters_ok a → adapters_ok (Ref.request_capture (capture_request r) a).2.
Proof.
  intros Hwf [Hg Hc]. split; [done|]. intros res [= <-].
  refine (conj _ (conj _ _)); first [apply wrap64_in_u64|by apply Generation_next_wf].
Qed.

Lemma op_adapters op w :
  members_wf (rt w) → adapters_ok (ad w) → wp (run_op op) w (λ _ w', adapters_ok (ad w')).
Proof.
  intros Hm Ha.
  assert (Hwf : wf (checkpoint_generation_ (rt w))) by (destruct Hm as [Hm _]; unfold state_wf in Hm; cbn in Hm; tauto).
  destruct (is_recovery op) eqn:Hrec.
  { by apply (wp_recovery op w (λ w, adapters_ok (ad w))). }
  run_every_op op; first [exact Ha|by apply capture_adapters|by apply release_leases_adapters].
Qed.

Lemma op_checkpoint op w :
  careful op w → adapters_ok (ad w) → has_checkpoint (rt w) → wp (run_op op) w (λ _ w', has_checkpoint (rt w')).
Proof.
  intros Hop [Hg _] Hc. pose proof (careful_checked _ _ Hop) as Hchk. destruct Hop as [_ Hop].
  destruct (is_recovery op) eqn:Hrec.
  { apply (wp_recovery op w (λ w, has_checkpoint (rt w))); [done|done|]. intros st Hi.
    destruct (installs_valid _ _ Hi Hchk) as (_ & _ & _ & _ & Hv & _).
    rewrite rt_restore_state. unfold has_checkpoint, restore_members in *.
    by destruct (is_valid (ps_request_id st)). }
  unfold has_checkpoint in *. run_every_op op; try done; try congruence.
  intros _. match goal with H : validate_checkpoint _ _ _ = true |- _ => cbn in H; unfold Ref.validate_checkpoint in H end.
  bool_props. split; [done|]. congruence.
Qed.

Lemma op_keys op w : careful op w → keys_valid (rt w) → wp (run_op op) w (λ _ w', keys_valid (rt w')).
Proof.
  intros Hop Hk. pose proof (careful_checked _ _ Hop) as Hchk. destruct Hop as [_ Hop]. unfold keys_valid in *.
  assert (Hset : ∀ id sp (m : OrdMap SafePointId SafePoint), Forall (λ p, is_valid p.1 = true) m →
    is_valid id = true → Forall (λ p, is_valid p.1 = true) (omap.set id sp m)).
  { intros id sp m Hm Hid. rewrite Forall_forall in *. intros p [->|Hp]%omap.elem_of_set; [done|by apply Hm]. }
  destruct (is_recovery op) eqn:Hrec.
  { apply (wp_recovery op w (λ w, Forall (λ p, is_valid p.1 = true) (safe_points_ (rt w)))); [done|done|].
    intros st Hi. destruct (installs_valid _ _ Hi Hchk) as (_ & _ & _ & _ & _ & Hsp & _).
    rewrite Forall_forall in Hsp. apply Forall_forall.
    intros p (psp & Hin & ->)%elem_of_restored. by destruct (Hsp psp Hin). }
  assert (Hfind : ∀ id sp, omap.find id (safe_points_ (rt w)) = Some sp → is_valid id = true).
  { intros id sp Hf. rewrite Forall_forall in Hk. by apply (Hk (id, sp)), omap.find_elem. }
  assert (Hown : ∀ id, id = safe_point → is_valid id = true) by (by intros ? ->).
  run_every_op op; try done; by eauto.
Qed.

Lemma op_own op w : careful op w → from_file ∨ own (rt w) → wp (run_op op) w (λ _ w', from_file ∨ own (rt w')).
Proof.
  intros [_ Hop] [Hf|[Hk Hh]]; [by apply wp_final; left|].
  destruct (is_recovery op) eqn:Hrec; [destruct op; try done; by apply wp_final; left|].
  assert (Hset : ∀ id sp (m : OrdMap SafePointId SafePoint), Forall (λ p, p.1 = safe_point) m →
    id = safe_point → Forall (λ p, p.1 = safe_point) (omap.set id sp m)).
  { intros id sp m Hm ->. rewrite Forall_forall in *. intros p [->|Hp]%omap.elem_of_set; [done|by apply Hm]. }
  assert (Hfind : ∀ id sp, omap.find id (safe_points_ (rt w)) = Some sp → id = safe_point).
  { intros id sp Hf. rewrite Forall_forall in Hk. by apply (Hk (id, sp)), omap.find_elem. }
  unfold own. run_every_op op; try done; right; by eauto.
Qed.

Lemma good_op op w : good w → careful op w → wp (run_op op) w (λ _ w', good w').
Proof.
  intros [Hm Hs Hst Hc Hch Hk Ha He Hp Ho] Hop. pose proof (careful_checked _ _ Hop) as Hchk.
  pose proof (op_members_wf_any op w (proj1 Hop) Hm) as Hm'.
  pose proof (op_shape op w Hs) as Hs'. pose proof (op_states op w Hchk Hst) as Hst'. pose proof (refine_op op w) as Hr.
  pose proof (op_checkpoint op w Hop Ha Hch) as Hch'. pose proof (op_keys op w Hop Hk) as Hk'.
  pose proof (op_adapters op w Hm Ha) as Ha'. pose proof (op_own op w Hop Ho) as Ho'.
  pose proof (op_epoch op w) as [He' Hp'].
  unfold wp in *. split; try done; [|by rewrite He'|by rewrite Hp'].
  by eapply (spec_step_committed op).
Qed.

Lemma good_image_valid w : good w → lifecycle_state (rt w) = kPreempted → image_valid (snapshot (rt w)).
Proof.
  intros [_ Hs Hst Hc Hch Hk _ _ _ _] Hl. destruct (snapshot_safe_points_valid (rt w) Hs Hst) as [Hnd Hsp].
  unfold committed, evidence in Hc. cbn in Hc. rewrite Hl in Hc. destruct (Hc eq_refl) as (Hq & Hd & Hr).
  unfold image_valid. cbn [snapshot ps_format_version ps_lifecycle ps_quiesced ps_state_durable
    ps_resources_released ps_preempted ps_checkpoint_ref ps_checkpoint_generation ps_release_receipts].
  split_and!; [done|done| |done|done|by apply Hsp|done|constructor].
  by rewrite Hl.
Qed.

Lemma good_initial : good (mkWorld (new_runtime epoch policy) setup_adapters).
Proof.
  split; try done.
  - split; [|by intros q]. split; [apply omap.sorted_nil|by intros k sp ?%not_elem_of_nil].
  - constructor.
  - constructor.
  - right. split; [constructor|done].
Qed.

End world.

(** ** Links that deliver well-typed messages *)

Class TypedLink (L : Type) `{Link L} : Prop :=
  received_typed l m l' : link_receive l = (Some m, l') → message_wf m.

Lemma receive_loop_typed {N} `{SocketApi N} s fuel d (n : N) m d' n' :
  receive_loop fuel s d n = Some (Some m, d', n') → message_wf m.
Proof.
  revert d n. induction fuel as [|fuel IH]; intros d n; cbn [receive_loop];
    (destruct (Framing.fatal_ d); [done|]); destruct (Framing.pop d) as [[x|] d1] eqn:E.
  1,3: intros [= <- _ _]; by apply FramingTypeLemmas.pop_typed in E as [? _].
  - done.
  - destruct (os_recv s 4096 n) as [[r bs] n1]. destruct (r =? 0); [done|]. destruct (r <? 0); [done|]. apply IH.
Qed.

(** Whatever the network carries, a connection delivers well-typed messages only. *)
#[export] Instance TcpLink_typed {N} `{SocketApi N} : TypedLink (TcpLink N).
Proof.
  intros [c n reads] m l'. cbn. unfold receive. destruct (sock_ c =? kInvalidSocket); [done|].
  destruct (receive_loop _ _ _ _) as [[[o d] n']|] eqn:E; cbn; [|done].
  intros [= -> _]. by eapply receive_loop_typed.
Qed.

(** ** The invariant of the coordinator *)

Section secure.
Context {L : Type} `{TypedLink L} (from_file : Prop).
Abbreviation good := (good from_file).
Implicit Types c : Coordinator L.
Implicit Types w : World ReferenceAdapters.
Import LifecycleState.

Definition good_image (bytes : list byte) : Prop :=
  ∃ w, good w ∧ lifecycle_state (rt w) = kPreempted ∧ bytes = persist_bytes (rt w).
Record secure c : Prop := {
  sc_world : good (co_world c);
  sc_typed : typed c;
  sc_last : in_u64 (co_last_progress c);
  sc_saved : files good_image c
}.
Abbreviation keeps := (keeps secure).

Lemma secure_world c w : secure c → good w → secure (c <| co_world := w |>).
Proof. intros [_ Ht Hl Hs] Hw. by split. Qed.

Lemma secure_op {B} op (m : Exec (World ReferenceAdapters) B) :
  (∀ w, final (m w) = final (run_op op w)) → (∀ c, secure c → careful from_file op (co_world c)) → keeps (runtime m).
Proof.
  intros Hm Hop c Hc. unfold runtime. apply wp_zoom, wp_final. apply secure_world; [done|].
  rewrite Hm. apply (good_op from_file op); [apply Hc|by apply Hop].
Qed.
Lemma secure_call {B} op (m : Exec (World ReferenceAdapters) B) :
  run_op op = void m → (∀ c, secure c → careful from_file op (co_world c)) → keeps (runtime m).
Proof.
  intros Hop. apply (secure_op op). intros w. rewrite Hop. unfold final, void, mbind, Exec_bind.
  by destruct (m w) as [[e|x] w'].
Qed.
Lemma secure_print o : keeps (print o).
Proof. apply keeps_assign. intros c [Hw Ht Hl Hs]. by split. Qed.
Lemma secure_send m : keeps (worker_send m).
Proof. intros c [Hw Ht Hl Hs]. by split. Qed.
Lemma secure_or_lost k : (∀ m, message_wf m → keeps (k m)) → keeps (or_lost k).
Proof.
  intros Hk c [Hw Ht Hl Hs]. unfold or_lost, worker_receive. apply wp_bind, wp_zoom.
  unfold wp at 1. cbn [fst snd]. destruct (link_receive (co_worker c)) as [[m|] l] eqn:E; cbn [fst snd].
  - apply Hk; [by eapply received_typed|by split].
  - unfold worker_lost. apply wp_bind. by split.
Qed.
Lemma secure_get {B} (k : Coordinator L → Exec (Coordinator L) B) :
  (∀ c, secure c → keeps (k c)) → keeps (get ≫= k).
Proof. apply keeps_get_bind. Qed.

(** The adapter changes the coordinator makes keep the checkpoints. *)
Lemma secure_authoritative e a eg ag ep boot :
  keeps (runtime (upd_ad (Ref.set_authoritative e a eg ag ep boot))).
Proof. intros c [Hw Ht Hl Hs]. split; [|done|done|done]. destruct Hw. by split. Qed.

Lemma run_segment_secure target : keeps (run_segment target).
Proof.
  unfold run_segment. apply secure_get. intros c Hc. destruct (link_is_open _); [|apply keeps_ret]. cbn [negb].
  apply keeps_bind; [apply secure_send|]. intros [].
  2:{ apply keeps_bind; [apply secure_print|intros; apply keeps_ret]. }
  apply secure_or_lost. intros prog Hprog. apply secure_or_lost. intros reach Hreach.
  assert (Hp : in_u64 (msg_progress_position prog)) by (unfold message_wf in Hprog; tauto).
  assert (Hr : in_u64 (msg_safe_point_position reach)) by (unfold message_wf in Hreach; tauto).
  apply keeps_bind.
  { by apply (secure_op (OReachSafePoint safe_point (msg_safe_point_position reach) false)). }
  intros _. apply keeps_bind.
  { by apply (secure_call (OPublishProgress (msg_progress_position prog) (msg_progress_kind prog))). }
  intros _. apply keeps_bind; [|intros; apply keeps_ret].
  apply keeps_assign. intros c' [Hw Ht Hl Hs]. by split.
Qed.

(** *** [drive_preemption]

    From the safe point on, the capture is required until it is requested. *)

Definition armed c : Prop := secure c ∧ capture_is_required (rt (co_world c)) = true.

Lemma armed_bind {B D} (m : Exec _ B) (f : B → Exec (Coordinator L) D) :
  CoordinatorSafety.keeps armed m → (∀ x c, armed c → wp (f x) c (λ _ c', secure c')) →
  ∀ c, armed c → wp (m ≫= f) c (λ _ c', secure c').
Proof.
  intros Hm Hf c Hc. apply wp_bind. eapply wp_mono; [by apply Hm|].
  intros [e|x] c' Hc'; [apply Hc'|by apply Hf].
Qed.

Lemma armed_call {B} op (m : Exec (World ReferenceAdapters) B) :
  run_op op = void m → (∀ c, secure c → careful from_file op (co_world c)) →
  (∀ w, wp m w (λ _ w', current_safe_point_ (rt w') = current_safe_point_ (rt w))) →
  CoordinatorSafety.keeps armed (runtime m).
Proof.
  intros Hop Hcare Hsp c [Hc Hcap]. pose proof (secure_call op m Hop Hcare c Hc) as Hk.
  specialize (Hsp (co_world c)). unfold runtime, wp, zoom in *.
  destruct (m (co_world c)) as [r w']. split; [exact Hk|]. cbn in *. unfold capture_is_required in *.
  by rewrite Hsp.
Qed.
Lemma armed_begin_quiesce : CoordinatorSafety.keeps armed (runtime begin_quiesce).
Proof. apply (armed_call OBeginQuiesce); [done|done|]. intros w. autounfold with calls. wp_run; prune; done. Qed.
Lemma armed_report_quiesced rep :
  wf (qr_generation rep) → CoordinatorSafety.keeps armed (runtime (report_quiesced rep)).
Proof.
  intros Hrep. apply (armed_call (OReportQuiesced rep)); [done|done|].
  intros w. autounfold with calls. wp_run; prune; done.
Qed.
Lemma armed_send m : CoordinatorSafety.keeps armed (worker_send m).
Proof. intros c [Hc Hcap]. split; [by apply secure_send|done]. Qed.

(** The capture is required when it is requested, so the state becomes durable with it. *)
Lemma request_capture_secure c : armed c → wp (runtime request_state_capture) c (λ _ c', secure c').
Proof.
  intros [Hc Hcap]. unfold runtime. apply wp_zoom, wp_final, secure_world; [done|].
  pose proof (good_op from_file ORequestStateCapture (co_world c) (sc_world _ Hc) (conj I Hcap)) as Hg.
  unfold wp in Hg. cbn [run_op] in Hg. unfold final, void, mbind, Exec_bind in *.
  by destruct (request_state_capture (co_world c)) as [[e|x] w'].
Qed.

Lemma report_capture_secure : keeps report_last_capture.
Proof.
  unfold report_last_capture. apply secure_get. intros c Hc.
  destruct (last_capture_ (ad (co_world c))) as [res|] eqn:E; [|apply keeps_ret].
  apply keeps_bind; [|intros; apply keeps_ret]. apply (secure_call (OReportStateCaptured res)); [done|].
  intros c' _. split; [|done]. by apply (gd_adapters _ _ (sc_world _ Hc)).
Qed.

(** The commit, and the image saved when it completed. *)
Lemma commit_secure {B} (k : PreemptionResult → Exec (Coordinator L) B) :
  (∀ cp, keeps (k cp)) →
  keeps (cp ← runtime commit_preempted; save_image (completed (pr_outcome cp));; k cp).
Proof.
  intros Hk c Hc. pose proof (secure_call OCommitPreempted commit_preempted eq_refl) as Hcommit.
  specialize (Hcommit ltac:(done) c Hc). apply wp_bind. unfold runtime in *. revert Hcommit.
  pose proof (commit_preempted_completed (co_world c)) as Hdone. unfold wp at 1, zoom at 1 2.
  unfold wp in Hdone. unfold wp at 1, zoom. destruct (commit_preempted (co_world c)) as [[e|cp] w'];
    cbn [fst snd] in *; intros Hsec; [exact Hsec|].
  apply wp_bind. unfold save_image. apply wp_bind, wp_get. cbn [co_save set_field].
  destruct (co_save c) as [file|]; [|by apply Hk].
  apply wp_when; intros Hcp; [|by apply Hk]. apply wp_modify, Hk.
  destruct Hsec as [Hw Ht Hl Hs].
  split; [by unfold record_save; destruct (whole _ _)..|].
  apply record_save_files; [|done]. exists w'. split_and!; [done|by eapply Hdone|done].
Qed.

(** What follows the quiescence of the worker. *)
Lemma preempt_tail_secure c0 c :
  armed c →
  wp (_ ← runtime (report_quiesced (quiescence_report c0));
      _ ← runtime request_state_capture;
      report_last_capture;;
      _ ← runtime request_release;
      _ ← runtime report_released;
      cp ← runtime commit_preempted;
      save_image (completed (pr_outcome cp));;
      s ← lifecycle;
      print (PPreempted (completed (pr_outcome cp)) s);;
      mret (completed (pr_outcome cp))) c (λ _ c', secure c').
Proof.
  apply armed_bind; [apply armed_report_quiesced; unfold wf; cbn; zlia|]. intros _ c1 Hc1.
  apply wp_bind. eapply wp_mono; [by apply request_capture_secure|]. intros [e|x] c2 Hc2; [done|].
  revert c2 Hc2. refine (_ : keeps _).
  apply keeps_bind; [apply report_capture_secure|]. intros _.
  apply keeps_bind; [by apply (secure_call ORequestRelease)|]. intros _.
  apply keeps_bind; [by apply (secure_call OReportReleased)|]. intros _.
  apply commit_secure. intros cp. apply keeps_bind.
  { apply keeps_bind; [apply keeps_get|]. intros; apply keeps_ret. }
  intros s. apply keeps_bind; [apply secure_print|]. intros; apply keeps_ret.
Qed.

Lemma request_secure req :
  wf (req_id req) → wf (req_generation req) → keeps (runtime (request_preemption req)).
Proof. intros ? ?. by apply (secure_call (ORequestPreemption req)). Qed.

(** Reaching the safe point with a capture required. *)
Lemma reach_armed c at_ :
  secure c → in_u64 at_ →
  wp (runtime (reach_safe_point safe_point at_ true)) c (λ r c',
    match r with inr _ => armed c' | inl _ => secure c' end).
Proof.
  intros Hc Hat. pose proof (secure_op (OReachSafePoint safe_point at_ true) (reach_safe_point safe_point at_ true)
    ltac:(done) ltac:(done) c Hc) as Hs.
  assert (Hcap : wp (reach_safe_point safe_point at_ true) (co_world c) (λ r w',
    match r with inr _ => capture_is_required (rt w') = true | inl _ => True end)).
  { autounfold with calls. wp_run; prune; done. }
  unfold runtime, wp, zoom in *. destruct (reach_safe_point safe_point at_ true (co_world c)) as [[e|x] w']; [done|].
  by split.
Qed.

Lemma drive_preemption_secure : keeps drive_preemption.
Proof.
  unfold drive_preemption. apply secure_get. intros c0 Hc0. destruct (link_is_open _); [|apply keeps_ret]. cbn [negb].
  apply keeps_bind; [apply request_secure; unfold wf; cbn; zlia|]. intros _.
  apply keeps_bind; [by apply (secure_call OBeginQuiesce)|]. intros _ c Hc. apply wp_bind.
  eapply wp_mono; [apply reach_armed; [done|apply Hc0]|]. intros [e|x] c1 Hc1; [done|].
  apply armed_bind; [apply armed_begin_quiesce| |done]. intros _ c2 Hc2.
  apply armed_bind; [apply armed_send| |done]. intros [] c3 Hc3; cbn [negb].
  2:{ unfold worker_lost. apply wp_bind. apply secure_print, Hc3. }
  unfold or_lost, worker_receive. apply wp_bind, wp_zoom. unfold wp at 1. cbn [fst snd].
  destruct (link_receive (co_worker c3)) as [[m|] l] eqn:E; cbn [fst snd].
  - apply preempt_tail_secure. destruct Hc3 as [[Hw Ht Hl Hs] Hcap]. by split; [split|].
  - unfold worker_lost. apply wp_bind, secure_print. destruct Hc3 as [[Hw Ht Hl Hs] _]. by split.
Qed.

Lemma drive_resume_secure : keeps drive_resume.
Proof.
  unfold drive_resume, lifecycle. apply keeps_bind; [by apply (secure_call ORequestResume)|]. intros _.
  apply keeps_bind; [by apply (secure_call ORevalidate)|]. intros _.
  apply keeps_bind; [by apply (secure_call ORestore)|]. intros _.
  apply keeps_bind; [by apply (secure_call OConfirmResumed)|]. intros rm.
  repeat first [apply keeps_bind; [|intros ?]|apply keeps_get|apply keeps_ret|apply secure_print].
Qed.

Lemma begin_execution_secure : keeps begin_execution.
Proof.
  unfold begin_execution. apply keeps_bind.
  { apply keeps_assign. intros c [Hw Ht Hl Hs]. by split. }
  intros _. apply secure_get. intros c Hc. pose proof (sc_typed _ Hc) as [Hid Hboot].
  apply keeps_bind.
  { apply (secure_op (OStart workload workload_gen exec_id exec_gen attempt_id attempt_gen (mkId 40) (co_boot c)));
      [done|]. intros c' _. split; [|done]. cbn. split_and!; try done; unfold wf; cbn; zlia. }
  intros _. apply keeps_bind; [apply secure_authoritative|]. intros _. apply keeps_bind.
  { apply (secure_call (ODeclareSafePoint (reference_safe_point c))); [done|]. intros c' _. split; [|done].
    cbn. unfold safe_point_wf. cbn. split_and!; try done; unfold wf; cbn; zlia. }
  intros _. apply keeps_bind; [apply secure_send|]. intros _. apply secure_print.
Qed.

Lemma registration_typed l hello reg l' :
  receive_registration l = Some (hello, reg, l') → message_wf reg.
Proof.
  unfold receive_registration. destruct (link_receive l) as [h l1].
  destruct (link_receive l1) as [[r|] l2] eqn:E; destruct h; try done.
  case_bool_decide; [|done]. intros [= _ <- _]. by eapply received_typed.
Qed.

Lemma incarnation_secure worker_id boot :
  wf worker_id → wf boot → keeps (runtime (set_worker_incarnation worker_id boot)).
Proof. intros ? ?. by apply (secure_op (OSetWorkerIncarnation worker_id boot)). Qed.

Lemma re_register_secure : keeps re_register.
Proof.
  unfold re_register, accept. apply keeps_bind.
  { apply secure_get. intros c _. destruct (co_accepts c); [apply keeps_ret|].
    apply keeps_bind; [|intros; apply keeps_ret]. apply keeps_assign. intros c' [Hw Ht Hl Hs]. by split. }
  intros [nw|]; [|apply secure_print].
  destruct (receive_registration nw) as [[[h nr] nw']|] eqn:E; [|apply secure_print].
  apply registration_typed in E. assert (Hid : wf (msg_worker_id nr)) by (unfold message_wf in E; tauto).
  apply keeps_bind.
  { apply keeps_assign. intros c [Hw Ht Hl Hs]. split; try done. split; [done|]. apply wrap64_in_u64. }
  intros _. apply secure_get. intros c Hc. pose proof (sc_typed _ Hc) as [? ?].
  apply keeps_bind; [by apply incarnation_secure|]. intros _.
  apply keeps_bind; [|intros; apply secure_print].
  apply keeps_assign. intros c' [Hw Ht Hl Hs]. by split.
Qed.

Lemma handle_command_secure cmd : message_wf cmd → keeps (handle_command cmd).
Proof.
  intros Hcmd. unfold handle_command. destruct (msg_type cmd); try apply keeps_ret.
  - apply re_register_secure.
  - apply begin_execution_secure.
  - apply keeps_bind; [apply run_segment_secure|]. intros []; [apply secure_print|apply keeps_ret].
  - apply keeps_bind; [apply drive_preemption_secure|]. intros; apply secure_print.
  - apply keeps_bind; [apply drive_resume_secure|]. intros; apply secure_print.
  - unfold replay_stale. assert (Hg : wf (msg_request_generation cmd)) by (unfold message_wf in Hcmd; tauto).
    apply keeps_bind; [apply request_secure; [unfold wf; cbn; zlia|done]|]. intros s.
    apply keeps_bind; [apply secure_print|]. intros _.
    apply keeps_bind; [by apply (secure_call ORequestRelease)|]. intros; apply secure_print.
Qed.

Lemma command_loop_secure cmds : Forall message_wf cmds → keeps (command_loop cmds).
Proof.
  induction 1 as [|cmd cmds Hc _ IH]; cbn; [apply keeps_ret|]. case_bool_decide; [apply keeps_ret|].
  apply keeps_bind; [by apply handle_command_secure|done].
Qed.

Lemma recover_secure args env :
  (arg_recover args ≠ EmptyString → from_file) → keeps (recover args env).
Proof.
  intros Hf. unfold recover. case_bool_decide; [apply keeps_ret|]. apply keeps_bind; [|intros; apply secure_print].
  unfold load. destruct (env_file env (arg_recover args)) as [bytes|].
  - apply (secure_call (ORestoreBytes bytes)); [done|]. intros c _. split; [done|by apply Hf].
  - intros c Hc. by destruct Hc.
Qed.

Lemma main_secure hash argv env closed c0 :
  (arg_recover (parse_args argv default_Args) ≠ EmptyString → from_file) →
  Forall message_wf (default [] (env_controller env)) →
  secure (final (main (L := L) hash argv env closed c0)).
Proof.
  intros Hf Hcmds. unfold main. apply (proj1 (wp_final _ _ secure)). apply wp_bind, wp_modify.
  assert (Hs : secure (start (parse_args argv default_Args) env closed)).
  { split; [apply good_initial|split; apply wf_default_id|done|split; constructor]. }
  revert Hs. generalize (start (parse_args argv default_Args) env closed). clear c0.
  refine (_ : keeps _). apply keeps_bind; [by apply recover_secure|]. intros _.
  destruct (env_listen env _) as [port|]; [|apply keeps_ret].
  apply keeps_bind; [apply secure_print|]. intros _.
  destruct (env_worker env) as [l|]; [|apply keeps_ret].
  destruct (receive_registration l) as [[[h reg] l']|] eqn:E; [|apply keeps_ret].
  apply registration_typed in E. assert (Hid : wf (msg_worker_id reg)) by (unfold message_wf in E; tauto).
  pose proof (initial_boot_wf hash (msg_detail reg)) as Hb.
  apply keeps_bind; [apply keeps_assign; intros c' [Hw Ht Hl Hs]; by split|]. intros _. apply keeps_bind.
  { unfold register_worker. apply keeps_bind; [apply keeps_assign; intros c' [Hw Ht Hl Hs]; by split|]. intros _.
    apply keeps_bind; [by apply incarnation_secure|]. intros _.
    apply keeps_bind; [apply secure_send|]. intros; apply secure_print. }
  intros _. destruct (env_controller env) as [cmds|]; [|apply keeps_ret].
  apply keeps_bind; [by apply command_loop_secure|]. intros _.
  apply keeps_bind; [apply keeps_assign; intros c' [Hw Ht Hl Hs]; by split|]. intros; apply keeps_ret.
Qed.

(** ** Recovery of an image *)

(** A recovery gives authority to the recovered attempt and changes no other adapter. *)
Lemma load_adapters contents w w1 :
  load contents w = (inr true, w1) →
  ∃ ex at_ eg ag ep b, ad w1 = Ref.set_authoritative ex at_ eg ag ep b (ad w).
Proof.
  destruct contents as [bytes|]; [|done]. cbn. unfold restore_bytes. destruct (Store.decode bytes); [done|].
  intros E%(f_equal snd). cbn in E. subst w1. by eexists _, _, _, _, _, _.
Qed.

(** A runtime with the safe point of the scenario only has a small image. *)
Lemma own_encodable (r : PreemptionRuntime) : shape_ok r → own r → encodable (snapshot r) = true.
Proof.
  intros [Hso _] [Hk Hh]. unfold encodable, Store.encode_payload, snapshot. cbn [ps_safe_points ps_history].
  rewrite Hh. destruct (safe_points_ r) as [|[k1 sp1] [|[k2 sp2] m]] eqn:E.
  - vm_compute. reflexivity.
  - vm_compute. reflexivity.
  - exfalso. destruct Hso as [Hso _]. apply omap.sorted_cons_inv in Hso as [_ Hlt].
    specialize (Hlt (k2, sp2)). repeat (apply list.Forall_cons in Hk as [? Hk]). cbn in *. subst.
    eapply Z.lt_irrefl. apply Hlt. left.
Qed.

(** An image is accepted by the next coordinator. *)
Lemma good_image_recovers w w0 :
  good w → lifecycle_state (rt w) = kPreempted → encodable (snapshot (rt w)) = true →
  initial w0 → epoch_ (rt w0) = epoch → policy_generation_ (rt w0) = policy →
  ∃ w1, load (Some (persist_bytes (rt w))) w0 = (inr true, w1) ∧ snapshot (rt w1) = snapshot (rt w).
Proof.
  intros Hg Hl Henc Hinit He Hp. pose proof (good_image_valid from_file w Hg Hl) as Hv.
  destruct Hg as [[Hm _] Hs _ _ _ _ _ He' Hp' _].
  destruct (restore_snapshot (rt w) w0 Hm Henc Hv Hs Hinit) as (w1 & Hload & Hsnap); [by rewrite He, He'|by rewrite Hp, Hp'|].
  exists w1. cbn [load]. by rewrite Hload.
Qed.

End secure.

(** Without a file to recover from, the image is small. *)
Lemma good_encodable w : good False w → encodable (snapshot (rt w)) = true.
Proof. intros Hg. destruct (gd_own _ _ Hg) as [[]|Ho]. apply own_encodable; [apply Hg|done]. Qed.

(** The image of a preemption of the scenario brings it back. *)
Lemma saved_resumable boot pos w :
  good False w → preempted_at boot pos w →
  ∃ w1, load (Some (persist_bytes (rt w))) (mkWorld (new_runtime epoch policy) setup_adapters) = (inr true, w1)
    ∧ lifecycle_state (rt w1) = LifecycleState.kPreempted ∧ durable_position_ (rt w1) = pos ∧ resumable w1.
Proof.
  intros Hg [Hl [_ Hpos] Href Hgen].
  destruct (good_image_recovers False w (mkWorld (new_runtime epoch policy) setup_adapters) Hg Hl)
    as (w1 & Hload & Hsnap); [by apply good_encodable|by eexists _, _|done|done|].
  exists w1. split; [done|]. pose proof (load_adapters _ _ _ Hload) as Had.
  split_and!; [|by rewrite <- Hpos; apply (f_equal ps_durable_progress Hsnap)|].
  - rewrite <- Hl. apply (f_equal ps_lifecycle Hsnap).
  - assert (Hr1 : checkpoint_ref_ (rt w1) = mkId 1) by (rewrite <- Href; apply (f_equal ps_checkpoint_ref Hsnap)).
    assert (Hg1 : checkpoint_generation_ (rt w1) = mkGeneration 1)
      by (rewrite <- Hgen; apply (f_equal ps_checkpoint_generation Hsnap)).
    unfold resumable. rewrite Hr1, Hg1. destruct Had as (ex & at_ & eg & ag & ep & b & ->). by split.
Qed.

(** The commands of the scenario are well typed. *)
Lemma scenario_typed ps : ascending 0 ps →
  Forall message_wf (command MessageType.kBeginExecution :: map segment ps ++ [command MessageType.kRequestPreemption]).
Proof.
  intros Has. apply List.Forall_cons; [|apply Forall_app; split].
  - unfold message_wf. cbn. split_and!; eauto with fabric; unfold wf; cbn; zlia.
  - revert Has. generalize 0. induction ps as [|p ps IH]; intros pos Has; [apply List.Forall_nil|].
    destruct Has as (_ & Hp & Has). apply List.Forall_cons; [|by apply (IH p)].
    unfold message_wf. cbn. split_and!; eauto with fabric; unfold wf; cbn; zlia.
  - apply List.Forall_cons; [|apply List.Forall_nil].
    unfold message_wf. cbn. split_and!; eauto with fabric; unfold wf; cbn; zlia.
Qed.
