(* ===== verification/CoordinatorTheorems.v ===== *)
(** * Theorems about the coordinator

    What a controller sees of a preemption, a resume and a restart, over any link with a
    worker and over TCP down to the bytes; what holds of every coordinator whatever it is
    connected to; and what its commands do when they are refused. *)

From S2P Require Import Prelude Exec Identity Enums Lifecycle OrdMap Domains Interfaces.
From S2P Require Import ReferenceAdapters Bytes PersistentState Store StoreTheorems Runtime Recovery.
From S2P Require Import RuntimeSpec RuntimeSafety Framing FramingTheorems FramingTypes.
From S2P Require Import Connection Link Worker WorkerLink Cable Coordinator CoordinatorCalls CoordinatorRuns.
From S2P Require Import CoordinatorSafety CoordinatorImages.
From stdpp Require Import base list strings numbers relations.
From Stdlib Require Import ZArith Lia.
Open Scope Z_scope.
Import CoordinatorProcess FramingLemmas FramingTypeLemmas.

Module CoordinatorProperties.
Import LifecycleState.

(** ** Runs of a controller *)

(** The controller's commands of a preemption and a resume. *)
Abbreviation preempt_and_resume ps :=
  (command MessageType.kBeginExecution :: map segment ps
   ++ [command MessageType.kRequestPreemption; command MessageType.kRequestResume]).
(** The lines of the coordinator for it. *)
Abbreviation preempted_and_resumed port worker_id boot ps :=
  ([PPort port; PRegistered worker_id boot; PExecutionStarted] ++ map PSegment ps
   ++ [PPreempted true kPreempted; PDrivePreemption true; PResumed true kResumed; PDriveResume true]).

(** C9: the coordinator and a worker together preempt and resume: over every link with a
    worker at its other end whose label fits a frame, for every sequence of segments whose
    positions do not go back,
    a controller that starts the execution, runs the segments, requests a preemption and then
    a resume sees [main] return [0] after exactly the expected output, with the runtime
    [RESUMED] at the position of the last segment. *)
Theorem scenario_preempts_and_resumes {L} `{WorkerLink L} hash file port l closed worker_id label ps c0 :
  connects l (spawn worker_id label) → deliverable (WorkerProcess.register_message worker_id label) →
  ascending 0 ps →
  ∃ c, main hash [] (environment file port l (preempt_and_resume ps)) closed c0 = (inr 0, c)
    ∧ lifecycle_state (rt (co_world c)) = kResumed
    ∧ durable_position_ (rt (co_world c)) = final_position 0 ps
    ∧ co_out c = preempted_and_resumed port worker_id (initial_boot hash label) ps.
Proof.
  intros Hl Hd Has. pose proof (scenario_returns hash file port l closed worker_id label ps c0 Hl Hd Has) as Hr.
  apply returns_run in Hr as (code & c & Hrun & -> & Hc). by exists c.
Qed.

(** C11: down to the bytes: with the worker behind a network that takes and gives bytes in
    pieces of any sizes, the coordinator's connection (frames, checksums, partial reads and
    writes) gives the controller the same run, once [recv] may be called as often as the
    longest answers have bytes. *)
Theorem scenario_over_tcp hash file port closed worker_id label sizes reads ps c0 :
  deliverable (WorkerProcess.hello_message worker_id label) → ascending 0 ps →
  (answer_reads + 2 * String.length label ≤ reads)%nat →
  ∃ c, main hash [] (environment file port (cable_link reads worker_id label sizes)
                       (preempt_and_resume ps)) closed c0 = (inr 0, c)
    ∧ lifecycle_state (rt (co_world c)) = kResumed
    ∧ durable_position_ (rt (co_world c)) = final_position 0 ps
    ∧ co_out c = preempted_and_resumed port worker_id (initial_boot hash label) ps.
Proof.
  intros Hd Has Hr. assert (Hid : wf worker_id) by (destruct Hd as [Hwf _]; unfold message_wf in Hwf; cbn in Hwf; tauto).
  pose proof (scenario_returns hash file port _ closed worker_id label ps c0
    (cable_plugged reads worker_id label sizes Hid Hd Hr) (hello_register _ _ Hd) Has) as Hret.
  apply returns_run in Hret as (code & c & Hrun & -> & Hc). by exists c.
Qed.

(** C12: a preemption survives the restart of the coordinator: a first process with [--save],
    on a link that delivers only well-typed messages and with a file that takes what is
    written, saves one image; in every file system that gives this image back, a second process
    started with [--recover], with a worker of its own and no execution started, accepts it
    and resumes at the position the first process stopped at. *)
Theorem preemption_survives_restart {L1 L2} `{WorkerLink L1} `{!TypedLink L1} `{WorkerLink L2}
    hash1 hash2 f file1 port1 port2 (l1 : L1) (l2 : L2) closed1 closed2 id1 id2 label1 label2 ps c1 c2 :
  f ≠ EmptyString → ascending 0 ps →
  connects l1 (spawn id1 label1) → deliverable (WorkerProcess.register_message id1 label1) →
  connects l2 (spawn id2 label2) → deliverable (WorkerProcess.register_message id2 label2) →
  ∃ d1 image, main hash1 ["--save"%string; f] (environment file1 port1 l1
        (command MessageType.kBeginExecution :: map segment ps ++ [command MessageType.kRequestPreemption]))
        closed1 c1 = (inr 0, d1) ∧ co_saved d1 = [image]
    ∧ (∀ file2, file2 f = Some image →
       ∃ d2, main hash2 ["--recover"%string; f] (environment file2 port2 l2
               [command MessageType.kRequestResume]) closed2 c2 = (inr 0, d2)
         ∧ lifecycle_state (rt (co_world d2)) = kResumed
         ∧ durable_position_ (rt (co_world d2)) = final_position 0 ps
         ∧ co_out d2 = [PRecover true; PPort port2; PRegistered id2 (initial_boot hash2 label2);
                        PResumed true kResumed; PDriveResume true]).
Proof.
  intros Hf Has Hl1 Hd1 Hl2 Hd2.
  pose proof (saving_returns hash1 f file1 port1 l1 closed1 id1 label1 ps c1 Hf Hl1 Hd1 Has) as Hr1.
  apply returns_run in Hr1 as (code & d1 & Hrun & -> & Hp & Hs).
  exists d1, (persist_bytes (rt (co_world d1))). split; [done|]. split; [done|]. intros file2 Hfile.
  assert (Hgood : good False (co_world d1)).
  { epose proof (main_secure False hash1 _ _ closed1 c1) as Hsec. rewrite Hrun in Hsec.
    apply Hsec; [done|]. by apply scenario_typed. }
  destruct (saved_resumable _ _ (co_world d1) Hgood Hp) as (w1 & Hload & Hl & Hpos & Hres).
  epose proof (resuming_returns hash2 f file2 port2 l2 closed2 id2 label2 w1 c2 Hf Hl2 Hd2 _ Hl Hres) as Hr2.
  apply returns_run in Hr2 as (code & d2 & Hrun2 & -> & Hl2' & Hp2 & Ho2).
  exists d2. split_and!; [done|done|by rewrite Hp2|done].
  Unshelve. by rewrite Hfile.
Qed.

(** ** Every coordinator *)

(** C10: whatever the link, the worker, the controller and the recovered file do, the
    coordinator ends, by a return or by an exception, in a world where an execution that
    counts as durably preempted was quiesced, has durable state and has released its
    resources; every image it saved is that of a reachable world in [PREEMPTED]; and where a
    write stopped early, the file holds the beginning of such an image. *)
Theorem coordinator_sound {L} `{Link L} hash argv env closed c0 :
  let c := final (main (L := L) hash argv env closed c0) in
  (Machine.is_preempted_durable (machine_ (rt (co_world c))) = true →
   quiesced_ (rt (co_world c)) = true ∧ state_durable_ (rt (co_world c)) = true
   ∧ resources_released_ (rt (co_world c)) = true)
  ∧ (∀ bytes, bytes ∈ co_saved c → ∃ w, reachable (A := ReferenceAdapters) bytes_only any_env w
      ∧ lifecycle_state (rt w) = kPreempted ∧ bytes = persist_bytes (rt w))
  ∧ (∀ bytes, bytes ∈ co_torn c → ∃ w n, reachable (A := ReferenceAdapters) bytes_only any_env w
      ∧ lifecycle_state (rt w) = kPreempted ∧ bytes = take n (persist_bytes (rt w))).
Proof.
  intros c. destruct (main_sound hash argv env closed c0) as [Hw [Hs Ht]]. split_and!.
  - apply reachable_committed in Hw; [exact Hw|by apply bytes_only_checked].
  - intros bytes Hb. rewrite Forall_forall in Hs. by apply Hs.
  - intros bytes Hb. rewrite Forall_forall in Ht. destruct (Ht _ Hb) as (img & n & (w & ? & ? & ->) & _ & ->).
    by exists w, n.
Qed.

(** C13: whatever bytes the network of the worker carries and whatever the controller sends,
    every image that a coordinator saves, if it did not itself start from an image, is
    accepted by the next one: [recover] prints [RECOVER 1] and leaves the runtime [PREEMPTED]
    with the durable members that were saved.  A file in which a write stopped early is
    refused: [recover] prints [RECOVER 0] and the runtime starts anew. *)
Theorem coordinator_images_recoverable {N} `{SocketApi N} hash argv (env : Environment (L := TcpLink N)) closed c0
    bytes argv' (env' : Environment (L := TcpLink N)) closed' :
  arg_recover (parse_args argv default_Args) = EmptyString →
  Forall message_wf (default [] (env_controller env)) →
  let saver := final (main hash argv env closed c0) in
  let args' := parse_args argv' default_Args in
  arg_recover args' ≠ EmptyString → env_file env' (arg_recover args') = Some bytes →
  (bytes ∈ co_saved saver →
   ∃ (w : World ReferenceAdapters) c, bytes = persist_bytes (rt w) ∧ recover args' env' (start args' env' closed') = (inr tt, c)
     ∧ co_out c = [PRecover true] ∧ lifecycle_state (rt (co_world c)) = kPreempted
     ∧ snapshot (rt (co_world c)) = snapshot (rt w))
  ∧ (bytes ∈ co_torn saver →
     recover args' env' (start args' env' closed')
     = (inr tt, (start args' env' closed') <| co_out := [PRecover false] |>)).
Proof.
  intros Hrec Hcmds saver args' Hf Hfile.
  pose proof (main_secure False hash argv env closed c0) as [_ _ _ [Hs Ht]]; [by intros []|done|].
  rewrite Forall_forall in Hs, Ht. split; intros Hb.
  - destruct (Hs _ Hb) as (w & Hg & Hl & ->).
    destruct (good_image_recovers False w (mkWorld (new_runtime epoch policy) setup_adapters) Hg Hl)
      as (w1 & Hload & Hsnap); [by apply (good_encodable w Hg)|by eexists _, _|done|done|].
    exists w, ((start args' env' closed') <| co_world := w1 |> <| co_out := [PRecover true] |>).
    split_and!; [done| |done| |done].
    + unfold recover. rewrite bool_decide_eq_false_2 by done. rewrite Hfile.
      unfold runtime, zoom, mbind, Exec_bind. cbn [start co_world]. by rewrite Hload.
    + by rewrite <- Hl; apply (f_equal ps_lifecycle Hsnap).
  - destruct (Ht _ Hb) as (img & n & (w & Hg & Hl & ->) & Hn & ->).
    unfold recover. rewrite bool_decide_eq_false_2, Hfile by done.
    unfold runtime, zoom, load, restore_bytes, mbind, Exec_bind. unfold persist_bytes in *.
    by rewrite (StoreLemmas.decode_torn _ _ (good_encodable w Hg) Hn).
Qed.

(** C21: the worker that answers without delay is the worker process: on an acknowledgement
    followed by any commands, [session] ends and has sent exactly what the attached worker
    answers, registration included. *)
Theorem session_answers fuel worker_id label ack cmds :
  (length cmds < fuel)%nat →
  ∃ code rest, WorkerProcess.session fuel worker_id label (mkScript (ack :: cmds) [])
    = Some (code, mkScript rest (at_replies (deliver_all (ack :: cmds) (spawn worker_id label)))).
Proof. intros Hf. by apply command_loop_deliver. Qed.

(** ** Commands that are refused or have no effect *)

(** C22: a replayed request of another epoch, attempt generation or worker incarnation is
    refused and changes nothing but the output, unless a release is due. *)
Theorem replay_stale_refused {L} `{Link L} cmd (c : Coordinator L) :
  msg_type cmd = MessageType.kReplayStale →
  msg_coordinator_epoch cmd ≠ epoch_ (rt (co_world c))
    ∨ msg_attempt_generation cmd ≠ attempt_generation_ (rt (co_world c))
    ∨ is_valid (msg_worker_boot_id cmd) = true ∧ msg_worker_boot_id cmd ≠ worker_boot_ (rt (co_world c)) →
  lifecycle_state (rt (co_world c)) ≠ kStateDurable →
  lifecycle_state (rt (co_world c)) ≠ kReleasePending →
  handle_command cmd c
  = (inr tt, c <| co_out := co_out c ++
       [PStalePreemption (if is_valid (msg_request_generation cmd) then RequestAdmissionCode.kRejectedStale
                          else RequestAdmissionCode.kRejectedInvalid); PStaleRelease true] |>).
Proof.
  intros Ht Hstale Hd Hp. unfold handle_command. rewrite Ht. unfold replay_stale.
  set (w := co_world c) in *.
  assert (Hreq : request_preemption (stale_request cmd) w
    = (inr (mkRequestAdmission (if is_valid (msg_request_generation cmd)
              then RequestAdmissionCode.kRejectedStale else RequestAdmissionCode.kRejectedInvalid)
              default_id default_gen), w)).
  { assert (Hv : validate_authority (rt w) (stale_request cmd) = false).
    { unfold validate_authority. cbn. repeat case_bool_decide; try done; cbn.
      all: destruct Hstale as [?|[?|[Hb ?]]]; try done. all: by rewrite ?Hb. }
    unfold request_preemption, mbind, Exec_bind, get. rewrite Hv. cbn.
    by destruct (is_valid (msg_request_generation cmd)). }
  assert (Hrel : ∃ ev, request_release w
    = (inr (mkPreemptionResult PreemptionOutcome.kCannotPreemptSafely (lifecycle_state (rt w)) ev), w)).
  { assert (Hrun : wp request_release w (λ r w', ∃ ev, r = inr (mkPreemptionResult
        PreemptionOutcome.kCannotPreemptSafely (lifecycle_state (rt w)) ev) ∧ w' = w))
      by (autounfold with calls; wp_run; prune; eauto).
    unfold wp in Hrun. destruct (request_release w) as [r w'], Hrun as (ev & Hr & Hw).
    cbn in Hr, Hw. subst. eauto. }
  destruct Hrel as [ev Hrel].
  unfold runtime, zoom, print, mbind, Exec_bind. cbn. fold w. rewrite Hreq. cbn. fold w. rewrite Hrel. cbn.
  unfold modify. cbn. rewrite <- app_assoc. subst w. by destruct c.
Qed.

(** A segment before the execution is started ends the process by an exception: the
    flag [started] is set and never read, and the safe point is not declared yet. *)
Theorem segment_before_start_throws hash file port worker_id label p rest closed c0 :
  fst (main (L := Attached) hash [] (environment file port (spawn worker_id label) (segment p :: rest)) closed c0)
  = inl (mkPreemptionError "unknown_safe_point" "unknown safe point").
Proof. vm_compute. reflexivity. Qed.

(** C36: progress after a re-registration is lost: while the adapters give authority to
    another boot id than the worker's, as they do after a worker re-registered, a segment is
    answered with [SEGMENT] and the durable position stays where it was. *)
Theorem segment_not_recorded {L} `{WorkerLink L} p pr sp (c : Coordinator L) :
  serves (co_worker c) pr → typed c → in_u64 p →
  omap.find safe_point (safe_points_ (rt (co_world c))) = Some sp →
  aav_worker_boot_id (Ref.current_attempt_authority (ad (co_world c))
    (execution_id_ (rt (co_world c))) (attempt_id_ (rt (co_world c)))) ≠ worker_boot_ (rt (co_world c)) →
  ∃ c', handle_command (segment p) c = (inr tt, c') ∧ co_out c' = co_out c ++ [PSegment p]
    ∧ durable_position_ (rt (co_world c')) = durable_position_ (rt (co_world c)).
Proof.
  intros Hw Ht Hp Hsp Hauth.
  pose proof (segment_unrecorded p pr sp c Hw Ht Hp Hsp Hauth) as Hr.
  apply returns_run in Hr as ([] & c' & Hrun & Hc). by exists c'.
Qed.

(** Re-registration may reuse the boot id of the incarnation it replaces: the first
    boot id given to a reconnecting worker is [8001], which is also the initial boot id of
    a worker whose label hashes to [7001] modulo [9000]. *)
Theorem boot_id_reused {L} `{Link L} hash label (c : Coordinator L) nw m1 m2 nw' rest :
  hash label mod 9000 = 7001 → co_boot c = initial_boot hash label → co_boot_counter c = 0 →
  co_accepts c = Some nw :: rest → receive_registration nw = Some (m1, m2, nw') →
  co_boot (final (handle_command (command MessageType.kRegister) c)) = co_boot c.
Proof.
  intros Hh Hb Hn Ha Hr. rewrite Hb. unfold initial_boot. rewrite Hh.
  unfold handle_command, command, re_register, accept. cbn. unfold final, mbind, Exec_bind, get. cbn.
  rewrite Ha. cbn. rewrite Hr. cbn. rewrite Hn. reflexivity.
Qed.

(** ** Instances *)

Definition any_hash (_ : string) : Z := 42.
Definition no_file (_ : string) : option (list byte) := None.
Definition nobody : Attached := mkAttached Exited [].
Definition one_segment : list Message := [command MessageType.kBeginExecution; segment 250].
(** A coordinator after a preemption that saved its image. *)
Definition saving : Coordinator Attached :=
  let env := environment no_file 5000 (spawn (mkId 40) "w")
               (one_segment ++ [command MessageType.kRequestPreemption]) in
  final (main any_hash ["--save"%string; "image"%string] env nobody (start default_Args env nobody)).
(** A worker that takes [k] bytes at a time, as fast as it is asked. *)
Definition wire (id : Z) : TcpLink Cable := cable_link 600 (mkId id) "w" [7%nat; 100%nat; 3%nat].
Definition unplugged : TcpLink Cable := mkTcpLink (new_connection kInvalidSocket) (tl_net (wire 40)) 0.
Definition idle : Coordinator (TcpLink Cable) :=
  start default_Args (environment no_file 0 (wire 40) []) unplugged.

Lemma registers_deliverable id : in_u64 id →
  deliverable (WorkerProcess.hello_message (mkId id) "w") ∧ deliverable (WorkerProcess.register_message (mkId id) "w").
Proof.
  intros Hid. assert (Hh : deliverable (WorkerProcess.hello_message (mkId id) "w")).
  { split_and!; [|discriminate|vm_compute; discriminate].
    unfold message_wf. cbn. split_and!; eauto with fabric; unfold wf; cbn; zlia. }
  split; [done|by apply hello_register].
Qed.
Lemma two_segments : ascending 0 [250; 700].
Proof. cbn. unfold in_u64. split_and!; zlia. Qed.
Lemma wire_connects id : in_u64 id → connects (wire id) (spawn (mkId id) "w").
Proof.
  intros Hid. refine (cable_plugged 600 (mkId id) "w" _ Hid (proj1 (registers_deliverable id Hid)) _).
  apply Nat.leb_le. vm_compute. reflexivity.
Qed.

Lemma scenario_preempts_and_resumes_witness :
  ∃ c, main any_hash [] (environment no_file 5000 (spawn (mkId 40) "w") (preempt_and_resume [250; 700]))
         nobody saving = (inr 0, c)
    ∧ durable_position_ (rt (co_world c)) = 700.
Proof.
  destruct (scenario_preempts_and_resumes (L := Attached) any_hash no_file 5000 (spawn (mkId 40) "w") nobody
    (mkId 40) "w" [250; 700] saving) as (c & Hrun & _ & Hpos & _).
  - reflexivity.
  - refine (proj2 (registers_deliverable _ _)). unfold in_u64. zlia.
  - exact two_segments.
  - exists c. split; [exact Hrun|exact Hpos].
Defined.

Lemma scenario_over_tcp_witness :
  ∃ c, main any_hash [] (environment no_file 5000 (wire 40) (preempt_and_resume [250; 700])) unplugged idle
         = (inr 0, c)
    ∧ durable_position_ (rt (co_world c)) = 700.
Proof.
  destruct (scenario_over_tcp any_hash no_file 5000 unplugged (mkId 40) "w" [7%nat; 100%nat; 3%nat] 600
    [250; 700] idle) as (c & Hrun & _ & Hpos & _).
  - refine (proj1 (registers_deliverable _ _)). unfold in_u64. zlia.
  - exact two_segments.
  - apply Nat.leb_le. vm_compute. reflexivity.
  - exists c. split; [exact Hrun|exact Hpos].
Defined.

Lemma preemption_survives_restart_witness :
  ∃ d1 image, main any_hash ["--save"%string; "image"%string] (environment no_file 5000 (wire 40)
      (command MessageType.kBeginExecution :: map segment [250; 700] ++ [command MessageType.kRequestPreemption]))
      unplugged idle = (inr 0, d1) ∧ co_saved d1 = [image]
  ∧ ∃ d2, main any_hash ["--recover"%string; "image"%string] (environment (λ _, Some image) 5001 (wire 41)
        [command MessageType.kRequestResume]) unplugged idle = (inr 0, d2)
      ∧ lifecycle_state (rt (co_world d2)) = kResumed ∧ durable_position_ (rt (co_world d2)) = 700.
Proof.
  destruct (preemption_survives_restart any_hash any_hash "image" no_file 5000 5001 (wire 40) (wire 41)
    unplugged unplugged (mkId 40) (mkId 41) "w" "w" [250; 700] idle idle) as (d1 & image & Hrun & Hs & Hrec).
  - discriminate.
  - exact two_segments.
  - apply wire_connects. unfold in_u64. zlia.
  - refine (proj2 (registers_deliverable _ _)). unfold in_u64. zlia.
  - apply wire_connects. unfold in_u64. zlia.
  - refine (proj2 (registers_deliverable _ _)). unfold in_u64. zlia.
  - exists d1, image. split; [exact Hrun|]. split; [exact Hs|].
    destruct (Hrec (λ _, Some image) eq_refl) as (d2 & Hrun2 & Hl & Hp & _).
    exists d2. split; [exact Hrun2|]. split; [exact Hl|exact Hp].
Defined.

Lemma coordinator_sound_witness :
  length (co_saved saving) = 1%nat
  ∧ quiesced_ (rt (co_world saving)) = true ∧ state_durable_ (rt (co_world saving)) = true
  ∧ resources_released_ (rt (co_world saving)) = true.
Proof.
  split; [vm_compute; reflexivity|].
  apply (coordinator_sound (L := Attached) any_hash ["--save"%string; "image"%string]
    (environment no_file 5000 (spawn (mkId 40) "w")
       (one_segment ++ [command MessageType.kRequestPreemption])) nobody).
  vm_compute. reflexivity.
Defined.

(** A coordinator whose file takes [n] bytes, all of them without a limit. *)
Definition disk (room : option nat) : Environment (L := TcpLink Cable) :=
  mkEnvironment no_file (λ _ _, Opened true room) (λ _, Some 5000) (Some (wire 40))
    (Some (one_segment ++ [command MessageType.kRequestPreemption])) [].
Abbreviation saver room :=
  (final (main any_hash ["--save"%string; "image"%string] (disk room) unplugged idle)).

Lemma coordinator_images_recoverable_witness :
  let next bytes := environment (λ _, Some bytes) 5000 (wire 41) [] in
  let args := parse_args ["--recover"%string; "image"%string] default_Args in
  let run bytes := recover args (next bytes) (start args (next bytes) unplugged) in
  (∃ bytes c, co_saved (saver None) = [bytes] ∧ run bytes = (inr tt, c) ∧ co_out c = [PRecover true])
  ∧ (∃ bytes, co_torn (saver (Some 100%nat)) = [bytes] ∧ co_out (run bytes).2 = [PRecover false]).
Proof.
  intros next args run.
  assert (Hcmds : Forall message_wf (one_segment ++ [command MessageType.kRequestPreemption])).
  { apply (scenario_typed [250]). cbn. unfold in_u64. split_and!; zlia. }
  split.
  - destruct (co_saved (saver None)) as [|bytes [|b l]] eqn:E;
      [exfalso; vm_compute in E; discriminate E| |exfalso; vm_compute in E; discriminate E].
    destruct (coordinator_images_recoverable any_hash ["--save"%string; "image"%string] (disk None) unplugged idle
      bytes ["--recover"%string; "image"%string] (next bytes) unplugged) as [Hsaved _];
      [reflexivity|exact Hcmds|discriminate|reflexivity|].
    rewrite E in Hsaved. specialize (Hsaved ltac:(left)).
    destruct Hsaved as (w & c & _ & Hrun & Hout & _).
    exists bytes, c. split; [reflexivity|]. split; [exact Hrun|exact Hout].
  - destruct (co_torn (saver (Some 100%nat))) as [|bytes [|b l]] eqn:E;
      [exfalso; vm_compute in E; discriminate E| |exfalso; vm_compute in E; discriminate E].
    destruct (coordinator_images_recoverable any_hash ["--save"%string; "image"%string] (disk (Some 100%nat))
      unplugged idle bytes ["--recover"%string; "image"%string] (next bytes) unplugged) as [_ Htorn];
      [reflexivity|exact Hcmds|discriminate|reflexivity|].
    rewrite E in Htorn. specialize (Htorn ltac:(left)).
    exists bytes. split; [reflexivity|]. unfold run, args. rewrite Htorn. reflexivity.
Defined.

Lemma session_answers_witness :
  ∃ code rest, WorkerProcess.session 5 (mkId 40) "w"
      (mkScript [register_ack (mkId 40) (mkId 7); segment 250; command MessageType.kShutdown] [])
    = Some (code, mkScript rest (at_replies (deliver_all
        [register_ack (mkId 40) (mkId 7); segment 250; command MessageType.kShutdown] (spawn (mkId 40) "w")))).
Proof. apply session_answers. cbn. lia. Defined.

(** A request of the incarnation with boot id [9], which is not the current one. *)
Definition replayed : Message :=
  (command MessageType.kReplayStale) <| msg_request_generation := mkGeneration 1 |>
    <| msg_attempt_generation := attempt_gen |> <| msg_coordinator_epoch := epoch |>
    <| msg_worker_boot_id := mkId 9 |>.

Lemma replay_stale_refused_witness :
  handle_command replayed saving
  = (inr tt, saving <| co_out := co_out saving ++
       [PStalePreemption RequestAdmissionCode.kRejectedStale; PStaleRelease true] |>).
Proof.
  apply (replay_stale_refused replayed saving).
  - reflexivity.
  - right. right. split; [reflexivity|]. vm_compute. intros E. discriminate E.
  - vm_compute. intros E. discriminate E.
  - vm_compute. intros E. discriminate E.
Defined.

(** A coordinator whose worker has the initial boot id [8001], with another one waiting. *)
Definition colliding : Coordinator Attached :=
  saving <| co_boot := initial_boot (λ _, 7001) "w" |> <| co_accepts := [Some (spawn (mkId 41) "w")] |>.

Lemma boot_id_reused_witness :
  co_boot (final (handle_command (command MessageType.kRegister) colliding)) = co_boot colliding.
Proof.
  apply (boot_id_reused (λ _, 7001) "w" colliding (spawn (mkId 41) "w")
    (WorkerProcess.hello_message (mkId 41) "w") (WorkerProcess.register_message (mkId 41) "w")
    (mkAttached (Registering (mkId 41) "w") []) []).
  - reflexivity.
  - reflexivity.
  - vm_compute. reflexivity.
  - reflexivity.
  - reflexivity.
Defined.

(** A coordinator whose worker re-registered after a segment. *)
Definition re_registered : Coordinator Attached :=
  let env := mkEnvironment no_file (λ _ _, Opened true None) (λ _, Some 5000) (Some (spawn (mkId 40) "w"))
    (Some (one_segment ++ [command MessageType.kRegister])) [Some (spawn (mkId 41) "w")] in
  final (main any_hash [] env nobody (start default_Args env nobody)).
(** Its worker still serves. *)
Definition serving_again : Coordinator Attached :=
  re_registered <| co_worker := mkAttached (Serving (mkWorker 3 (mkId 41) "w" (mkId 8001) epoch)) [] |>.

Lemma segment_not_recorded_witness :
  ∃ c, handle_command (segment 900) serving_again = (inr tt, c)
    ∧ co_out c = co_out serving_again ++ [PSegment 900]
    ∧ durable_position_ (rt (co_world c)) = 250.
Proof.
  destruct (omap.find safe_point (safe_points_ (rt (co_world serving_again)))) as [sp|] eqn:E.
  - destruct (segment_not_recorded 900 (mkWorker 3 (mkId 41) "w" (mkId 8001) epoch) sp serving_again)
      as (c & Hrun & Hout & Hpos).
    + reflexivity.
    + vm_compute. split; split; try discriminate; reflexivity.
    + unfold in_u64. zlia.
    + exact E.
    + vm_compute. discriminate.
    + exists c. split; [exact Hrun|]. split; [exact Hout|]. rewrite Hpos. vm_compute. reflexivity.
  - exfalso. vm_compute in E. discriminate E.
Defined.

End CoordinatorProperties.
